(* ===== verification/_CoqProject ===== *)
-Q . S2P
Prelude.v
Utf8.v
Spec.v
Serde.v
InstanceIdGen.v
Sha256.v
Messages.v
Wire.v
Protobuf.v
SbcpPublisher.v
SbcpSequencer.v
SbcpSystem.v
CoordState.v
Coordinator.v
AtomicCommit.v
CoordInv.v
CoordRefinement.v
CoordProps.v
CoordProgress.v
CoordDeadline.v
CoordSbcp.v
CoordStream.v
CoordSettlement.v
CoordProofs.v
Dispatch.v
NetAddr.v
Framing.v
Transport.v
L1Submit.v
L1Chain.v
HttpServer.v
Config.v
Endpoint.v
Runtime.v
Tasks.v
TasksSim.v
TasksLive.v
Schedules.v
System.v
SystemProps.v
Sidecars.v
Counters.v
Main.v
TestKit.v
TestsPublisher.v
TestsSequencer.v
Tests.v
