(* ===== verification/Prelude.v ===== *)
(** * Verification of the Ethera shared publisher

    The publisher coordinates cross-chain transactions between rollups. Sidecars connect
    over QUIC; the coordinator runs two-phase commit over the chains of each request,
    announces periods, collects the chains' proofs and settles superblocks on L1. Next to
    the running service the repository holds the reference state machines of the superblock
    protocol (SBCP) for the publisher and for the sequencers.

    ** Files and what they model (paths under [src/])

    - [Prelude]: this file. 64-bit integers with the wrapping arithmetic of the release
      build ([+!], [-!]), results with the [?] operator, bytes, big-endian, hexadecimal and
      decimal text, loops over lists and maps; the tactics [u64_unwrap], [u64_lia] and
      [by_compute] and the hint database [u64].
    - [Utf8]: [String::from_utf8] of the standard library, proved to accept exactly the
      encodings of sequences of Unicode scalar values.
    - [Spec]: [crates/spec]. Domain types, the constants, [chains_from_request].
    - [Serde]: how [serde] documents the reading of derived structs, used for those of
      [crates/config] and [crates/server]; the parsers of YAML and JSON yield a [Value], the
      types of other crates are read by the class [Scalars].
    - [InstanceIdGen]: [crates/spec-sbcp/src/id.rs]. The byte string hashed into an
      instance id. SHA-256 is the class [Sha2]; what is assumed of it is
      [InstanceIdsDistinct]: no collision between differently numbered instances of the
      requests ever submitted ([Requests]); [prefix_sha256] shows it satisfiable.
    - [Sha256]: the published SHA-256 as an instance of [Sha2], used to evaluate tests.
    - [Messages]: [crates/spec-proto]. Message structs (module [Proto]) and conversions.
      The codec prost derives is the class [ProstMessage]; its round trip on values that
      exist in Rust is the interface [ProstRoundtrip], and that it reads only such values is
      [ProstTyped].
    - [Wire], [Protobuf]: an instance of [ProstMessage], in the Protocol Buffers format with
      the tags and types of the [prost] attributes of [messages.rs]. It is not the code prost
      generates: it shows that [ProstRoundtrip] and [ProstTyped] can hold, and closed
      examples are evaluated with it.
    - [SbcpPublisher], [SbcpSequencer]: [crates/spec-sbcp/src/publisher.rs],
      [sequencer.rs], [block.rs]. States as records, one function per operation, and the
      step relations [pub_step] and [seq_step] over the critical sections ([pub_step_due] is
      [pub_step] without successful decisions of instances that are not under way).
    - [SbcpSystem]: the two halves together: what one broadcasts, delivered to the other.
    - [CoordState], [Coordinator]: [crates/coordinator/src/coordinator.rs],
      [proof_types.rs] and the counters of [crates/metrics]. The content of the lock with
      its methods, and the handlers with the critical sections they are made of. Instants
      are nanoseconds and arguments; where a hash map is iterated its order is an argument.
      A handler returns the messages it sends and the submissions it spawns.
    - [AtomicCommit]: the abstract specification, on histories of events.
    - [CoordInv], [CoordRefinement]: the invariant of the coordinator's state and the
      simulation. A run is a sequence of critical sections ([section], [exec]); the world
      carries the history, the broadcasts and the submissions in flight.
    - [CoordProps], [CoordProgress], [CoordDeadline], [CoordSettlement], [CoordProofs]: the
      theorems on the coordinator.
    - [CoordSbcp]: the coordinator against the reference publisher of [SbcpPublisher].
    - [CoordStream]: the coordinator's broadcasts as a stream of messages: what they say about
      one chain, and when a sequencer of [SbcpSequencer] accepts them.
    - [Dispatch]: [crates/coordinator/src/handlers.rs], and that dispatching a frame is a
      sequence of critical sections.
    - [Framing], [Transport]: [crates/transport/src/framing.rs], [error.rs], [server.rs].
      Codec, connection registry, connection handler as a step relation, sending.
    - [NetAddr]: the parser of socket addresses of the standard library.
    - [Endpoint]: [server.rs] from [start] to [close], [tls.rs], [socket.rs]: TLS
      configuration, socket, endpoint, accept loop, the whole of [handle_connection],
      shutdown. The crates [rcgen], [rustls], [socket2] and [quinn] are the classes [NetLibs]
      and [EndpointNet]; what [quinn] documents of closed endpoints is [EndpointNetSpec].
    - [L1Submit]: [crates/coordinator/src/l1_submit.rs]. The call to the contract, the
      retry loop, the parent hash. The [alloy] crates are the class [L1Env].
    - [L1Chain]: submissions that interleave, as what [submit] does before and after it waits
      for L1, and the chain of superblocks they form.
    - [HttpServer]: [crates/server]. Routes, handlers, timeouts, posted bodies.
    - [Config]: [crates/config]. Command line and file, defaults, environment,
      normalisation, validation.
    - [Runtime]: [bin/publisher/src/main.rs]. Wiring, callbacks, timer ticks.
    - [Tasks], [TasksSim], [TasksLive], [Schedules]: the same handlers as concurrent tasks.
      A [task] is a point at which a handler waits, for the lock or for the transport;
      [step] is what it does up to the next such points (in between, shared data is touched
      only under the lock), [conc_step] lets one task go on or something arrive. [TasksSim] relates every interleaving to a run of critical sections,
      [TasksLive] shows that the tasks end and lose no wakeup, [Schedules] that a task nobody
      interrupts is the sequential handler, and what a sidecar sees of two schedules.
    - [System], [SystemProps], [Sidecars]: the concurrent tasks with the connections of the
      server. A task that hands out a message looks up the registry and then writes one
      frame per connection, each at its own time and with its own outcome, while connections
      are identified, served, replaced and lost ([sys_event], [sys_perform]). [SystemProps]
      has the invariant and the run of critical sections behind a system; [Sidecars] says
      what is read at the other end of the connections.
    - [Counters]: what gauge, statistics and Prometheus counters say while all this runs.
    - [Main]: [main] itself as a sequence of steps that may fail, with [crates/tracing], the
      registration of the metrics and [crates/server/src/state.rs].
    - [TestKit], [TestsPublisher], [TestsSequencer], [Tests]: the unit tests of the
      repository with their fakes, as computations on the model, proved to pass.

    ** What the theorems show

    - The service as a whole (C1 to C5): the coordinator refines the specification of atomic
      commitment in every run of its critical sections; the concurrent tasks only ever
      perform such runs, whatever the interleaving; the counters are true; each run is one of
      the reference publisher, instance for instance; and its broadcasts, in the order of
      the sections, are well ordered for every chain.
    - Atomic commitment, end to end (C6, C7, C10, C14): whatever connects, arrives,
      interleaves and fails to be written, sidecars never decode different decisions of an
      instance, and a commit means that the yes votes of all its chains have arrived; a
      connection that stays registered is sent everything meant for it, once; and without
      arrivals tasks and writes come to rest after a bounded number of steps, with no
      startable request left in the queue.
    - The coordinator (C8, C9, C11 to C13, C16 to C18): chains are locked by one instance at a
      time; unanimous votes commit, an abort has a no vote or a deadline behind it, the reaper
      concludes exactly what is due, and every instance is concluded once its deadline has
      been looked at; the drain loop is one first-fit pass over the queue; sizes and counters
      are bounded.
    - Settlement (C15): a superblock is submitted with the proofs of exactly the registered
      chains, and when that can fail.
    - Interfaces (C19): admission agrees with the reference publisher.
    - SBCP (C20 to C27): invariants of both state machines under interleaving and where they
      end, when the prover is called, when a superblock is settled, that the two halves stay
      in step and that the proofs of one are acceptable to the other.
    - Data and edges (C28 to C39): injectivity of the hashed byte string, determinism and
      retries of the L1 submission and the chain of superblocks, registry, connections and
      shutdown of the QUIC server, frames, HTTP requests and their bodies, the configuration
      and its file.
    - Deviations (C21, C40): behaviours of the code that its comments or the other half
      of the protocol contradict, each as a theorem; further ones are the theorems
      [consistent_mailboxes_rejected], [instance_id_empty_tx_collision],
      [overtaking_schedule_breaks_order], [start_overtakes_period],
      [reregistration_drops_successor], [publish_after_rollback],
      [foreign_chain_completes_set], [rollback_reuses_instance],
      [two_period_changes_skip_settlement], [quic_proofs_keep_map_order],
      [rollback_orphans_instance], [abandoned_chain_completes_set],
      [late_submission_regresses], [rollback_then_first_instance_refused],
      [one_sidecar_commits] and [overlapping_submissions_fork].

    ** Bounds

    Numbers are [u64] and wrap; theorems on runs of the coordinator hold for runs of fewer
    than [u64_max] critical sections, within which no counter wraps. [drain_loop] has fuel:
    [drain_queue] gives it one more than the queue's length, and more changes nothing (C16). The tasks of [TasksLive] and the writes of [Sidecars]
    need no fuel: [load] and [work] bound the steps they can take. [retry_loop] is given the
    three attempts of the source.
    [parse_fuel] is given the length of the buffer: each field takes at least one byte.
    Varints have no length limit when they are written, as lists have none; on buffers
    that fit in memory this is the ten-byte limit of the format.

    ** Not modelled

    The libraries themselves: the code prost and serde generate, TLS, QUIC, sockets, the log
    subscriber, Prometheus encoding, HTTP layers, the parsers of JSON, YAML, durations and the
    command line (so the two unit tests of the parser [clap] derives are left out), and the
    shutdown signal, whose arrival is the end of the HTTP server. [Debug] output is left out,
    and the accessors of newtypes are the fields themselves. Delivery by QUIC is
    not modelled beyond the frames written to each connection: [Sidecars] reads frames whole
    or not at all, and [CoordStream] and [Schedules] say what follows when broadcasts
    arrive in order or out of order. A task of [Tasks]
    counts a message in the step that hands it over, where the source counts it just before;
    ticks of one timer may overlap there, which allows more interleavings than the program
    has. The uptime entry of the statistics is left out. *)
From Stdlib Require Import ZArith Lia.
From Stdlib Require Export Init.Byte Strings.Ascii Strings.String.
From stdpp Require Export base gmap strings list fin_maps numbers pretty.

Open Scope Z_scope.

(** * Machine integers *)

Declare Scope u64_scope.
Delimit Scope u64_scope with u64.

Definition u64_modulus : Z := 2 ^ 64.
Definition u32_modulus : Z := 2 ^ 32.
Definition u64_max : Z := u64_modulus - 1.

(** The values a [u64] (or a [usize] of a 64-bit target) can take. *)
Definition u64_ok (n : Z) : Prop := 0 <= n < u64_modulus.

#[export] Instance u64_ok_dec n : Decision (u64_ok n).
Proof. unfold u64_ok. apply _. Defined.

(** [+] and [-] on [u64] as the release profile compiles them: they wrap. *)
Definition u64_add (a b : Z) : Z := (a + b) mod u64_modulus.
Definition u64_sub (a b : Z) : Z := (a - b) mod u64_modulus.

Notation "a +! b" := (u64_add a b) (at level 50, left associativity) : u64_scope.
Notation "a -! b" := (u64_sub a b) (at level 50, left associativity) : u64_scope.
Open Scope u64_scope.

Arguments u64_add a b : simpl never.
Arguments u64_sub a b : simpl never.

(** [n as u32]. *)
Definition as_u32 (n : Z) : Z := n mod u32_modulus.

Create HintDb u64 discriminated.

Lemma u64_modulus_pos : 0 < u64_modulus.
Proof. reflexivity. Qed.

Lemma u64_add_ok a b : u64_ok (a +! b).
Proof. apply Z.mod_pos_bound, u64_modulus_pos. Qed.

Lemma u64_sub_ok a b : u64_ok (a -! b).
Proof. apply Z.mod_pos_bound, u64_modulus_pos. Qed.

Lemma u64_add_exact a b : 0 <= a + b < u64_modulus -> a +! b = a + b.
Proof. apply Z.mod_small. Qed.

Lemma u64_sub_exact a b : 0 <= a - b < u64_modulus -> a -! b = a - b.
Proof. apply Z.mod_small. Qed.

Lemma u64_add_sub a b : u64_ok a -> (a +! b) -! b = a.
Proof.
  intros Ha. unfold u64_add, u64_sub.
  rewrite Zminus_mod_idemp_l. replace (a + b - b) with a by lia.
  by apply Z.mod_small.
Qed.

Lemma u64_sub_add a b : u64_ok a -> (a -! b) +! b = a.
Proof.
  intros Ha. unfold u64_add, u64_sub.
  rewrite Zplus_mod_idemp_l. replace (a - b + b) with a by lia.
  by apply Z.mod_small.
Qed.

Lemma u64_succ_ne a : u64_ok a -> a +! 1 <> a.
Proof.
  intros Ha. unfold u64_add, u64_ok, u64_modulus in *.
  destruct (decide (a + 1 < 2 ^ 64)).
  - rewrite Z.mod_small; lia.
  - replace (a + 1) with (2 ^ 64) by lia. rewrite Z.mod_same; lia.
Qed.

#[export] Hint Resolve u64_add_ok u64_sub_ok : u64.

(** Turns the wrapping operations into exact ones wherever [lia] can bound them. *)
Ltac u64_unwrap :=
  unfold u64_ok in *;
  repeat match goal with
  | H : context [u64_add ?a ?b] |- _ =>
      rewrite (u64_add_exact a b) in H by (unfold u64_modulus in *; lia)
  | |- context [u64_add ?a ?b] =>
      rewrite (u64_add_exact a b) by (unfold u64_modulus in *; lia)
  | H : context [u64_sub ?a ?b] |- _ =>
      rewrite (u64_sub_exact a b) in H by (unfold u64_modulus in *; lia)
  | |- context [u64_sub ?a ?b] =>
      rewrite (u64_sub_exact a b) by (unfold u64_modulus in *; lia)
  end.

Ltac u64_lia := u64_unwrap; unfold u64_ok, u64_max, u64_modulus in *; lia.

(** Proves a closed decidable proposition by evaluating its decision procedure. *)
Ltac by_compute := apply (bool_decide_unpack _); vm_compute; exact I.

(** * Results *)

(** Rust's [Result<A, E>]. *)
Inductive result (A E : Type) : Type :=
| Ok (a : A)
| Err (e : E).
Arguments Ok {A E} a.
Arguments Err {A E} e.

Definition result_bind {A B E} (r : result A E) (k : A -> result B E) : result B E :=
  match r with Ok a => k a | Err e => Err e end.

Declare Scope result_scope.
Delimit Scope result_scope with result.

(** The [?] operator. *)
Notation "'let?' x := r 'in' k" := (result_bind r (fun x => k))
  (at level 10, x name, r at level 100, k at level 200) : result_scope.

Definition is_ok {A E} (r : result A E) : bool :=
  match r with Ok _ => true | Err _ => false end.

Lemma result_bind_Ok {A B E} (r : result A E) (k : A -> result B E) b :
  result_bind r k = Ok b <-> exists a, r = Ok a /\ k a = Ok b.
Proof.
  destruct r as [a|e]; cbn; split; [eauto|by intros (? & [= <-] & ?)|done|by intros (? & ? & ?)].
Qed.

(** * Bytes *)

Abbreviation bytes := (list byte).

#[export] Instance byte_eq_dec : EqDecision byte := Byte.byte_eq_dec.

#[export] Program Instance byte_countable : Countable byte :=
  inj_countable Byte.to_N Byte.of_N _.
Next Obligation. intros b. apply Byte.of_to_N. Qed.

Definition byte_to_Z (b : byte) : Z := Z.of_N (Byte.to_N b).

(** [z as u8]. *)
Definition byte_of_Z (z : Z) : byte :=
  match Byte.of_N (Z.to_N (z mod 256)) with Some b => b | None => x00 end.

Lemma byte_to_Z_bound b : 0 <= byte_to_Z b < 256.
Proof.
  unfold byte_to_Z. pose proof (Byte.to_N_bounded b). lia.
Qed.

Lemma byte_to_of_Z z : byte_to_Z (byte_of_Z z) = z mod 256.
Proof.
  unfold byte_to_Z, byte_of_Z.
  assert (0 <= z mod 256 < 256) by (apply Z.mod_pos_bound; lia).
  destruct (Byte.of_N (Z.to_N (z mod 256))) as [b|] eqn:E.
  - apply Byte.to_of_N in E. rewrite E. lia.
  - apply Byte.of_N_None_iff in E. lia.
Qed.

Lemma byte_of_to_Z b : byte_of_Z (byte_to_Z b) = b.
Proof. by destruct b. Qed.

#[export] Instance byte_to_Z_inj : Inj (=) (=) byte_to_Z.
Proof. intros b1 b2 H. by rewrite <- (byte_of_to_Z b1), H, byte_of_to_Z. Qed.

(** ** Big-endian integers *)

(** [z.to_be_bytes()] for an integer of [n] bytes: the most significant byte first. *)
Fixpoint be_bytes (n : nat) (z : Z) : bytes :=
  match n with
  | O => []
  | S k => byte_of_Z (z / 2 ^ (8 * Z.of_nat k)) :: be_bytes k z
  end.

(** [from_be_bytes]. *)
Fixpoint be_value (l : bytes) : Z :=
  match l with
  | [] => 0
  | b :: l' => byte_to_Z b * 2 ^ (8 * Z.of_nat (length l')) + be_value l'
  end.

Definition u64_be_bytes (z : Z) : bytes := be_bytes 8 z.

Arguments u64_be_bytes z : simpl never.

Lemma length_be_bytes n z : length (be_bytes n z) = n.
Proof. induction n; simpl; congruence. Qed.

Lemma be_value_bytes n z : be_value (be_bytes n z) = z mod 2 ^ (8 * Z.of_nat n).
Proof.
  induction n as [|n IH].
  - by rewrite Z.mod_1_r.
  - cbn [be_bytes be_value].
    rewrite IH, length_be_bytes, byte_to_of_Z.
    replace (2 ^ (8 * Z.of_nat (S n))) with (2 ^ (8 * Z.of_nat n) * 256)
      by (rewrite Nat2Z.inj_succ, Z.mul_succ_r, Z.pow_add_r by lia; done).
    rewrite Z.rem_mul_r by (apply Z.pow_nonzero || lia; lia). lia.
Qed.

Lemma be_value_bound l : 0 <= be_value l < 2 ^ (8 * Z.of_nat (length l)).
Proof.
  induction l as [|b l IH]; [simpl; lia|].
  cbn [be_value length]. pose proof (byte_to_Z_bound b).
  rewrite Nat2Z.inj_succ, Z.mul_succ_r, Z.pow_add_r by lia. nia.
Qed.

Lemma be_bytes_inj n a b :
  0 <= a < 2 ^ (8 * Z.of_nat n) -> 0 <= b < 2 ^ (8 * Z.of_nat n) ->
  be_bytes n a = be_bytes n b -> a = b.
Proof.
  intros Ha Hb H%(f_equal be_value).
  by rewrite !be_value_bytes, !Z.mod_small in H.
Qed.

Lemma u64_be_bytes_inj a b :
  u64_ok a -> u64_ok b -> u64_be_bytes a = u64_be_bytes b -> a = b.
Proof. apply (be_bytes_inj 8). Qed.

Lemma length_u64_be_bytes z : length (u64_be_bytes z) = 8%nat.
Proof. apply length_be_bytes. Qed.

(** Splitting off a big-endian [u64] in front of a byte string. *)
Lemma u64_be_bytes_app_inj a b l1 l2 :
  u64_ok a -> u64_ok b ->
  u64_be_bytes a ++ l1 = u64_be_bytes b ++ l2 -> a = b /\ l1 = l2.
Proof.
  intros Ha Hb H.
  apply app_inj_1 in H as [H1 H2]; [|by rewrite !length_u64_be_bytes].
  eauto using u64_be_bytes_inj.
Qed.

(** ** Hexadecimal *)

Definition hex_digit (n : Z) : ascii :=
  Ascii.ascii_of_N (Z.to_N (if n <? 10 then 48 + n else 87 + n)).

(** The format [{:02x}] of a byte. *)
Definition fmt_02x (b : byte) : string :=
  String (hex_digit (byte_to_Z b / 16)) (String (hex_digit (byte_to_Z b mod 16)) "").

Fixpoint hex_string (l : bytes) : string :=
  match l with
  | [] => ""
  | b :: l' => fmt_02x b +:+ hex_string l'
  end.

Definition unhex_digit (a : ascii) : Z :=
  let n := Z.of_N (Ascii.N_of_ascii a) in if n <? 58 then n - 48 else n - 87.

Fixpoint unhex (s : string) : bytes :=
  match s with
  | String h (String l s') => byte_of_Z (16 * unhex_digit h + unhex_digit l) :: unhex s'
  | _ => []
  end.

Lemma unhex_fmt_app b s : unhex (fmt_02x b +:+ s) = b :: unhex s.
Proof. by destruct b. Qed.

Lemma unhex_hex_string l : unhex (hex_string l) = l.
Proof. induction l as [|b l IH]; [done|]. cbn. by rewrite unhex_fmt_app, IH. Qed.

#[export] Instance hex_string_inj : Inj (=) (=) hex_string.
Proof. intros l1 l2 H. by rewrite <- (unhex_hex_string l1), H, unhex_hex_string. Qed.

(** ** Decimal *)

Definition is_ascii_digit (c : ascii) : bool :=
  let n := Ascii.N_of_ascii c in (48 <=? n)%N && (n <=? 57)%N.

Definition digit_value (c : ascii) : Z := Z.of_N (Ascii.N_of_ascii c) - 48.

(** The accumulation loop of [u64::from_str]: fails on a character that is no digit
    and as soon as the value leaves the range of [u64]. *)
Fixpoint parse_digits (s : string) (acc : Z) : option Z :=
  match s with
  | EmptyString => Some acc
  | String c s' =>
      if is_ascii_digit c then
        let acc' := acc * 10 + digit_value c in
        if acc' <? u64_modulus then parse_digits s' acc' else None
      else None
  end.

(** [s.parse::<u64>()]: an optional [+] and at least one digit. *)
Definition parse_u64 (s : string) : option Z :=
  match s with
  | EmptyString => None
  | String c s' =>
      if decide (c = "+"%char) then
        match s' with EmptyString => None | _ => parse_digits s' 0 end
      else parse_digits s 0
  end.

(** [Display] of a [u64]. *)
Definition u64_to_string (n : Z) : string := pretty (Z.to_N n).

Lemma pretty_N_char_digit (n : N) :
  (n < 10)%N ->
  is_ascii_digit (pretty_N_char n) = true /\ digit_value (pretty_N_char n) = Z.of_N n.
Proof.
  intros Hn.
  rewrite <- (N2Nat.id n) in *. generalize dependent (N.to_nat n). intros m Hm.
  do 10 (destruct m as [|m]; [by vm_compute|]). lia.
Qed.

Lemma parse_digits_pretty_go (x : N) s :
  Z.of_N x < u64_modulus ->
  parse_digits (pretty_N_go x s) 0 = parse_digits s (Z.of_N x).
Proof.
  revert s. induction (N.lt_wf_0 x) as [x _ IH]. intros s Hx.
  destruct (decide (0 < x)%N) as [Hpos|Hz].
  - rewrite pretty_N_go_step by done.
    assert (x `div` 10 < x)%N by (apply N.div_lt; lia).
    rewrite IH by lia. cbn [parse_digits].
    assert (x `mod` 10 < 10)%N by (apply N.mod_lt; lia).
    destruct (pretty_N_char_digit (x `mod` 10)) as [-> ->]; [done|].
    replace (Z.of_N (x `div` 10) * 10 + Z.of_N (x `mod` 10)) with (Z.of_N x)
      by (pose proof (N.div_mod x 10); lia).
    by rewrite (proj2 (Z.ltb_lt _ _) Hx).
  - assert (x = 0%N) as -> by lia. by rewrite pretty_N_go_0.
Qed.

Fixpoint all_digits (s : string) : bool :=
  match s with
  | EmptyString => true
  | String c s' => is_ascii_digit c && all_digits s'
  end.

Lemma all_digits_pretty_go (x : N) s :
  all_digits s = true -> all_digits (pretty_N_go x s) = true.
Proof.
  revert s. induction (N.lt_wf_0 x) as [x _ IH]. intros s Hs.
  destruct (decide (0 < x)%N) as [Hpos|Hz].
  - rewrite pretty_N_go_step by done.
    apply IH; [apply N.div_lt; lia|]. cbn.
    destruct (pretty_N_char_digit (x `mod` 10)) as [-> _]; [apply N.mod_lt; lia|done].
  - assert (x = 0%N) as -> by lia. by rewrite pretty_N_go_0.
Qed.

Lemma all_digits_u64_to_string n : all_digits (u64_to_string n) = true.
Proof.
  unfold u64_to_string, pretty, pretty_N. case_decide; [done|].
  by apply all_digits_pretty_go.
Qed.

Lemma parse_digits_u64_to_string n :
  u64_ok n -> parse_digits (u64_to_string n) 0 = Some n.
Proof.
  intros [Hn0 Hn]. unfold u64_to_string, pretty, pretty_N.
  case_decide as Hz; [cbn; f_equal; unfold digit_value; cbn; lia|].
  rewrite parse_digits_pretty_go by lia. cbn. f_equal. lia.
Qed.

Lemma u64_to_string_nonempty n : u64_ok n -> exists c s, u64_to_string n = String c s.
Proof.
  intros Hn. destruct (u64_to_string n) eqn:E; [|eauto].
  pose proof (parse_digits_u64_to_string n Hn) as Hp. rewrite E in Hp.
  cbn in Hp. by simplify_eq.
Qed.

Lemma parse_digits_app s1 s2 acc :
  parse_digits (s1 +:+ s2) acc = parse_digits s1 acc ≫= parse_digits s2.
Proof.
  revert acc. induction s1 as [|c s1 IH]; intros acc; [done|].
  change (String c s1 +:+ s2) with (String c (s1 +:+ s2)). cbn [parse_digits].
  destruct (is_ascii_digit c); [|done].
  destruct (acc * 10 + digit_value c <? u64_modulus); [apply IH|done].
Qed.

Lemma digit_value_bound c : is_ascii_digit c = true -> 0 <= digit_value c <= 9.
Proof.
  unfold is_ascii_digit, digit_value. intros [H1 H2]%andb_true_iff.
  apply N.leb_le in H1, H2. lia.
Qed.

(** Whatever [parse_digits] accepts stays in the range of [u64]. *)
Lemma parse_digits_ok s acc n :
  u64_ok acc -> parse_digits s acc = Some n -> u64_ok n.
Proof.
  revert acc. induction s as [|c s IH]; intros acc Hacc; cbn [parse_digits].
  - by intros [= <-].
  - destruct (is_ascii_digit c) eqn:Hd; [|done].
    destruct (Z.ltb_spec (acc * 10 + digit_value c) u64_modulus); [|done].
    apply IH. apply digit_value_bound in Hd. unfold u64_ok in *. lia.
Qed.

(** * Lists *)

(** First occurrences of a list, in order: the reference for the loops that collect
    unseen elements with a [HashSet]. *)
Fixpoint first_occurrences (l : list Z) : list Z :=
  match l with
  | [] => []
  | x :: l' => x :: filter (.≠ x) (first_occurrences l')
  end.

Lemma elem_of_first_occurrences l x : x ∈ first_occurrences l <-> x ∈ l.
Proof.
  induction l as [|y l IH]; [done|]. cbn.
  rewrite !elem_of_cons, list_elem_of_filter, IH.
  destruct (decide (x = y)); naive_solver.
Qed.

Lemma NoDup_first_occurrences l : NoDup (first_occurrences l).
Proof.
  induction l as [|y l IH]; cbn; constructor.
  - rewrite list_elem_of_filter. naive_solver.
  - by apply NoDup_filter.
Qed.

Lemma length_first_occurrences l : (length (first_occurrences l) <= length l)%nat.
Proof.
  induction l as [|x l IH]; cbn; [lia|]. pose proof (length_filter (.≠ x) (first_occurrences l)). lia.
Qed.

(** The loop itself: [seen] is the [HashSet], [chains] the vector that is returned. *)
Fixpoint dedup_loop (seen : gset Z) (chains l : list Z) : list Z :=
  match l with
  | [] => chains
  | c :: l' =>
      if decide (c ∈ seen) then dedup_loop seen chains l'
      else dedup_loop ({[c]} ∪ seen) (chains ++ [c]) l'
  end.

Lemma dedup_loop_spec seen chains l :
  dedup_loop seen chains l = chains ++ filter (.∉ seen) (first_occurrences l).
Proof.
  revert seen chains. induction l as [|c l IH]; intros seen chains;
    cbn [dedup_loop first_occurrences].
  - by rewrite app_nil_r.
  - rewrite filter_cons. destruct (decide (c ∈ seen)) as [Hc|Hc].
    + rewrite decide_False by tauto. rewrite IH. f_equal.
      rewrite list_filter_filter. apply list_filter_iff. intros x.
      split; [|tauto]. intros Hx; split; [done|]. by intros ->.
    + rewrite decide_True by done. rewrite IH, <- app_assoc. cbn [app]. do 2 f_equal.
      rewrite list_filter_filter. apply list_filter_iff. set_solver.
Qed.

Lemma dedup_loop_first_occurrences l : dedup_loop ∅ [] l = first_occurrences l.
Proof.
  rewrite dedup_loop_spec. cbn [app].
  induction (first_occurrences l) as [|x k IH]; [done|].
  rewrite filter_cons_True by set_solver. by rewrite IH.
Qed.

(** * Maps updated in a loop over a list of keys *)

Section map_loops.
Context {V : Type}.
Implicit Types (m : gmap Z V) (l : list Z).

Lemma lookup_foldl_insert m l v c :
  foldl (fun m c => <[c := v]> m) m l !! c = if decide (c ∈ l) then Some v else m !! c.
Proof.
  revert m. induction l as [|x l IH]; intros m; cbn [foldl]; [done|].
  rewrite IH. destruct (decide (c ∈ l)).
  - by rewrite decide_True by set_solver.
  - destruct (decide (c = x)) as [->|].
    + rewrite decide_True by set_solver. apply lookup_insert_eq.
    + rewrite decide_False by set_solver. by apply lookup_insert_ne.
Qed.

Lemma lookup_foldl_delete m l c :
  foldl (fun m c => delete c m) m l !! c = if decide (c ∈ l) then None else m !! c.
Proof.
  revert m. induction l as [|x l IH]; intros m; cbn [foldl]; [done|].
  rewrite IH. destruct (decide (c ∈ l)).
  - by rewrite decide_True by set_solver.
  - destruct (decide (c = x)) as [->|].
    + rewrite decide_True by set_solver. apply lookup_delete_eq.
    + rewrite decide_False by set_solver. by apply lookup_delete_ne.
Qed.

(** Deletes the keys of [l] that still hold [v]. *)
Lemma lookup_foldl_delete_if `{EqDecision V} m l v c :
  foldl (fun m c => if decide (m !! c = Some v) then delete c m else m) m l !! c =
    if decide (c ∈ l /\ m !! c = Some v) then None else m !! c.
Proof.
  revert m. induction l as [|x l IH]; intros m; cbn [foldl].
  { rewrite decide_False; [done|set_solver]. }
  rewrite IH. destruct (decide (m !! x = Some v)) as [Hx|Hx].
  - destruct (decide (c = x)) as [->|Hne].
    + rewrite lookup_delete_eq, decide_False by naive_solver.
      rewrite decide_True; [done|]. split; [set_solver|done].
    + rewrite lookup_delete_ne by done.
      apply decide_ext. rewrite elem_of_cons. naive_solver.
  - apply decide_ext. rewrite elem_of_cons. naive_solver.
Qed.

End map_loops.

Lemma list_filter_fmap {A B} (f : A -> B) (P : B -> Prop) `{!forall x, Decision (P x)} (l : list A) :
  filter P (f <$> l) = f <$> filter (fun x => P (f x)) l.
Proof.
  induction l as [|x l IH]; [done|]. rewrite fmap_cons, !filter_cons.
  case_decide; by rewrite IH, ?fmap_cons.
Qed.

Lemma NoDup_bind_cons_inv {A B} (f : A -> list B) x l :
  NoDup ((x :: l) ≫= f) <-> NoDup (f x) /\ (forall b, b ∈ f x -> b ∉ l ≫= f) /\ NoDup (l ≫= f).
Proof. cbn. by rewrite NoDup_app. Qed.
