(* ===== verification/Utf8.v ===== *)
(** * UTF-8

    [String::from_utf8] of the standard library, as the server applies it to client names
    and [prost] to string fields: [utf8] is the table of well-formed byte sequences of the
    Unicode standard, proved to accept exactly the encodings of scalar values. *)
From Stdlib Require Import ZArith Lia.
From S2P Require Import Prelude.

(** [pending] are the ranges of the continuation bytes still expected. *)
Fixpoint utf8 (pending : list (Z * Z)) (l : bytes) : bool :=
  match l, pending with
  | [], [] => true
  | [], _ :: _ => false
  | b :: l', (lo, hi) :: p => (lo <=? byte_to_Z b) && (byte_to_Z b <=? hi) && utf8 p l'
  | b :: l', [] =>
      let v := byte_to_Z b in
      let cont := (0x80, 0xBF) in
      if v <? 0x80 then utf8 [] l'
      else if v <? 0xC2 then false
      else if v <? 0xE0 then utf8 [cont] l'
      else if v =? 0xE0 then utf8 [(0xA0, 0xBF); cont] l'
      else if v =? 0xED then utf8 [(0x80, 0x9F); cont] l'
      else if v <? 0xF0 then utf8 [cont; cont] l'
      else if v =? 0xF0 then utf8 [(0x90, 0xBF); cont; cont] l'
      else if v <? 0xF4 then utf8 [cont; cont; cont] l'
      else if v =? 0xF4 then utf8 [(0x80, 0x8F); cont; cont] l'
      else false
  end.

Definition from_utf8 (b : bytes) : option string :=
  if utf8 [] b then Some (String.string_of_list_byte b) else None.

(** The strings that exist in Rust. *)
Definition utf8_ok (s : string) : bool := utf8 [] (String.list_byte_of_string s).

Lemma from_utf8_of_string s : utf8_ok s = true -> from_utf8 (String.list_byte_of_string s) = Some s.
Proof.
  intros Hs. unfold from_utf8. unfold utf8_ok in Hs. rewrite Hs.
  by rewrite String.string_of_list_byte_of_string.
Qed.

Lemma from_utf8_ok b s :
  from_utf8 b = Some s -> utf8_ok s = true /\ String.list_byte_of_string s = b.
Proof.
  unfold from_utf8, utf8_ok. destruct (utf8 [] b) eqn:Hb; [|done]. intros [= <-].
  by rewrite String.list_byte_of_string_of_list_byte.
Qed.

(** ** Scalar values *)

(** A Unicode scalar value: a code point that is not a surrogate. *)
Definition scalar (c : Z) : Prop := 0 <= c < 0xD800 \/ 0xE000 <= c < 0x110000.

(** The encoding of one scalar value. *)
Definition utf8_encode (c : Z) : bytes :=
  if c <? 0x80 then [byte_of_Z c]
  else if c <? 0x800 then [byte_of_Z (0xC0 + c / 64); byte_of_Z (0x80 + c mod 64)]
  else if c <? 0x10000 then
    [byte_of_Z (0xE0 + c / 4096); byte_of_Z (0x80 + c / 64 mod 64); byte_of_Z (0x80 + c mod 64)]
  else
    [byte_of_Z (0xF0 + c / 262144); byte_of_Z (0x80 + c / 4096 mod 64);
     byte_of_Z (0x80 + c / 64 mod 64); byte_of_Z (0x80 + c mod 64)].

Definition utf8_encode_all (cs : list Z) : bytes := cs ≫= utf8_encode.

(** Decides the comparisons of [utf8] on bytes whose values are known. *)
Ltac decide_bytes :=
  repeat match goal with
  | |- context [?a <? ?b] => destruct (Z.ltb_spec a b); try lia
  | |- context [?a <=? ?b] => destruct (Z.leb_spec a b); try lia
  | |- context [?a =? ?b] => destruct (Z.eqb_spec a b); try lia
  end.

Lemma byte_value z : 0 <= z < 256 -> byte_to_Z (byte_of_Z z) = z.
Proof. intros Hz. rewrite byte_to_of_Z. by apply Z.mod_small. Qed.

Lemma utf8_encode_accepted c l : scalar c -> utf8 [] (utf8_encode c ++ l) = utf8 [] l.
Proof.
  unfold scalar, utf8_encode. intros Hc.
  destruct (Z.ltb_spec c 0x80); [|destruct (Z.ltb_spec c 0x800); [|destruct (Z.ltb_spec c 0x10000)]];
    cbn [app utf8]; rewrite ?byte_value by (Z.div_mod_to_equations; lia);
    Z.div_mod_to_equations; decide_bytes; done.
Qed.

Lemma utf8_pending lo hi p l :
  utf8 ((lo, hi) :: p) l = true ->
  exists b l', l = b :: l' /\ lo <= byte_to_Z b <= hi /\ utf8 p l' = true.
Proof.
  destruct l as [|b l']; cbn; [done|]. intros [[Hlo Hhi]%andb_prop Hp]%andb_prop.
  exists b, l'. split; [done|]. split; [lia|done].
Qed.

Lemma byte_of_value z b : z = byte_to_Z b -> byte_of_Z z = b.
Proof. intros ->. apply byte_of_to_Z. Qed.

Lemma utf8_encode_1 b : byte_to_Z b < 0x80 -> utf8_encode (byte_to_Z b) = [b].
Proof. intros Hb. unfold utf8_encode. rewrite (proj2 (Z.ltb_lt _ _)) by done. by rewrite byte_of_to_Z. Qed.

Lemma utf8_encode_2 b b1 :
  0xC2 <= byte_to_Z b < 0xE0 -> 0x80 <= byte_to_Z b1 <= 0xBF ->
  utf8_encode (64 * (byte_to_Z b - 0xC0) + (byte_to_Z b1 - 0x80)) = [b; b1].
Proof.
  intros Hb Hb1. unfold utf8_encode. decide_bytes.
  repeat f_equal; apply byte_of_value; Z.div_mod_to_equations; lia.
Qed.

Lemma utf8_encode_3 b b1 b2 :
  0xE0 <= byte_to_Z b < 0xF0 -> 0x80 <= byte_to_Z b1 <= 0xBF -> 0x80 <= byte_to_Z b2 <= 0xBF ->
  0x800 <= 4096 * (byte_to_Z b - 0xE0) + 64 * (byte_to_Z b1 - 0x80) ->
  utf8_encode (4096 * (byte_to_Z b - 0xE0) + 64 * (byte_to_Z b1 - 0x80) + (byte_to_Z b2 - 0x80))
    = [b; b1; b2].
Proof.
  intros Hb Hb1 Hb2 Hmin. unfold utf8_encode. decide_bytes.
  repeat f_equal; apply byte_of_value; Z.div_mod_to_equations; lia.
Qed.

Lemma utf8_encode_4 b b1 b2 b3 :
  0xF0 <= byte_to_Z b < 0xF8 -> 0x80 <= byte_to_Z b1 <= 0xBF -> 0x80 <= byte_to_Z b2 <= 0xBF ->
  0x80 <= byte_to_Z b3 <= 0xBF ->
  0x10000 <= 262144 * (byte_to_Z b - 0xF0) + 4096 * (byte_to_Z b1 - 0x80) ->
  utf8_encode (262144 * (byte_to_Z b - 0xF0) + 4096 * (byte_to_Z b1 - 0x80) +
               64 * (byte_to_Z b2 - 0x80) + (byte_to_Z b3 - 0x80)) = [b; b1; b2; b3].
Proof.
  intros Hb Hb1 Hb2 Hb3 Hmin. unfold utf8_encode. decide_bytes.
  repeat f_equal; apply byte_of_value; Z.div_mod_to_equations; lia.
Qed.

(** The first character of a well-formed sequence. *)
Lemma utf8_first b l :
  utf8 [] (b :: l) = true ->
  exists c rest, scalar c /\ b :: l = utf8_encode c ++ rest /\ utf8 [] rest = true.
Proof.
  cbn [utf8].
  repeat match goal with
  | |- context [?a <? ?x] => destruct (Z.ltb_spec a x); try lia
  | |- context [?a =? ?x] => destruct (Z.eqb_spec a x); try lia
  end; intros Hu; try done;
  repeat match type of Hu with
  | utf8 (_ :: _) _ = true =>
      let b' := fresh "b" in let Hb' := fresh "Hb" in
      apply utf8_pending in Hu as (b' & ? & -> & Hb' & Hu)
  end; pose proof (byte_to_Z_bound b); unfold scalar.
  all: try (exists (byte_to_Z b), l; rewrite utf8_encode_1 by done; split; [lia|done]).
  all: first
    [exists (262144 * (byte_to_Z b - 0xF0) + 4096 * (byte_to_Z b0 - 0x80) +
       64 * (byte_to_Z b1 - 0x80) + (byte_to_Z b2 - 0x80)); eexists;
     rewrite utf8_encode_4 by lia; split; [lia|done]
    |exists (4096 * (byte_to_Z b - 0xE0) + 64 * (byte_to_Z b0 - 0x80) + (byte_to_Z b1 - 0x80)); eexists;
     rewrite utf8_encode_3 by lia; split; [lia|done]
    |exists (64 * (byte_to_Z b - 0xC0) + (byte_to_Z b0 - 0x80)); eexists;
     rewrite utf8_encode_2 by lia; split; [lia|done]].
Qed.

(** [from_utf8] accepts exactly the encodings of sequences of scalar values: no overlong
    form, no surrogate, nothing beyond the last code point, nothing cut off. *)
Theorem from_utf8_scalars b :
  is_Some (from_utf8 b) <-> exists cs, Forall scalar cs /\ b = utf8_encode_all cs.
Proof.
  unfold from_utf8. split.
  - destruct (utf8 [] b) eqn:Hb; [intros _|by intros []].
    remember (length b) as n eqn:Hn. revert b Hb Hn. induction (lt_wf n) as [n _ IH].
    intros [|b l] Hb ->; [by exists []|].
    destruct (utf8_first b l Hb) as (c & rest & Hc & E & Hrest).
    destruct (IH (length rest)) with rest as (cs & Hcs & ->); [|done|done|].
    + rewrite E, length_app. unfold utf8_encode. repeat case_match; cbn; lia.
    + exists (c :: cs). split; [by constructor|]. by rewrite E.
  - intros (cs & Hcs & ->).
    assert (utf8 [] (utf8_encode_all cs) = true) as ->; [|done].
    induction Hcs as [|c cs Hc _ IH]; [done|]. unfold utf8_encode_all. cbn.
    by rewrite utf8_encode_accepted.
Qed.
