(* ===== verification/Spec.v ===== *)
(** * Domain types of the protocol ([crates/spec])

    The numeric newtypes ([ChainId], [PeriodId], [SequenceNumber], [SuperblockNumber], ...)
    are [Z] with the wrapping arithmetic of [Prelude]; the byte-array newtypes
    ([InstanceId], [SuperblockHash], ...) are byte lists with their length as a
    well-formedness condition. *)
From Stdlib Require Import ZArith Lia.
From S2P Require Import Prelude.

(** ** Primitives *)

Abbreviation ChainId := Z (only parsing).
Abbreviation PeriodId := Z (only parsing).
Abbreviation SequenceNumber := Z (only parsing).
Abbreviation SuperblockNumber := Z (only parsing).
Abbreviation InstanceId := bytes (only parsing).
Abbreviation SuperblockHash := bytes (only parsing).
Abbreviation BlockHash := bytes (only parsing).
Abbreviation StateRoot := bytes (only parsing).

(** [[u8; 32]]: the arrays behind the hash-like newtypes. *)
Definition array32_ok (b : bytes) : Prop := length b = 32%nat.

(** [Display for InstanceId]: two lowercase hexadecimal digits per byte. *)
Definition InstanceId_to_string (id : InstanceId) : string := hex_string id.

(** [Display for EthAddress]. *)
Definition EthAddress_to_string (addr : bytes) : string := "0x" +:+ hex_string addr.

(** Seconds of a superblock period. *)
Definition PERIOD_DURATION : Z := 10 * 32 * 12.

(** Periods in which a proof may be submitted. *)
Definition PROOF_WINDOW : Z := 24 * 7.

(** ** Instances *)

Inductive DecisionState := Pending | Accepted | Rejected.

#[export] Instance DecisionState_eq_dec : EqDecision DecisionState.
Proof. solve_decision. Defined.

Definition DecisionState_default : DecisionState := Pending.

Definition DecisionState_to_string (d : DecisionState) : string :=
  match d with
  | Pending => "Pending"
  | Accepted => "Accepted"
  | Rejected => "Rejected"
  end.

Record TransactionRequest := mk_TransactionRequest {
  tr_chain_id : ChainId;
  tr_transactions : list bytes;
}.

Record XtRequest := mk_XtRequest {
  xt_transactions : list TransactionRequest;
}.

Definition XtRequest_default : XtRequest := mk_XtRequest [].

Record Instance_ := mk_Instance {
  inst_id : InstanceId;
  inst_period_id : PeriodId;
  inst_sequence_number : SequenceNumber;
  inst_xt_request : XtRequest;
}.

#[export] Instance TransactionRequest_eq_dec : EqDecision TransactionRequest.
Proof. solve_decision. Defined.
#[export] Instance XtRequest_eq_dec : EqDecision XtRequest.
Proof. solve_decision. Defined.
#[export] Instance Instance_eq_dec : EqDecision Instance_.
Proof. solve_decision. Defined.

(** [chains_from_request]: the loop over the requests with its [HashSet]. *)
Fixpoint chains_from_request_loop
    (seen : gset Z) (chains : list ChainId) (l : list TransactionRequest) : list ChainId :=
  match l with
  | [] => chains
  | r :: l' =>
      if decide (tr_chain_id r ∈ seen) then chains_from_request_loop seen chains l'
      else chains_from_request_loop ({[tr_chain_id r]} ∪ seen) (chains ++ [tr_chain_id r]) l'
  end.

Definition chains_from_request (xt_request : XtRequest) : list ChainId :=
  chains_from_request_loop ∅ [] (xt_transactions xt_request).

Definition Instance_chains (i : Instance_) : list ChainId :=
  chains_from_request (inst_xt_request i).

(** [clone_byte_slices]: values are not shared, so a copy is the value. *)
Definition clone_byte_slices (src : list bytes) : list bytes := src.

(** Well-formedness: every number is a [u64], every length fits one. *)
Definition TransactionRequest_ok (r : TransactionRequest) : Prop :=
  u64_ok (tr_chain_id r) /\ u64_ok (Z.of_nat (length (tr_transactions r))) /\
  Forall (fun d => u64_ok (Z.of_nat (length d))) (tr_transactions r).

Definition XtRequest_ok (r : XtRequest) : Prop :=
  Forall TransactionRequest_ok (xt_transactions r).

#[export] Instance TransactionRequest_ok_dec r : Decision (TransactionRequest_ok r).
Proof. unfold TransactionRequest_ok. apply _. Defined.
#[export] Instance XtRequest_ok_dec r : Decision (XtRequest_ok r).
Proof. unfold XtRequest_ok. apply _. Defined.
#[export] Instance array32_ok_dec b : Decision (array32_ok b).
Proof. unfold array32_ok. apply _. Defined.

(** ** Lemmas *)

#[export] Instance InstanceId_to_string_inj : Inj (=) (=) InstanceId_to_string.
Proof. apply hex_string_inj. Qed.

Lemma chains_from_request_loop_dedup seen chains l :
  chains_from_request_loop seen chains l = dedup_loop seen chains (tr_chain_id <$> l).
Proof.
  revert seen chains. induction l as [|r l IH]; intros seen chains; [done|].
  cbn. case_decide; apply IH.
Qed.

(** The vector returned is the list of first occurrences of the chain ids. *)
Lemma chains_from_request_first_occurrences r :
  chains_from_request r = first_occurrences (tr_chain_id <$> xt_transactions r).
Proof.
  unfold chains_from_request.
  by rewrite chains_from_request_loop_dedup, dedup_loop_first_occurrences.
Qed.

Lemma NoDup_chains_from_request r : NoDup (chains_from_request r).
Proof.
  rewrite chains_from_request_first_occurrences. apply NoDup_first_occurrences.
Qed.

Lemma elem_of_chains_from_request r c :
  c ∈ chains_from_request r <-> exists t, t ∈ xt_transactions r /\ tr_chain_id t = c.
Proof.
  rewrite chains_from_request_first_occurrences, elem_of_first_occurrences,
    list_elem_of_fmap. naive_solver.
Qed.
