(* ===== verification/Serde.v ===== *)
(** * Deserialized structs ([derive(Deserialize)] in [crates/config], [crates/server])

    The parsers of YAML and JSON and the types of other crates are not part of the sources:
    a parsed text is a [Value], and the class [Scalars] says how a format reads the types
    the structs are made of. A struct is read from its entries in the order of the text, as
    [serde] documents it: an unknown key is skipped, a known key that occurs again is an
    error, and so is a value its field cannot be read from. *)
From Stdlib Require Import ZArith Lia.
From S2P Require Import Prelude.

#[warnings="-register-all"]
Inductive Value :=
| VNull
| VBool (b : bool)
| VInt (n : Z)
| VFloat (text : string)
| VStr (s : string)
| VSeq (l : list Value)
| VMap (l : list (string * Value)).

(** [null_struct]: whether the format reads an empty value as a struct without entries. *)
Class Scalars := {
  de_string : Value -> result string string;
  de_bool : Value -> result bool string;
  de_u64 : Value -> result Z string;
  de_duration : Value -> result Z string;
  de_fixed_bytes : nat -> Value -> result bytes string;
  de_byte_vec : Value -> result (option bytes) string;
  null_struct : bool;
}.

(** A field: its key, and whether a value can be read as its type. *)
Abbreviation field := (string * (Value -> result unit string))%type (only parsing).

Definition readable {A} (de : Value -> result A string) (v : Value) : result unit string :=
  (let? _ := de v in Ok ())%result.

Fixpoint field_reader (fields : list field) (k : string) : option (Value -> result unit string) :=
  match fields with
  | [] => None
  | (name, rd) :: fields' => if decide (k = name) then Some rd else field_reader fields' k
  end.

(** The derived [visit_map]: [seen] are the fields read so far. *)
Fixpoint visit_map (fields : list field) (seen : gmap string Value) (l : list (string * Value))
    : result (gmap string Value) string :=
  match l with
  | [] => Ok seen
  | (k, v) :: l' =>
      match field_reader fields k with
      | None => visit_map fields seen l'
      | Some rd =>
          if decide (is_Some (seen !! k)) then Err ("duplicate field " +:+ k)
          else (let? _ := rd v in visit_map fields (<[k := v]> seen) l')%result
      end
  end.

(** The derived [visit_seq]: the fields by position. *)
Fixpoint visit_seq (fields : list field) (l : list Value) : result (gmap string Value) string :=
  match l, fields with
  | [], _ => Ok ∅
  | _ :: _, [] => Err "invalid length"
  | v :: l', (name, rd) :: fields' =>
      (let? _ := rd v in let? m := visit_seq fields' l' in Ok (<[name := v]> m))%result
  end.

Definition de_struct `{Scalars} (fields : list field) (v : Value) : result (gmap string Value) string :=
  match v with
  | VMap l => visit_map fields ∅ l
  | VSeq l => visit_seq fields l
  | VNull => if null_struct then Ok ∅ else Err "invalid type"
  | _ => Err "invalid type"
  end.

(** A field that has a default, and one that has none. *)
Definition field_or {A} (de : Value -> result A string) (k : string) (d : A) (m : gmap string Value)
    : result A string :=
  match m !! k with Some v => de v | None => Ok d end.

Definition field_of {A} (de : Value -> result A string) (k : string) (m : gmap string Value)
    : result A string :=
  match m !! k with Some v => de v | None => Err ("missing field " +:+ k) end.

(** ** What a map is read as *)

Definition known (fields : list field) (kv : string * Value) : Prop :=
  is_Some (field_reader fields kv.1).

#[export] Instance known_dec fields kv : Decision (known fields kv).
Proof. unfold known. apply _. Defined.

(** No known key occurs twice. *)
Definition known_once (fields : list field) (l : list (string * Value)) : Prop :=
  NoDup (filter (known fields) l).*1.

(** The entries of the text as a map. *)
Definition entries (l : list (string * Value)) : gmap string Value := list_to_map l.

Lemma visit_map_spec fields seen l m :
  visit_map fields seen l = Ok m <->
  known_once fields l /\
  (forall k v, (k, v) ∈ filter (known fields) l ->
     seen !! k = None /\ exists rd, field_reader fields k = Some rd /\ rd v = Ok ()) /\
  m = list_to_map (filter (known fields) l) ∪ seen.
Proof.
  unfold known_once. revert seen. induction l as [|[k v] l IH]; intros seen; cbn [visit_map].
  { rewrite filter_nil. cbn. rewrite (left_id_L ∅ (∪)). split.
    - intros [= ->]. split_and!; [constructor|set_solver|done].
    - by intros (_ & _ & ->). }
  destruct (field_reader fields k) as [rd|] eqn:Hk.
  - rewrite filter_cons_True by (unfold known; cbn; by rewrite Hk).
    destruct (decide (is_Some (seen !! k))) as [[v' Hs]|Hs%eq_None_not_Some].
    { split; [done|]. intros (_ & Hf & _). destruct (Hf k v) as [? _]; [set_solver|]. congruence. }
    rewrite result_bind_Ok, fmap_cons, NoDup_cons. cbn [fst list_to_map foldr]. split.
    + intros ([] & Hrd & (Hnd & Hf & ->)%IH).
      assert (k ∉ (filter (known fields) l).*1) as Hnin.
      { intros ([k' v'] & -> & Hin)%list_elem_of_fmap. apply Hf in Hin as [Hn _].
        by rewrite lookup_insert_eq in Hn. }
      split_and!; [done..| |].
      * intros k' v' [[= -> ->]|Hin]%elem_of_cons; [by eauto|]. destruct (Hf k' v' Hin) as [Hn ?].
        split; [|done]. apply lookup_insert_None in Hn. tauto.
      * cbn. rewrite <- insert_union_r; [by rewrite insert_union_l|]. by apply not_elem_of_list_to_map_1.
    + intros ([Hnin Hnd] & Hf & ->). destruct (Hf k v) as (_ & rd' & Hrd' & Hv); [set_solver|].
      exists (). split; [congruence|]. apply IH. split_and!; [done| |].
      * intros k' v' Hin. destruct (Hf k' v') as [Hn ?]; [set_solver|]. split; [|done].
        rewrite lookup_insert_ne; [done|]. intros <-. apply Hnin. apply list_elem_of_fmap. by exists (k, v').
      * cbn. rewrite <- insert_union_r; [by rewrite insert_union_l|]. by apply not_elem_of_list_to_map_1.
  - rewrite filter_cons_False by (unfold known; cbn; rewrite Hk; by intros []). apply IH.
Qed.

Lemma lookup_known fields l k :
  is_Some (field_reader fields k) ->
  (list_to_map (filter (known fields) l) : gmap string Value) !! k = entries l !! k.
Proof.
  intros Hk. unfold entries. induction l as [|[k' v] l IH]; [done|]. rewrite filter_cons.
  destruct (decide (k' = k)) as [->|Hne].
  - rewrite decide_True by done. cbn. by rewrite !lookup_insert_eq.
  - case_decide; cbn; rewrite ?lookup_insert_ne by done; [apply IH|apply IH].
Qed.

Lemma elem_of_known_once fields l k v :
  known_once fields l -> is_Some (field_reader fields k) ->
  (k, v) ∈ filter (known fields) l <-> entries l !! k = Some v.
Proof.
  intros Hnd Hk. rewrite <- (lookup_known fields l k Hk). by apply elem_of_list_to_map.
Qed.

(** A map is read as a struct exactly when no known key is repeated and every known entry
    can be read; the order of the entries and the unknown keys do not matter. *)
Lemma visit_map_ok fields l m :
  visit_map fields ∅ l = Ok m <->
  known_once fields l /\
  (forall k rd v, field_reader fields k = Some rd -> entries l !! k = Some v -> rd v = Ok ()) /\
  m = list_to_map (filter (known fields) l).
Proof.
  rewrite visit_map_spec, (right_id_L ∅ (∪)). split; intros (Hnd & Hf & ->); split_and!; try done.
  - intros k rd v Hrd Hv.
    destruct (Hf k v) as (_ & rd' & Hrd' & ?); [by apply elem_of_known_once|]. congruence.
  - intros k v Hin. split; [done|]. assert (is_Some (field_reader fields k)) as [rd Hrd].
    { apply list_elem_of_filter in Hin as [? _]. done. }
    exists rd. split; [done|]. eapply Hf; [done|]. by apply (elem_of_known_once fields).
Qed.

Lemma readable_Ok {A} (de : Value -> result A string) v : readable de v = Ok () <-> exists a, de v = Ok a.
Proof. unfold readable. rewrite result_bind_Ok. naive_solver. Qed.

(** Field by field: a key with a default, and a key that must be there. *)
Definition reads_or {A} (de : Value -> result A string) (l : list (string * Value)) (k : string)
    (d x : A) : Prop :=
  match entries l !! k with Some v => de v = Ok x | None => x = d end.

Definition reads {A} (de : Value -> result A string) (l : list (string * Value)) (k : string) (x : A)
    : Prop :=
  exists v, entries l !! k = Some v /\ de v = Ok x.

Lemma field_or_reads {A} (de : Value -> result A string) fields l k d x :
  is_Some (field_reader fields k) ->
  field_or de k d (list_to_map (filter (known fields) l)) = Ok x <-> reads_or de l k d x.
Proof.
  intros Hk. unfold field_or, reads_or. rewrite lookup_known by done.
  destruct (entries l !! k); [done|]. naive_solver.
Qed.

Lemma field_of_reads {A} (de : Value -> result A string) fields l k x :
  is_Some (field_reader fields k) ->
  field_of de k (list_to_map (filter (known fields) l)) = Ok x <-> reads de l k x.
Proof.
  intros Hk. unfold field_of, reads. rewrite lookup_known by done.
  destruct (entries l !! k); naive_solver.
Qed.

Lemma reads_or_readable {A} (de : Value -> result A string) l k d x v :
  reads_or de l k d x -> entries l !! k = Some v -> readable de v = Ok ().
Proof. unfold reads_or. intros Hx Hv. rewrite Hv in Hx. apply readable_Ok. eauto. Qed.

Lemma reads_readable {A} (de : Value -> result A string) l k x v :
  reads de l k x -> entries l !! k = Some v -> readable de v = Ok ().
Proof. intros (v' & Hv' & Hx) Hv. simplify_eq. apply readable_Ok. eauto. Qed.

(** ** What a sequence is read as *)

(** Field by field again: an element that may be left out, and one that must be there. *)
Definition reads_at_or {A} (de : Value -> result A string) (l : list Value) (i : nat) (d x : A) : Prop :=
  match l !! i with Some v => de v = Ok x | None => x = d end.

Definition reads_at {A} (de : Value -> result A string) (l : list Value) (i : nat) (x : A) : Prop :=
  exists v, l !! i = Some v /\ de v = Ok x.

(** The elements under the names of their positions. *)
Definition positions (fields : list field) (l : list Value) : gmap string Value :=
  list_to_map (zip fields.*1 l).

Lemma visit_seq_ok fields l m :
  visit_seq fields l = Ok m <->
  (length l <= length fields)%nat /\
  (forall i name rd v, fields !! i = Some (name, rd) -> l !! i = Some v -> rd v = Ok ()) /\
  m = positions fields l.
Proof.
  unfold positions. revert l m. induction fields as [|[name rd] fields IH]; intros [|v l] m; cbn.
  - split; [by intros [= <-]|by intros (_ & _ & ->)].
  - split; [done|]. intros (? & _). lia.
  - split; [intros [= <-]; split_and!; [lia|done|done]|by intros (_ & _ & ->)].
  - rewrite result_bind_Ok. split.
    + intros ([] & Hrd & Hm). apply result_bind_Ok in Hm as (m' & (Hle & Hf & ->)%IH & [= <-]).
      split_and!; [lia| |done]. intros [|i] n rd' v'; cbn; [naive_solver|apply Hf].
    + intros (Hle & Hf & ->). exists (). split; [by apply (Hf 0%nat name rd v)|].
      apply result_bind_Ok. eexists. split; [apply IH|done]. split_and!; [lia| |done].
      intros i. apply (Hf (S i)).
Qed.

Lemma lookup_positions fields l i k :
  NoDup fields.*1 -> fields.*1 !! i = Some k -> positions fields l !! k = l !! i.
Proof.
  unfold positions. revert fields i. induction l as [|v l IH]; intros fields i Hnd Hi.
  { rewrite zip_with_nil_r. cbn. by rewrite lookup_empty. }
  destruct fields as [|[name rd] fields]; [done|]. cbn in *. apply NoDup_cons in Hnd as [Hn Hnd].
  destruct i as [|i]; cbn in *; [injection Hi as ->; by rewrite lookup_insert_eq|].
  rewrite lookup_insert_ne; [by apply IH|]. intros ->. apply Hn. by eapply list_elem_of_lookup_2.
Qed.

Lemma field_or_reads_at {A} (de : Value -> result A string) fields l i k d x :
  NoDup fields.*1 -> fields.*1 !! i = Some k ->
  field_or de k d (positions fields l) = Ok x <-> reads_at_or de l i d x.
Proof.
  intros Hnd Hi. unfold field_or, reads_at_or. rewrite (lookup_positions fields l i k) by done.
  destruct (l !! i); [done|]. naive_solver.
Qed.

Lemma field_of_reads_at {A} (de : Value -> result A string) fields l i k x :
  NoDup fields.*1 -> fields.*1 !! i = Some k ->
  field_of de k (positions fields l) = Ok x <-> reads_at de l i x.
Proof.
  intros Hnd Hi. unfold field_of, reads_at. rewrite (lookup_positions fields l i k) by done.
  destruct (l !! i); naive_solver.
Qed.

Lemma reads_at_or_readable {A} (de : Value -> result A string) l i d x v :
  reads_at_or de l i d x -> l !! i = Some v -> readable de v = Ok ().
Proof. unfold reads_at_or. intros Hx Hv. rewrite Hv in Hx. apply readable_Ok. eauto. Qed.

Lemma reads_at_readable {A} (de : Value -> result A string) l i x v :
  reads_at de l i x -> l !! i = Some v -> readable de v = Ok ().
Proof. intros (v' & Hv' & Hx) Hv. simplify_eq. apply readable_Ok. eauto. Qed.

(** Splits what a derived implementation has read into its fields. *)
Ltac split_fields H :=
  repeat match type of H with
  | result_bind (field_or _ _ _ _) _ = Ok _ =>
      let Hf := fresh "Hf" in
      apply result_bind_Ok in H as (? & Hf & H); apply field_or_reads in Hf; [|done]
  | result_bind (field_of _ _ _) _ = Ok _ =>
      let Hf := fresh "Hf" in
      apply result_bind_Ok in H as (? & Hf & H); apply field_of_reads in Hf; [|done]
  end; injection H as <-.

(** Puts the fields together again. *)
Ltac join_fields :=
  repeat match goal with
  | Hf : reads_or ?de ?l ?k ?d ?x |- result_bind (field_or ?de ?k ?d _) _ = Ok _ =>
      apply result_bind_Ok; exists x; split; [by apply field_or_reads|]
  | Hf : reads ?de ?l ?k ?x |- result_bind (field_of ?de ?k _) _ = Ok _ =>
      apply result_bind_Ok; exists x; split; [by apply field_of_reads|]
  end.

(** Every known entry can be read when its field is. *)
Ltac known_readable fields :=
  let Hk := fresh in
  let table := eval red in fields in
  intros ? ? ? Hk ?; change fields with table in Hk; cbn [field_reader] in Hk;
  repeat (case_decide; [subst; injection Hk as <-;
    first [eapply reads_or_readable; [|eassumption]; eassumption
          |eapply reads_readable; [|eassumption]; eassumption]|]);
  done.

(** A struct is read field by field: the goal relates its derived implementation on a map
    to [known_once] and the readings of its fields; [x] is the struct read. *)
Ltac by_fields fields x :=
  rewrite result_bind_Ok; split;
  [let m := fresh "m" in let Hr := fresh "Hr" in
   intros (m & (? & _ & ->)%visit_map_ok & Hr); split_fields Hr; done
  |intros ?; destruct_and?; eexists;
   split; [apply visit_map_ok; split_and!; [done| |done]; known_readable fields|];
   join_fields; by destruct x].

(** The same on a sequence; [nd] says that the names of the fields are distinct. *)
Ltac split_positions nd i H :=
  lazymatch type of H with
  | result_bind (field_or _ _ _ _) _ = Ok _ =>
      let Hf := fresh "Hf" in
      apply result_bind_Ok in H as (? & Hf & H); apply (field_or_reads_at _ _ _ i _ _ _ nd) in Hf;
      [split_positions nd (S i) H|reflexivity]
  | result_bind (field_of _ _ _) _ = Ok _ =>
      let Hf := fresh "Hf" in
      apply result_bind_Ok in H as (? & Hf & H); apply (field_of_reads_at _ _ _ i _ _ nd) in Hf;
      [split_positions nd (S i) H|reflexivity]
  | _ => injection H as <-
  end.

Ltac join_positions nd :=
  repeat match goal with
  | Hf : reads_at_or ?de ?l ?i ?d ?x |- result_bind (field_or ?de ?k ?d _) _ = Ok _ =>
      apply result_bind_Ok; exists x; split; [by apply (field_or_reads_at _ _ _ i _ _ _ nd)|]; clear Hf
  | Hf : reads_at ?de ?l ?i ?x |- result_bind (field_of ?de ?k _) _ = Ok _ =>
      apply result_bind_Ok; exists x; split; [by apply (field_of_reads_at _ _ _ i _ _ nd)|]; clear Hf
  end.

Ltac position_readable :=
  let i := fresh "i" in let E := fresh "E" in let Hv := fresh "Hv" in
  intros i ? ? ? E Hv;
  repeat (destruct i as [|i]; [injection E as <- <-;
    first [eapply reads_at_or_readable; [|exact Hv]; eassumption
          |eapply reads_at_readable; [|exact Hv]; eassumption]|]);
  done.

Ltac by_positions nd x :=
  rewrite result_bind_Ok; split;
  [let m := fresh "m" in let Hr := fresh "Hr" in
   intros (m & (? & _ & ->)%visit_seq_ok & Hr); split_positions nd 0%nat Hr; done
  |intros ?; destruct_and?; eexists;
   split; [apply visit_seq_ok; split_and!; [done| |done]; position_readable|];
   join_positions nd; by destruct x].

(** ** A format *)

(** Values of the obvious type only; durations by [parse_duration], byte arrays as
    hexadecimal strings. For closed instances. *)
Definition plain_scalars (parse_duration : string -> option Z) : Scalars := {|
  de_string v := match v with VStr s => Ok s | _ => Err "invalid type"%string end;
  de_bool v := match v with VBool b => Ok b | _ => Err "invalid type"%string end;
  de_u64 v := match v with
              | VInt n => if decide (0 <= n <= u64_max) then Ok n else Err "invalid value"%string
              | _ => Err "invalid type"%string
              end;
  de_duration v := match v with
                   | VStr s => match parse_duration s with
                               | Some d => Ok d
                               | None => Err "invalid value"%string
                               end
                   | _ => Err "invalid type"%string
                   end;
  de_fixed_bytes n v := match v with
                        | VStr s => if decide (String.length s = 2 * n)%nat then Ok (unhex s)
                                    else Err "invalid length"%string
                        | _ => Err "invalid type"%string
                        end;
  de_byte_vec v := match v with
                   | VNull => Ok None
                   | VStr s => Ok (Some (unhex s))
                   | _ => Err "invalid type"%string
                   end;
  null_struct := true;
|}.
