(* ===== verification/InstanceIdGen.v ===== *)
(** * Instance identifiers ([crates/spec-sbcp/src/id.rs])

    [generate_instance_id] feeds a hasher field by field. The hasher of the [sha2] crate
    is a parameter ([Sha2]); [instance_preimage] is the byte string it has absorbed when
    [finalize] is called. The theorems say when that byte string determines the request. *)
From Stdlib Require Import ZArith Lia.
From S2P Require Import Prelude Spec.

(** ** The hash function of the [sha2] crate *)

Class Sha2 := sha256 : bytes -> bytes.

(** Digests are 32 bytes long. *)
Class Sha2Digest `{Sha2} : Prop :=
  sha256_length : forall data, array32_ok (sha256 data).

(** ** The preimage *)

(** One pass of the inner loop over [req.transactions]: empty payloads add nothing. *)
Definition update_data (data : bytes) : bytes :=
  match data with
  | [] => []
  | _ => u64_be_bytes (Z.of_nat (length data)) ++ data
  end.

(** One pass of the outer loop over [xt_request.transactions]. *)
Definition update_request (req : TransactionRequest) : bytes :=
  u64_be_bytes (tr_chain_id req) ++
  u64_be_bytes (Z.of_nat (length (tr_transactions req))) ++
  concat (update_data <$> tr_transactions req).

Definition instance_preimage
    (period_id : PeriodId) (seq : SequenceNumber) (xt_request : XtRequest) : bytes :=
  u64_be_bytes period_id ++ u64_be_bytes seq ++
  concat (update_request <$> xt_transactions xt_request).

Definition generate_instance_id `{Sha2}
    (period_id : PeriodId) (seq : SequenceNumber) (xt_request : XtRequest) : InstanceId :=
  sha256 (instance_preimage period_id seq xt_request).

(** The requests that are ever submitted to the system. *)
Class Requests := submitted : XtRequest -> Prop.

(** Among the submitted requests no two instances numbered differently share a digest: what
    the deployment relies on SHA-256 for. *)
Class InstanceIdsDistinct `{Sha2, Requests} : Prop :=
  instance_ids_distinct : forall p s r p' s' r',
    submitted r -> submitted r' -> u64_ok p -> u64_ok s -> u64_ok p' -> u64_ok s' ->
    generate_instance_id p s r = generate_instance_id p' s' r' -> p = p' /\ s = s'.

(** ** Requests without empty payloads *)

Definition no_empty_tx (r : XtRequest) : Prop :=
  Forall (fun t => Forall (fun d : bytes => d <> []) (tr_transactions t)) (xt_transactions r).

#[export] Instance no_empty_tx_dec r : Decision (no_empty_tx r).
Proof. unfold no_empty_tx. apply _. Defined.

Lemma update_data_nonempty d :
  d <> [] -> update_data d = u64_be_bytes (Z.of_nat (length d)) ++ d.
Proof. by destruct d. Qed.

Lemma update_data_app_inj d1 d2 l1 l2 :
  u64_ok (Z.of_nat (length d1)) -> u64_ok (Z.of_nat (length d2)) -> d1 <> [] -> d2 <> [] ->
  update_data d1 ++ l1 = update_data d2 ++ l2 -> d1 = d2 /\ l1 = l2.
Proof.
  intros Hl1 Hl2 Hn1 Hn2. rewrite !update_data_nonempty, <- !app_assoc by done.
  intros [Hlen H]%u64_be_bytes_app_inj; [|done..].
  apply app_inj_1 in H; [done|lia].
Qed.

Lemma update_datas_app_inj ds1 ds2 l1 l2 :
  length ds1 = length ds2 ->
  Forall (fun d => u64_ok (Z.of_nat (length d))) ds1 -> Forall (fun d : bytes => d <> []) ds1 ->
  Forall (fun d => u64_ok (Z.of_nat (length d))) ds2 -> Forall (fun d : bytes => d <> []) ds2 ->
  concat (update_data <$> ds1) ++ l1 = concat (update_data <$> ds2) ++ l2 ->
  ds1 = ds2 /\ l1 = l2.
Proof.
  revert ds2. induction ds1 as [|d1 ds1 IH]; intros [|d2 ds2] Hlen; try done.
  rewrite !Forall_cons. intros [Ho1 Hos1] [Hn1 Hns1] [Ho2 Hos2] [Hn2 Hns2].
  rewrite !fmap_cons, !concat_cons, <- !app_assoc.
  intros [-> H]%update_data_app_inj; [|done..].
  apply IH in H as [-> ->]; [done|cbn in Hlen; lia|done..].
Qed.

Lemma update_request_app_inj r1 r2 l1 l2 :
  TransactionRequest_ok r1 -> TransactionRequest_ok r2 ->
  Forall (fun d : bytes => d <> []) (tr_transactions r1) ->
  Forall (fun d : bytes => d <> []) (tr_transactions r2) ->
  update_request r1 ++ l1 = update_request r2 ++ l2 -> r1 = r2 /\ l1 = l2.
Proof.
  destruct r1 as [c1 t1], r2 as [c2 t2]. intros (Hc1 & Hl1 & Hd1) (Hc2 & Hl2 & Hd2) Hn1 Hn2.
  unfold update_request. cbn [tr_chain_id tr_transactions] in *. rewrite <- !app_assoc.
  intros [-> H]%u64_be_bytes_app_inj; [|done..].
  apply u64_be_bytes_app_inj in H as [Hlen H]; [|done..].
  apply update_datas_app_inj in H as [-> ->]; [done|lia|done..].
Qed.

Lemma update_request_not_nil r : update_request r <> [].
Proof.
  intros H%(f_equal length). unfold update_request in H.
  rewrite !length_app, !length_u64_be_bytes in H. cbn in H. lia.
Qed.

Lemma update_requests_inj rs1 rs2 :
  Forall TransactionRequest_ok rs1 -> Forall TransactionRequest_ok rs2 ->
  Forall (fun t => Forall (fun d : bytes => d <> []) (tr_transactions t)) rs1 ->
  Forall (fun t => Forall (fun d : bytes => d <> []) (tr_transactions t)) rs2 ->
  concat (update_request <$> rs1) = concat (update_request <$> rs2) -> rs1 = rs2.
Proof.
  revert rs2. induction rs1 as [|r1 rs1 IH]; intros [|r2 rs2]; rewrite ?fmap_cons, ?concat_cons.
  - done.
  - intros _ _ _ _ H. symmetry in H. apply app_eq_nil in H as [H _].
    by apply update_request_not_nil in H.
  - intros _ _ _ _ H. apply app_eq_nil in H as [H _].
    by apply update_request_not_nil in H.
  - rewrite !Forall_cons. intros [Ho1 Hos1] [Ho2 Hos2] [Hn1 Hns1] [Hn2 Hns2].
    intros [-> H]%update_request_app_inj; [|done..]. f_equal. by apply IH.
Qed.

Lemma instance_preimage_prefix p s r p' s' r' :
  u64_ok p -> u64_ok s -> u64_ok p' -> u64_ok s' ->
  instance_preimage p s r = instance_preimage p' s' r' ->
  p = p' /\ s = s' /\
  concat (update_request <$> xt_transactions r) = concat (update_request <$> xt_transactions r').
Proof.
  intros Hp Hs Hp' Hs'. unfold instance_preimage.
  intros [-> H]%u64_be_bytes_app_inj; [|done..].
  by apply u64_be_bytes_app_inj in H as [-> H].
Qed.

(** C28. The preimage of an instance id is injective on requests whose transactions are
    all non-empty: two instances with the same preimage have the same period, the same
    sequence number and the same request (chain ids, transaction counts, transaction
    bytes and their order). *)
Theorem instance_preimage_injective p s r p' s' r' :
  u64_ok p -> u64_ok s -> u64_ok p' -> u64_ok s' ->
  XtRequest_ok r -> XtRequest_ok r' -> no_empty_tx r -> no_empty_tx r' ->
  instance_preimage p s r = instance_preimage p' s' r' ->
  p = p' /\ s = s' /\ r = r'.
Proof.
  intros Hp Hs Hp' Hs' Hr Hr' Hn Hn' (-> & -> & H)%instance_preimage_prefix; [|done..].
  apply update_requests_inj in H; [|done..].
  destruct r, r'; cbn in *; by subst.
Qed.

Lemma instance_preimage_injective_witness :
  let r := mk_XtRequest [mk_TransactionRequest 1 [[x01; x02]]; mk_TransactionRequest 2 [[x03]]] in
  XtRequest_ok r /\ no_empty_tx r /\
  (instance_preimage 10 1 r = instance_preimage 10 1 r -> 10 = 10 /\ 1 = 1 /\ r = r).
Proof.
  intros r. split; [by_compute|]. split; [by_compute|].
  apply (instance_preimage_injective 10 1 r 10 1 r); by_compute.
Defined.

(** ** Requests with empty payloads *)

(** An empty payload is counted but not delimited, so the preimage does not fix where
    it stands, and a following request's header can be read as a payload: for every
    hash function these two requests, of the chain sets {1, 8, 9} and {1, 9}, get the same
    instance id in every period and at every sequence number. *)
Theorem instance_id_empty_tx_collision `{Sha2} p s :
  let r1 := mk_XtRequest [mk_TransactionRequest 1 [[]]; mk_TransactionRequest 8 [];
                          mk_TransactionRequest 9 []] in
  let r2 := mk_XtRequest [mk_TransactionRequest 1 [replicate 8 x00];
                          mk_TransactionRequest 9 []] in
  chains_from_request r1 = [1; 8; 9] /\ chains_from_request r2 = [1; 9] /\
  generate_instance_id p s r1 = generate_instance_id p s r2.
Proof. by split_and!. Qed.

(** A digest that keeps the [(period, sequence)] prefix: shows that the hypotheses on the
    hash function can hold together. *)
Definition prefix_sha256 : Sha2 := fun data => take 32 (data ++ replicate 32 x00).

Lemma prefix_sha256_digest : @Sha2Digest prefix_sha256.
Proof.
  intros data. unfold array32_ok, sha256, prefix_sha256.
  rewrite length_take, length_app, length_replicate. lia.
Qed.

(** Any request may be submitted. *)
Definition all_requests : Requests := fun _ => True.

Lemma prefix_sha256_ids reqs : @InstanceIdsDistinct prefix_sha256 reqs.
Proof.
  intros p s r p' s' r' _ _ Hp Hs Hp' Hs' H.
  assert (forall p s r, exists t, generate_instance_id (H := prefix_sha256) p s r
            = u64_be_bytes p ++ u64_be_bytes s ++ t) as Ht.
  { intros p0 s0 r0. exists (take 16 (concat (update_request <$> xt_transactions r0) ++ replicate 32 x00)).
    unfold generate_instance_id, sha256, prefix_sha256, instance_preimage.
    rewrite <- !app_assoc, !take_app, !take_ge by (rewrite length_u64_be_bytes; lia).
    rewrite !length_u64_be_bytes. cbn -[app]. by rewrite <- take_app. }
  destruct (Ht p s r) as [t E], (Ht p' s' r') as [t' E']. rewrite E, E' in H.
  apply u64_be_bytes_app_inj in H as [-> H]; [|done..].
  by apply u64_be_bytes_app_inj in H as [-> _].
Qed.
