(* ===== verification/Sha256.v ===== *)
(** * SHA-256 (FIPS 180-4), a concrete instance of [Sha2]

    The [sha2] crate is a parameter of the development. This file instantiates it with the
    published algorithm, so that the theorems over [Sha2] and [Sha2Digest] apply to it and
    the unit tests of [id.rs] can be evaluated. Words are [Z] modulo [2 ^ 32]. *)
From Stdlib Require Import ZArith Lia.
From S2P Require Import Prelude Spec InstanceIdGen.

Definition w32 (z : Z) : Z := z mod 2 ^ 32.
Definition add32 (a b : Z) : Z := w32 (a + b).
Definition rotr (n x : Z) : Z := Z.lor (Z.shiftr x n) (w32 (Z.shiftl x (32 - n))).
Definition shr (n x : Z) : Z := Z.shiftr x n.

Definition Ch (x y z : Z) : Z := Z.lxor (Z.land x y) (Z.land (2 ^ 32 - 1 - x) z).
Definition Maj (x y z : Z) : Z := Z.lxor (Z.lxor (Z.land x y) (Z.land x z)) (Z.land y z).
Definition Sigma0 (x : Z) : Z := Z.lxor (Z.lxor (rotr 2 x) (rotr 13 x)) (rotr 22 x).
Definition Sigma1 (x : Z) : Z := Z.lxor (Z.lxor (rotr 6 x) (rotr 11 x)) (rotr 25 x).
Definition sigma0 (x : Z) : Z := Z.lxor (Z.lxor (rotr 7 x) (rotr 18 x)) (shr 3 x).
Definition sigma1 (x : Z) : Z := Z.lxor (Z.lxor (rotr 17 x) (rotr 19 x)) (shr 10 x).

(** The largest [r < 2 ^ n] above [acc] with [r ^ 3 <= x], bit by bit. *)
Fixpoint cube_root_from (n : nat) (acc x : Z) : Z :=
  match n with
  | O => acc
  | S k =>
      let r := acc + 2 ^ Z.of_nat k in
      cube_root_from k (if r ^ 3 <=? x then r else acc) x
  end.

(** The first 32 bits of the fractional parts of the cube and square roots. *)
Definition cube_root_bits (p : Z) : Z := w32 (cube_root_from 40 0 (p * 2 ^ 96)).
Definition square_root_bits (p : Z) : Z := w32 (Z.sqrt (p * 2 ^ 64)).

Definition is_prime (n : Z) : bool :=
  forallb (fun d => negb (n mod d =? 0)) (seqZ 2 (Z.sqrt n - 1)).

(** The first 64 primes. *)
Definition primes : list Z := filter (fun n => is_prime n = true) (seqZ 2 310).

(** The round constants. *)
Definition K : list Z := cube_root_bits <$> primes.

(** The eight chaining words. *)
Record words := mk_words { wa : Z; wb : Z; wc : Z; wd : Z; we : Z; wf : Z; wg : Z; wh : Z }.

(** The initial chaining words, from the first eight primes. *)
Definition H0 : words :=
  let h p := square_root_bits p in
  mk_words (h 2) (h 3) (h 5) (h 7) (h 11) (h 13) (h 17) (h 19).

Definition round (s : words) (k w : Z) : words :=
  let t1 := w32 (wh s + Sigma1 (we s) + Ch (we s) (wf s) (wg s) + k + w) in
  let t2 := w32 (Sigma0 (wa s) + Maj (wa s) (wb s) (wc s)) in
  mk_words (add32 t1 t2) (wa s) (wb s) (wc s) (add32 (wd s) t1) (we s) (wf s) (wg s).

(** The rounds with the constants [ks] on the window [ws] of the last 16 schedule words,
    oldest first. *)
Fixpoint rounds (ks ws : list Z) (s : words) : words :=
  match ks with
  | [] => s
  | k :: ks' =>
      let at_ i := nth i ws 0 in
      let next := w32 (sigma1 (at_ 14%nat) + at_ 9%nat + sigma0 (at_ 1%nat) + at_ 0%nat) in
      rounds ks' (tail ws ++ [next]) (round s k (at_ 0%nat))
  end.

Definition compress (s : words) (block : bytes) : words :=
  let m := (fun i => be_value (take 4 (drop (4 * i) block))) <$> seq 0 16 in
  let r := rounds K m s in
  mk_words (add32 (wa s) (wa r)) (add32 (wb s) (wb r)) (add32 (wc s) (wc r)) (add32 (wd s) (wd r))
    (add32 (we s) (we r)) (add32 (wf s) (wf r)) (add32 (wg s) (wg r)) (add32 (wh s) (wh r)).

(** A one bit, zeros, and the length in bits, up to a multiple of 64 bytes. *)
Definition pad (data : bytes) : bytes :=
  let n := Z.of_nat (length data) in
  data ++ [x80] ++ replicate (Z.to_nat ((55 - n) mod 64)) x00 ++ be_bytes 8 (8 * n).

Fixpoint blocks (n : nat) (data : bytes) : list bytes :=
  match n with O => [] | S n' => take 64 data :: blocks n' (drop 64 data) end.

Definition digest (s : words) : bytes :=
  concat (be_bytes 4 <$> [wa s; wb s; wc s; wd s; we s; wf s; wg s; wh s]).

Definition fips_sha256 : Sha2 := fun data =>
  let padded := pad data in
  digest (foldl compress H0 (blocks (length padded / 64) padded)).

Lemma fips_sha256_digest : @Sha2Digest fips_sha256.
Proof. intros data. unfold array32_ok, sha256, fips_sha256, digest. cbn. by rewrite ?length_app, ?length_be_bytes. Qed.

(** Padding fills whole blocks. *)
Lemma pad_blocks data : Z.of_nat (length (pad data)) mod 64 = 0.
Proof.
  unfold pad. rewrite !length_app, length_replicate, length_be_bytes. cbn [length].
  set (n := Z.of_nat (length data)).
  pose proof (Z.mod_pos_bound (55 - n) 64 ltac:(lia)).
  rewrite !Nat2Z.inj_add, Z2Nat.id by lia. fold n.
  rewrite (Zmod_eq (55 - n) 64) by lia.
  replace (n + _) with ((1 - (55 - n) / 64) * 64) by lia. apply Z.mod_mul. lia.
Qed.

(** There are 64 constants, and known digests come out: of ["abc"], and of 64 letters [a],
    which take two blocks. *)
Example primes_64 : length primes = 64%nat.
Proof. by vm_compute. Qed.

Example sha256_abc :
  hex_string (fips_sha256 (String.list_byte_of_string "abc")) =
    "ba7816bf8f01cfea414140de5dae2223b00361a396177a9cb410ff61f20015ad"%string.
Proof. by vm_compute. Qed.

Example sha256_two_blocks :
  hex_string (fips_sha256 (replicate 64 x61)) =
    "ffe054fe7ae0cb6dc65c3af9b61d5209f439851db43d0ba5997337df154668eb"%string.
Proof. by vm_compute. Qed.
