(* ===== verification/Messages.v ===== *)
(** * Wire messages ([crates/spec-proto])

    [Proto] holds the message structs of [messages.rs] with the constructors of the
    [Payload] enum; the encoder and decoder that [prost] derives from them are the
    parameter [ProstMessage]. The second part is [convert.rs]: the conversions between
    these structs and the domain types of [Spec]. *)
From Stdlib Require Import ZArith Lia.
From S2P Require Import Prelude Utf8 Spec.

Module Proto.

(** ** Connection-level messages *)

Record HandshakeRequest := mk_HandshakeRequest {
  hsr_timestamp : Z;
  hsr_public_key : bytes;
  hsr_signature : bytes;
  hsr_client_id : string;
  hsr_nonce : bytes;
}.

Record HandshakeResponse := mk_HandshakeResponse {
  hsp_accepted : bool;
  hsp_error : string;
  hsp_session_id : string;
}.

Record Ping := mk_Ping { ping_timestamp : Z }.

Record Pong := mk_Pong { pong_timestamp : Z }.

(** ** SCP messages *)

Record TransactionRequest := mk_TransactionRequest {
  ptr_chain_id : Z;
  ptr_transaction : list bytes;
}.

Record XtRequest := mk_XtRequest {
  pxt_transaction_requests : list TransactionRequest;
}.

Record StartInstance := mk_StartInstance {
  si_instance_id : bytes;
  si_period_id : Z;
  si_sequence_number : Z;
  si_xt_request : option XtRequest;
}.

Record Vote := mk_Vote {
  vote_instance_id : bytes;
  vote_chain_id : Z;
  vote_vote : bool;
}.

Record Decided := mk_Decided {
  dec_instance_id : bytes;
  dec_decision : bool;
}.

Record MailboxMessage := mk_MailboxMessage {
  mb_session_id : Z;
  mb_instance_id : bytes;
  mb_source_chain : Z;
  mb_destination_chain : Z;
  mb_source : bytes;
  mb_receiver : bytes;
  mb_label : string;
  mb_data : list bytes;
}.

(** ** SBCP messages *)

Record StartPeriod := mk_StartPeriod {
  sp_period_id : Z;
  sp_superblock_number : Z;
}.

Record Rollback := mk_Rollback {
  rb_period_id : Z;
  rb_last_finalized_superblock_number : Z;
  rb_last_finalized_superblock_hash : bytes;
}.

Record Proof := mk_Proof {
  pf_period_id : Z;
  pf_superblock_number : Z;
  pf_proof_data : bytes;
}.

(** ** CDCP messages *)

Record NativeDecided := mk_NativeDecided {
  nd_instance_id : bytes;
  nd_decision : bool;
}.

Record WsDecided := mk_WsDecided {
  wd_instance_id : bytes;
  wd_decision : bool;
}.

(** ** Message envelope *)

Inductive Payload :=
| PHandshakeRequest (m : HandshakeRequest)
| PHandshakeResponse (m : HandshakeResponse)
| PPing (m : Ping)
| PPong (m : Pong)
| PXtRequest (m : XtRequest)
| PStartInstance (m : StartInstance)
| PVote (m : Vote)
| PDecided (m : Decided)
| PMailboxMessage (m : MailboxMessage)
| PStartPeriod (m : StartPeriod)
| PRollback (m : Rollback)
| PProof (m : Proof)
| PNativeDecided (m : NativeDecided)
| PWsDecided (m : WsDecided).

Record Message := mk_Message {
  msg_sender_id : string;
  msg_payload : option Payload;
}.

#[export] Instance TransactionRequest_eq_dec : EqDecision TransactionRequest.
Proof. solve_decision. Defined.
#[export] Instance XtRequest_eq_dec : EqDecision XtRequest.
Proof. solve_decision. Defined.

End Proto.

(** The codec that [prost::Message] derives: [encode_to_vec] and [decode]. *)
Class ProstMessage := {
  encode_to_vec : Proto.Message -> bytes;
  decode : bytes -> result Proto.Message string;
}.

(** ** Conversions ([convert.rs]) *)

Definition TransactionRequest_to_proto (r : TransactionRequest) : Proto.TransactionRequest :=
  Proto.mk_TransactionRequest (tr_chain_id r) (tr_transactions r).

Definition TransactionRequest_from_proto (r : Proto.TransactionRequest) : TransactionRequest :=
  mk_TransactionRequest (Proto.ptr_chain_id r) (Proto.ptr_transaction r).

Definition XtRequest_to_proto (r : XtRequest) : Proto.XtRequest :=
  Proto.mk_XtRequest (TransactionRequest_to_proto <$> xt_transactions r).

Definition XtRequest_from_proto (r : Proto.XtRequest) : XtRequest :=
  mk_XtRequest (TransactionRequest_from_proto <$> Proto.pxt_transaction_requests r).

Definition Instance_to_start_instance (i : Instance_) : Proto.StartInstance :=
  Proto.mk_StartInstance (inst_id i) (inst_period_id i) (inst_sequence_number i)
    (Some (XtRequest_to_proto (inst_xt_request i))).

(** [TryFrom<&StartInstance> for Instance]: the id must have exactly 32 bytes. *)
Definition Instance_try_from_start_instance (si : Proto.StartInstance) : result Instance_ string :=
  if decide (length (Proto.si_instance_id si) = 32%nat) then
    let xt_request :=
      match Proto.si_xt_request si with
      | Some r => XtRequest_from_proto r
      | None => XtRequest_default
      end in
    Ok (mk_Instance (Proto.si_instance_id si) (Proto.si_period_id si)
          (Proto.si_sequence_number si) xt_request)
  else Err "instance_id must be 32 bytes".

Definition StartPeriod_parts (sp : Proto.StartPeriod) : PeriodId * SuperblockNumber :=
  (Proto.sp_period_id sp, Proto.sp_superblock_number sp).

(** ** Round trips *)

Lemma TransactionRequest_proto_roundtrip r :
  TransactionRequest_from_proto (TransactionRequest_to_proto r) = r.
Proof. by destruct r. Qed.

Lemma TransactionRequest_spec_roundtrip r :
  TransactionRequest_to_proto (TransactionRequest_from_proto r) = r.
Proof. by destruct r. Qed.

Lemma XtRequest_proto_roundtrip r : XtRequest_from_proto (XtRequest_to_proto r) = r.
Proof.
  destruct r as [l]. unfold XtRequest_from_proto, XtRequest_to_proto. cbn.
  rewrite <- list_fmap_compose. f_equal. rewrite <- (list_fmap_id l) at 2.
  apply list_fmap_ext. intros _ r _. apply TransactionRequest_proto_roundtrip.
Qed.

Lemma XtRequest_spec_roundtrip r : XtRequest_to_proto (XtRequest_from_proto r) = r.
Proof.
  destruct r as [l]. unfold XtRequest_from_proto, XtRequest_to_proto. cbn.
  rewrite <- list_fmap_compose. f_equal. rewrite <- (list_fmap_id l) at 2.
  apply list_fmap_ext. intros _ r _. apply TransactionRequest_spec_roundtrip.
Qed.

(** A [StartInstance] message carries an instance exactly: the conversion back
    succeeds precisely when the id has 32 bytes, it then restores the instance that was
    converted, and any other length is the error of the source, never a truncated id. *)
Theorem start_instance_roundtrip i :
  Instance_try_from_start_instance (Instance_to_start_instance i) =
    if decide (array32_ok (inst_id i)) then Ok i
    else Err "instance_id must be 32 bytes".
Proof.
  destruct i as [id p s r]. unfold Instance_try_from_start_instance, array32_ok. cbn.
  case_decide; [|done]. by rewrite XtRequest_proto_roundtrip.
Qed.

(** ** Encoding and decoding *)

Definition i64_ok (n : Z) : Prop := - 2 ^ 63 <= n < 2 ^ 63.

Definition XtRequest_wf (r : Proto.XtRequest) : Prop :=
  Forall (fun t => u64_ok (Proto.ptr_chain_id t)) (Proto.pxt_transaction_requests r).

#[export] Instance XtRequest_wf_dec r : Decision (XtRequest_wf r).
Proof. unfold XtRequest_wf. apply _. Defined.

(** Field values that exist in Rust: numbers in range, strings of valid UTF-8. *)
Definition Payload_wf (p : Proto.Payload) : Prop :=
  match p with
  | Proto.PHandshakeRequest m => i64_ok (Proto.hsr_timestamp m) /\ utf8_ok (Proto.hsr_client_id m)
  | Proto.PHandshakeResponse m =>
      utf8_ok (Proto.hsp_error m) /\ utf8_ok (Proto.hsp_session_id m)
  | Proto.PPing m => i64_ok (Proto.ping_timestamp m)
  | Proto.PPong m => i64_ok (Proto.pong_timestamp m)
  | Proto.PXtRequest m => XtRequest_wf m
  | Proto.PStartInstance m =>
      u64_ok (Proto.si_period_id m) /\ u64_ok (Proto.si_sequence_number m) /\
      from_option XtRequest_wf True (Proto.si_xt_request m)
  | Proto.PVote m => u64_ok (Proto.vote_chain_id m)
  | Proto.PMailboxMessage m =>
      u64_ok (Proto.mb_session_id m) /\ u64_ok (Proto.mb_source_chain m) /\
      u64_ok (Proto.mb_destination_chain m) /\ utf8_ok (Proto.mb_label m)
  | Proto.PStartPeriod m => u64_ok (Proto.sp_period_id m) /\ u64_ok (Proto.sp_superblock_number m)
  | Proto.PRollback m =>
      u64_ok (Proto.rb_period_id m) /\ u64_ok (Proto.rb_last_finalized_superblock_number m)
  | Proto.PProof m => u64_ok (Proto.pf_period_id m) /\ u64_ok (Proto.pf_superblock_number m)
  | Proto.PDecided _ | Proto.PNativeDecided _ | Proto.PWsDecided _ => True
  end.

Definition Message_wf (m : Proto.Message) : Prop :=
  utf8_ok (Proto.msg_sender_id m) /\ from_option Payload_wf True (Proto.msg_payload m).

(** What [prost] documents of the two functions. *)
Class ProstRoundtrip `{ProstMessage} : Prop :=
  prost_decode_encode : forall m, Message_wf m -> decode (encode_to_vec m) = Ok m.

(** What the types of the fields guarantee of a decoded message. *)
Class ProstTyped `{ProstMessage} : Prop :=
  prost_decode_typed : forall data m, decode data = Ok m -> Message_wf m.
