(* ===== verification/Wire.v ===== *)
(** * The Protocol Buffers wire format

    What [prost] documents of the format its derived codecs speak: base-128 varints, keys
    and the wire types. [parse] reads a buffer into its fields, [put_fields] writes them.
    Buffers are lists of any length; a varint of more than ten bytes is refused unless its
    value exceeds [u64], in which case no use of it succeeds on a buffer that fits in
    memory. Groups (wire types 3 and 4) are refused. *)
From Stdlib Require Import ZArith Lia.
From S2P Require Import Prelude.

(** ** Varints *)

Fixpoint put_varint_fuel (fuel : nat) (z : Z) : bytes :=
  match fuel with
  | O => [byte_of_Z z]
  | S fuel' =>
      if z <? 128 then [byte_of_Z z]
      else byte_of_Z (128 + z mod 128) :: put_varint_fuel fuel' (z / 128)
  end.

(** One byte per seven bits. *)
Definition put_varint (z : Z) : bytes := put_varint_fuel (Z.to_nat (Z.log2 z)) z.

(** Value, number of bytes read, rest. *)
Fixpoint get_varint (l : bytes) : option (Z * nat * bytes) :=
  match l with
  | [] => None
  | b :: l' =>
      let v := byte_to_Z b in
      if v <? 128 then Some (v, 1%nat, l')
      else '(v', n, r) ← get_varint l'; Some (v - 128 + 128 * v', S n, r)
  end.

Definition read_varint (l : bytes) : option (Z * bytes) :=
  '(v, n, r) ← get_varint l;
  if (10 <? n)%nat && (v <? u64_modulus) then None else Some (v, r).

Lemma get_put_varint_fuel fuel z r :
  0 <= z < 128 ^ (Z.of_nat fuel + 1) ->
  exists n, get_varint (put_varint_fuel fuel z ++ r) = Some (z, n, r) /\
    (1 <= n)%nat /\ (n = 1%nat \/ 128 ^ (Z.of_nat n - 1) <= z).
Proof.
  revert z. induction fuel as [|fuel IH]; intros z Hz; cbn [put_varint_fuel].
  - cbn in Hz. exists 1%nat. cbn. rewrite byte_to_of_Z, Z.mod_small by lia.
    rewrite (proj2 (Z.ltb_lt _ _)) by lia. auto.
  - destruct (Z.ltb_spec z 128) as [Hlt|Hge]; cbn [app get_varint].
    + exists 1%nat. rewrite byte_to_of_Z, Z.mod_small by lia.
      rewrite (proj2 (Z.ltb_lt _ _)) by lia. auto.
    + rewrite byte_to_of_Z. pose proof (Z.mod_pos_bound z 128 ltac:(lia)).
      rewrite (Z.mod_small (128 + _)) by lia. rewrite (proj2 (Z.ltb_ge _ _)) by lia.
      destruct (IH (z / 128)) as (n & -> & Hn & Hlen).
      { split; [apply Z.div_pos; lia|]. apply Z.div_lt_upper_bound; [lia|].
        rewrite <- Z.pow_succ_r by lia.
        replace (Z.succ (Z.of_nat fuel + 1)) with (Z.of_nat (S fuel) + 1) by lia. lia. }
      cbn. exists (S n). split; [|split; [lia|right]].
      { f_equal. f_equal. f_equal. pose proof (Z.div_mod z 128). lia. }
      replace (Z.of_nat (S n) - 1) with (Z.succ (Z.of_nat n - 1)) by lia. rewrite Z.pow_succ_r by lia.
      pose proof (Z.mul_div_le z 128 ltac:(lia)).
      destruct Hlen as [->|]; [change (128 ^ (Z.of_nat 1 - 1)) with 1|]; lia.
Qed.

Lemma read_put_varint z r : 0 <= z -> read_varint (put_varint z ++ r) = Some (z, r).
Proof.
  intros Hz. unfold read_varint, put_varint.
  destruct (get_put_varint_fuel (Z.to_nat (Z.log2 z)) z r) as (n & -> & Hn & Hlen).
  { split; [done|]. rewrite Z2Nat.id by apply Z.log2_nonneg.
    destruct (decide (z = 0)) as [->|]; [by vm_compute|].
    pose proof (Z.log2_spec z ltac:(lia)) as [_ Hl]. pose proof (Z.log2_nonneg z).
    eapply Z.lt_le_trans; [exact Hl|]. replace (Z.succ (Z.log2 z)) with (Z.log2 z + 1) by lia.
    apply Z.pow_le_mono_l. lia. }
  cbv beta iota delta [mbind option_bind].
  destruct (Nat.ltb_spec 10 n) as [H10|]; [|done]. cbn [andb].
  destruct Hlen as [->|Hlen]; [lia|].
  rewrite (proj2 (Z.ltb_ge _ _)); [done|]. etransitivity; [|exact Hlen].
  transitivity (128 ^ 10); [by vm_compute|]. apply Z.pow_le_mono_r; lia.
Qed.

(** ** Fields *)

Inductive wire :=
| Varint (n : Z)
| Fixed64 (b : bytes)
| Len (b : bytes)
| Fixed32 (b : bytes).

Abbreviation field := (Z * wire)%type (only parsing).

Definition wire_type (w : wire) : Z :=
  match w with Varint _ => 0 | Fixed64 _ => 1 | Len _ => 2 | Fixed32 _ => 5 end.

Definition put_wire (w : wire) : bytes :=
  match w with
  | Varint n => put_varint n
  | Len b => put_varint (Z.of_nat (length b)) ++ b
  | Fixed64 b | Fixed32 b => b
  end.

Definition put_field (f : field) : bytes := put_varint (f.1 * 8 + wire_type f.2) ++ put_wire f.2.

Definition put_fields (fs : list field) : bytes := concat (put_field <$> fs).

Definition read_bytes (n : Z) (l : bytes) : option (bytes * bytes) :=
  if Z.of_nat (length l) <? n then None else Some (take (Z.to_nat n) l, drop (Z.to_nat n) l).

Definition read_wire (wire_type : Z) (l : bytes) : option (wire * bytes) :=
  match wire_type with
  | 0 => '(n, r) ← read_varint l; if n <? u64_modulus then Some (Varint n, r) else None
  | 1 => '(b, r) ← read_bytes 8 l; Some (Fixed64 b, r)
  | 2 => '(n, r) ← read_varint l; '(b, r') ← read_bytes n r; Some (Len b, r')
  | 5 => '(b, r) ← read_bytes 4 l; Some (Fixed32 b, r)
  | _ => None
  end.

Definition read_field (l : bytes) : option (Z * wire * bytes) :=
  '(key, r) ← read_varint l;
  if (2 ^ 32 <=? key) || (key / 8 =? 0) then None
  else '(w, r') ← read_wire (key mod 8) r; Some (key / 8, w, r').

(** Each field takes at least one byte, so the length is enough fuel. *)
Fixpoint parse_fuel (fuel : nat) (l : bytes) : option (list field) :=
  match l with
  | [] => Some []
  | _ =>
      match fuel with
      | O => None
      | S fuel' => '(f, r) ← read_field l; fs ← parse_fuel fuel' r; Some (f :: fs)
      end
  end.

Definition parse (l : bytes) : option (list field) := parse_fuel (length l) l.

(** Tags and values a codec writes. *)
Definition field_ok (f : field) : Prop :=
  1 <= f.1 < 2 ^ 28 /\
  match f.2 with
  | Varint n => u64_ok n
  | Len _ => True
  | Fixed64 b => length b = 8%nat
  | Fixed32 b => length b = 4%nat
  end.

#[export] Instance field_ok_dec f : Decision (field_ok f).
Proof. unfold field_ok. destruct f as [t []]; cbn; apply _. Defined.

Lemma read_bytes_app b r : read_bytes (Z.of_nat (length b)) (b ++ r) = Some (b, r).
Proof.
  unfold read_bytes. rewrite length_app, (proj2 (Z.ltb_ge _ _)) by lia.
  by rewrite Nat2Z.id, take_app_length, drop_app_length.
Qed.

Lemma read_put_wire w r :
  match w with
  | Varint n => u64_ok n | Len _ => True
  | Fixed64 b => length b = 8%nat | Fixed32 b => length b = 4%nat
  end -> read_wire (wire_type w) (put_wire w ++ r) = Some (w, r).
Proof.
  destruct w as [n|b|b|b]; cbn [wire_type put_wire read_wire]; intros Hw.
  - rewrite read_put_varint by u64_lia. cbn. by rewrite (proj2 (Z.ltb_lt _ _)) by u64_lia.
  - change 8 with (Z.of_nat 8). by rewrite <- Hw, read_bytes_app.
  - rewrite <- app_assoc, read_put_varint by lia. cbn. by rewrite read_bytes_app.
  - change 4 with (Z.of_nat 4). by rewrite <- Hw, read_bytes_app.
Qed.

Lemma read_put_field f r : field_ok f -> read_field (put_field f ++ r) = Some (f, r).
Proof.
  destruct f as [t w]. intros [Ht Hw]. cbn [fst snd] in *. unfold read_field, put_field.
  assert (0 <= wire_type w < 8) as Hwt by (by destruct w; cbn).
  cbn [fst snd]. rewrite <- app_assoc, read_put_varint by lia. cbn.
  assert ((t * 8 + wire_type w) / 8 = t) as -> by (symmetry; apply (Z.div_unique _ 8 _ (wire_type w)); lia).
  assert ((t * 8 + wire_type w) mod 8 = wire_type w) as -> by (symmetry; apply (Z.mod_unique _ 8 t); lia).
  rewrite (proj2 (Z.leb_gt _ _)), (proj2 (Z.eqb_neq _ _)) by lia. cbn.
  by rewrite read_put_wire.
Qed.

Lemma put_varint_nonempty z : put_varint z <> [].
Proof. unfold put_varint. destruct (Z.to_nat _); cbn; [done|]. by case_match. Qed.

Lemma put_field_length f : (1 <= length (put_field f))%nat.
Proof.
  unfold put_field. pose proof (put_varint_nonempty (f.1 * 8 + wire_type f.2)).
  rewrite length_app. destruct (put_varint _); [done|cbn; lia].
Qed.

Lemma parse_fuel_put fs fuel :
  Forall field_ok fs -> (length fs <= fuel)%nat -> parse_fuel fuel (put_fields fs) = Some fs.
Proof.
  intros Hfs. revert fuel. induction Hfs as [|f fs Hf Hfs IH]; intros fuel Hfuel; [by destruct fuel|].
  destruct fuel as [|fuel]; [cbn in Hfuel; lia|].
  unfold put_fields. cbn [fmap list_fmap concat]. fold (put_fields fs).
  cbn [parse_fuel]. rewrite (read_put_field f) by done.
  pose proof (put_field_length f).
  destruct (put_field f ++ put_fields fs) eqn:E; [apply (f_equal length) in E; rewrite length_app in E; cbn in E; lia|].
  cbn. by rewrite IH by (cbn in Hfuel; lia).
Qed.

(** Fields are read back as written. *)
Lemma parse_put_fields fs : Forall field_ok fs -> parse (put_fields fs) = Some fs.
Proof.
  intros Hfs. apply parse_fuel_put; [done|]. unfold put_fields.
  clear Hfs. induction fs as [|f fs IH]; [done|]. cbn.
  rewrite length_app. pose proof (put_field_length f). lia.
Qed.

Lemma put_fields_app fs gs : put_fields (fs ++ gs) = put_fields fs ++ put_fields gs.
Proof. unfold put_fields. by rewrite fmap_app, concat_app. Qed.

(** ** Codecs from a field layout *)

(** Fields are merged one by one. *)
Fixpoint merge_all {A} (merge : A -> field -> option A) (a : A) (fs : list field) : option A :=
  match fs with
  | [] => Some a
  | f :: fs' => a' ← merge a f; merge_all merge a' fs'
  end.

(** A message type: its default, its fields in tag order, and how a field read changes it. *)
Class Wire (A : Type) := {
  wdefault : A;
  wfields : A -> list field;
  wmerge : A -> field -> option A;
}.

Definition wencode `{Wire A} (a : A) : bytes := put_fields (wfields a).

Definition wdecode_into `{Wire A} (a : A) (l : bytes) : option A :=
  fs ← parse l; merge_all wmerge a fs.

Definition wdecode `{Wire A} (l : bytes) : option A := wdecode_into wdefault l.

(** The layout determines well-formed values. *)
Class WireLaws `(Wire A) (wf : A -> Prop) : Prop := {
  wfields_ok a : wf a -> Forall field_ok (wfields a);
  wfields_merge a : wf a -> merge_all wmerge wdefault (wfields a) = Some a;
}.

Lemma wdecode_encode `{WireLaws A wf} a : wf a -> wdecode (wencode a) = Some a.
Proof.
  intros Hwf. unfold wdecode, wdecode_into, wencode.
  rewrite parse_put_fields by by apply wfields_ok. by apply wfields_merge.
Qed.

Lemma merge_all_app {A} (merge : A -> field -> option A) a fs gs :
  merge_all merge a (fs ++ gs) = a' ← merge_all merge a fs; merge_all merge a' gs.
Proof. revert a. induction fs as [|f fs IH]; intros a; [done|]. cbn. by destruct (merge a f); cbn. Qed.

(** A field that is left out when it has its default value. *)
Definition unless (skip : bool) (f : field) : list field := if skip then [] else [f].

Lemma merge_unless {A} (merge : A -> field -> option A) (a a' : A) skip f fs :
  merge a f = Some a' -> (skip = true -> a = a') ->
  merge_all merge a (unless skip f ++ fs) = merge_all merge a' fs.
Proof. intros Hf Hskip. destruct skip; cbn; [by rewrite Hskip|by rewrite Hf]. Qed.

Lemma Forall_unless skip f fs :
  (skip = false -> field_ok f) -> Forall field_ok fs -> Forall field_ok (unless skip f ++ fs).
Proof. intros Hf Hfs. destruct skip; cbn; [done|]. constructor; auto. Qed.

(** ** What decoding yields *)

(** Integers read from the wire are in range. *)
Definition field_read_ok (f : field) : Prop :=
  match f.2 with Varint n => u64_ok n | _ => True end.

Lemma get_varint_nonneg l v n r : get_varint l = Some (v, n, r) -> 0 <= v.
Proof.
  revert v n r. induction l as [|b l IH]; intros v n r; cbn; [done|].
  pose proof (byte_to_Z_bound b). destruct (Z.ltb_spec (byte_to_Z b) 128).
  - intros [= <- <- <-]. lia.
  - destruct (get_varint l) as [[[v' n'] r']|]; [|done]. cbn. intros [= <- <- <-].
    specialize (IH v' n' r' eq_refl). lia.
Qed.

Lemma read_wire_ok t l w r : read_wire t l = Some (w, r) -> field_read_ok (t, w).
Proof.
  unfold field_read_ok. cbn [snd]. intros Hr. destruct w as [n| | |]; [|done..].
  destruct t as [|q|q]; cbn [read_wire] in Hr; [| |done].
  - unfold read_varint in Hr. destruct (get_varint l) as [[[v k] r']|] eqn:Hg; [|done]. cbn in Hr.
    apply get_varint_nonneg in Hg. destruct (_ && _); [done|]. cbn in Hr.
    destruct (Z.ltb_spec v u64_modulus); [|done]. injection Hr as <- <-. u64_lia.
  - exfalso. destruct q as [[q|[q|q|]|]|[q|q|]|]; try done;
      repeat match type of Hr with
      | (?o ≫= _) = _ => destruct o as [[? ?]|]; cbn in Hr; [|done]
      end; done.
Qed.

Lemma parse_fuel_ok fuel l fs : parse_fuel fuel l = Some fs -> Forall field_read_ok fs.
Proof.
  revert l fs. induction fuel as [|fuel IH]; intros [|b l] fs; cbn [parse_fuel];
    [by intros [= <-]|done|by intros [= <-]|].
  unfold read_field. destruct (read_varint (b :: l)) as [[key r]|]; [|done].
  cbv beta iota delta [mbind option_bind]. destruct (_ || _); [done|].
  destruct (read_wire (key mod 8) r) as [[w r']|] eqn:Hw; [|done].
  destruct (parse_fuel fuel r') as [fs'|] eqn:Hp; [|done]. intros [= <-].
  constructor; [by apply read_wire_ok in Hw|by eapply IH].
Qed.

(** Merging fields keeps a message well formed. *)
Class WireTyped `(Wire A) (wf : A -> Prop) : Prop := {
  wdefault_typed : wf wdefault;
  wmerge_typed a f a' : wf a -> field_read_ok f -> wmerge a f = Some a' -> wf a';
}.

Lemma wdecode_into_typed `{WireTyped A wf} a l a' : wf a -> wdecode_into a l = Some a' -> wf a'.
Proof.
  unfold wdecode_into, parse. destruct (parse_fuel _ l) as [fs|] eqn:Hp; [|done].
  apply parse_fuel_ok in Hp. cbn. clear l. intros Ha. revert a Ha.
  induction Hp as [|f fs Hf Hfs IH]; intros a Ha; cbn; [by intros [= <-]|].
  destruct (wmerge a f) as [a1|] eqn:Hm; [|done]. cbn. apply IH. by eapply wmerge_typed.
Qed.
