(* ===== verification/Protobuf.v ===== *)
(** * A codec of the wire messages in the Protocol Buffers format

    The codec of the messages is code that prost generates; the coordinator is proved against
    the class [ProstMessage] with the interfaces [ProstRoundtrip] and [ProstTyped]. This file
    shows that they can hold together: [prost_codec] is a codec with the tags and types of the
    [#[prost(type, tag)]] attributes of [messages.rs], default values left out, repeated
    fields written one by one, the last value of a scalar kept, embedded messages merged.
    Closed examples are evaluated with it. *)
From Stdlib Require Import ZArith Lia.
From S2P Require Import Prelude Utf8 Spec Messages Wire.
Import Proto.

(** ** Field types *)

Definition uint64_field (t n : Z) : list (Z * wire) := unless (n =? 0) (t, Varint n).
Definition int64_field (t n : Z) : list (Z * wire) := unless (n =? 0) (t, Varint (n mod u64_modulus)).
Definition bool_field (t : Z) (b : bool) : list (Z * wire) := unless (negb b) (t, Varint 1).
Definition bytes_field (t : Z) (b : bytes) : list (Z * wire) :=
  unless (match b with [] => true | _ => false end) (t, Len b).
Definition string_field (t : Z) (s : string) : list (Z * wire) :=
  unless (String.eqb s "") (t, Len (String.list_byte_of_string s)).
Definition repeated_field (t : Z) (l : list bytes) : list (Z * wire) := (fun b => (t, Len b)) <$> l.
Definition optional_field (t : Z) (o : option bytes) : list (Z * wire) :=
  match o with Some b => [(t, Len b)] | None => [] end.

Definition as_i64 (n : Z) : Z := if n <? 2 ^ 63 then n else n - u64_modulus.
Definition as_bool (n : Z) : bool := negb (n =? 0).

(** A known tag with another wire type is an error; an unknown tag is skipped. *)
Definition other {A} (last_tag : Z) (a : A) (t : Z) : option A :=
  if t <=? last_tag then None else Some a.

(** ** Layouts *)

#[export] Instance HandshakeRequest_wire : Wire HandshakeRequest := {|
  wdefault := mk_HandshakeRequest 0 [] [] "" [];
  wfields m :=
    int64_field 1 (hsr_timestamp m) ++ bytes_field 2 (hsr_public_key m) ++
    bytes_field 3 (hsr_signature m) ++ string_field 4 (hsr_client_id m) ++
    bytes_field 5 (hsr_nonce m) ++ [];
  wmerge '(mk_HandshakeRequest t k s c n) f :=
    match f with
    | (1, Varint v) => Some (mk_HandshakeRequest (as_i64 v) k s c n)
    | (2, Len b) => Some (mk_HandshakeRequest t b s c n)
    | (3, Len b) => Some (mk_HandshakeRequest t k b c n)
    | (4, Len b) => v ← from_utf8 b; Some (mk_HandshakeRequest t k s v n)
    | (5, Len b) => Some (mk_HandshakeRequest t k s c b)
    | (tag, _) => other 5 (mk_HandshakeRequest t k s c n) tag
    end |}.

#[export] Instance HandshakeResponse_wire : Wire HandshakeResponse := {|
  wdefault := mk_HandshakeResponse false "" "";
  wfields m :=
    bool_field 1 (hsp_accepted m) ++ string_field 2 (hsp_error m) ++
    string_field 3 (hsp_session_id m) ++ [];
  wmerge '(mk_HandshakeResponse a e s) f :=
    match f with
    | (1, Varint v) => Some (mk_HandshakeResponse (as_bool v) e s)
    | (2, Len b) => v ← from_utf8 b; Some (mk_HandshakeResponse a v s)
    | (3, Len b) => v ← from_utf8 b; Some (mk_HandshakeResponse a e v)
    | (tag, _) => other 3 (mk_HandshakeResponse a e s) tag
    end |}.

#[export] Instance Ping_wire : Wire Ping := {|
  wdefault := mk_Ping 0;
  wfields m := int64_field 1 (ping_timestamp m) ++ [];
  wmerge m f :=
    match f with (1, Varint v) => Some (mk_Ping (as_i64 v)) | (tag, _) => other 1 m tag end |}.

#[export] Instance Pong_wire : Wire Pong := {|
  wdefault := mk_Pong 0;
  wfields m := int64_field 1 (pong_timestamp m) ++ [];
  wmerge m f :=
    match f with (1, Varint v) => Some (mk_Pong (as_i64 v)) | (tag, _) => other 1 m tag end |}.

#[export] Instance TransactionRequest_wire : Wire TransactionRequest := {|
  wdefault := mk_TransactionRequest 0 [];
  wfields m := uint64_field 1 (ptr_chain_id m) ++ repeated_field 2 (ptr_transaction m);
  wmerge '(mk_TransactionRequest c l) f :=
    match f with
    | (1, Varint v) => Some (mk_TransactionRequest v l)
    | (2, Len b) => Some (mk_TransactionRequest c (l ++ [b]))
    | (tag, _) => other 2 (mk_TransactionRequest c l) tag
    end |}.

#[export] Instance XtRequest_wire : Wire XtRequest := {|
  wdefault := mk_XtRequest [];
  wfields m := repeated_field 1 (wencode <$> pxt_transaction_requests m);
  wmerge '(mk_XtRequest l) f :=
    match f with
    | (1, Len b) => r ← wdecode b; Some (mk_XtRequest (l ++ [r]))
    | (tag, _) => other 1 (mk_XtRequest l) tag
    end |}.

#[export] Instance StartInstance_wire : Wire StartInstance := {|
  wdefault := mk_StartInstance [] 0 0 None;
  wfields m :=
    bytes_field 1 (si_instance_id m) ++ uint64_field 2 (si_period_id m) ++
    uint64_field 3 (si_sequence_number m) ++ optional_field 4 (wencode <$> si_xt_request m);
  wmerge '(mk_StartInstance i p s r) f :=
    match f with
    | (1, Len b) => Some (mk_StartInstance b p s r)
    | (2, Varint v) => Some (mk_StartInstance i v s r)
    | (3, Varint v) => Some (mk_StartInstance i p v r)
    | (4, Len b) => r' ← wdecode_into (default wdefault r) b; Some (mk_StartInstance i p s (Some r'))
    | (tag, _) => other 4 (mk_StartInstance i p s r) tag
    end |}.

#[export] Instance Vote_wire : Wire Vote := {|
  wdefault := mk_Vote [] 0 false;
  wfields m :=
    bytes_field 1 (vote_instance_id m) ++ uint64_field 2 (vote_chain_id m) ++
    bool_field 3 (vote_vote m) ++ [];
  wmerge '(mk_Vote i c v) f :=
    match f with
    | (1, Len b) => Some (mk_Vote b c v)
    | (2, Varint n) => Some (mk_Vote i n v)
    | (3, Varint n) => Some (mk_Vote i c (as_bool n))
    | (tag, _) => other 3 (mk_Vote i c v) tag
    end |}.

#[export] Instance Decided_wire : Wire Decided := {|
  wdefault := mk_Decided [] false;
  wfields m := bytes_field 1 (dec_instance_id m) ++ bool_field 2 (dec_decision m) ++ [];
  wmerge '(mk_Decided i d) f :=
    match f with
    | (1, Len b) => Some (mk_Decided b d)
    | (2, Varint n) => Some (mk_Decided i (as_bool n))
    | (tag, _) => other 2 (mk_Decided i d) tag
    end |}.

#[export] Instance MailboxMessage_wire : Wire MailboxMessage := {|
  wdefault := mk_MailboxMessage 0 [] 0 0 [] [] "" [];
  wfields m :=
    uint64_field 1 (mb_session_id m) ++ bytes_field 2 (mb_instance_id m) ++
    uint64_field 3 (mb_source_chain m) ++ uint64_field 4 (mb_destination_chain m) ++
    bytes_field 5 (mb_source m) ++ bytes_field 6 (mb_receiver m) ++
    string_field 7 (mb_label m) ++ repeated_field 8 (mb_data m);
  wmerge '(mk_MailboxMessage s i a b u v l d) f :=
    match f with
    | (1, Varint n) => Some (mk_MailboxMessage n i a b u v l d)
    | (2, Len x) => Some (mk_MailboxMessage s x a b u v l d)
    | (3, Varint n) => Some (mk_MailboxMessage s i n b u v l d)
    | (4, Varint n) => Some (mk_MailboxMessage s i a n u v l d)
    | (5, Len x) => Some (mk_MailboxMessage s i a b x v l d)
    | (6, Len x) => Some (mk_MailboxMessage s i a b u x l d)
    | (7, Len x) => l' ← from_utf8 x; Some (mk_MailboxMessage s i a b u v l' d)
    | (8, Len x) => Some (mk_MailboxMessage s i a b u v l (d ++ [x]))
    | (tag, _) => other 8 (mk_MailboxMessage s i a b u v l d) tag
    end |}.

#[export] Instance StartPeriod_wire : Wire StartPeriod := {|
  wdefault := mk_StartPeriod 0 0;
  wfields m := uint64_field 1 (sp_period_id m) ++ uint64_field 2 (sp_superblock_number m) ++ [];
  wmerge '(mk_StartPeriod p s) f :=
    match f with
    | (1, Varint n) => Some (mk_StartPeriod n s)
    | (2, Varint n) => Some (mk_StartPeriod p n)
    | (tag, _) => other 2 (mk_StartPeriod p s) tag
    end |}.

#[export] Instance Rollback_wire : Wire Rollback := {|
  wdefault := mk_Rollback 0 0 [];
  wfields m :=
    uint64_field 1 (rb_period_id m) ++ uint64_field 2 (rb_last_finalized_superblock_number m) ++
    bytes_field 3 (rb_last_finalized_superblock_hash m) ++ [];
  wmerge '(mk_Rollback p s h) f :=
    match f with
    | (1, Varint n) => Some (mk_Rollback n s h)
    | (2, Varint n) => Some (mk_Rollback p n h)
    | (3, Len b) => Some (mk_Rollback p s b)
    | (tag, _) => other 3 (mk_Rollback p s h) tag
    end |}.

#[export] Instance Proof_wire : Wire Proto.Proof := {|
  wdefault := mk_Proof 0 0 [];
  wfields m :=
    uint64_field 1 (pf_period_id m) ++ uint64_field 2 (pf_superblock_number m) ++
    bytes_field 3 (pf_proof_data m) ++ [];
  wmerge '(mk_Proof p s d) f :=
    match f with
    | (1, Varint n) => Some (mk_Proof n s d)
    | (2, Varint n) => Some (mk_Proof p n d)
    | (3, Len b) => Some (mk_Proof p s b)
    | (tag, _) => other 3 (mk_Proof p s d) tag
    end |}.

#[export] Instance NativeDecided_wire : Wire NativeDecided := {|
  wdefault := mk_NativeDecided [] false;
  wfields m := bytes_field 1 (nd_instance_id m) ++ bool_field 2 (nd_decision m) ++ [];
  wmerge '(mk_NativeDecided i d) f :=
    match f with
    | (1, Len b) => Some (mk_NativeDecided b d)
    | (2, Varint n) => Some (mk_NativeDecided i (as_bool n))
    | (tag, _) => other 2 (mk_NativeDecided i d) tag
    end |}.

#[export] Instance WsDecided_wire : Wire WsDecided := {|
  wdefault := mk_WsDecided [] false;
  wfields m := bytes_field 1 (wd_instance_id m) ++ bool_field 2 (wd_decision m) ++ [];
  wmerge '(mk_WsDecided i d) f :=
    match f with
    | (1, Len b) => Some (mk_WsDecided b d)
    | (2, Varint n) => Some (mk_WsDecided i (as_bool n))
    | (tag, _) => other 2 (mk_WsDecided i d) tag
    end |}.

(** ** The envelope *)

(** The variant of the oneof field: its tag and the encoded message. *)
Definition payload_field (p : Payload) : Z * bytes :=
  match p with
  | PHandshakeRequest m => (2, wencode m)
  | PHandshakeResponse m => (3, wencode m)
  | PPing m => (4, wencode m)
  | PPong m => (5, wencode m)
  | PXtRequest m => (6, wencode m)
  | PStartInstance m => (7, wencode m)
  | PVote m => (8, wencode m)
  | PDecided m => (9, wencode m)
  | PMailboxMessage m => (10, wencode m)
  | PStartPeriod m => (11, wencode m)
  | PRollback m => (12, wencode m)
  | PProof m => (13, wencode m)
  | PNativeDecided m => (14, wencode m)
  | PWsDecided m => (15, wencode m)
  end.

(** The variant of a tag, merged into the current one when it is the same. *)
Definition merge_payload (cur : option Payload) (tag : Z) (b : bytes) : option Payload :=
  match tag with
  | 2 => PHandshakeRequest <$> wdecode_into (match cur with Some (PHandshakeRequest m) => m | _ => wdefault end) b
  | 3 => PHandshakeResponse <$> wdecode_into (match cur with Some (PHandshakeResponse m) => m | _ => wdefault end) b
  | 4 => PPing <$> wdecode_into (match cur with Some (PPing m) => m | _ => wdefault end) b
  | 5 => PPong <$> wdecode_into (match cur with Some (PPong m) => m | _ => wdefault end) b
  | 6 => PXtRequest <$> wdecode_into (match cur with Some (PXtRequest m) => m | _ => wdefault end) b
  | 7 => PStartInstance <$> wdecode_into (match cur with Some (PStartInstance m) => m | _ => wdefault end) b
  | 8 => PVote <$> wdecode_into (match cur with Some (PVote m) => m | _ => wdefault end) b
  | 9 => PDecided <$> wdecode_into (match cur with Some (PDecided m) => m | _ => wdefault end) b
  | 10 => PMailboxMessage <$> wdecode_into (match cur with Some (PMailboxMessage m) => m | _ => wdefault end) b
  | 11 => PStartPeriod <$> wdecode_into (match cur with Some (PStartPeriod m) => m | _ => wdefault end) b
  | 12 => PRollback <$> wdecode_into (match cur with Some (PRollback m) => m | _ => wdefault end) b
  | 13 => PProof <$> wdecode_into (match cur with Some (PProof m) => m | _ => wdefault end) b
  | 14 => PNativeDecided <$> wdecode_into (match cur with Some (PNativeDecided m) => m | _ => wdefault end) b
  | 15 => PWsDecided <$> wdecode_into (match cur with Some (PWsDecided m) => m | _ => wdefault end) b
  | _ => None
  end.

#[export] Instance Message_wire : Wire Message := {|
  wdefault := mk_Message "" None;
  wfields m :=
    string_field 1 (msg_sender_id m) ++
    match msg_payload m with
    | Some p => [((payload_field p).1, Len (payload_field p).2)]
    | None => []
    end;
  wmerge '(mk_Message s p) f :=
    match f with
    | (1, Len b) => v ← from_utf8 b; Some (mk_Message v p)
    | (tag, w) =>
        if (2 <=? tag) && (tag <=? 15) then
          match w with
          | Len b => p' ← merge_payload p tag b; Some (mk_Message s (Some p'))
          | _ => None
          end
        else other 1 (mk_Message s p) tag
    end |}.

(** [encode_to_vec] and [decode] of [Message]. *)
Definition prost_codec : ProstMessage := {|
  encode_to_vec m := wencode m;
  decode l :=
    match wdecode l with Some m => Ok m | None => Err "failed to decode Protobuf message"%string end;
|}.

(** ** The layouts determine the messages *)

Section fields.
Context {A : Type} (merge : A -> Z * wire -> option A).
Implicit Types (a : A) (fs : list (Z * wire)).

Lemma merge_uint64 a set t n fs :
  (forall v, merge a (t, Varint v) = Some (set v)) -> a = set 0 ->
  merge_all merge a (uint64_field t n ++ fs) = merge_all merge (set n) fs.
Proof. intros Hf Ha. apply merge_unless; [apply Hf|]. by intros ->%Z.eqb_eq. Qed.

Lemma merge_int64 a set t n fs :
  (forall v, merge a (t, Varint v) = Some (set v)) -> a = set 0 ->
  merge_all merge a (int64_field t n ++ fs) = merge_all merge (set (n mod u64_modulus)) fs.
Proof. intros Hf Ha. apply merge_unless; [apply Hf|]. by intros ->%Z.eqb_eq. Qed.

Lemma merge_bool a set t b fs :
  (forall v, merge a (t, Varint v) = Some (set v)) -> a = set 0 ->
  merge_all merge a (bool_field t b ++ fs) = merge_all merge (set (if b then 1 else 0)) fs.
Proof. intros Hf Ha. destruct b; cbn; [by rewrite Hf|by rewrite <- Ha]. Qed.

Lemma merge_bytes a set t b fs :
  (forall v, merge a (t, Len v) = Some (set v)) -> a = set [] ->
  merge_all merge a (bytes_field t b ++ fs) = merge_all merge (set b) fs.
Proof. intros Hf Ha. apply merge_unless; [apply Hf|]. by destruct b. Qed.

Lemma merge_string a set t s fs :
  (forall b, merge a (t, Len b) = v ← from_utf8 b; Some (set v)) -> a = set ""%string ->
  utf8_ok s ->
  merge_all merge a (string_field t s ++ fs) = merge_all merge (set s) fs.
Proof.
  intros Hf Ha Hs%Is_true_true. apply merge_unless; [by rewrite Hf, from_utf8_of_string|].
  by intros ->%String.eqb_eq.
Qed.

(** A repeated field that ends the message. *)
Lemma merge_repeated {B} a (set : list B -> A) (enc : B -> bytes) t l :
  (forall x l0, x ∈ l -> merge (set l0) (t, Len (enc x)) = Some (set (l0 ++ [x]))) -> a = set [] ->
  merge_all merge a (repeated_field t (enc <$> l)) = Some (set l).
Proof.
  intros Hf ->. change l with ([] ++ l) at 2. generalize (@nil B) as l0.
  induction l as [|x l IH]; intros l0; cbn; [by rewrite app_nil_r|].
  rewrite Hf by set_solver. cbn. rewrite IH by (intros; apply Hf; set_solver).
  by rewrite <- app_assoc.
Qed.

End fields.

Lemma as_i64_mod n : i64_ok n -> as_i64 (n mod u64_modulus) = n.
Proof.
  unfold i64_ok, as_i64, u64_modulus. intros Hn. destruct (decide (0 <= n)).
  - rewrite Z.mod_small by lia. by rewrite (proj2 (Z.ltb_lt _ _)) by lia.
  - assert (n mod 2 ^ 64 = n + 2 ^ 64) as ->.
    { symmetry. apply (Z.mod_unique _ _ (-1)); lia. }
    rewrite (proj2 (Z.ltb_ge _ _)) by lia. lia.
Qed.

Lemma as_bool_bit (b : bool) : as_bool (if b then 1 else 0) = b.
Proof. by destruct b. Qed.

(** One field of a layout. *)
Ltac merge_field :=
  etransitivity;
  [first [eapply merge_uint64; [intros ?; reflexivity|reflexivity]
         |eapply merge_int64; [intros ?; reflexivity|reflexivity]
         |eapply merge_bool; [intros ?; reflexivity|reflexivity]
         |eapply merge_bytes; [intros ?; reflexivity|reflexivity]
         |eapply merge_string; [intros ?; reflexivity|reflexivity|eassumption]]
  |cbv beta].

Lemma ok_uint64 t n fs :
  1 <= t < 2 ^ 28 -> u64_ok n -> Forall field_ok fs -> Forall field_ok (uint64_field t n ++ fs).
Proof. intros. by apply Forall_unless. Qed.

Lemma ok_int64 t n fs :
  1 <= t < 2 ^ 28 -> Forall field_ok fs -> Forall field_ok (int64_field t n ++ fs).
Proof.
  intros. apply Forall_unless; [|done]. intros _. split; [done|].
  pose proof (Z.mod_pos_bound n u64_modulus ltac:(done)). cbn. u64_lia.
Qed.

Lemma ok_bool t b fs :
  1 <= t < 2 ^ 28 -> Forall field_ok fs -> Forall field_ok (bool_field t b ++ fs).
Proof. intros. by apply Forall_unless. Qed.

Lemma ok_bytes t b fs :
  1 <= t < 2 ^ 28 -> Forall field_ok fs -> Forall field_ok (bytes_field t b ++ fs).
Proof. intros. by apply Forall_unless. Qed.

Lemma ok_string t s fs :
  1 <= t < 2 ^ 28 -> Forall field_ok fs -> Forall field_ok (string_field t s ++ fs).
Proof. intros. by apply Forall_unless. Qed.

Lemma ok_repeated t l : 1 <= t < 2 ^ 28 -> Forall field_ok (repeated_field t l).
Proof. intros. apply Forall_fmap, Forall_true. by split. Qed.

Create HintDb layout.
Create HintDb typed.
#[export] Hint Resolve ok_uint64 ok_int64 ok_bool ok_bytes ok_string ok_repeated Forall_nil_2 : layout.
#[export] Hint Extern 1 (1 <= _ < 2 ^ 28) => by vm_compute : layout.

(** The laws of a layout of plain fields. *)
Ltac layout :=
  split; [intros [] ?; cbn in *; destruct_and?; eauto 20 with layout nocore
         |intros [] ?; cbn [wfields wdefault]; cbn in *; destruct_and?; repeat merge_field; cbn [merge_all];
          by rewrite ?as_bool_bit, ?as_i64_mod].

(** Well-formed payloads of each variant. *)
Abbreviation wf_as C := (fun m => Payload_wf (C m)) (only parsing).

#[export] Instance HandshakeRequest_laws : WireLaws HandshakeRequest_wire (wf_as PHandshakeRequest).
Proof. layout. Qed.
#[export] Instance HandshakeResponse_laws : WireLaws HandshakeResponse_wire (wf_as PHandshakeResponse).
Proof. layout. Qed.
#[export] Instance Ping_laws : WireLaws Ping_wire (wf_as PPing).
Proof. layout. Qed.
#[export] Instance Pong_laws : WireLaws Pong_wire (wf_as PPong).
Proof. layout. Qed.
#[export] Instance Vote_laws : WireLaws Vote_wire (wf_as PVote).
Proof. layout. Qed.
#[export] Instance Decided_laws : WireLaws Decided_wire (wf_as PDecided).
Proof. layout. Qed.
#[export] Instance StartPeriod_laws : WireLaws StartPeriod_wire (wf_as PStartPeriod).
Proof. layout. Qed.
#[export] Instance Rollback_laws : WireLaws Rollback_wire (wf_as PRollback).
Proof. layout. Qed.
#[export] Instance Proof_laws : WireLaws Proof_wire (wf_as PProof).
Proof. layout. Qed.
#[export] Instance NativeDecided_laws : WireLaws NativeDecided_wire (wf_as PNativeDecided).
Proof. layout. Qed.
#[export] Instance WsDecided_laws : WireLaws WsDecided_wire (wf_as PWsDecided).
Proof. layout. Qed.

#[export] Instance MailboxMessage_laws : WireLaws MailboxMessage_wire (wf_as PMailboxMessage).
Proof.
  split; [intros [] ?; cbn in *; destruct_and?; eauto 20 with layout nocore|].
  intros [s i a b u v l d] ?. cbn in *. destruct_and?. repeat merge_field.
  rewrite <- (list_fmap_id d) at 1.
  by apply (merge_repeated _ _ (fun d => mk_MailboxMessage s i a b u v l d)).
Qed.

#[export] Instance TransactionRequest_laws :
  WireLaws TransactionRequest_wire (fun t => u64_ok (ptr_chain_id t)).
Proof.
  split; [intros [] ?; cbn in *; eauto 20 with layout nocore|].
  intros [c l] ?. cbn in *. merge_field.
  rewrite <- (list_fmap_id l) at 1.
  by apply (merge_repeated _ _ (fun l => mk_TransactionRequest c l)).
Qed.

#[export] Instance XtRequest_laws : WireLaws XtRequest_wire XtRequest_wf.
Proof.
  split; [intros [] _; cbn; eauto with layout nocore|].
  intros [l] Hwf. unfold XtRequest_wf in Hwf. cbn [wfields XtRequest_wire pxt_transaction_requests] in *.
  apply (merge_repeated wmerge _ mk_XtRequest); [|done]. intros r l0 Hr.
  cbn [wmerge XtRequest_wire]. rewrite wdecode_encode; [done|].
  rewrite Forall_forall in Hwf. by apply Hwf.
Qed.

#[export] Instance StartInstance_laws : WireLaws StartInstance_wire (wf_as PStartInstance).
Proof.
  split.
  - intros [i p s r] ?. cbn in *. destruct_and?. apply ok_bytes, ok_uint64, ok_uint64; try done.
    destruct r; cbn; [|done]. constructor; [by split|done].
  - intros [i p s r] ?. cbn in *. destruct_and?. repeat merge_field.
    destruct r as [r|]; [|done]. pose proof (wdecode_encode (wf := XtRequest_wf) r) as Hr.
    unfold wdecode in Hr. cbn in Hr |- *. rewrite Hr; done.
Qed.

(** A payload is read back from its tag and bytes. *)
Lemma merge_payload_encode p :
  Payload_wf p -> merge_payload None (payload_field p).1 (payload_field p).2 = Some p.
Proof.
  intros Hwf. destruct p; cbn [payload_field merge_payload fst snd];
    match goal with |- ?C <$> wdecode_into _ (wencode ?m) = _ =>
      change (C <$> wdecode (wencode m) = Some (C m))
    end;
    first [by rewrite (wdecode_encode (wf := XtRequest_wf))
          |match goal with |- ?C <$> _ = _ => by rewrite (wdecode_encode (wf := wf_as C)) end].
Qed.

Lemma payload_field_tag p : 2 <= (payload_field p).1 <= 15.
Proof. destruct p; cbn; lia. Qed.

#[export] Instance Message_laws : WireLaws Message_wire Message_wf.
Proof.
  split; intros [s p] [Hs Hp]; cbn [msg_sender_id msg_payload from_option] in *.
  - apply ok_string; [done|]. cbn. destruct p as [p|]; [|done].
    constructor; [|done]. pose proof (payload_field_tag p). split; [cbn; lia|done].
  - cbn [wfields Message_wire]. merge_field. destruct p as [p|]; [|done].
    pose proof (payload_field_tag p) as Ht. pose proof (merge_payload_encode p Hp) as Hm.
    cbn [msg_payload]. destruct (payload_field p) as [t b]. cbn [fst snd] in *.
    assert ((2 <=? t) && (t <=? 15) = true) as Hrange by lia.
    destruct t as [|[q|q|]|]; try lia; cbn [merge_all wmerge Message_wire];
      rewrite Hrange, Hm; done.
Qed.

#[export] Instance prost_codec_laws : @ProstRoundtrip prost_codec.
Proof.
  intros m Hm. unfold decode, encode_to_vec, prost_codec.
  by rewrite (wdecode_encode (wf := Message_wf)).
Qed.

(** ** Decoded messages are well formed *)

Lemma as_i64_ok n : u64_ok n -> i64_ok (as_i64 n).
Proof.
  unfold u64_ok, i64_ok, as_i64, u64_modulus. intros Hn. destruct (Z.ltb_spec n (2 ^ 63)); lia.
Qed.

Lemma from_utf8_typed b s : from_utf8 b = Some s -> utf8_ok s.
Proof. intros [Hs _]%from_utf8_ok. by apply Is_true_true. Qed.

#[export] Hint Resolve as_i64_ok from_utf8_typed : typed.

(** The merge of a message: case by case on the field read. *)
Ltac typed_merge :=
  intros [] [t w] a' Hwf Hf Hm; cbn -[utf8_ok] in Hm, Hwf |- *; destruct_and?;
  repeat match type of Hm with
  | (?o ≫= _) = _ => let E := fresh "E" in destruct o eqn:E; cbn in Hm; [|done]
  | other _ _ _ = _ => unfold other in Hm
  | _ => case_match; try done
  end; simplify_eq; cbn -[utf8_ok]; split_and?; eauto with typed.

Ltac typed := split; [by cbn; split_and?|typed_merge].

#[export] Instance HandshakeRequest_typed : WireTyped HandshakeRequest_wire (wf_as PHandshakeRequest).
Proof. typed. Qed.
#[export] Instance HandshakeResponse_typed : WireTyped HandshakeResponse_wire (wf_as PHandshakeResponse).
Proof. typed. Qed.
#[export] Instance Ping_typed : WireTyped Ping_wire (wf_as PPing).
Proof. typed. Qed.
#[export] Instance Pong_typed : WireTyped Pong_wire (wf_as PPong).
Proof. typed. Qed.
#[export] Instance Vote_typed : WireTyped Vote_wire (wf_as PVote).
Proof. typed. Qed.
#[export] Instance Decided_typed : WireTyped Decided_wire (wf_as PDecided).
Proof. typed. Qed.
#[export] Instance MailboxMessage_typed : WireTyped MailboxMessage_wire (wf_as PMailboxMessage).
Proof. typed. Qed.
#[export] Instance StartPeriod_typed : WireTyped StartPeriod_wire (wf_as PStartPeriod).
Proof. typed. Qed.
#[export] Instance Rollback_typed : WireTyped Rollback_wire (wf_as PRollback).
Proof. typed. Qed.
#[export] Instance Proof_typed : WireTyped Proof_wire (wf_as PProof).
Proof. typed. Qed.
#[export] Instance NativeDecided_typed : WireTyped NativeDecided_wire (wf_as PNativeDecided).
Proof. typed. Qed.
#[export] Instance WsDecided_typed : WireTyped WsDecided_wire (wf_as PWsDecided).
Proof. typed. Qed.

#[export] Instance TransactionRequest_typed :
  WireTyped TransactionRequest_wire (fun t => u64_ok (ptr_chain_id t)).
Proof. typed. Qed.

#[export] Instance XtRequest_typed : WireTyped XtRequest_wire XtRequest_wf.
Proof.
  split; [by constructor|]. unfold XtRequest_wf. typed_merge. apply Forall_app. split; [done|].
  constructor; [|done]. by eapply (wdecode_into_typed (wf := fun t => u64_ok (ptr_chain_id t)) wdefault).
Qed.

#[export] Instance StartInstance_typed : WireTyped StartInstance_wire (wf_as PStartInstance).
Proof.
  split; [by cbn; split_and?|]. typed_merge.
  eapply (wdecode_into_typed (wf := XtRequest_wf)); [|done]. by destruct si_xt_request0; [|constructor].
Qed.

Lemma merge_payload_typed cur t b p :
  from_option Payload_wf True cur -> merge_payload cur t b = Some p -> Payload_wf p.
Proof.
  intros Hcur Hm.
  destruct t as [|q|q]; [done| |done]. destruct q as [[[[q|q|]|[q|q|]|]|[[q|q|]|[q|q|]|]|]|[[[q|q|]|[q|q|]|]|[[q|q|]|[q|q|]|]|]|];
    try done; cbn [merge_payload] in Hm;
    apply fmap_Some in Hm as (m' & Hm & ->);
    first [eapply (wdecode_into_typed (wf := XtRequest_wf)); [|exact Hm]
          |match goal with |- Payload_wf (?C _) => eapply (wdecode_into_typed (wf := wf_as C)) end;
           [|exact Hm]];
    destruct cur as [[]|]; try done; by apply wdefault_typed.
Qed.

#[export] Instance Message_typed : WireTyped Message_wire Message_wf.
Proof.
  split; [done|]. intros [s p] [t w] a' [Hs Hp] Hf Hm. cbn [msg_sender_id msg_payload] in *.
  assert ((exists b v, from_utf8 b = Some v /\ a' = mk_Message v p) \/
    (exists b p', merge_payload p t b = Some p' /\ a' = mk_Message s (Some p')) \/
    a' = mk_Message s p) as [(b & v & Hv & ->)|[(b & p' & Hp' & ->)| -> ]].
  { cbn [wmerge Message_wire] in Hm. destruct (decide (t = 1)) as [->|Ht].
    - destruct w as [n|b|b|b]; try done. destruct (from_utf8 b) eqn:Hb; [|done]. injection Hm as <-. eauto 10.
    - assert (Hm' : (if (2 <=? t) && (t <=? 15) then
          match w with Len b => p' ← merge_payload p t b; Some (mk_Message s (Some p')) | _ => None end
        else other 1 (mk_Message s p) t) = Some a') by (by destruct t as [|[]|]).
      destruct (_ && _).
      + destruct w; try done. destruct (merge_payload p t b) eqn:Hb; [|done]. injection Hm' as <-. eauto 10.
      + unfold other in Hm'. case_match; [done|]. injection Hm' as <-. auto. }
  - split; [by eapply from_utf8_typed|done].
  - split; [done|]. by eapply merge_payload_typed.
  - done.
Qed.

#[export] Instance prost_codec_typed : @ProstTyped prost_codec.
Proof.
  intros data m. unfold decode, prost_codec, wdecode.
  destruct (wdecode_into wdefault data) as [m'|] eqn:Hd; [|done]. intros [= <-].
  eapply (wdecode_into_typed (wf := Message_wf)); [|exact Hd]. by apply wdefault_typed.
Qed.

(** Fields of no struct. *)
Definition unknown_field (f : Z * wire) : Prop := field_ok f /\ 15 < f.1.

Lemma merge_unknown (m : Message) fs : Forall unknown_field fs -> merge_all wmerge m fs = Some m.
Proof.
  induction 1 as [|[t w] fs [_ Ht] _ IH]; [done|]. cbn [fst] in Ht. destruct m as [s p].
  assert ((2 <=? t) && (t <=? 15) = false) as Hrange by lia.
  assert (other 1 (mk_Message s p) t = Some (mk_Message s p)) as Hother
    by (unfold other; by rewrite (proj2 (Z.leb_gt _ _)) by lia).
  destruct t as [|[q|q|]|]; try lia; cbn [merge_all wmerge Message_wire];
    rewrite Hrange, Hother; exact IH.
Qed.

Lemma decode_encode_extra m extra :
  Message_wf m -> Forall unknown_field extra ->
  @decode prost_codec (@encode_to_vec prost_codec m ++ put_fields extra) = Ok m.
Proof.
  intros Hm Hextra. unfold decode, encode_to_vec, prost_codec, wdecode, wdecode_into, wencode.
  rewrite <- put_fields_app, parse_put_fields.
  - cbn [mbind option_bind]. rewrite merge_all_app, (wfields_merge (wf := Message_wf)) by done.
    cbn [mbind option_bind]. by rewrite merge_unknown.
  - apply Forall_app. split; [by apply (wfields_ok (wf := Message_wf))|].
    eapply Forall_impl; [exact Hextra|]. by intros f [? _].
Qed.

(** Wire round trip: the codec that the field attributes of the messages describe (the
    tags and types of the structs, default values omitted, in the Protocol Buffers wire
    format) reads back every well-formed message it writes, whatever its variant, also
    when a newer peer has added fields with tags this version does not know. And whatever
    bytes it accepts, from any peer, it reads as a well-formed message (numbers in range,
    strings of UTF-8), which it can therefore relay without loss. So the assumptions on
    [prost] the other theorems rest on hold of this codec. *)
Theorem prost_codec_roundtrip :
  (forall m extra, Message_wf m -> Forall unknown_field extra ->
     @decode prost_codec (@encode_to_vec prost_codec m ++ put_fields extra) = Ok m) /\
  (forall data m, @decode prost_codec data = Ok m ->
     Message_wf m /\ @decode prost_codec (@encode_to_vec prost_codec m) = Ok m).
Proof.
  split; [apply decode_encode_extra|]. intros data m Hm%prost_codec_typed. split; [done|].
  rewrite <- (app_nil_r (encode_to_vec m)). by apply (decode_encode_extra m []).
Qed.

Lemma prost_codec_roundtrip_witness :
  @decode prost_codec
    (@encode_to_vec prost_codec (mk_Message "1-sidecar" (Some (PVote (mk_Vote (replicate 32 x07) 1 true))))
       ++ put_fields [(16, Varint 300)]) =
    Ok (mk_Message "1-sidecar" (Some (PVote (mk_Vote (replicate 32 x07) 1 true)))).
Proof.
  apply (proj1 prost_codec_roundtrip); [by_compute|]. constructor; [by_compute|constructor].
Defined.

(** The bytes of a [Ping], as the format prescribes. *)
Example ping_bytes :
  @encode_to_vec prost_codec (mk_Message "a" (Some (PPing (mk_Ping 300)))) =
    [x0a; x01; x61; x22; x03; x08; xac; x02].
Proof. by vm_compute. Qed.
