(* ===== verification/SbcpPublisher.v ===== *)
(** * The SBCP publisher ([crates/spec-sbcp/src/publisher.rs])

    [PublisherState] is the content of the mutex; every public operation is a function
    from it to the new state, the messages handed to the messenger, the prover and L1,
    in order, and the returned [Result]. [receive_proof] releases the mutex while the
    prover runs: it is the composition of two critical sections
    ([receive_proof_collect] and [receive_proof_finish]), which [pub_step] lets other
    calls separate. *)
From Stdlib Require Import ZArith Lia.
From S2P Require Import Prelude Spec InstanceIdGen.

(** ** Data *)

Inductive PublisherError :=
| CannotStartInstance
| CannotStartPeriod (target expected : Z)
| ChainNotActive
| OldSettledState
| InvalidRequest
| InvalidInitialState.

(** Calls made through the traits [PublisherMessenger], [PublisherProver], [L1Publisher]. *)
Inductive pub_event :=
| BroadcastStartPeriod (period_id : PeriodId) (target_superblock_number : SuperblockNumber)
| BroadcastRollback (period_id : PeriodId) (superblock_number : SuperblockNumber)
    (superblock_hash : SuperblockHash)
| RequestSuperblockProof (superblock_number : SuperblockNumber)
    (last_superblock_hash : SuperblockHash) (proofs : list bytes)
| PublishProof (superblock_number : SuperblockNumber) (proof : bytes).

Record PublisherState := mk_PublisherState {
  ps_period_id : PeriodId;
  ps_target_superblock_number : SuperblockNumber;
  ps_last_finalized_superblock_number : SuperblockNumber;
  ps_last_finalized_superblock_hash : SuperblockHash;
  ps_proofs : gmap Z (gmap Z bytes);
  ps_chains : gset Z;
  ps_sequence_number : SequenceNumber;
  ps_active_chains : gmap Z bool;
  ps_proof_window : Z;
}.

Definition ps_set_proofs (m : gmap Z (gmap Z bytes)) (st : PublisherState) : PublisherState :=
  mk_PublisherState (ps_period_id st) (ps_target_superblock_number st)
    (ps_last_finalized_superblock_number st) (ps_last_finalized_superblock_hash st) m
    (ps_chains st) (ps_sequence_number st) (ps_active_chains st) (ps_proof_window st).

Definition ps_set_active_chains (m : gmap Z bool) (st : PublisherState) : PublisherState :=
  mk_PublisherState (ps_period_id st) (ps_target_superblock_number st)
    (ps_last_finalized_superblock_number st) (ps_last_finalized_superblock_hash st)
    (ps_proofs st) (ps_chains st) (ps_sequence_number st) m (ps_proof_window st).

Definition ps_set_sequence_number (n : Z) (st : PublisherState) : PublisherState :=
  mk_PublisherState (ps_period_id st) (ps_target_superblock_number st)
    (ps_last_finalized_superblock_number st) (ps_last_finalized_superblock_hash st)
    (ps_proofs st) (ps_chains st) n (ps_active_chains st) (ps_proof_window st).

(** ** Operations *)

Definition new (previous_period_id : PeriodId)
    (previous_target_superblock_number last_finalized_superblock_number : SuperblockNumber)
    (last_finalized_superblock_hash : SuperblockHash) (proof_window : Z) (chains : gset Z)
    : result PublisherState PublisherError :=
  if previous_target_superblock_number <? last_finalized_superblock_number
  then Err InvalidInitialState
  else Ok (mk_PublisherState previous_period_id previous_target_superblock_number
             last_finalized_superblock_number last_finalized_superblock_hash ∅ chains 0 ∅
             proof_window).

Definition start_period (st : PublisherState)
    : PublisherState * list pub_event * result unit PublisherError :=
  let target := ps_target_superblock_number st in
  let finalized := ps_last_finalized_superblock_number st in
  let next_superblock := target +! 1 in
  let limit := finalized +! (1 +! ps_proof_window st) in
  if negb (ps_proof_window st =? 0) && (limit <? next_superblock) then
    (st, [], Err (CannotStartPeriod target (finalized +! 1)))
  else
    let period_id := ps_period_id st +! 1 in
    (mk_PublisherState period_id next_superblock finalized
       (ps_last_finalized_superblock_hash st) (ps_proofs st) (ps_chains st) 0
       (ps_active_chains st) (ps_proof_window st),
     [BroadcastStartPeriod period_id next_superblock], Ok ()).

(** The checks of [receive_proof] that precede the duplicate check. *)
Definition receive_proof_admissible (st : PublisherState) (period_id : PeriodId)
    (superblock_number : SuperblockNumber) : bool :=
  let finalized := ps_last_finalized_superblock_number st in
  let target := ps_target_superblock_number st in
  if superblock_number <=? finalized then false
  else if target <=? superblock_number then false
  else if negb (superblock_number =? finalized +! 1) then false
  else
    let period_diff := target -! superblock_number in
    let expected_period := ps_period_id st -! period_diff in
    period_id =? expected_period.

(** The first critical section of [receive_proof]: up to [drop(state)]. [values] is the
    iteration order of the inner [HashMap]. Returns the prover call to make, if any. *)
Definition receive_proof_collect (values : gmap Z bytes -> list bytes) (st : PublisherState)
    (period_id : PeriodId) (superblock_number : SuperblockNumber) (proof : bytes)
    (chain_id : ChainId)
    : PublisherState * option (SuperblockNumber * SuperblockHash * list bytes) :=
  if receive_proof_admissible st period_id superblock_number then
    let sb_proofs := default ∅ (ps_proofs st !! superblock_number) in
    if decide (is_Some (sb_proofs !! chain_id)) then
      (ps_set_proofs (<[superblock_number := sb_proofs]> (ps_proofs st)) st, None)
    else
      let sb_proofs' := <[chain_id := proof]> sb_proofs in
      let st' := ps_set_proofs (<[superblock_number := sb_proofs']> (ps_proofs st)) st in
      let total_chains := size (ps_chains st) in
      let received_proofs := size sb_proofs' in
      if (received_proofs <? total_chains)%nat then (st', None)
      else (st', Some (superblock_number, ps_last_finalized_superblock_hash st,
                       values sb_proofs'))
  else (st, None).

Definition rollback (st : PublisherState) : PublisherState * list pub_event :=
  let finalized := ps_last_finalized_superblock_number st in
  (mk_PublisherState (ps_period_id st) (finalized +! 1) finalized
     (ps_last_finalized_superblock_hash st) ∅ (ps_chains st) 0 ∅ (ps_proof_window st),
   [BroadcastRollback (ps_period_id st) finalized (ps_last_finalized_superblock_hash st)]).

(** What follows the prover's answer. *)
Definition receive_proof_finish (st : PublisherState) (superblock_number : SuperblockNumber)
    (answer : result bytes string) : PublisherState * list pub_event :=
  match answer with
  | Ok network_proof =>
      (ps_set_proofs (delete superblock_number (ps_proofs st)) st,
       [PublishProof superblock_number network_proof])
  | Err _ => rollback st
  end.

(** The whole call, when no other call runs while the prover works. *)
Definition receive_proof (values : gmap Z bytes -> list bytes)
    (prover : SuperblockNumber -> SuperblockHash -> list bytes -> result bytes string)
    (st : PublisherState) (period_id : PeriodId) (superblock_number : SuperblockNumber)
    (proof : bytes) (chain_id : ChainId) : PublisherState * list pub_event :=
  match receive_proof_collect values st period_id superblock_number proof chain_id with
  | (st', None) => (st', [])
  | (st', Some (sb, hash, proofs)) =>
      let '(st'', evs) := receive_proof_finish st' sb (prover sb hash proofs) in
      (st'', RequestSuperblockProof sb hash proofs :: evs)
  end.

Definition any_chain_already_active (active_chains : gmap Z bool) (chains : list ChainId) : bool :=
  existsb (fun c => default false (active_chains !! c)) chains.

Definition start_instance `{Sha2} (st : PublisherState) (request : XtRequest)
    : PublisherState * result Instance_ PublisherError :=
  if (length (xt_transactions request) <? 2)%nat then (st, Err InvalidRequest)
  else
    let chains := chains_from_request request in
    if any_chain_already_active (ps_active_chains st) chains then (st, Err CannotStartInstance)
    else
      let seq := ps_sequence_number st +! 1 in
      let instance :=
        mk_Instance (generate_instance_id (ps_period_id st) seq request)
          (ps_period_id st) seq request in
      let active := foldl (fun m c => <[c := true]> m) (ps_active_chains st) chains in
      (ps_set_active_chains active (ps_set_sequence_number seq st), Ok instance).

Definition decide_instance (st : PublisherState) (instance : Instance_)
    : PublisherState * result unit PublisherError :=
  let chains := Instance_chains instance in
  if forallb (fun c => bool_decide (is_Some (ps_active_chains st !! c))) chains then
    (ps_set_active_chains (foldl (fun m c => delete c m) (ps_active_chains st) chains) st, Ok ())
  else (st, Err ChainNotActive).

Definition advance_settled_state (st : PublisherState) (superblock_number : SuperblockNumber)
    (superblock_hash : SuperblockHash) : PublisherState * result unit PublisherError :=
  if superblock_number <=? ps_last_finalized_superblock_number st then (st, Err OldSettledState)
  else
    (mk_PublisherState (ps_period_id st) (ps_target_superblock_number st) superblock_number
       superblock_hash (ps_proofs st) (ps_chains st) (ps_sequence_number st)
       (ps_active_chains st) (ps_proof_window st), Ok ()).

Definition proof_timeout (st : PublisherState) : PublisherState * list pub_event := rollback st.

Definition target_superblock_number (st : PublisherState) : SuperblockNumber :=
  ps_target_superblock_number st.

Definition proofs_for (st : PublisherState) (sb : SuperblockNumber) : option (gmap Z bytes) :=
  ps_proofs st !! sb.

(** ** Periods *)

(** All numbers of a state are [u64] values. *)
Definition ps_ok (st : PublisherState) : Prop :=
  u64_ok (ps_period_id st) /\ u64_ok (ps_target_superblock_number st) /\
  u64_ok (ps_last_finalized_superblock_number st) /\ u64_ok (ps_sequence_number st) /\
  u64_ok (ps_proof_window st).

#[export] Instance ps_ok_dec st : Decision (ps_ok st).
Proof. unfold ps_ok. apply _. Defined.

(** Away from the ends of [u64], [start_period] succeeds exactly when the proof window
    is disabled or the next superblock is within [proof_window + 1] of the last finalized
    one; it then advances period and target by one, resets the sequence counter, announces
    exactly that period and leaves everything else alone. Otherwise nothing changes,
    nothing is announced and the error names the target and the superblock awaited. *)
Theorem start_period_spec st :
  ps_ok st -> ps_period_id st + 1 < u64_modulus ->
  ps_target_superblock_number st + 1 < u64_modulus ->
  ps_last_finalized_superblock_number st + 1 + ps_proof_window st < u64_modulus ->
  let target := ps_target_superblock_number st in
  let finalized := ps_last_finalized_superblock_number st in
  let window := ps_proof_window st in
  start_period st =
    if bool_decide (window = 0 \/ target + 1 <= finalized + 1 + window) then
      (mk_PublisherState (ps_period_id st + 1) (target + 1) finalized
         (ps_last_finalized_superblock_hash st) (ps_proofs st) (ps_chains st) 0
         (ps_active_chains st) window,
       [BroadcastStartPeriod (ps_period_id st + 1) (target + 1)], Ok ())
    else (st, [], Err (CannotStartPeriod target (finalized + 1))).
Proof.
  intros (Hp & Ht & Hf & _ & Hw) Hpb Htb Hfb target finalized window.
  unfold start_period. fold target finalized window.
  assert (finalized +! (1 +! window) = finalized + 1 + window) as -> by u64_lia.
  replace (target +! 1) with (target + 1) by u64_lia.
  replace (ps_period_id st +! 1) with (ps_period_id st + 1) by u64_lia.
  replace (finalized +! 1) with (finalized + 1) by u64_lia.
  destruct (Z.eqb_spec window 0) as [Hz|Hz]; cbn [negb andb].
  - by rewrite bool_decide_true by tauto.
  - destruct (Z.ltb_spec (finalized + 1 + window) (target + 1)).
    + by rewrite bool_decide_false by lia.
    + by rewrite bool_decide_true by lia.
Qed.

(** Shared test state: chains 1 and 2, period 10, target 5, finalized 5. *)
Definition sample_state (window : Z) : PublisherState :=
  mk_PublisherState 10 5 5 (replicate 32 x01) ∅ {[1; 2]} 0 ∅ window.

Lemma start_period_spec_witness :
  start_period (sample_state 1) =
    (mk_PublisherState 11 6 5 (replicate 32 x01) ∅ {[1; 2]} 0 ∅ 1,
     [BroadcastStartPeriod 11 6], Ok ()).
Proof.
  etransitivity; [apply (start_period_spec (sample_state 1)); by_compute|].
  by vm_compute.
Defined.

(** The window check is computed with wrapping arithmetic: a [proof_window] of
    [u64::MAX] makes [1 + proof_window] zero, so no period can ever be started although
    nothing is outstanding. *)
Theorem start_period_window_overflow st :
  ps_ok st -> ps_proof_window st = u64_max ->
  ps_last_finalized_superblock_number st <= ps_target_superblock_number st ->
  ps_target_superblock_number st + 1 < u64_modulus ->
  exists expected,
    start_period st =
      (st, [], Err (CannotStartPeriod (ps_target_superblock_number st) expected)).
Proof.
  intros (Hp & Ht & Hf & _ & Hw) Hwin Hle Hb. unfold start_period. rewrite Hwin.
  change (1 +! u64_max) with 0.
  rewrite (u64_add_exact (ps_last_finalized_superblock_number st) 0) by u64_lia.
  rewrite (u64_add_exact (ps_target_superblock_number st) 1) by u64_lia.
  rewrite (proj2 (Z.ltb_lt _ _)) by lia. by eexists.
Qed.

Lemma start_period_window_overflow_witness :
  exists expected,
    start_period (sample_state u64_max) =
      (sample_state u64_max, [], Err (CannotStartPeriod 5 expected)).
Proof.
  apply (start_period_window_overflow (sample_state u64_max)); [by_compute|reflexivity|..];
    by_compute.
Defined.

(** ** Proof collection *)

(** The iteration order of a [HashMap] is some order of its values. *)
Definition values_order (values : gmap Z bytes -> list bytes) : Prop :=
  forall m, values m ≡ₚ (map_to_list m).*2.

Definition map_values (m : gmap Z bytes) : list bytes := (map_to_list m).*2.

Lemma map_values_order : values_order map_values.
Proof. by intros m. Qed.

Lemma receive_proof_admissible_spec st period_id sb :
  ps_ok st -> ps_last_finalized_superblock_number st + 1 < u64_modulus ->
  receive_proof_admissible st period_id sb = true <->
  sb = ps_last_finalized_superblock_number st + 1 /\ sb < ps_target_superblock_number st /\
  period_id = ps_period_id st -! (ps_target_superblock_number st - sb).
Proof.
  intros (Hp & Ht & Hf & _) Hb. unfold receive_proof_admissible.
  rewrite (u64_add_exact _ 1) by u64_lia.
  destruct (Z.leb_spec sb (ps_last_finalized_superblock_number st)); [split; [done|lia]|].
  destruct (Z.leb_spec (ps_target_superblock_number st) sb); [split; [done|lia]|].
  destruct (Z.eqb_spec sb (ps_last_finalized_superblock_number st + 1)); cbn [negb];
    [|split; [done|lia]].
  rewrite (u64_sub_exact (ps_target_superblock_number st) sb) by u64_lia.
  rewrite Z.eqb_eq. naive_solver.
Qed.

(** Proofs come only from member chains. *)
Definition proofs_from_members (st : PublisherState) : Prop :=
  forall sb m, ps_proofs st !! sb = Some m -> dom m ⊆ ps_chains st.

Lemma members_complete (X C : gset Z) : X ⊆ C -> (size C <= size X)%nat -> X = C.
Proof. intros Hsub Hsz. by apply set_subseteq_size_eq. Qed.

(** The proofs already held for a superblock. *)
Definition held_proofs (st : PublisherState) (sb : SuperblockNumber) : gmap Z bytes :=
  default ∅ (ps_proofs st !! sb).

Lemma held_proofs_members st sb :
  proofs_from_members st -> dom (held_proofs st sb) ⊆ ps_chains st.
Proof.
  intros Hmem. unfold held_proofs.
  destruct (ps_proofs st !! sb) as [m|] eqn:E; [by eapply Hmem|]. cbn. set_solver.
Qed.

Lemma set_proofs_members st sb m :
  proofs_from_members st -> dom m ⊆ ps_chains st ->
  proofs_from_members (ps_set_proofs (<[sb := m]> (ps_proofs st)) st).
Proof.
  intros Hmem Hm sb' m'. cbn. rewrite lookup_insert. case_decide; [by intros [= <-]|apply Hmem].
Qed.

Lemma receive_proof_collect_members values st p sb proof c :
  proofs_from_members st -> c ∈ ps_chains st ->
  proofs_from_members (receive_proof_collect values st p sb proof c).1.
Proof.
  intros Hmem Hc. pose proof (held_proofs_members st sb Hmem) as Hheld.
  unfold held_proofs in Hheld. unfold receive_proof_collect.
  destruct (receive_proof_admissible st p sb); [|done].
  case_decide; [|case_match]; cbn [fst]; apply set_proofs_members; try done;
    rewrite dom_insert; set_solver.
Qed.

(** Member proofs are complete as soon as there are as many as chains. *)
Lemma members_count st sb c proof :
  proofs_from_members st -> c ∈ ps_chains st ->
  (size (<[c := proof]> (held_proofs st sb)) <? size (ps_chains st))%nat = false <->
  {[c]} ∪ dom (held_proofs st sb) = ps_chains st.
Proof.
  intros Hmem Hc. pose proof (held_proofs_members st sb Hmem).
  rewrite Nat.ltb_ge, <- (size_dom (<[c:=proof]> _)), dom_insert_L.
  split; [|by intros ->]. intros Hsz. apply members_complete; [set_solver|done].
Qed.

(** C22. When only member chains send proofs, the prover is asked for a superblock exactly
    when an admissible proof from a chain not heard before makes the set of contributing
    chains equal to the set of member chains; the request then carries the hash of the
    last finalized superblock and the proofs held, the new one included, each exactly
    once. In every other case no request is made. *)
Theorem prover_called_iff_complete values st p sb proof c :
  values_order values -> proofs_from_members st -> c ∈ ps_chains st ->
  let held := held_proofs st sb in
  (receive_proof_collect values st p sb proof c).2 =
    (if bool_decide (receive_proof_admissible st p sb = true /\ held !! c = None /\
  {[c]} ∪ dom held = ps_chains st)
     then Some (sb, ps_last_finalized_superblock_hash st, values (<[c := proof]> held))
     else None) /\
  (held !! c = None -> values (<[c := proof]> held) ≡ₚ proof :: (map_to_list held).*2).
Proof.
  intros Hv Hmem Hc held. split.
  - pose proof (members_count st sb c proof Hmem Hc) as Hcount. fold held in Hcount.
    unfold receive_proof_collect. fold (held_proofs st sb). fold held.
    destruct (receive_proof_admissible st p sb); [|by rewrite bool_decide_false by (by intros [? _])].
    destruct (held !! c) eqn:E.
    { rewrite decide_True by eauto. by rewrite bool_decide_false by naive_solver. }
    rewrite decide_False by (by intros [? ?]). cbn zeta.
    destruct (size _ <? size _)%nat; cbn [snd].
    + by rewrite bool_decide_false by naive_solver.
    + by rewrite bool_decide_true by naive_solver.
  - intros Hn. unfold values_order in Hv. rewrite Hv. by rewrite map_to_list_insert.
Qed.

(** After two periods, chain 1 has proved superblock 6. *)
Definition sample_collecting : PublisherState :=
  mk_PublisherState 12 7 5 (replicate 32 x01) {[6 := {[1 := [xaa]]}]} {[1; 2]} 0 ∅ 0.

Lemma sample_collecting_members : proofs_from_members sample_collecting.
Proof.
  intros sb m. cbn. intros [<- <-]%lookup_singleton_Some. set_solver.
Qed.

Lemma prover_called_iff_complete_witness :
  (receive_proof_collect map_values sample_collecting 11 6 [xbb] 2).2 =
    Some (6, replicate 32 x01, map_values (<[2 := [xbb]]> {[1 := [xaa]]})).
Proof.
  etransitivity;
    [apply (prover_called_iff_complete map_values sample_collecting 11 6 [xbb] 2
      map_values_order sample_collecting_members); by_compute|].
  by vm_compute.
Defined.

(** The completeness test only counts: a proof from a chain outside the configured set
    is stored like any other and lets the prover be called while a member chain has not
    contributed at all. *)
Theorem foreign_chain_completes_set values proof :
  let res := receive_proof_collect values sample_collecting 11 6 proof 99 in
  (99 ∉ ps_chains res.1) /\ is_Some res.2 /\
  exists m, ps_proofs res.1 !! 6 = Some m /\ m !! 99 = Some proof /\
    2 ∈ ps_chains res.1 /\ m !! 2 = None.
Proof.
  split_and!; [by_compute|by eexists|].
  eexists. split_and!; [reflexivity|by vm_compute|by_compute|by vm_compute].
Qed.

(** ** Interleaved runs *)

(** The state with what a run adds to it: the instances started and neither decided nor
    rolled back, the prover calls under way, and the calls made so far. *)
Record pub_world := mk_pub_world {
  pw_state : PublisherState;
  pw_live : list Instance_;
  pw_inflight : list (SuperblockNumber * SuperblockHash * list bytes);
  pw_trace : list pub_event;
}.

Section runs.
Context `{Sha2} (values : gmap Z bytes -> list bytes).

(** One critical section of some caller, in any order and number, as far as decisions are of
    instances still under way. *)
Inductive pub_step_due (w : pub_world) : pub_world -> Prop :=
| step_start_period st' evs r :
    start_period (pw_state w) = (st', evs, r) ->
    pub_step_due w (mk_pub_world st' (pw_live w) (pw_inflight w) (pw_trace w ++ evs))
| step_start_instance request st' i :
    start_instance (pw_state w) request = (st', Ok i) ->
    pub_step_due w (mk_pub_world st' (i :: pw_live w) (pw_inflight w) (pw_trace w))
| step_start_instance_err request st' e :
    start_instance (pw_state w) request = (st', Err e) ->
    pub_step_due w (mk_pub_world st' (pw_live w) (pw_inflight w) (pw_trace w))
| step_decide_instance l1 i l2 st' :
    pw_live w = l1 ++ i :: l2 -> decide_instance (pw_state w) i = (st', Ok ()) ->
    pub_step_due w (mk_pub_world st' (l1 ++ l2) (pw_inflight w) (pw_trace w))
| step_receive_proof p sb proof c st' :
    receive_proof_collect values (pw_state w) p sb proof c = (st', None) ->
    pub_step_due w (mk_pub_world st' (pw_live w) (pw_inflight w) (pw_trace w))
| step_request_proof p sb proof c st' h proofs :
    receive_proof_collect values (pw_state w) p sb proof c = (st', Some (sb, h, proofs)) ->
    pub_step_due w (mk_pub_world st' (pw_live w) ((sb, h, proofs) :: pw_inflight w)
                  (pw_trace w ++ [RequestSuperblockProof sb h proofs]))
| step_prover_answer l1 sb h proofs l2 answer st' evs :
    pw_inflight w = l1 ++ (sb, h, proofs) :: l2 ->
    receive_proof_finish (pw_state w) sb answer = (st', evs) ->
    pub_step_due w (mk_pub_world st' (if is_ok answer then pw_live w else [])
                  (l1 ++ l2) (pw_trace w ++ evs))
| step_advance_settled sb h st' r :
    advance_settled_state (pw_state w) sb h = (st', r) ->
    pub_step_due w (mk_pub_world st' (pw_live w) (pw_inflight w) (pw_trace w))
| step_proof_timeout st' evs :
    proof_timeout (pw_state w) = (st', evs) ->
    pub_step_due w (mk_pub_world st' [] (pw_inflight w) (pw_trace w ++ evs)).

(** Every critical section: [decide_instance] takes any instance, also one that was never
    started, was decided before or was dropped by a rollback. *)
Inductive pub_step (w : pub_world) : pub_world -> Prop :=
| step_due w' : pub_step_due w w' -> pub_step w w'
| step_decide_stale i st' :
    i ∉ pw_live w -> decide_instance (pw_state w) i = (st', Ok ()) ->
    pub_step w (mk_pub_world st' (pw_live w) (pw_inflight w) (pw_trace w))
| step_decide_refused i st' e :
    decide_instance (pw_state w) i = (st', Err e) ->
    pub_step w (mk_pub_world st' (pw_live w) (pw_inflight w) (pw_trace w)).

Definition pub_initial (w : pub_world) : Prop :=
  (exists p t f h win cs, new p t f h win cs = Ok (pw_state w)) /\
  pw_live w = [] /\ pw_inflight w = [] /\ pw_trace w = [].

(** Chains are marked active exactly for the instances under way, and no chain takes part
    in two of them. *)
Definition exclusive (st : PublisherState) (live : list Instance_) : Prop :=
  NoDup (live ≫= Instance_chains) /\
  forall c, ps_active_chains st !! c =
    if decide (c ∈ live ≫= Instance_chains) then Some true else None.

Lemma any_chain_already_active_false active chains :
  any_chain_already_active active chains = false <->
  forall c, c ∈ chains -> default false (active !! c) = false.
Proof.
  unfold any_chain_already_active. rewrite <- not_true_iff_false, existsb_exists.
  setoid_rewrite <- list_elem_of_In. split.
  - intros H' c Hc. apply not_true_iff_false. eauto.
  - intros Hall (c & Hc & Ht). by rewrite Hall in Ht.
Qed.

Lemma start_instance_Ok st request st' i :
  start_instance st request = (st', Ok i) ->
  (2 <= length (xt_transactions request))%nat /\
  (forall c, c ∈ chains_from_request request -> default false (ps_active_chains st !! c) = false) /\
  i = mk_Instance (generate_instance_id (ps_period_id st) (ps_sequence_number st +! 1) request)
        (ps_period_id st) (ps_sequence_number st +! 1) request /\
  st' = ps_set_active_chains
          (foldl (fun m c => <[c := true]> m) (ps_active_chains st) (chains_from_request request))
          (ps_set_sequence_number (ps_sequence_number st +! 1) st).
Proof.
  unfold start_instance. destruct (Nat.ltb_spec (length (xt_transactions request)) 2); [done|].
  destruct (any_chain_already_active _ _) eqn:E; [done|].
  rewrite any_chain_already_active_false in E. intros [= <- <-]. done.
Qed.

Lemma start_instance_Err st request st' e :
  start_instance st request = (st', Err e) -> st' = st.
Proof. unfold start_instance. repeat case_match; congruence. Qed.

Lemma exclusive_start st live request st' i :
  exclusive st live -> start_instance st request = (st', Ok i) -> exclusive st' (i :: live).
Proof.
  intros [Hnd Hact] (_ & Hfree & -> & ->)%start_instance_Ok.
  assert (forall c, c ∈ chains_from_request request -> c ∉ live ≫= Instance_chains) as Hdisj.
  { intros c Hc Hin. specialize (Hfree c Hc). by rewrite Hact, decide_True in Hfree. }
  split.
  - rewrite NoDup_bind_cons_inv. split_and!; [apply NoDup_chains_from_request|done|done].
  - intros c. cbn [ps_set_active_chains ps_active_chains ps_set_sequence_number].
    rewrite lookup_foldl_insert, Hact, bind_cons. unfold Instance_chains at 2.
    cbn [inst_xt_request]. repeat case_decide; set_solver.
Qed.

Lemma decide_live_ok st l1 i l2 :
  exclusive st (l1 ++ i :: l2) ->
  decide_instance st i =
    (ps_set_active_chains
       (foldl (fun m c => delete c m) (ps_active_chains st) (Instance_chains i)) st, Ok ()).
Proof.
  intros [_ Hact]. unfold decide_instance.
  rewrite (proj2 (forallb_forall _ _)); [done|].
  intros c Hc%list_elem_of_In. apply bool_decide_true. rewrite Hact, decide_True; [eauto|].
  rewrite bind_app, bind_cons. set_solver.
Qed.

Lemma exclusive_decide st l1 i l2 st' :
  exclusive st (l1 ++ i :: l2) -> decide_instance st i = (st', Ok ()) -> exclusive st' (l1 ++ l2).
Proof.
  intros Hex. rewrite (decide_live_ok _ _ _ _ Hex). intros [= <-].
  destruct Hex as [Hnd Hact]. rewrite bind_app, bind_cons in Hnd.
  assert (Instance_chains i ++ ((l1 ++ l2) ≫= Instance_chains) ≡ₚ
    (l1 ≫= Instance_chains) ++ Instance_chains i ++ (l2 ≫= Instance_chains)) as Hperm.
  { rewrite bind_app. by rewrite Permutation_app_swap_app. }
  rewrite <- Hperm, NoDup_app in Hnd. destruct Hnd as (Hndi & Hdisj & Hnd).
  split; [done|]. intros c. cbn [ps_set_active_chains ps_active_chains].
  rewrite lookup_foldl_delete, Hact, bind_app, bind_cons, bind_app.
  rewrite bind_app in Hdisj. repeat case_decide; set_solver.
Qed.

Lemma exclusive_active st st' live :
  ps_active_chains st' = ps_active_chains st -> exclusive st live -> exclusive st' live.
Proof. intros E [Hnd Hact]. split; [done|]. by rewrite E. Qed.

Lemma exclusive_nil st : ps_active_chains st = ∅ -> exclusive st [].
Proof. intros E. split; [constructor|]. intros c. by rewrite E. Qed.

Lemma collect_active st p sb proof c :
  ps_active_chains (receive_proof_collect values st p sb proof c).1 = ps_active_chains st.
Proof. unfold receive_proof_collect. repeat case_match; done. Qed.

Lemma pub_step_exclusive w w' :
  pub_step_due w w' -> exclusive (pw_state w) (pw_live w) -> exclusive (pw_state w') (pw_live w').
Proof.
  intros Hstep Hex. destruct Hstep as
    [st' evs r E|req st' i E|req st' e E|l1 i l2 st' Hl E|p sb pf c st' E
    |p sb pf c st' h ps E|l1 sb h ps l2 a st' evs Hi E|sb h st' r E|st' evs E]; cbn.
  - eapply exclusive_active; [|done]. revert E. unfold start_period.
    case_match; by intros [= <- <- <-].
  - by eapply exclusive_start.
  - by apply start_instance_Err in E as ->.
  - rewrite Hl in Hex. by eapply exclusive_decide.
  - eapply exclusive_active; [|done]. by rewrite <- (collect_active (pw_state w) p sb pf c), E.
  - eapply exclusive_active; [|done]. by rewrite <- (collect_active (pw_state w) p sb pf c), E.
  - destruct a; injection E as <- <-; [by eapply exclusive_active|by apply exclusive_nil].
  - eapply exclusive_active; [|done]. revert E. unfold advance_settled_state.
    case_match; by intros [= <- <-].
  - injection E as <- <-. by apply exclusive_nil.
Qed.

Lemma new_Ok p t f h win cs st :
  new p t f h win cs = Ok st -> f <= t /\ st = mk_PublisherState p t f h ∅ cs 0 ∅ win.
Proof.
  unfold new. destruct (Z.ltb_spec t f); [done|]. by intros [= <-].
Qed.

Lemma pub_initial_exclusive w : pub_initial w -> exclusive (pw_state w) (pw_live w).
Proof.
  intros [(p & t & f & h & win & cs & E) [-> _]]. apply new_Ok in E as [_ ->].
  by apply exclusive_nil.
Qed.

Lemma reachable_exclusive w0 w :
  pub_initial w0 -> rtc pub_step_due w0 w -> exclusive (pw_state w) (pw_live w).
Proof.
  intros H0%pub_initial_exclusive Hr. induction Hr; [done|]. eauto using pub_step_exclusive.
Qed.

(** Every mark belongs to an instance under way. *)
Definition marks_justified (w : pub_world) : Prop :=
  forall c, ps_active_chains (pw_state w) !! c <> None -> c ∈ pw_live w ≫= Instance_chains.

Lemma decide_instance_Ok st i st' :
  decide_instance st i = (st', Ok ()) ->
  st' = ps_set_active_chains
          (foldl (fun m c => delete c m) (ps_active_chains st) (Instance_chains i)) st.
Proof. unfold decide_instance. case_match; congruence. Qed.

Lemma decide_instance_Err st i st' e : decide_instance st i = (st', Err e) -> st' = st.
Proof. unfold decide_instance. case_match; congruence. Qed.

Lemma pub_step_due_marks w w' : pub_step_due w w' -> marks_justified w -> marks_justified w'.
Proof.
  intros Hstep Hm. destruct Hstep as
    [st' evs r E|req st' i E|req st' e E|l1 i l2 st' Hl E|p sb pf c st' E
    |p sb pf c st' h ps E|l1 sb h ps l2 a st' evs Hi E|sb h st' r E|st' evs E];
    intros k; cbn [pw_state pw_live]; specialize (Hm k).
  - revert E. unfold start_period. case_match; intros [= <- <- <-]; exact Hm.
  - apply start_instance_Ok in E as (_ & _ & -> & ->).
    cbn [ps_set_active_chains ps_active_chains ps_set_sequence_number].
    rewrite lookup_foldl_insert, bind_cons. unfold Instance_chains at 1. cbn [inst_xt_request].
    case_decide; set_solver.
  - apply start_instance_Err in E as ->. exact Hm.
  - apply decide_instance_Ok in E as ->. cbn [ps_set_active_chains ps_active_chains].
    rewrite lookup_foldl_delete. case_decide; [done|]. intros Hk%Hm. revert Hk.
    rewrite Hl, !bind_app, bind_cons. set_solver.
  - rewrite <- (collect_active (pw_state w) p sb pf c), E in Hm. exact Hm.
  - rewrite <- (collect_active (pw_state w) p sb pf c), E in Hm. exact Hm.
  - destruct a; injection E as <- <-; [exact Hm|]. cbn. by rewrite lookup_empty.
  - revert E. unfold advance_settled_state. case_match; intros [= <- <-]; exact Hm.
  - injection E as <- <-. cbn. by rewrite lookup_empty.
Qed.

Lemma pub_step_marks w w' : pub_step w w' -> marks_justified w -> marks_justified w'.
Proof.
  intros [w1 Hd|i st' _ ->%decide_instance_Ok|i st' e ->%decide_instance_Err] Hm;
    [by eapply pub_step_due_marks| |exact Hm].
  intros c. cbn [pw_state pw_live ps_set_active_chains ps_active_chains].
  rewrite lookup_foldl_delete. case_decide; [done|]. apply Hm.
Qed.

(** [decide_instance] asks only whether the chains are marked. *)
Lemma decide_instance_marked st i :
  (decide_instance st i).2 = Ok () <->
  forall c, c ∈ Instance_chains i -> is_Some (ps_active_chains st !! c).
Proof.
  unfold decide_instance. destruct (forallb _ _) eqn:E; cbn.
  - split; [|done]. intros _ c Hc. rewrite forallb_forall in E.
    by apply list_elem_of_In, E, bool_decide_eq_true in Hc.
  - split; [done|]. intros Hall. exfalso. rewrite <- not_true_iff_false in E. apply E.
    apply forallb_forall. intros c Hc%list_elem_of_In. apply bool_decide_eq_true. auto.
Qed.

(** C20. Exclusion in the SBCP publisher. In every interleaving of its calls, decisions of
    any instance included (the prover may answer at any later time), a chain is marked
    active only while it takes part in an instance under way. As long as the successful
    decisions are of instances under way (the publisher itself does not check this), more
    holds: no chain takes part in two instances under way, and a chain is marked active
    exactly when it takes part in one. Then any decision succeeds exactly when each chain of
    its instance takes part in one under way, and is otherwise an error without an effect;
    that of an instance under way succeeds and frees exactly its own chains. *)
Theorem instances_exclusive w0 w :
  pub_initial w0 ->
  (rtc pub_step w0 w ->
     forall c, ps_active_chains (pw_state w) !! c <> None -> c ∈ pw_live w ≫= Instance_chains) /\
  (rtc pub_step_due w0 w ->
     NoDup (pw_live w ≫= Instance_chains) /\
     (forall c, ps_active_chains (pw_state w) !! c = Some true <->
                c ∈ pw_live w ≫= Instance_chains) /\
     (forall i, (decide_instance (pw_state w) i).2 = Ok () <->
                Instance_chains i ⊆ pw_live w ≫= Instance_chains) /\
     (forall i st' e, decide_instance (pw_state w) i = (st', Err e) -> st' = pw_state w) /\
     (forall i, i ∈ pw_live w ->
        exists st', decide_instance (pw_state w) i = (st', Ok ()) /\
          forall c, ps_active_chains st' !! c =
            if decide (c ∈ Instance_chains i) then None else ps_active_chains (pw_state w) !! c)).
Proof.
  intros H0. split.
  { intros Hr. assert (marks_justified w0) as Hm0.
    { intros c. destruct (pub_initial_exclusive _ H0) as [_ ->]. by case_decide. }
    change (marks_justified w). clear H0. induction Hr; [done|]. eauto using pub_step_marks. }
  intros Hr. pose proof (reachable_exclusive _ _ H0 Hr) as Hex. destruct Hex as [Hnd Hact].
  split_and!; [done| | |by apply decide_instance_Err|].
  - intros c. rewrite Hact. case_decide; naive_solver.
  - intros i. rewrite decide_instance_marked. apply forall_proper. intros c. rewrite Hact.
    case_decide; split; intros Hi Hc; [done|by eauto|by destruct (Hi Hc)|by apply Hi in Hc].
  - intros i (l1 & l2 & Hl)%list_elem_of_split. eexists. split.
    + apply (decide_live_ok _ l1 i l2). rewrite <- Hl. by split.
    + intros c. apply lookup_foldl_delete.
Qed.

Lemma pub_step_due_finalized w w' :
  pub_step_due w w' ->
  ps_last_finalized_superblock_number (pw_state w) <=
  ps_last_finalized_superblock_number (pw_state w').
Proof.
  intros Hstep. destruct Hstep as
    [st' evs r E|req st' i E|req st' e E|l1 i l2 st' Hl E|p sb pf c st' E
    |p sb pf c st' h ps E|l1 sb h ps l2 a st' evs Hi E|sb h st' r E|st' evs E]; cbn.
  all: revert E.
  all: unfold start_period, start_instance, decide_instance, receive_proof_collect,
    receive_proof_finish, advance_settled_state, proof_timeout, rollback.
  all: repeat case_match; intros; simplify_eq/=; try done.
  all: match goal with H : (_ <=? _) = false |- _ => apply Z.leb_gt in H end; lia.
Qed.

Lemma pub_step_finalized_mono w w' :
  pub_step w w' ->
  ps_last_finalized_superblock_number (pw_state w) <=
  ps_last_finalized_superblock_number (pw_state w').
Proof.
  intros [w1 Hd|i st' _ ->%decide_instance_Ok|i st' e ->%decide_instance_Err];
    [by apply pub_step_due_finalized|done..].
Qed.

(** The last finalized superblock never decreases, whatever the interleaving: only an
    L1 event with a strictly larger number changes it. *)
Theorem finalized_monotone w0 w :
  rtc pub_step w0 w ->
  ps_last_finalized_superblock_number (pw_state w0) <=
  ps_last_finalized_superblock_number (pw_state w).
Proof.
  induction 1 as [|w0 w1 w2 Hs _ IH]; [lia|]. apply pub_step_finalized_mono in Hs. lia.
Qed.

End runs.

(** ** Executable runs *)

(** Calls of a run, in the order their critical sections execute; [CProverAnswer n] is the
    answer to the [n]-th most recent prover call under way. *)
Inductive pub_call :=
| CStartPeriod
| CStartInstance (request : XtRequest)
| CDecide (n : nat)
| CReceiveProof (p : PeriodId) (sb : SuperblockNumber) (proof : bytes) (c : ChainId)
| CProverAnswer (n : nat) (answer : result bytes string)
| CAdvanceSettled (sb : SuperblockNumber) (h : SuperblockHash)
| CProofTimeout.

Section exec.
Context `{Sha2} (values : gmap Z bytes -> list bytes).

Definition run_call (w : pub_world) (call : pub_call) : pub_world :=
  let st := pw_state w in
  match call with
  | CStartPeriod =>
      let res := start_period st in
      mk_pub_world res.1.1 (pw_live w) (pw_inflight w) (pw_trace w ++ res.1.2)
  | CStartInstance request =>
      let res := start_instance st request in
      mk_pub_world res.1 (match res.2 with Ok i => [i] | Err _ => [] end ++ pw_live w)
        (pw_inflight w) (pw_trace w)
  | CDecide n =>
      match pw_live w !! n with
      | Some i =>
          match decide_instance st i with
          | (st', Ok _) => mk_pub_world st' (delete n (pw_live w)) (pw_inflight w) (pw_trace w)
          | (_, Err _) => w
          end
      | None => w
      end
  | CReceiveProof p sb proof c =>
      let res := receive_proof_collect values st p sb proof c in
      mk_pub_world res.1 (pw_live w) (option_list res.2 ++ pw_inflight w)
        (pw_trace w ++
         ((fun '(sb, h, ps) => RequestSuperblockProof sb h ps) <$> option_list res.2))
  | CProverAnswer n answer =>
      match pw_inflight w !! n with
      | Some (sb, _, _) =>
          let res := receive_proof_finish st sb answer in
          mk_pub_world res.1 (if is_ok answer then pw_live w else [])
            (delete n (pw_inflight w)) (pw_trace w ++ res.2)
      | None => w
      end
  | CAdvanceSettled sb h =>
      mk_pub_world (advance_settled_state st sb h).1 (pw_live w) (pw_inflight w) (pw_trace w)
  | CProofTimeout =>
      let res := proof_timeout st in
      mk_pub_world res.1 [] (pw_inflight w) (pw_trace w ++ res.2)
  end.

Lemma collect_request_number st p sb proof c st' sb' h ps :
  receive_proof_collect values st p sb proof c = (st', Some (sb', h, ps)) -> sb' = sb.
Proof. unfold receive_proof_collect. repeat case_match; congruence. Qed.

Lemma delete_split {A} (l : list A) n x :
  l !! n = Some x -> exists l1 l2, l = l1 ++ x :: l2 /\ delete n l = l1 ++ l2.
Proof.
  intros Hn. exists (take n l), (drop (S n) l). split.
  - by rewrite take_drop_middle.
  - apply delete_take_drop.
Qed.

(** Every call of an executable run is a step of the interleaved semantics. *)
Lemma run_call_step w call : rtc (pub_step_due values) w (run_call w call).
Proof.
  destruct call as [|r|n|p sb pf c|n a|sb h|]; unfold run_call; cbn zeta.
  - apply rtc_once. destruct (start_period (pw_state w)) as [[st' evs] r] eqn:E. by eapply step_start_period.
  - apply rtc_once. destruct (start_instance (pw_state w) r) as [st' [i|e]] eqn:E.
    + by eapply step_start_instance.
    + by eapply step_start_instance_err.
  - destruct (pw_live w !! n) as [i|] eqn:E; [|done].
    destruct (delete_split _ _ _ E) as (l1 & l2 & Hl & ->).
    destruct (decide_instance (pw_state w) i) as [st' [[]|e]] eqn:Ed; [|done]. apply rtc_once.
    by eapply step_decide_instance.
  - apply rtc_once. destruct (receive_proof_collect values (pw_state w) p sb pf c) as [st' [[[sb' h] ps]|]] eqn:E.
    + assert (sb' = sb) as -> by (by eapply collect_request_number). by eapply step_request_proof.
    + cbn. rewrite app_nil_r. by eapply step_receive_proof.
  - destruct (pw_inflight w !! n) as [[[sb h] ps]|] eqn:E; [|done]. apply rtc_once.
    destruct (delete_split _ _ _ E) as (l1 & l2 & Hl & ->).
    destruct (receive_proof_finish (pw_state w) sb a) as [st' evs] eqn:Ef. by eapply step_prover_answer.
  - apply rtc_once. destruct (advance_settled_state (pw_state w) sb h) as [st' r] eqn:E.
    by eapply step_advance_settled.
  - apply rtc_once. destruct (proof_timeout (pw_state w)) as [st' evs] eqn:E. by eapply step_proof_timeout.
Qed.

Lemma run_calls_reachable w calls : rtc (pub_step_due values) w (foldl run_call w calls).
Proof.
  revert w. induction calls as [|c calls IH]; intros w; [done|].
  etrans; [apply run_call_step|apply IH].
Qed.

End exec.

Definition sample_world : pub_world := mk_pub_world (sample_state 0) [] [] [].

Lemma sample_world_initial : pub_initial sample_world.
Proof. split; [|done]. by exists 10, 5, 5, (replicate 32 x01), 0, {[1; 2]}. Qed.

Definition two_chain_request (a b : ChainId) : XtRequest :=
  mk_XtRequest [mk_TransactionRequest a [[x61]]; mk_TransactionRequest b [[x62]]].

(** Two disjoint instances, a conflicting one that is refused, then the second decided. *)
Definition sample_instances : pub_world :=
  foldl (run_call (H := prefix_sha256) map_values) sample_world
    [CStartInstance (two_chain_request 1 2); CStartInstance (two_chain_request 3 4);
     CStartInstance (two_chain_request 2 5); CDecide 0].

Lemma instances_exclusive_witness :
  length (pw_live sample_instances) = 1%nat /\
  NoDup (pw_live sample_instances ≫= Instance_chains) /\
  (ps_active_chains (pw_state sample_instances) !! 1 = Some true <->
   1 ∈ pw_live sample_instances ≫= Instance_chains).
Proof.
  split; [by vm_compute|].
  destruct (instances_exclusive (H := prefix_sha256) map_values sample_world sample_instances
    sample_world_initial) as [_ Hdue].
  destruct (Hdue (run_calls_reachable (H := prefix_sha256) _ _ _)) as (Hnd & Hact & _). split; [exact Hnd|apply Hact].
Defined.

Lemma finalized_monotone_witness :
  ps_last_finalized_superblock_number (pw_state sample_world) <=
  ps_last_finalized_superblock_number (pw_state sample_instances).
Proof.
  apply (finalized_monotone (H := prefix_sha256) map_values sample_world sample_instances).
  apply (rtc_subrel (pub_step_due (H := prefix_sha256) map_values)); [|apply run_calls_reachable].
  intros w w'. apply step_due.
Defined.

(** A proof that the prover returns after a rollback is still published: the prover
    runs without the lock and its answer is not checked against the state it finds. In this
    run a timeout rolls back to superblock 5 while the proof of 6 is being aggregated, and
    the proof of 6 goes out to L1 after the rollback has been broadcast. *)
Theorem publish_after_rollback `{Sha2} proof :
  exists w, rtc (pub_step_due map_values) sample_world w /\
    drop 3 (pw_trace w) = [BroadcastRollback 12 5 (replicate 32 x01); PublishProof 6 proof] /\
    ps_proofs (pw_state w) = ∅ /\ ps_target_superblock_number (pw_state w) = 6.
Proof.
  exists (foldl (run_call map_values) sample_world
    [CStartPeriod; CStartPeriod; CReceiveProof 11 6 [xaa] 1; CReceiveProof 11 6 [xbb] 2;
     CProofTimeout; CProverAnswer 0 (Ok proof)]).
  split; [apply run_calls_reachable|by vm_compute].
Qed.

(** A rollback restarts the numbering inside the same period: the request that was the
    first of the period gets, when it is submitted again after the rollback, the very
    instance (same id, same sequence number) it had before. *)
Theorem rollback_reuses_instance `{Sha2} st request st1 i1 :
  ps_sequence_number st = 0 ->
  start_instance st request = (st1, Ok i1) ->
  exists st3, start_instance (rollback st1).1 request = (st3, Ok i1).
Proof.
  intros Hseq Hs. pose proof (start_instance_Ok _ _ _ _ Hs) as (Hlen & _ & -> & ->).
  rewrite Hseq. unfold start_instance.
  destruct (Nat.ltb_spec (length (xt_transactions request)) 2); [lia|].
  rewrite (proj2 (any_chain_already_active_false _ _)); [by eexists|].
  intros c _. cbn. by rewrite lookup_empty.
Qed.

Lemma rollback_reuses_instance_witness :
  exists i st3,
    (start_instance (H := prefix_sha256) (sample_state 0) (two_chain_request 1 2)).2 = Ok i /\
    start_instance (H := prefix_sha256)
      (rollback (start_instance (H := prefix_sha256) (sample_state 0) (two_chain_request 1 2)).1).1
      (two_chain_request 1 2) = (st3, Ok i).
Proof.
  eexists.
  destruct (rollback_reuses_instance (H := prefix_sha256) (sample_state 0) (two_chain_request 1 2)
    _ _ eq_refl eq_refl) as [st3 E].
  exists st3. split; [reflexivity|exact E].
Defined.

(** C21. [decide_instance] checks only that the chains are active: the late decision of an
    instance from before a rollback releases the chains of its successor, and a third
    instance then starts on chains the second is still using. *)
Theorem stale_decision_releases_successor `{Sha2} st request st1 i1 :
  start_instance st request = (st1, Ok i1) ->
  exists st3 i3 st4 st5 i5,
    start_instance (rollback st1).1 request = (st3, Ok i3) /\
    decide_instance st3 i1 = (st4, Ok ()) /\
    start_instance st4 request = (st5, Ok i5) /\ Instance_chains i5 = Instance_chains i3.
Proof.
  intros Hs. pose proof (start_instance_Ok _ _ _ _ Hs) as (Hlen & _ & -> & ->).
  assert (forall st, (forall c, c ∈ chains_from_request request ->
      default false (ps_active_chains st !! c) = false) ->
    start_instance st request = (
      ps_set_active_chains
        (foldl (fun m c => <[c := true]> m) (ps_active_chains st) (chains_from_request request))
        (ps_set_sequence_number (ps_sequence_number st +! 1) st),
      Ok (mk_Instance (generate_instance_id (ps_period_id st) (ps_sequence_number st +! 1) request)
        (ps_period_id st) (ps_sequence_number st +! 1) request))) as Hgo.
  { intros st' Hfree. unfold start_instance.
    destruct (Nat.ltb_spec (length (xt_transactions request)) 2); [lia|].
    by rewrite (proj2 (any_chain_already_active_false _ _)). }
  do 5 eexists. split_and!.
  - apply Hgo. intros c _. cbn. by rewrite lookup_empty.
  - unfold decide_instance. rewrite (proj2 (forallb_forall _ _)); [done|].
    intros c Hc%list_elem_of_In. apply bool_decide_true.
    cbn [ps_set_active_chains ps_active_chains].
    rewrite lookup_foldl_insert, decide_True; [eauto|done].
  - apply Hgo. intros c Hc. cbn [ps_set_active_chains ps_active_chains].
    by rewrite lookup_foldl_delete, decide_True.
  - done.
Qed.

Lemma stale_decision_releases_successor_witness :
  exists st1 i1 st3 i3 st4 st5 i5,
    start_instance (H := prefix_sha256) (sample_state 0) (two_chain_request 1 2) = (st1, Ok i1) /\
    start_instance (H := prefix_sha256) (rollback st1).1 (two_chain_request 1 2) = (st3, Ok i3) /\
    decide_instance st3 i1 = (st4, Ok ()) /\
    start_instance (H := prefix_sha256) st4 (two_chain_request 1 2) = (st5, Ok i5) /\
    Instance_chains i5 = Instance_chains i3.
Proof.
  do 2 eexists.
  destruct (stale_decision_releases_successor (H := prefix_sha256) (sample_state 0)
    (two_chain_request 1 2) _ _ eq_refl) as (st3 & i3 & st4 & st5 & i5 & E).
  exists st3, i3, st4, st5, i5. split; [reflexivity|exact E].
Defined.
