(* ===== verification/SbcpSequencer.v ===== *)
(** * The SBCP sequencer ([crates/spec-sbcp/src/sequencer.rs], [block.rs])

    [SequencerState] is the content of the mutex. Operations return the new state, the
    calls made to the prover and to the messenger, in order, and the [Result]. The
    settlement pipeline reads the state in a critical section of its own
    ([start_settlement]). *)
From Stdlib Require Import ZArith Lia Sorting.Sorted.
From S2P Require Import Prelude Spec.

(** ** Blocks *)

Abbreviation BlockNumber := Z (only parsing).

Record PendingBlock := mk_PendingBlock {
  pb_number : BlockNumber;
  pb_period_id : PeriodId;
  pb_superblock_number : SuperblockNumber;
}.

Record BlockHeader := mk_BlockHeader {
  bh_number : BlockNumber;
  bh_block_hash : BlockHash;
  bh_state_root : StateRoot;
}.

Record SealedBlockHeader := mk_SealedBlockHeader {
  sb_block_header : BlockHeader;
  sb_period_id : PeriodId;
  sb_superblock_number : SuperblockNumber;
}.

Record SettledState := mk_SettledState {
  ss_block_header : BlockHeader;
  ss_superblock_number : SuperblockNumber;
  ss_superblock_hash : SuperblockHash;
}.

(** ** State *)

Inductive SequencerError :=
| BlockSealMismatch
| BlockAlreadyOpen
| BlockNotSequential
| NoPendingBlock
| ActiveInstanceExists
| NoActiveInstance
| ActiveInstanceMismatch
| MismatchedFinalizedState
| PeriodIdMismatch
| LowSequenceNumber.

(** [Box<dyn Error>]: an error of the sequencer or one of the prover or messenger. *)
Inductive BoxError :=
| Boxed (e : SequencerError)
| External (msg : string).

Inductive seq_event :=
| ForwardRequest (request : XtRequest)
| RequestProofs (block_header : option BlockHeader) (superblock_number : SuperblockNumber)
| SendProof (period_id : PeriodId) (superblock_number : SuperblockNumber) (proof : bytes).

Record SequencerState := mk_SequencerState {
  sq_period_id : PeriodId;
  sq_target_superblock_number : SuperblockNumber;
  sq_pending_block : option PendingBlock;
  sq_active_instance_id : option InstanceId;
  sq_last_sequence_number : option SequenceNumber;
  sq_head : BlockNumber;
  sq_sealed_block_head : gmap Z SealedBlockHeader;
  sq_settled_state : SettledState;
}.

(** The traits [SequencerProver] and [SequencerMessenger]. *)
Class SequencerEnv := {
  request_proofs : option BlockHeader -> SuperblockNumber -> result bytes string;
  forward_request : XtRequest -> result unit string;
  send_proof : PeriodId -> SuperblockNumber -> bytes -> result unit string;
}.

Definition box {A} (r : result A string) : result A BoxError :=
  match r with Ok a => Ok a | Err e => Err (External e) end.

(** ** Operations *)

Definition new (period_id : PeriodId) (target_superblock : SuperblockNumber)
    (settled_state : SettledState) : SequencerState :=
  mk_SequencerState period_id target_superblock None None None
    (bh_number (ss_block_header settled_state)) ∅ settled_state.

Section operations.
Context `{SequencerEnv}.
Implicit Types st : SequencerState.

Definition receive_xt_request (request : XtRequest) : list seq_event * result unit BoxError :=
  ([ForwardRequest request], box (forward_request request)).

Definition start_settlement st (period_id : PeriodId) (superblock_number : SuperblockNumber)
    : list seq_event * result unit BoxError :=
  let header := sb_block_header <$> sq_sealed_block_head st !! period_id in
  match request_proofs header superblock_number with
  | Err e => ([RequestProofs header superblock_number], Err (External e))
  | Ok proof =>
      ([RequestProofs header superblock_number; SendProof period_id superblock_number proof],
       box (send_proof period_id superblock_number proof))
  end.

(** The first critical section of [start_period]. *)
Definition enter_period st (period_id : PeriodId) (target_superblock_number : SuperblockNumber)
    : SequencerState :=
  mk_SequencerState period_id target_superblock_number (sq_pending_block st)
    (sq_active_instance_id st) None (sq_head st) (sq_sealed_block_head st) (sq_settled_state st).

Definition start_period st (period_id : PeriodId) (target_superblock_number : SuperblockNumber)
    : SequencerState * list seq_event * result unit BoxError :=
  let st' := enter_period st period_id target_superblock_number in
  match sq_pending_block st' with
  | None =>
      let '(evs, r) := start_settlement st' (period_id -! 1) (target_superblock_number -! 1) in
      (st', evs, r)
  | Some _ => (st', [], Ok ())
  end.

Definition begin_block st (block_number : BlockNumber)
    : SequencerState * result unit SequencerError :=
  match sq_pending_block st with
  | Some _ => (st, Err BlockAlreadyOpen)
  | None =>
      if negb (block_number =? sq_head st +! 1) then (st, Err BlockNotSequential)
      else
        (mk_SequencerState (sq_period_id st) (sq_target_superblock_number st)
           (Some (mk_PendingBlock block_number (sq_period_id st) (sq_target_superblock_number st)))
           (sq_active_instance_id st) (sq_last_sequence_number st) (sq_head st)
           (sq_sealed_block_head st) (sq_settled_state st), Ok ())
  end.

Definition can_include_local_tx st : result bool SequencerError :=
  match sq_pending_block st with
  | None => Err NoPendingBlock
  | Some _ => Ok (bool_decide (sq_active_instance_id st = None))
  end.

Definition on_start_instance st (id : InstanceId) (period_id : PeriodId)
    (sequence_number : SequenceNumber) : SequencerState * result unit SequencerError :=
  match sq_pending_block st with
  | None => (st, Err NoPendingBlock)
  | Some pending =>
      if decide (is_Some (sq_active_instance_id st)) then (st, Err ActiveInstanceExists)
      else if negb (pb_period_id pending =? period_id) then (st, Err PeriodIdMismatch)
      else if match sq_last_sequence_number st with
              | Some last_seq => sequence_number <=? last_seq
              | None => false
              end then (st, Err LowSequenceNumber)
      else
        (mk_SequencerState (sq_period_id st) (sq_target_superblock_number st)
           (sq_pending_block st) (Some id) (Some sequence_number) (sq_head st)
           (sq_sealed_block_head st) (sq_settled_state st), Ok ())
  end.

Definition sq_clear_active st : SequencerState :=
  mk_SequencerState (sq_period_id st) (sq_target_superblock_number st) (sq_pending_block st)
    None (sq_last_sequence_number st) (sq_head st) (sq_sealed_block_head st)
    (sq_settled_state st).

Definition on_decided_instance st (id : InstanceId)
    : SequencerState * result unit SequencerError :=
  match sq_active_instance_id st with
  | None => (st, Err NoActiveInstance)
  | Some active_id =>
      if decide (active_id = id) then (sq_clear_active st, Ok ())
      else (st, Err ActiveInstanceMismatch)
  end.

(** The critical section of [end_block]: seals the block and says which settlement to
    start, if the period has moved on. *)
Definition seal_block st (b : BlockHeader)
    : SequencerState * result (option (PeriodId * SuperblockNumber)) SequencerError :=
  match sq_pending_block st with
  | None => (st, Err NoPendingBlock)
  | Some pending =>
      if negb (pb_number pending =? bh_number b) then (st, Err BlockSealMismatch)
      else if decide (is_Some (sq_active_instance_id st)) then (st, Err ActiveInstanceExists)
      else
        let sealed :=
          mk_SealedBlockHeader b (pb_period_id pending) (pb_superblock_number pending) in
        let should_start_settlement := pb_period_id pending <? sq_period_id st in
        let settlement :=
          (sq_period_id st -! 1, sq_target_superblock_number st -! 1) in
        (mk_SequencerState (sq_period_id st) (sq_target_superblock_number st) None
           (sq_active_instance_id st) (sq_last_sequence_number st) (bh_number b)
           (<[pb_period_id pending := sealed]> (sq_sealed_block_head st))
           (sq_settled_state st),
         Ok (if should_start_settlement then Some settlement else None))
  end.

Definition end_block st (b : BlockHeader)
    : SequencerState * list seq_event * result unit BoxError :=
  match seal_block st b with
  | (st', Err e) => (st', [], Err (Boxed e))
  | (st', Ok None) => (st', [], Ok ())
  | (st', Ok (Some (p, sb))) =>
      let '(evs, r) := start_settlement st' p sb in (st', evs, r)
  end.

Definition advance_settled_state st (settled : SettledState) : SequencerState :=
  if ss_superblock_number settled <=? ss_superblock_number (sq_settled_state st) then st
  else
    mk_SequencerState (sq_period_id st) (sq_target_superblock_number st) (sq_pending_block st)
      (sq_active_instance_id st) (sq_last_sequence_number st) (sq_head st)
      (sq_sealed_block_head st) settled.

Definition rollback st (superblock_number : SuperblockNumber) (superblock_hash : SuperblockHash)
    (current_period_id : PeriodId) : SequencerState * result BlockHeader SequencerError :=
  let settled := sq_settled_state st in
  if decide (superblock_number <> ss_superblock_number settled \/
             superblock_hash <> ss_superblock_hash settled)
  then (st, Err MismatchedFinalizedState)
  else
    let finalized_sb := ss_superblock_number settled in
    (mk_SequencerState current_period_id (finalized_sb +! 1) None None
       (sq_last_sequence_number st) (bh_number (ss_block_header settled))
       (filter (fun kv => sb_superblock_number kv.2 <= finalized_sb) (sq_sealed_block_head st))
       settled,
     Ok (ss_block_header settled)).

End operations.

(** ** Interleaved runs *)

(** The state, the sequence numbers of the instances accepted since the last
    [start_period] (latest first), and the calls made. *)
Record seq_world := mk_seq_world {
  qw_state : SequencerState;
  qw_accepted : list SequenceNumber;
  qw_trace : list seq_event;
}.

Section runs.
Context `{SequencerEnv}.

(** One critical section of some caller; the two of [start_period] and of [end_block] may
    be separated by others. *)
Inductive seq_step (w : seq_world) : seq_world -> Prop :=
| step_enter_period p t :
    seq_step w (mk_seq_world (enter_period (qw_state w) p t) [] (qw_trace w))
| step_settlement p sb :
    seq_step w (mk_seq_world (qw_state w) (qw_accepted w)
                  (qw_trace w ++ (start_settlement (qw_state w) p sb).1))
| step_begin_block n :
    seq_step w (mk_seq_world (begin_block (qw_state w) n).1 (qw_accepted w) (qw_trace w))
| step_on_start_instance id p s st' :
    on_start_instance (qw_state w) id p s = (st', Ok ()) ->
    seq_step w (mk_seq_world st' (s :: qw_accepted w) (qw_trace w))
| step_on_start_instance_err id p s st' e :
    on_start_instance (qw_state w) id p s = (st', Err e) ->
    seq_step w (mk_seq_world st' (qw_accepted w) (qw_trace w))
| step_on_decided_instance id :
    seq_step w (mk_seq_world (on_decided_instance (qw_state w) id).1 (qw_accepted w) (qw_trace w))
| step_seal_block b :
    seq_step w (mk_seq_world (seal_block (qw_state w) b).1 (qw_accepted w) (qw_trace w))
| step_advance_settled_state s :
    seq_step w (mk_seq_world (advance_settled_state (qw_state w) s) (qw_accepted w) (qw_trace w))
| step_rollback sb h p :
    seq_step w (mk_seq_world (rollback (qw_state w) sb h p).1 (qw_accepted w) (qw_trace w)).

Definition seq_initial (w : seq_world) : Prop :=
  (exists p t s, qw_state w = new p t s) /\ qw_accepted w = [] /\ qw_trace w = [].

(** The open block extends the head; an active instance has an open block; sealed heads
    are filed under their own period. *)
Definition block_inv (st : SequencerState) : Prop :=
  (forall b, sq_pending_block st = Some b -> pb_number b = sq_head st +! 1) /\
  (is_Some (sq_active_instance_id st) -> is_Some (sq_pending_block st)) /\
  (forall p s, sq_sealed_block_head st !! p = Some s -> sb_period_id s = p).

(** Accepted sequence numbers strictly increase and the last one is remembered. *)
Definition accepted_inv (st : SequencerState) (acc : list SequenceNumber) : Prop :=
  StronglySorted (fun a b => b < a) acc /\ hd_error acc = sq_last_sequence_number st.

Definition seq_inv (w : seq_world) : Prop :=
  block_inv (qw_state w) /\ accepted_inv (qw_state w) (qw_accepted w).

Lemma seq_initial_inv w : seq_initial w -> seq_inv w.
Proof.
  intros [(p & t & s & E) [Ea _]]. unfold seq_inv. rewrite E, Ea.
  split; [|by split; [constructor|]]. split_and!; cbn; [done|by intros [? ?]|].
  intros p' s'. by rewrite lookup_empty.
Qed.

Lemma begin_block_inv st n : block_inv st -> block_inv (begin_block st n).1.
Proof.
  intros Hinv. unfold begin_block. destruct (sq_pending_block st) as [b|]; [done|].
  destruct (Z.eqb_spec n (sq_head st +! 1)); cbn [negb fst]; [|done].
  destruct Hinv as (Hb & Ha & Hs). split_and!; cbn; [by intros b [= <-]|eauto|done].
Qed.

Lemma seal_block_inv st b : block_inv st -> block_inv (seal_block st b).1.
Proof.
  intros Hinv. unfold seal_block. destruct (sq_pending_block st) as [pb|]; [|done].
  destruct (Z.eqb_spec (pb_number pb) (bh_number b)); cbn [negb]; [|done].
  case_decide as Hact; [done|]. destruct Hinv as (Hb & Ha & Hs).
  split_and!; cbn; [done|by intros|]. intros p s. rewrite lookup_insert.
  case_decide; [by intros [= <-]|apply Hs].
Qed.

Lemma on_start_instance_Ok st id p s st' :
  on_start_instance st id p s = (st', Ok ()) ->
  (exists b, sq_pending_block st = Some b /\ pb_period_id b = p) /\
  sq_active_instance_id st = None /\
  (forall last, sq_last_sequence_number st = Some last -> last < s) /\
  st' = mk_SequencerState (sq_period_id st) (sq_target_superblock_number st)
          (sq_pending_block st) (Some id) (Some s) (sq_head st) (sq_sealed_block_head st)
          (sq_settled_state st).
Proof.
  unfold on_start_instance. destruct (sq_pending_block st) as [b|] eqn:E; [|done].
  case_decide as Hact; [done|]. destruct (Z.eqb_spec (pb_period_id b) p); cbn [negb]; [|done].
  intros Hrun. split; [eauto|]. split; [by apply eq_None_not_Some|].
  destruct (sq_last_sequence_number st) as [l|] eqn:El.
  - destruct (Z.leb_spec s l); [done|]. injection Hrun as <-.
    split; [by intros ? [= <-]|done].
  - injection Hrun as <-. done.
Qed.

Lemma on_start_instance_Err st id p s st' e :
  on_start_instance st id p s = (st', Err e) -> st' = st.
Proof. unfold on_start_instance. repeat case_match; congruence. Qed.

Lemma accepted_push st acc id p s st' :
  accepted_inv st acc -> on_start_instance st id p s = (st', Ok ()) -> accepted_inv st' (s :: acc).
Proof.
  intros [Hsort Hhd] (_ & _ & Hlast & ->)%on_start_instance_Ok. split; [|done].
  constructor; [done|]. destruct acc as [|a acc]; [constructor|].
  specialize (Hlast a (eq_sym Hhd)). apply StronglySorted_inv in Hsort as [_ Hall].
  constructor; [done|]. eapply Forall_impl; [done|]. cbn. lia.
Qed.

Lemma seq_step_inv w w' : seq_step w w' -> seq_inv w -> seq_inv w'.
Proof.
  intros Hstep [Hblk Hacc]. destruct Hstep as
    [p t|p sb|n|id p s st' E|id p s st' e E|id|b|s|sb h p]; unfold seq_inv; cbn.
  - split; [done|]. by split; [constructor|].
  - done.
  - split; [by apply begin_block_inv|]. unfold begin_block. repeat case_match; done.
  - split; [|by eapply accepted_push].
    apply on_start_instance_Ok in E as ((b & Hb & _) & _ & _ & ->).
    destruct Hblk as (Hb1 & Hb2 & Hb3). split_and!; cbn; [done|rewrite Hb; eauto|done].
  - apply on_start_instance_Err in E as ->. done.
  - unfold on_decided_instance. repeat case_match; try done.
    destruct Hblk as (Hb1 & Hb2 & Hb3). split; [|done]. split_and!; cbn; [done|by intros [? ?]|done].
  - split; [by apply seal_block_inv|]. unfold seal_block. repeat case_match; done.
  - unfold advance_settled_state. case_match; done.
  - unfold rollback. case_decide; [done|]. destruct Hblk as (Hb1 & Hb2 & Hb3).
    split; [|done]. split_and!; cbn; [done|by intros [? ?]|].
    intros p' s'. rewrite map_lookup_filter_Some. intros [? _]. by apply Hb3.
Qed.

Lemma seq_reachable_inv w0 w : seq_initial w0 -> rtc seq_step w0 w -> seq_inv w.
Proof. intros H0%seq_initial_inv Hr. induction Hr; eauto using seq_step_inv. Qed.

(** C23. In every reachable state, whatever the interleaving of the critical sections: the
    open block is the successor of the head, an active instance always has an open block,
    each sealed head is filed under its own period, and the sequence numbers accepted since
    the last [start_period] are strictly increasing, the latest being the one remembered. *)
Theorem sequencer_invariant w0 w :
  seq_initial w0 -> rtc seq_step w0 w ->
  block_inv (qw_state w) /\ StronglySorted (fun a b => b < a) (qw_accepted w) /\
  hd_error (qw_accepted w) = sq_last_sequence_number (qw_state w).
Proof. intros H0 Hr. destruct (seq_reachable_inv _ _ H0 Hr) as [? [? ?]]. done. Qed.

(** What a critical section can do to an active instance and its block. *)
Lemma active_step w w' id :
  block_inv (qw_state w) -> sq_active_instance_id (qw_state w) = Some id -> seq_step w w' ->
  (sq_active_instance_id (qw_state w') = Some id /\
   sq_pending_block (qw_state w') = sq_pending_block (qw_state w)) \/
  on_decided_instance (qw_state w) id = (qw_state w', Ok ()) \/
  exists sb h p hdr, rollback (qw_state w) sb h p = (qw_state w', Ok hdr).
Proof.
  intros (_ & Hpend & _) Hact Hstep. destruct Hpend as [pb Hpb]; [by rewrite Hact|].
  destruct Hstep as [p t|p sb|n|id' p s st' E|id' p s st' e E|id'|b|s|sb h p]; cbn [qw_state].
  - by left.
  - by left.
  - left. unfold begin_block. by rewrite Hpb.
  - apply on_start_instance_Ok in E as (_ & E & _). congruence.
  - apply on_start_instance_Err in E as ->. by left.
  - unfold on_decided_instance. rewrite Hact. case_decide; subst; [|by left].
    right. left. by rewrite decide_True.
  - left. unfold seal_block. rewrite Hpb. case_match; [done|]. by rewrite decide_True by (rewrite Hact; done).
  - left. unfold advance_settled_state. by case_match.
  - destruct (rollback (qw_state w) sb h p) as [st' [hdr|e]] eqn:E; cbn [fst].
    + right. right. by exists sb, h, p, hdr.
    + left. unfold rollback in E. case_decide; by simplify_eq.
Qed.

(** C24. While an instance is active, local transactions are refused, no block can be
    sealed or opened and no other instance started, all without a change of state; the
    decision of another instance is refused, its own is accepted and unlocks the block. And
    nothing else unlocks it: after any critical section whatsoever the instance is still
    active over the same open block, unless the section was its decision or a rollback to
    the settled state that was accepted. *)
Theorem active_instance_locks_block w0 w id :
  seq_initial w0 -> rtc seq_step w0 w ->
  sq_active_instance_id (qw_state w) = Some id ->
  let st := qw_state w in
  can_include_local_tx st = Ok false /\
  (forall b, exists e, end_block st b = (st, [], Err (Boxed e))) /\
  (forall n, begin_block st n = (st, Err BlockAlreadyOpen)) /\
  (forall id' p s, on_start_instance st id' p s = (st, Err ActiveInstanceExists)) /\
  (forall id', id' <> id -> on_decided_instance st id' = (st, Err ActiveInstanceMismatch)) /\
  (exists st', on_decided_instance st id = (st', Ok ()) /\ can_include_local_tx st' = Ok true) /\
  (forall w', seq_step w w' ->
     (sq_active_instance_id (qw_state w') = Some id /\
      sq_pending_block (qw_state w') = sq_pending_block st) \/
     on_decided_instance st id = (qw_state w', Ok ()) \/
     exists sb h p hdr, rollback st sb h p = (qw_state w', Ok hdr)).
Proof.
  intros H0 Hr Hact st. destruct (seq_reachable_inv _ _ H0 Hr) as [(_ & Hpend & _) _].
  fold st in Hact, Hpend. destruct Hpend as [pb Hpb]; [by rewrite Hact|].
  assert (forall w', seq_step w w' ->
    (sq_active_instance_id (qw_state w') = Some id /\
     sq_pending_block (qw_state w') = sq_pending_block st) \/
    on_decided_instance st id = (qw_state w', Ok ()) \/
    exists sb h p hdr, rollback st sb h p = (qw_state w', Ok hdr)) as Hstep.
  { intros w'. apply active_step; [|done]. by apply (seq_reachable_inv _ _ H0 Hr). }
  unfold can_include_local_tx, end_block, seal_block, begin_block, on_start_instance,
    on_decided_instance in *. rewrite Hpb, Hact in *.
  split_and!; [done| |done| | | |done].
  - intros b. destruct (Z.eqb_spec (pb_number pb) (bh_number b)); cbn [negb].
    + rewrite decide_True by done. by eexists.
    + by eexists.
  - intros id' p s. by rewrite decide_True by done.
  - intros id' Hne. by rewrite decide_False by congruence.
  - rewrite decide_True by done. eexists. split; [done|]. cbn. by rewrite Hpb.
Qed.

End runs.

(** ** Settlement *)

Section settlement.
Context `{SequencerEnv}.
Implicit Types st : SequencerState.

Lemma start_settlement_ok st p t proof :
  (forall hdr, request_proofs hdr t = Ok proof) -> send_proof p t proof = Ok () ->
  start_settlement st p t =
    ([RequestProofs (sb_block_header <$> sq_sealed_block_head st !! p) t; SendProof p t proof],
     Ok ()).
Proof. intros Hreq Hsend. unfold start_settlement. by rewrite Hreq, Hsend. Qed.

Lemma seal_block_ok st pb b :
  sq_pending_block st = Some pb -> sq_active_instance_id st = None ->
  bh_number b = pb_number pb ->
  seal_block st b =
    (mk_SequencerState (sq_period_id st) (sq_target_superblock_number st) None None
       (sq_last_sequence_number st) (bh_number b)
       (<[pb_period_id pb := mk_SealedBlockHeader b (pb_period_id pb) (pb_superblock_number pb)]>
          (sq_sealed_block_head st)) (sq_settled_state st),
     Ok (if pb_period_id pb <? sq_period_id st
         then Some (sq_period_id st -! 1, sq_target_superblock_number st -! 1) else None)).
Proof.
  intros Hp Ha Hn. unfold seal_block. rewrite Hp, Ha, Hn, Z.eqb_refl. cbn [negb].
  rewrite decide_False; [done|]. by intros [? ?].
Qed.

(** The settlement a period change or a sealed block sets off. *)
Definition period_settlement st : option (PeriodId * SuperblockNumber) :=
  match sq_pending_block st with
  | None => Some (sq_period_id st -! 1, sq_target_superblock_number st -! 1)
  | Some _ => None
  end.

(** [start_period] and [end_block] are a critical section followed by that settlement. *)
Lemma start_period_settlement st p t :
  start_period st p t =
    let st' := enter_period st p t in
    match period_settlement st' with
    | None => (st', [], Ok ())
    | Some (p', sb) => let '(evs, r) := start_settlement st' p' sb in (st', evs, r)
    end.
Proof. unfold start_period, period_settlement. cbn zeta. by destruct (sq_pending_block (enter_period st p t)). Qed.

(** The state, the settlements set off whose critical section is still to come, and those
    that ran, with the calls they made. *)
Record settle_world := mk_settle_world {
  zw_state : SequencerState;
  zw_due : list (PeriodId * SuperblockNumber);
  zw_done : list (PeriodId * SuperblockNumber * list seq_event);
}.

Definition set_off (st : SequencerState) (z : option (PeriodId * SuperblockNumber)) (w : settle_world) :=
  mk_settle_world st (zw_due w ++ option_list z) (zw_done w).

(** The critical sections of a sequencer that is not rolled back and whose periods come one
    after the other, each after the block left open by the period before has been sealed. A
    settlement that was set off reads the state at any later time. *)
Inductive settle_step (w : settle_world) : settle_world -> Prop :=
| settle_period :
    let st := zw_state w in
    let st' := enter_period st (sq_period_id st +! 1) (sq_target_superblock_number st +! 1) in
    (forall pb, sq_pending_block st = Some pb -> pb_period_id pb = sq_period_id st) ->
    sq_period_id st + 1 < u64_modulus -> sq_target_superblock_number st + 1 < u64_modulus ->
    settle_step w (set_off st' (period_settlement st') w)
| settle_begin n : settle_step w (set_off (begin_block (zw_state w) n).1 None w)
| settle_start id p s : settle_step w (set_off (on_start_instance (zw_state w) id p s).1 None w)
| settle_decided id : settle_step w (set_off (on_decided_instance (zw_state w) id).1 None w)
| settle_seal b st' z :
    seal_block (zw_state w) b = (st', Ok z) -> settle_step w (set_off st' z w)
| settle_seal_refused b st' e :
    seal_block (zw_state w) b = (st', Err e) -> settle_step w (set_off st' None w)
| settle_advance s : settle_step w (set_off (advance_settled_state (zw_state w) s) None w)
| settle_run l1 p sb l2 :
    zw_due w = l1 ++ (p, sb) :: l2 ->
    settle_step w (mk_settle_world (zw_state w) (l1 ++ l2)
      ((p, sb, (start_settlement (zw_state w) p sb).1) :: zw_done w)).

(** A block of an earlier period is still open. *)
Definition overdue st : bool :=
  match sq_pending_block st with
  | Some pb => pb_period_id pb <? sq_period_id st
  | None => false
  end.

(** The periods that are over and have no open block, with their superblocks. *)
Definition closed_periods (p0 t0 : Z) st : list (PeriodId * SuperblockNumber) :=
  (fun q => (q, t0 + (q - p0))) <$>
    seqZ p0 (sq_period_id st - p0 - if overdue st then 1 else 0).

Record settle_inv (p0 t0 : Z) (w : settle_world) : Prop := {
  zi_period : p0 <= sq_period_id (zw_state w) < u64_modulus;
  zi_target : sq_target_superblock_number (zw_state w) = t0 + (sq_period_id (zw_state w) - p0) /\
    sq_target_superblock_number (zw_state w) < u64_modulus;
  zi_pending pb : sq_pending_block (zw_state w) = Some pb ->
    pb_period_id pb = sq_period_id (zw_state w) \/
    (pb_period_id pb = sq_period_id (zw_state w) - 1 /\ p0 < sq_period_id (zw_state w));
  zi_once : zw_due w ++ (zw_done w).*1 ≡ₚ closed_periods p0 t0 (zw_state w);
  zi_done q sb evs : (q, sb, evs) ∈ zw_done w -> evs = (start_settlement (zw_state w) q sb).1;
}.

(** A settlement reads only the sealed head of its period. *)
Lemma start_settlement_head st st' p sb :
  sq_sealed_block_head st' !! p = sq_sealed_block_head st !! p ->
  start_settlement st' p sb = start_settlement st p sb.
Proof. intros E. unfold start_settlement. by rewrite E. Qed.

Lemma closed_done p0 t0 w q sb evs :
  settle_inv p0 t0 w -> (q, sb, evs) ∈ zw_done w ->
  p0 <= q < sq_period_id (zw_state w) - if overdue (zw_state w) then 1 else 0.
Proof.
  intros Hi Hin. assert ((q, sb) ∈ closed_periods p0 t0 (zw_state w)) as Hc.
  { rewrite <- (zi_once _ _ _ Hi). apply elem_of_app. right.
    apply list_elem_of_fmap. by exists (q, sb, evs). }
  apply list_elem_of_fmap in Hc as (q' & [= <- _] & Hq%elem_of_seqZ).
  pose proof (zi_period _ _ _ Hi). destruct (overdue _); lia.
Qed.

(** Sections that neither close a period nor seal a block. *)
Lemma settle_inv_same p0 t0 w st' :
  settle_inv p0 t0 w ->
  sq_period_id st' = sq_period_id (zw_state w) ->
  sq_target_superblock_number st' = sq_target_superblock_number (zw_state w) ->
  sq_sealed_block_head st' = sq_sealed_block_head (zw_state w) ->
  (sq_pending_block st' = sq_pending_block (zw_state w) \/
   sq_pending_block (zw_state w) = None /\
   exists pb, sq_pending_block st' = Some pb /\ pb_period_id pb = sq_period_id (zw_state w)) ->
  settle_inv p0 t0 (set_off st' None w).
Proof.
  intros [I1 I2 I3 I4 I5] Ep Et Eh Hpend.
  assert (overdue st' = overdue (zw_state w)) as Eo.
  { unfold overdue. destruct Hpend as [-> |(-> & pb & -> & ->)]; rewrite Ep; [done|]. apply Z.ltb_irrefl. }
  split; cbn [set_off zw_state zw_due zw_done option_list]; rewrite ?Ep, ?Et; [done|done| | |].
  - intros pb. destruct Hpend as [-> |(_ & pb' & -> & E)]; [apply I3|]. intros [= <-]. by left.
  - rewrite app_nil_r. unfold closed_periods. by rewrite Ep, Eo.
  - intros q sb evs Hin. rewrite (I5 q sb evs Hin).
    symmetry. f_equal. apply start_settlement_head. by rewrite Eh.
Qed.

(** A period ends. *)
Lemma settle_inv_period p0 t0 w :
  0 <= p0 -> 0 <= t0 -> settle_inv p0 t0 w ->
  let st := zw_state w in
  let st' := enter_period st (sq_period_id st +! 1) (sq_target_superblock_number st +! 1) in
  (forall pb, sq_pending_block st = Some pb -> pb_period_id pb = sq_period_id st) ->
  sq_period_id st + 1 < u64_modulus -> sq_target_superblock_number st + 1 < u64_modulus ->
  settle_inv p0 t0 (set_off st' (period_settlement st') w).
Proof.
  intros Hp0 Ht0 [I1 I2 I3 I4 I5] st st' Hpend Hp Ht. fold st in I1, I2, I3.
  assert (sq_period_id st +! 1 = sq_period_id st + 1) as Ep by u64_lia.
  assert (sq_target_superblock_number st +! 1 = sq_target_superblock_number st + 1) as Et by u64_lia.
  assert (overdue st = false) as Eo.
  { unfold overdue. destruct (sq_pending_block st) as [pb|]; [|done]. rewrite (Hpend pb eq_refl).
    apply Z.ltb_irrefl. }
  assert (zw_due w ++ (zw_done w).*1 ≡ₚ
    (fun q => (q, t0 + (q - p0))) <$> seqZ p0 (sq_period_id st - p0)) as Hold.
  { rewrite I4. unfold closed_periods. fold st. by rewrite Eo, Z.sub_0_r. }
  assert (sq_period_id st' = sq_period_id st + 1 /\
    sq_target_superblock_number st' = sq_target_superblock_number st + 1) as [Fp Ft] by done.
  split; cbn [set_off zw_state zw_due zw_done]; [lia|lia|..].
  - intros pb. change (sq_pending_block st') with (sq_pending_block st). intros Hpb.
    rewrite (Hpend pb Hpb). lia.
  - unfold closed_periods, period_settlement, overdue. rewrite Fp, Ft.
    change (sq_pending_block st') with (sq_pending_block st).
    destruct (sq_pending_block st) as [pb|]; cbn [option_list].
    + rewrite (Hpend pb eq_refl), (proj2 (Z.ltb_lt _ _)), app_nil_r, Hold by lia.
      by replace (sq_period_id st + 1 - p0 - 1) with (sq_period_id st - p0) by lia.
    + replace (sq_period_id st + 1 - p0 - 0) with (Z.of_nat (S (Z.to_nat (sq_period_id st - p0)))) by lia.
      rewrite seqZ_S, Z2Nat.id by lia. rewrite fmap_app, <- Hold. cbn.
      replace (p0 + (sq_period_id st - p0)) with (sq_period_id st) by lia.
      assert (sq_period_id st + 1 -! 1 = sq_period_id st) as -> by u64_lia.
      assert (sq_target_superblock_number st + 1 -! 1 = t0 + (sq_period_id st - p0)) as -> by u64_lia.
      rewrite <- !app_assoc. apply Permutation_app_head, Permutation_app_comm.
  - intros q sb evs Hin. rewrite (I5 q sb evs Hin). done.
Qed.

(** A block is sealed, of the current period or of the one before. *)
Lemma settle_inv_seal p0 t0 w b st' z :
  0 <= p0 -> 0 <= t0 -> settle_inv p0 t0 w -> seal_block (zw_state w) b = (st', Ok z) ->
  settle_inv p0 t0 (set_off st' z w).
Proof.
  intros Hp0 Ht0 Hi Hseal. pose proof Hi as [I1 I2 I3 I4 I5]. set (st := zw_state w) in *.
  unfold seal_block in Hseal. destruct (sq_pending_block st) as [pb|] eqn:Hpb; [|done].
  destruct (negb _); [done|]. case_decide; [done|]. injection Hseal as <- <-.
  assert (overdue st = (pb_period_id pb <? sq_period_id st)) as Eo by (unfold overdue; by rewrite Hpb).
  split; cbn [set_off zw_state zw_due zw_done sq_period_id sq_target_superblock_number
    sq_pending_block]; [done|done|done| |].
  - unfold closed_periods in *. rewrite Eo in I4. unfold overdue. cbn [sq_pending_block sq_period_id].
    destruct (I3 pb eq_refl) as [E|[E Hlt]]; rewrite E in *.
    + rewrite Z.ltb_irrefl in *. cbn [option_list]. by rewrite app_nil_r.
    + rewrite (proj2 (Z.ltb_lt _ _)) in * by lia. cbn [option_list].
      replace (sq_period_id st - p0 - 0) with (Z.of_nat (S (Z.to_nat (sq_period_id st - p0 - 1)))) by lia.
      rewrite seqZ_S, Z2Nat.id by lia. rewrite fmap_app, <- I4. cbn.
      replace (p0 + (sq_period_id st - p0 - 1)) with (sq_period_id st - 1) by lia.
      assert (sq_period_id st -! 1 = sq_period_id st - 1) as -> by u64_lia.
      assert (sq_target_superblock_number st -! 1 = t0 + (sq_period_id st - 1 - p0)) as -> by u64_lia.
      rewrite <- !app_assoc. apply Permutation_app_head, Permutation_app_comm.
  - intros q sb evs Hin. rewrite (I5 q sb evs Hin). symmetry. f_equal. apply start_settlement_head.
    cbn [sq_sealed_block_head]. pose proof (closed_done p0 t0 w q sb evs Hi Hin) as Hq.
    fold st in Hq. rewrite Eo in Hq. apply lookup_insert_ne.
    destruct (I3 pb eq_refl) as [E|[E _]]; rewrite E in *; [rewrite Z.ltb_irrefl in Hq; lia|].
    rewrite (proj2 (Z.ltb_lt _ _)) in Hq by lia. lia.
Qed.

Lemma settle_step_inv p0 t0 w w' :
  0 <= p0 -> 0 <= t0 -> settle_step w w' -> settle_inv p0 t0 w -> settle_inv p0 t0 w'.
Proof.
  intros Hp0 Ht0 Hstep Hi. destruct Hstep as [st st' Hpend Hp Ht|n|id p s|id|b st' z E|b st' e E|s|l1 p sb l2 Hd].
  - by apply settle_inv_period.
  - unfold begin_block. destruct (sq_pending_block (zw_state w)) eqn:E; [|case_match];
      apply settle_inv_same; auto. right. split; [done|]. by eexists.
  - apply settle_inv_same; unfold on_start_instance; repeat case_match; auto.
  - apply settle_inv_same; unfold on_decided_instance; repeat case_match; auto.
  - by eapply settle_inv_seal.
  - assert (st' = zw_state w) as -> by (unfold seal_block in E; repeat case_match; congruence).
    apply settle_inv_same; auto.
  - apply settle_inv_same; unfold advance_settled_state; repeat case_match; auto.
  - destruct Hi as [I1 I2 I3 I4 I5]. split; cbn [zw_state zw_due zw_done]; [done..| |].
    + rewrite <- I4, Hd. cbn. rewrite <- !app_assoc. cbn. apply Permutation_app_head.
      by rewrite <- Permutation_middle.
    + intros q sb' evs [[= -> -> ->]|Hin]%elem_of_cons; [done|]. by apply I5.
Qed.

(** C25. Every superblock is settled exactly once. A sequencer starts in period [p0] with
    target [t0]; periods follow each other, each only after the block the period before left
    open, if any, has been sealed; numbers stay within [u64] and there is no rollback; blocks,
    instances, L1 events and the settlements themselves, which read the state in a critical
    section of their own, interleave at will. Then the settlements set off are exactly one
    for each period that is over, of that period's superblock, the one of the last period
    being set off when its open block is sealed; and each settlement that ran made the calls
    for the sealed head of its period (none, if the period sealed no block). *)
Theorem settlement_once_per_period p0 t0 settled w :
  u64_ok p0 -> u64_ok t0 ->
  rtc settle_step (mk_settle_world (new p0 t0 settled) [] []) w ->
  zw_due w ++ (zw_done w).*1 ≡ₚ closed_periods p0 t0 (zw_state w) /\
  NoDup (closed_periods p0 t0 (zw_state w)).*1 /\
  (forall q sb evs, (q, sb, evs) ∈ zw_done w -> evs = (start_settlement (zw_state w) q sb).1) /\
  (forall b st' z, overdue (zw_state w) = true -> seal_block (zw_state w) b = (st', Ok z) ->
     z = Some (sq_period_id (zw_state w) - 1, sq_target_superblock_number (zw_state w) - 1) /\
     overdue st' = false).
Proof.
  intros Hp0 Ht0 Hr. assert (settle_inv p0 t0 w) as Hi.
  { assert (settle_inv p0 t0 (mk_settle_world (new p0 t0 settled) [] [])) as H0.
    { split; cbn; [u64_lia|u64_lia|done| |set_solver]. unfold closed_periods, overdue. cbn.
      by replace (p0 - p0 - 0) with 0 by lia. }
    assert (0 <= p0 /\ 0 <= t0) as [? ?] by u64_lia.
    induction Hr; [done|]. eauto using settle_step_inv. }
  pose proof Hi as [I1 I2 I3 I4 I5]. split_and!; [done| |done|].
  - unfold closed_periods. rewrite <- list_fmap_compose. unfold compose. cbn.
    rewrite list_fmap_id. apply NoDup_seqZ.
  - intros b st' z Ho Hseal. unfold overdue, seal_block in *.
    destruct (sq_pending_block (zw_state w)) as [pb|]; [|done].
    destruct (negb _); [done|]. case_decide; [done|]. injection Hseal as <- <-. rewrite Ho.
    destruct (I3 pb eq_refl) as [E|[E Hlt]]; [rewrite E, Z.ltb_irrefl in Ho; done|].
    split; [|done]. f_equal. f_equal; u64_lia.
Qed.

(** The pending settlement is not remembered: if two period changes happen while a
    block of period [p] is open, sealing it settles only period [p + 1], without a header,
    and superblock [t] of period [p], which holds the block, is never proved. *)
Theorem two_period_changes_skip_settlement st pb b t proof :
  let p := sq_period_id st in
  u64_ok p -> p + 2 < u64_modulus -> u64_ok t -> t + 2 < u64_modulus ->
  sq_pending_block st = Some pb -> pb_period_id pb = p -> bh_number b = pb_number pb ->
  sq_active_instance_id st = None -> sq_sealed_block_head st !! (p + 1) = None ->
  (forall hdr, request_proofs hdr (t + 1) = Ok proof) -> send_proof (p + 1) (t + 1) proof = Ok () ->
  exists st3,
    let '(st1, evs1, _) := start_period st (p + 1) (t + 1) in
    let '(st2, evs2, _) := start_period st1 (p + 2) (t + 2) in
    end_block st2 b = (st3, [RequestProofs None (t + 1); SendProof (p + 1) (t + 1) proof], Ok ()) /\
    evs1 ++ evs2 = [] /\ (sb_block_header <$> sq_sealed_block_head st3 !! p) = Some b.
Proof.
  intros p Hp Hpb Ht Htb Hpend Hpp Hb Hact Hseal Hreq Hsend.
  assert (p + 2 -! 1 = p + 1) as Ep by u64_lia. assert (t + 2 -! 1 = t + 1) as Et by u64_lia.
  unfold start_period, enter_period. cbn [sq_pending_block]. rewrite Hpend.
  cbn [sq_pending_block sq_active_instance_id sq_head sq_sealed_block_head sq_settled_state].
  eexists. unfold end_block.
  rewrite (seal_block_ok _ pb b) by done. cbn [sq_period_id sq_target_superblock_number].
  rewrite (proj2 (Z.ltb_lt (pb_period_id pb) (p + 2))), Ep, Et by lia.
  erewrite start_settlement_ok by done. cbn [sq_sealed_block_head].
  rewrite Hpp, lookup_insert_ne, Hseal by lia. split_and!; [done..|].
  cbn [sq_sealed_block_head]. by rewrite lookup_insert_eq.
Qed.

(** [rollback] is refused, changing nothing, unless number and hash are those of the
    settled state; otherwise the sequencer is as if newly created from the settled state in
    the given period with the next superblock as target, except that it keeps exactly the
    sealed heads of settled superblocks and, unlike a new sequencer, the last sequence
    number. *)
Theorem rollback_spec st sb h p :
  let settled := sq_settled_state st in
  let fresh := new p (ss_superblock_number settled +! 1) settled in
  rollback st sb h p =
    if decide (sb = ss_superblock_number settled /\ h = ss_superblock_hash settled) then
      (mk_SequencerState (sq_period_id fresh) (sq_target_superblock_number fresh)
         (sq_pending_block fresh) (sq_active_instance_id fresh) (sq_last_sequence_number st)
         (sq_head fresh)
         (filter (fun kv => sb_superblock_number kv.2 <= ss_superblock_number settled)
            (sq_sealed_block_head st)) (sq_settled_state fresh),
       Ok (ss_block_header settled))
    else (st, Err MismatchedFinalizedState).
Proof.
  cbn zeta. unfold rollback. repeat case_decide; try done; exfalso.
  - tauto.
  - destruct (decide (sb = ss_superblock_number (sq_settled_state st)));
      destruct (decide (h = ss_superblock_hash (sq_settled_state st))); tauto.
Qed.

End settlement.

(** ** Examples *)

Definition sample_env : SequencerEnv := {|
  request_proofs _ _ := Ok [x73];
  forward_request _ := Ok ();
  send_proof _ _ _ := Ok ();
|}.

Definition sample_header (n : Z) : BlockHeader := mk_BlockHeader n (replicate 32 x00) (replicate 32 x00).
Definition sample_settled (sb head : Z) : SettledState :=
  mk_SettledState (sample_header head) sb (replicate 32 x01).

(** Period 9, target 10, block 41 open. *)
Definition sample_open : SequencerState := (begin_block (new 9 10 (sample_settled 5 40)) 41).1.

(** Block 41 open, instance [xaa] active. *)
Definition sample_active_world : seq_world :=
  mk_seq_world (on_start_instance sample_open [xaa] 9 1).1 [1] [].

Lemma sample_active_reachable :
  rtc (@seq_step sample_env) (mk_seq_world (new 9 10 (sample_settled 5 40)) [] [])
    sample_active_world.
Proof.
  eapply rtc_l; [apply (@step_begin_block sample_env _ 41)|]. apply rtc_once.
  apply (@step_on_start_instance sample_env (mk_seq_world sample_open [] []) [xaa] 9 1).
  by vm_compute.
Qed.

Lemma sample_initial : seq_initial (mk_seq_world (new 9 10 (sample_settled 5 40)) [] []).
Proof. split; [|done]. by eexists _, _, _. Qed.

Lemma sequencer_invariant_witness :
  block_inv (qw_state sample_active_world) /\
  StronglySorted (fun a b => b < a) (qw_accepted sample_active_world) /\
  hd_error (qw_accepted sample_active_world) = sq_last_sequence_number (qw_state sample_active_world).
Proof.
  apply (@sequencer_invariant sample_env _ _ sample_initial sample_active_reachable).
Defined.

Lemma active_instance_locks_block_witness :
  can_include_local_tx (qw_state sample_active_world) = Ok false /\
  exists st', on_decided_instance (qw_state sample_active_world) [xaa] = (st', Ok ()) /\
    can_include_local_tx st' = Ok true.
Proof.
  destruct (@active_instance_locks_block sample_env _ _ [xaa] sample_initial
    sample_active_reachable eq_refl) as (Htx & _ & _ & _ & _ & Hdec & _).
  split; [exact Htx|exact Hdec].
Defined.

(** Block 41 is open when period 10 begins; it is sealed, and the settlement it sets off runs
    in period 11. *)
Definition sample_settlements : settle_world :=
  let st1 := enter_period sample_open 10 11 in
  let st2 := (seal_block st1 (sample_header 41)).1 in
  let st3 := enter_period st2 11 12 in
  mk_settle_world st3 [(10, 11)]
    [(9, 10, [RequestProofs (Some (sample_header 41)) 10; SendProof 9 10 [x73]])].

Lemma settlement_once_per_period_witness :
  zw_due sample_settlements ++ (zw_done sample_settlements).*1 ≡ₚ [(9, 10); (10, 11)].
Proof.
  assert (rtc (@settle_step sample_env) (mk_settle_world (new 9 10 (sample_settled 5 40)) [] [])
    sample_settlements) as Hr.
  { eapply rtc_l; [apply (@settle_begin sample_env _ 41)|].
    eapply rtc_l; [apply (@settle_period sample_env); [by intros pb [= <-]|by_compute..]|].
    eapply rtc_l; [apply (@settle_seal sample_env _ (sample_header 41)); by vm_compute|].
    eapply rtc_l; [apply (@settle_period sample_env); [done|by_compute..]|].
    assert (forall w1 w2 : settle_world, w1 = w2 -> rtc (@settle_step sample_env) w1 w2) as Heq by (by intros ? ? ->).
    eapply rtc_l; [apply (@settle_run sample_env _ [] 9 10 [(10, 11)]); by vm_compute|].
    apply Heq. vm_compute. reflexivity. }
  destruct (@settlement_once_per_period sample_env 9 10 (sample_settled 5 40) _
    ltac:(by_compute) ltac:(by_compute) Hr) as [Hp _].
  exact Hp.
Defined.

Lemma two_period_changes_skip_settlement_witness :
  exists st3,
    let '(st1, evs1, _) := @start_period sample_env sample_open 10 11 in
    let '(st2, evs2, _) := @start_period sample_env st1 11 12 in
    @end_block sample_env st2 (sample_header 41) =
      (st3, [RequestProofs None 11; SendProof 10 11 [x73]], Ok ()) /\
    evs1 ++ evs2 = [] /\
    (sb_block_header <$> sq_sealed_block_head st3 !! 9) = Some (sample_header 41).
Proof.
  apply (@two_period_changes_skip_settlement sample_env sample_open
    (mk_PendingBlock 41 9 10) (sample_header 41) 10 [x73]); try by_compute; done.
Defined.
