(* ===== verification/SbcpSystem.v ===== *)
(** * Publisher and sequencer together ([crates/spec-sbcp])

    The two halves of the protocol, joined by the messages of their traits: what
    [PublisherMessenger] broadcasts is delivered to [Sequencer::start_period] and
    [Sequencer::rollback], and what [SequencerMessenger::send_proof] sends is delivered to
    [Publisher::receive_proof]. Delivery is reliable and in order; the transport that
    carries the messages is outside these crates. *)
From Stdlib Require Import ZArith Lia.
From S2P Require Import Prelude Spec InstanceIdGen SbcpPublisher SbcpSequencer.

Section system.
Context `{SequencerEnv}.
Implicit Types (pub : PublisherState) (seq : SequencerState).

(** A publisher broadcast, handled by a sequencer. *)
Definition deliver (ev : pub_event) seq : SequencerState * list seq_event :=
  match ev with
  | BroadcastStartPeriod p t => (SbcpSequencer.start_period seq p t).1
  | BroadcastRollback p sb h => ((SbcpSequencer.rollback seq sb h p).1, [])
  | RequestSuperblockProof _ _ _ | PublishProof _ _ => (seq, [])
  end.

(** Same period, same target, same view of what is final. *)
Definition in_sync pub seq : Prop :=
  sq_period_id seq = ps_period_id pub /\
  sq_target_superblock_number seq = ps_target_superblock_number pub /\
  ss_superblock_number (sq_settled_state seq) = ps_last_finalized_superblock_number pub /\
  ss_superblock_hash (sq_settled_state seq) = ps_last_finalized_superblock_hash pub.

Lemma start_period_state seq p t :
  (SbcpSequencer.start_period seq p t).1.1 = enter_period seq p t.
Proof. unfold SbcpSequencer.start_period. repeat case_match; done. Qed.

(** C26. A sequencer in step with the publisher stays in step: delivering what
    [start_period] announces, or what [rollback] announces, takes it to the publisher's new
    period and target, and it accepts the rollback. *)
Theorem broadcasts_keep_sync pub seq :
  in_sync pub seq ->
  (forall pub' evs, SbcpPublisher.start_period pub = (pub', evs, Ok ()) ->
     exists ev, evs = [ev] /\ in_sync pub' (deliver ev seq).1) /\
  (forall pub' evs, SbcpPublisher.rollback pub = (pub', evs) ->
     exists ev, evs = [ev] /\ in_sync pub' (deliver ev seq).1 /\
       is_ok (SbcpSequencer.rollback seq (ps_last_finalized_superblock_number pub)
                (ps_last_finalized_superblock_hash pub) (ps_period_id pub)).2 = true).
Proof.
  intros (Hp & Ht & Hn & Hh). split.
  - intros pub' evs. unfold SbcpPublisher.start_period. case_match; [done|].
    intros [= <- <-]. eexists. split; [done|]. cbn [deliver].
    unfold in_sync. rewrite start_period_state. done.
  - intros pub' evs [= <- <-]. eexists. split; [done|]. cbn [deliver].
    rewrite !rollback_spec, decide_True by done. cbn. rewrite Hn. done.
Qed.

(** C27. The proof a sequencer sends when the period changes is one the publisher accepts:
    if the superblock being built is the one after the last finalized, the publisher starts
    the next period, and a sequencer in step with no open block then sends a proof for the
    closed period and superblock that passes every check of [receive_proof] but the
    duplicate check. *)
Theorem settlement_proof_admissible pub seq pub' evs proof :
  in_sync pub seq -> ps_ok pub -> sq_pending_block seq = None ->
  ps_period_id pub + 1 < u64_modulus -> ps_target_superblock_number pub + 1 < u64_modulus ->
  ps_target_superblock_number pub = ps_last_finalized_superblock_number pub + 1 ->
  let p := ps_period_id pub in let t := ps_target_superblock_number pub in
  (forall hdr, request_proofs hdr t = Ok proof) -> send_proof p t proof = Ok () ->
  SbcpPublisher.start_period pub = (pub', evs, Ok ()) ->
  exists ev hdr, evs = [ev] /\ (deliver ev seq).2 = [RequestProofs hdr t; SendProof p t proof] /\
    receive_proof_admissible pub' p t = true.
Proof.
  intros (Hp & Ht & Hn & Hh) Hok Hpend Hpb Htb Hnext p t Hreq Hsend.
  assert (Hok' := Hok). destruct Hok' as (Hpo & Hto & Hfo & _).
  unfold SbcpPublisher.start_period. case_match; [done|]. intros [= <- <-].
  assert (ps_period_id pub +! 1 = p + 1) as -> by u64_lia.
  assert (ps_target_superblock_number pub +! 1 = t + 1) as -> by u64_lia.
  assert (p + 1 -! 1 = p) as Ep by u64_lia. assert (t + 1 -! 1 = t) as Et by u64_lia.
  do 2 eexists. split; [done|]. split.
  { cbn [deliver]. unfold start_period. cbn [enter_period sq_pending_block]. rewrite Hpend, Ep, Et.
    by erewrite start_settlement_ok. }
  apply receive_proof_admissible_spec; cbn.
  - unfold ps_ok; cbn. destruct Hok as (_ & _ & _ & _ & ?). split_and!; u64_lia || done.
  - fold t in Hnext. u64_lia.
  - fold t p. fold t in Hnext. split_and!; [done|lia|]. u64_lia.
Qed.

(** After a rollback the two halves disagree on sequence numbers: the publisher starts
    again at 1 in the same period, while the sequencer remembers the last number it
    accepted. A sequencer in step that has accepted an instance in the period therefore
    refuses the first instance the publisher starts after the rollback, even though it has
    opened the next block. *)
Theorem rollback_then_first_instance_refused `{Sha2} pub seq last pub' evs request pub'' i :
  in_sync pub seq -> sq_last_sequence_number seq = Some last -> 1 <= last ->
  SbcpPublisher.rollback pub = (pub', evs) ->
  start_instance pub' request = (pub'', Ok i) ->
  exists ev, evs = [ev] /\
    let seq' := (begin_block (deliver ev seq).1 (sq_head (deliver ev seq).1 +! 1)).1 in
    is_Some (sq_pending_block seq') /\
    on_start_instance seq' (inst_id i) (inst_period_id i) (inst_sequence_number i) =
      (seq', Err LowSequenceNumber).
Proof.
  intros (Hp & Ht & Hn & Hh) Hlast Hge [= <- <-] (_ & _ & -> & _)%start_instance_Ok.
  eexists. split; [done|]. cbn [deliver].
  rewrite rollback_spec, decide_True by done. cbn [fst begin_block sq_pending_block new sq_head].
  unfold begin_block. cbn [sq_pending_block sq_head]. rewrite Z.eqb_refl. cbn [negb fst].
  split; [by eexists|]. unfold on_start_instance. cbn. rewrite decide_False by (by intros [? ?]).
  rewrite Z.eqb_refl. cbn [negb]. rewrite Hlast.
  change (0 +! 1) with 1. by rewrite (proj2 (Z.leb_le 1 last)).
Qed.

End system.

(** ** Examples *)

(** Publisher in period 12 with target 6 after finalizing 5; sequencer in step, idle. *)
Definition sample_pub : PublisherState :=
  mk_PublisherState 12 6 5 (replicate 32 x01) ∅ {[1; 2]} 3 {[1 := true; 2 := true]} 0.
Definition sample_seq : SequencerState :=
  mk_SequencerState 12 6 None None (Some 3) 40 ∅ (sample_settled 5 40).

Lemma sample_in_sync : in_sync sample_pub sample_seq.
Proof. done. Qed.

Lemma broadcasts_keep_sync_witness :
  exists pub' ev, SbcpPublisher.start_period sample_pub = (pub', [ev], Ok ()) /\
    in_sync pub' (@deliver sample_env ev sample_seq).1.
Proof.
  destruct (@broadcasts_keep_sync sample_env _ _ sample_in_sync) as [Hsp _].
  destruct (Hsp _ _ eq_refl) as (ev & E & Hs).
  eexists _, ev. split; [by rewrite <- E|exact Hs].
Defined.

Lemma settlement_proof_admissible_witness :
  exists ev hdr, [BroadcastStartPeriod 13 7] = [ev] /\
    (@deliver sample_env ev sample_seq).2 = [RequestProofs hdr 6; SendProof 12 6 [x73]] /\
    receive_proof_admissible (SbcpPublisher.start_period sample_pub).1.1 12 6 = true.
Proof.
  apply (@settlement_proof_admissible sample_env sample_pub sample_seq); try by_compute; done.
Defined.

Lemma rollback_then_first_instance_refused_witness :
  exists ev, [BroadcastRollback 12 5 (replicate 32 x01)] = [ev] /\
    exists seq', is_Some (sq_pending_block seq') /\
      seq' = (begin_block (@deliver sample_env ev sample_seq).1
                (sq_head (@deliver sample_env ev sample_seq).1 +! 1)).1 /\
      (on_start_instance seq'
        (generate_instance_id (H := prefix_sha256) 12 1 (two_chain_request 1 2)) 12 1).2 =
      Err LowSequenceNumber.
Proof.
  destruct (@rollback_then_first_instance_refused sample_env prefix_sha256 sample_pub sample_seq 3
    _ _ (two_chain_request 1 2) _ _ sample_in_sync eq_refl ltac:(lia) eq_refl eq_refl)
    as (ev & E & Hp & Hr).
  exists ev. split; [exact E|]. eexists. split; [exact Hp|]. split; [reflexivity|].
  exact (f_equal snd Hr).
Defined.
