(* ===== verification/CoordState.v ===== *)
(** * State of the two-phase-commit coordinator
    ([crates/coordinator/src/coordinator.rs], [proof_types.rs])

    [CoordinatorState] is the content of the [RwLock]; each method of the source is a
    function on it. Instants are nanoseconds of the monotonic clock, passed to the methods
    that read it. Where a method iterates over a [HashMap], the iteration order is an
    argument. *)
From Stdlib Require Import ZArith Lia.
From S2P Require Import Prelude Spec InstanceIdGen Messages.

(** ** Proof data ([proof_types.rs]) *)

Abbreviation B256 := bytes (only parsing).
Abbreviation Address := bytes (only parsing).

Definition B256_ZERO : B256 := replicate 32 x00.
Definition Address_ZERO : Address := replicate 20 x00.

Record AggregationOutputs := mk_AggregationOutputs {
  ao_l1_head : B256;
  ao_l2_pre_root : B256;
  ao_l2_post_root : B256;
  ao_l2_block_number : Z;
  ao_rollup_config_hash : B256;
  ao_mailbox_root : B256;
  ao_multi_block_vkey : B256;
  ao_prover_address : Address;
}.

Record MailboxInfo := mk_MailboxInfo {
  mi_inbox_chains : list B256;
  mi_outbox_chains : list B256;
  mi_inbox_roots : list B256;
  mi_outbox_roots : list B256;
}.

Record ProofData := mk_ProofData {
  pd_aggregation_outputs : AggregationOutputs;
  pd_compressed_proof : bytes;
  pd_agg_vkey_hash : B256;
  pd_mailbox_info : MailboxInfo;
}.

Definition AggregationOutputs_default : AggregationOutputs :=
  mk_AggregationOutputs B256_ZERO B256_ZERO B256_ZERO 0 B256_ZERO B256_ZERO B256_ZERO Address_ZERO.

Definition MailboxInfo_default : MailboxInfo := mk_MailboxInfo [] [] [] [].

(** ** Coordinator data *)

Definition MAX_PENDING_QUEUE_SIZE : nat := 100.

Abbreviation Instant := Z (only parsing).
Abbreviation Duration := Z (only parsing).

(** [later.duration_since(earlier)], which saturates at zero. *)
Definition duration_since (later earlier : Instant) : Duration := Z.max 0 (later - earlier).

Record ActiveXt := mk_ActiveXt {
  ax_chains : list ChainId;
  ax_votes : gmap Z bool;
  ax_instance_id_bytes : bytes;
  ax_start_time : Instant;
}.

Record PendingEntry := mk_PendingEntry {
  pe_xt_request : Proto.XtRequest;
  pe_chains : list ChainId;
}.

Record ChainProof := mk_ChainProof {
  cp_superblock_number : Z;
  cp_data : ProofData;
}.

Record CoordinatorState := mk_CoordinatorState {
  cs_chain_to_client : gmap Z string;
  cs_client_to_chain : gmap string Z;
  cs_active_xts : gmap string ActiveXt;
  cs_active_chains : gmap Z string;
  cs_pending_queue : list PendingEntry;
  cs_current_period_id : PeriodId;
  cs_next_sequence_num : SequenceNumber;
  cs_next_superblock_number : SuperblockNumber;
  cs_last_finalized_superblock_number : Z;
  cs_last_finalized_superblock_hash : bytes;
  cs_pending_proofs : gmap Z ChainProof;
  cs_proof_collection_started : option Instant;
}.

(** Field updates. *)
Definition set_chain_to_client (v : gmap Z string) (st : CoordinatorState) : CoordinatorState :=
  mk_CoordinatorState v (cs_client_to_chain st) (cs_active_xts st) (cs_active_chains st)
    (cs_pending_queue st) (cs_current_period_id st) (cs_next_sequence_num st)
    (cs_next_superblock_number st) (cs_last_finalized_superblock_number st)
    (cs_last_finalized_superblock_hash st) (cs_pending_proofs st)
    (cs_proof_collection_started st).
Definition set_client_to_chain (v : gmap string Z) (st : CoordinatorState) : CoordinatorState :=
  mk_CoordinatorState (cs_chain_to_client st) v (cs_active_xts st) (cs_active_chains st)
    (cs_pending_queue st) (cs_current_period_id st) (cs_next_sequence_num st)
    (cs_next_superblock_number st) (cs_last_finalized_superblock_number st)
    (cs_last_finalized_superblock_hash st) (cs_pending_proofs st)
    (cs_proof_collection_started st).
Definition set_active_xts (v : gmap string ActiveXt) (st : CoordinatorState) : CoordinatorState :=
  mk_CoordinatorState (cs_chain_to_client st) (cs_client_to_chain st) v (cs_active_chains st)
    (cs_pending_queue st) (cs_current_period_id st) (cs_next_sequence_num st)
    (cs_next_superblock_number st) (cs_last_finalized_superblock_number st)
    (cs_last_finalized_superblock_hash st) (cs_pending_proofs st)
    (cs_proof_collection_started st).
Definition set_active_chains (v : gmap Z string) (st : CoordinatorState) : CoordinatorState :=
  mk_CoordinatorState (cs_chain_to_client st) (cs_client_to_chain st) (cs_active_xts st) v
    (cs_pending_queue st) (cs_current_period_id st) (cs_next_sequence_num st)
    (cs_next_superblock_number st) (cs_last_finalized_superblock_number st)
    (cs_last_finalized_superblock_hash st) (cs_pending_proofs st)
    (cs_proof_collection_started st).
Definition set_pending_queue (v : list PendingEntry) (st : CoordinatorState) : CoordinatorState :=
  mk_CoordinatorState (cs_chain_to_client st) (cs_client_to_chain st) (cs_active_xts st)
    (cs_active_chains st) v (cs_current_period_id st) (cs_next_sequence_num st)
    (cs_next_superblock_number st) (cs_last_finalized_superblock_number st)
    (cs_last_finalized_superblock_hash st) (cs_pending_proofs st)
    (cs_proof_collection_started st).
Definition set_current_period_id (v : PeriodId) (st : CoordinatorState) : CoordinatorState :=
  mk_CoordinatorState (cs_chain_to_client st) (cs_client_to_chain st) (cs_active_xts st)
    (cs_active_chains st) (cs_pending_queue st) v (cs_next_sequence_num st)
    (cs_next_superblock_number st) (cs_last_finalized_superblock_number st)
    (cs_last_finalized_superblock_hash st) (cs_pending_proofs st)
    (cs_proof_collection_started st).
Definition set_next_sequence_num (v : SequenceNumber) (st : CoordinatorState) : CoordinatorState :=
  mk_CoordinatorState (cs_chain_to_client st) (cs_client_to_chain st) (cs_active_xts st)
    (cs_active_chains st) (cs_pending_queue st) (cs_current_period_id st) v
    (cs_next_superblock_number st) (cs_last_finalized_superblock_number st)
    (cs_last_finalized_superblock_hash st) (cs_pending_proofs st)
    (cs_proof_collection_started st).
Definition set_next_superblock_number (v : SuperblockNumber) (st : CoordinatorState) : CoordinatorState :=
  mk_CoordinatorState (cs_chain_to_client st) (cs_client_to_chain st) (cs_active_xts st)
    (cs_active_chains st) (cs_pending_queue st) (cs_current_period_id st)
    (cs_next_sequence_num st) v (cs_last_finalized_superblock_number st)
    (cs_last_finalized_superblock_hash st) (cs_pending_proofs st)
    (cs_proof_collection_started st).
Definition set_last_finalized_superblock_number (v : Z) (st : CoordinatorState) : CoordinatorState :=
  mk_CoordinatorState (cs_chain_to_client st) (cs_client_to_chain st) (cs_active_xts st)
    (cs_active_chains st) (cs_pending_queue st) (cs_current_period_id st)
    (cs_next_sequence_num st) (cs_next_superblock_number st) v
    (cs_last_finalized_superblock_hash st) (cs_pending_proofs st)
    (cs_proof_collection_started st).
Definition set_last_finalized_superblock_hash (v : bytes) (st : CoordinatorState) : CoordinatorState :=
  mk_CoordinatorState (cs_chain_to_client st) (cs_client_to_chain st) (cs_active_xts st)
    (cs_active_chains st) (cs_pending_queue st) (cs_current_period_id st)
    (cs_next_sequence_num st) (cs_next_superblock_number st)
    (cs_last_finalized_superblock_number st) v (cs_pending_proofs st)
    (cs_proof_collection_started st).
Definition set_pending_proofs (v : gmap Z ChainProof) (st : CoordinatorState) : CoordinatorState :=
  mk_CoordinatorState (cs_chain_to_client st) (cs_client_to_chain st) (cs_active_xts st)
    (cs_active_chains st) (cs_pending_queue st) (cs_current_period_id st)
    (cs_next_sequence_num st) (cs_next_superblock_number st)
    (cs_last_finalized_superblock_number st) (cs_last_finalized_superblock_hash st) v
    (cs_proof_collection_started st).
Definition set_proof_collection_started (v : option Instant) (st : CoordinatorState) : CoordinatorState :=
  mk_CoordinatorState (cs_chain_to_client st) (cs_client_to_chain st) (cs_active_xts st)
    (cs_active_chains st) (cs_pending_queue st) (cs_current_period_id st)
    (cs_next_sequence_num st) (cs_next_superblock_number st)
    (cs_last_finalized_superblock_number st) (cs_last_finalized_superblock_hash st)
    (cs_pending_proofs st) v.

Definition CoordinatorState_new : CoordinatorState :=
  mk_CoordinatorState ∅ ∅ ∅ ∅ [] 0 1 1 0 [] ∅ None.

(** ** Free functions *)

Fixpoint extract_chains_loop (seen : gset Z) (chains : list ChainId)
    (l : list Proto.TransactionRequest) : list ChainId :=
  match l with
  | [] => chains
  | tr :: l' =>
      let cid := Proto.ptr_chain_id tr in
      if decide (cid ∈ seen) then extract_chains_loop seen chains l'
      else extract_chains_loop ({[cid]} ∪ seen) (chains ++ [cid]) l'
  end.

Definition extract_chains (req : Proto.XtRequest) : list ChainId :=
  extract_chains_loop ∅ [] (Proto.pxt_transaction_requests req).

Definition proto_to_spec_xt (req : Proto.XtRequest) : XtRequest :=
  mk_XtRequest
    ((fun tr => mk_TransactionRequest (Proto.ptr_chain_id tr) (Proto.ptr_transaction tr))
       <$> Proto.pxt_transaction_requests req).

(** Every message the coordinator sends has this sender. *)
Definition publisher_message (p : Proto.Payload) : Proto.Message :=
  Proto.mk_Message "publisher" (Some p).

Inductive MailboxError :=
| InboxRootsShorter (chain_i : Z)
| MailboxMismatch (chain_i : Z) (inbox_chain : B256).

(** The check of one inbox entry: [proofs] are the values in iteration order. *)
Definition check_inbox_entry (proofs : list ProofData) (chain_i : Z) (mi : MailboxInfo)
    (idx : nat) (inbox_chain : B256) : result unit MailboxError :=
  match mi_inbox_roots mi !! idx with
  | None => Err (InboxRootsShorter chain_i)
  | Some inbox_root =>
      let counterparty_proof :=
        list_find (fun p => inbox_chain ∈ mi_outbox_chains (pd_mailbox_info p)) proofs in
      match counterparty_proof with
      | Some (_, cp) =>
          let cp_mi := pd_mailbox_info cp in
          match list_find (fun oc => oc = inbox_chain) (mi_outbox_chains cp_mi) with
          | Some (outbox_idx, _) =>
              match mi_outbox_roots cp_mi !! outbox_idx with
              | Some outbox_root =>
                  if decide (inbox_root = outbox_root) then Ok ()
                  else Err (MailboxMismatch chain_i inbox_chain)
              | None => Ok ()
              end
          | None => Ok ()
          end
      | None => Ok ()
      end
  end.

Fixpoint check_inbox (proofs : list ProofData) (chain_i : Z) (mi : MailboxInfo) (idx : nat)
    (inbox_chains : list B256) : result unit MailboxError :=
  match inbox_chains with
  | [] => Ok ()
  | c :: rest =>
      match check_inbox_entry proofs chain_i mi idx c with
      | Err e => Err e
      | Ok _ => check_inbox proofs chain_i mi (S idx) rest
      end
  end.

Fixpoint check_chains (proofs : list ProofData) (entries : list (Z * ProofData))
    : result unit MailboxError :=
  match entries with
  | [] => Ok ()
  | (chain_i, proof_i) :: rest =>
      let mi := pd_mailbox_info proof_i in
      match check_inbox proofs chain_i mi 0 (mi_inbox_chains mi) with
      | Err e => Err e
      | Ok _ => check_chains proofs rest
      end
  end.

(** [proofs] are the entries of the map in iteration order. *)
Definition validate_mailbox_consistency (proofs : list (Z * ProofData))
    : result unit MailboxError :=
  check_chains proofs.*2 proofs.

(** ** Methods *)

Section methods.
Context `{Sha2, ProstMessage}.
Implicit Types st : CoordinatorState.

Definition register_chain st (client_id : string) (chain_id : ChainId) : CoordinatorState :=
  let st1 :=
    match cs_client_to_chain st !! client_id with
    | Some old_chain => set_chain_to_client (delete old_chain (cs_chain_to_client st)) st
    | None => st
    end in
  let st2 := set_chain_to_client (<[chain_id := client_id]> (cs_chain_to_client st1)) st1 in
  set_client_to_chain (<[client_id := chain_id]> (cs_client_to_chain st2)) st2.

Definition has_overlap st (chains : list ChainId) : bool :=
  existsb (fun c => bool_decide (is_Some (cs_active_chains st !! c))) chains.

Definition reserve_chains st (xt_id : string) (chains : list ChainId) : CoordinatorState :=
  set_active_chains (foldl (fun m c => <[c := xt_id]> m) (cs_active_chains st) chains) st.

Definition release_chains st (xt_id : string) : CoordinatorState :=
  match cs_active_xts st !! xt_id with
  | Some xt =>
      set_active_chains
        (foldl (fun m c => if decide (m !! c = Some xt_id) then delete c m else m)
           (cs_active_chains st) (ax_chains xt)) st
  | None => st
  end.

Definition check_decision st (xt_id : string) : option bool :=
  match cs_active_xts st !! xt_id with
  | None => None
  | Some xt =>
      if (size (ax_votes xt) <? length (ax_chains xt))%nat then None
      else Some (forallb id (map_to_list (ax_votes xt)).*2)
  end.

Definition prepare_xt (now : Instant) st (xt_req : Proto.XtRequest) (chains : list ChainId)
    : CoordinatorState * (string * bytes) :=
  let compose_req := proto_to_spec_xt xt_req in
  let seq_num := cs_next_sequence_num st in
  let period_id := cs_current_period_id st in
  let instance_id := generate_instance_id period_id seq_num compose_req in
  let xt_id := InstanceId_to_string instance_id in
  let st1 := set_next_sequence_num (seq_num +! 1) st in
  let st2 := reserve_chains st1 xt_id chains in
  let st3 :=
    set_active_xts (<[xt_id := mk_ActiveXt chains ∅ instance_id now]> (cs_active_xts st2)) st2 in
  let msg :=
    publisher_message (Proto.PStartInstance
      (Proto.mk_StartInstance instance_id period_id seq_num (Some xt_req))) in
  (st3, (xt_id, encode_to_vec msg)).

(** Removes an instance and frees its chains. *)
Definition finish_xt st (xt_id : string) : CoordinatorState :=
  let st1 := release_chains st xt_id in
  set_active_xts (delete xt_id (cs_active_xts st1)) st1.

Definition decided_message (instance_id : bytes) (decision : bool) : bytes :=
  encode_to_vec (publisher_message (Proto.PDecided (Proto.mk_Decided instance_id decision))).

Definition record_vote (now : Instant) st (xt_id : string) (instance_id_bytes : bytes)
    (chain_id : ChainId) (vote : bool) : CoordinatorState * option (bool * Duration * bytes) :=
  match cs_active_xts st !! xt_id with
  | None => (st, None)
  | Some xt =>
      if decide (chain_id ∉ ax_chains xt) then (st, None)
      else if decide (is_Some (ax_votes xt !! chain_id)) then (st, None)
      else
        let xt' := mk_ActiveXt (ax_chains xt) (<[chain_id := vote]> (ax_votes xt))
                     (ax_instance_id_bytes xt) (ax_start_time xt) in
        let st1 := set_active_xts (<[xt_id := xt']> (cs_active_xts st)) st in
        let decision := if negb vote then Some false else check_decision st1 xt_id in
        match decision with
        | None => (st1, None)
        | Some decision =>
            let latency :=
              match cs_active_xts st1 !! xt_id with
              | Some x => duration_since now (ax_start_time x)
              | None => 0
              end in
            (finish_xt st1 xt_id,
             Some (decision, latency, decided_message instance_id_bytes decision))
        end
  end.

(** The ids of the instances that have timed out, in iteration order. *)
Definition expired_xts (order : gmap string ActiveXt -> list (string * ActiveXt)) (now : Instant)
    st (timeout : Duration) : list string :=
  (filter (fun kv => timeout <= duration_since now (ax_start_time kv.2))
     (order (cs_active_xts st))).*1.

Fixpoint reap_loop st (expired : list string) : CoordinatorState * list (string * bytes) :=
  match expired with
  | [] => (st, [])
  | xt_id :: rest =>
      let instance_id_bytes :=
        match cs_active_xts st !! xt_id with
        | Some xt => ax_instance_id_bytes xt
        | None => []
        end in
      let '(st', results) := reap_loop (finish_xt st xt_id) rest in
      (st', (xt_id, decided_message instance_id_bytes false) :: results)
  end.

Definition reap_timed_out (order : gmap string ActiveXt -> list (string * ActiveXt))
    (now : Instant) st (timeout : Duration) : CoordinatorState * list (string * bytes) :=
  reap_loop st (expired_xts order now st timeout).

Definition reap_expired_proofs (now : Instant) st (proof_window : Duration)
    : CoordinatorState * bool :=
  match cs_proof_collection_started st with
  | Some started =>
      if proof_window <=? duration_since now started then
        (set_proof_collection_started None (set_pending_proofs ∅ st), true)
      else (st, false)
  | None => (st, false)
  end.

Definition take_next_ready st : CoordinatorState * option PendingEntry :=
  match list_find (fun e => has_overlap st (pe_chains e) = false) (cs_pending_queue st) with
  | Some (idx, entry) => (set_pending_queue (delete idx (cs_pending_queue st)) st, Some entry)
  | None => (st, None)
  end.

Definition is_chain_registered st (chain_id : ChainId) : bool :=
  bool_decide (is_Some (cs_chain_to_client st !! chain_id)).

End methods.
