(* ===== verification/Coordinator.v ===== *)
(** * The coordinator's handlers
    ([crates/coordinator/src/coordinator.rs], [handlers.rs], [crates/metrics])

    [Coordinator] adds to the locked state the atomic counters and the metrics. A handler
    returns the new coordinator and what it hands to the transport and to L1, in order.
    Sending never changes the coordinator: [QuicServer::broadcast_raw] always returns [Ok]
    and a failed [send_raw] is only logged. Handlers that take the lock more than once are
    written as compositions of the critical sections, which [CoordRefinement] interleaves. *)
From Stdlib Require Import ZArith Lia.
From S2P Require Import Prelude Spec InstanceIdGen Messages CoordState.

(** ** Metrics ([crates/metrics/src/lib.rs]) *)

Record PublisherMetrics := mk_PublisherMetrics {
  m_connections_active : Z;
  m_messages_received_total : Z;
  m_broadcasts_sent_total : Z;
  m_xt_started_total : Z;
  m_xt_decided_commit_total : Z;
  m_xt_decided_abort_total : Z;
  m_xt_queued_total : Z;
  m_xt_decision_latency : list Duration;
  m_period_broadcast_total : Z;
}.

Definition PublisherMetrics_new : PublisherMetrics := mk_PublisherMetrics 0 0 0 0 0 0 0 [] 0.

(** What a handler counts. *)
Inductive metric :=
| MessagesReceived
| BroadcastsSent
| XtStarted
| XtDecidedCommit
| XtDecidedAbort
| XtQueued
| XtDecisionLatency (latency : Duration)
| PeriodBroadcast.

Definition count (k : metric) (m : PublisherMetrics) : PublisherMetrics :=
  let '(mk_PublisherMetrics a b c d e f g h i) := m in
  match k with
  | MessagesReceived => mk_PublisherMetrics a (b +! 1) c d e f g h i
  | BroadcastsSent => mk_PublisherMetrics a b (c +! 1) d e f g h i
  | XtStarted => mk_PublisherMetrics a b c (d +! 1) e f g h i
  | XtDecidedCommit => mk_PublisherMetrics a b c d (e +! 1) f g h i
  | XtDecidedAbort => mk_PublisherMetrics a b c d e (f +! 1) g h i
  | XtQueued => mk_PublisherMetrics a b c d e f (g +! 1) h i
  | XtDecisionLatency l => mk_PublisherMetrics a b c d e f g (h ++ [l]) i
  | PeriodBroadcast => mk_PublisherMetrics a b c d e f g h (i +! 1)
  end.

(** ** Coordinator *)

Inductive effect :=
| BroadcastRaw (data : bytes) (exclude : string)
| SendRaw (client_id : string) (data : bytes)
| SpawnSubmit (superblock_number : Z) (proofs : gmap Z ProofData).

Record Coordinator := mk_Coordinator {
  co_state : CoordinatorState;
  co_metrics : option PublisherMetrics;
  co_has_l1_submitter : bool;
  co_scp_timeout : Duration;
  co_proof_window : Duration;
  co_messages_processed : Z;
  co_broadcasts_sent : Z;
}.

Definition Coordinator_new (metrics : option PublisherMetrics) (scp_timeout proof_window : Duration)
    : Coordinator :=
  mk_Coordinator CoordinatorState_new metrics false scp_timeout proof_window 0 0.

Definition with_l1_submitter (co : Coordinator) : Coordinator :=
  mk_Coordinator (co_state co) (co_metrics co) true (co_scp_timeout co) (co_proof_window co)
    (co_messages_processed co) (co_broadcasts_sent co).

Definition with_state (st : CoordinatorState) (co : Coordinator) : Coordinator :=
  mk_Coordinator st (co_metrics co) (co_has_l1_submitter co) (co_scp_timeout co)
    (co_proof_window co) (co_messages_processed co) (co_broadcasts_sent co).

(** [if let Some(m) = &self.metrics { m.<counter>.inc() }]. *)
Definition metric_inc (k : metric) (co : Coordinator) : Coordinator :=
  mk_Coordinator (co_state co) (count k <$> co_metrics co) (co_has_l1_submitter co)
    (co_scp_timeout co) (co_proof_window co) (co_messages_processed co) (co_broadcasts_sent co).

Definition inc_messages (co : Coordinator) : Coordinator :=
  metric_inc MessagesReceived
    (mk_Coordinator (co_state co) (co_metrics co) (co_has_l1_submitter co) (co_scp_timeout co)
       (co_proof_window co) (co_messages_processed co +! 1) (co_broadcasts_sent co)).

Definition inc_broadcasts (co : Coordinator) : Coordinator :=
  metric_inc BroadcastsSent
    (mk_Coordinator (co_state co) (co_metrics co) (co_has_l1_submitter co) (co_scp_timeout co)
       (co_proof_window co) (co_messages_processed co) (co_broadcasts_sent co +! 1)).

(** The outcome of [L1Submitter::fetch_latest_superblock_state]. *)
Abbreviation l1_state := (result (option (Z * B256)) string) (only parsing).

Section handlers.
Context `{Sha2, ProstMessage}.
Implicit Types (co : Coordinator) (st : CoordinatorState).

Definition coord_register_chain co (client_id : string) (chain_id : ChainId) : Coordinator :=
  with_state (register_chain (co_state co) client_id chain_id) co.

(** [fetched] is what the submitter reads from L1, when there is one. *)
Definition init_from_l1 co (fetched : l1_state) : Coordinator :=
  if co_has_l1_submitter co then
    match fetched with
    | Ok (Some (sb_num, sb_hash)) =>
        with_state
          (set_next_superblock_number (sb_num +! 1)
             (set_last_finalized_superblock_hash sb_hash
                (set_last_finalized_superblock_number sb_num (co_state co)))) co
    | Ok None => co
    | Err _ => co
    end
  else co.

(** The critical section of [advance_period]. *)
Definition next_period st : CoordinatorState :=
  set_next_sequence_num 1 (set_current_period_id (cs_current_period_id st +! 1) st).

Definition start_period_message st : bytes :=
  encode_to_vec (publisher_message (Proto.PStartPeriod
    (Proto.mk_StartPeriod (cs_current_period_id st) (cs_next_superblock_number st)))).

Definition advance_period co : Coordinator * list effect :=
  let st := next_period (co_state co) in
  let co1 := inc_broadcasts (with_state st co) in
  (metric_inc PeriodBroadcast co1, [BroadcastRaw (start_period_message st) ""]).

Inductive admission :=
| Rejected_queue_full
| Queued
| Started (data : bytes).

(** The critical section of [handle_xt_request]. *)
Definition admit_xt (now : Instant) st (xt_req : Proto.XtRequest) (chains : list ChainId)
    : CoordinatorState * admission :=
  if has_overlap st chains then
    if (MAX_PENDING_QUEUE_SIZE <=? length (cs_pending_queue st))%nat then
      (st, Rejected_queue_full)
    else
      (set_pending_queue (cs_pending_queue st ++ [mk_PendingEntry xt_req chains]) st, Queued)
  else
    let '(st', (_, data)) := prepare_xt now st xt_req chains in (st', Started data).

Definition handle_xt_request (now : Instant) co (xt_req : Proto.XtRequest)
    : Coordinator * list effect :=
  let chains := extract_chains xt_req in
  if (length chains <? 2)%nat then (co, [])
  else
    match admit_xt now (co_state co) xt_req chains with
    | (st', Rejected_queue_full) => (with_state st' co, [])
    | (st', Queued) => (metric_inc XtQueued (with_state st' co), [])
    | (st', Started data) =>
        (metric_inc XtStarted (inc_broadcasts (with_state st' co)), [BroadcastRaw data ""])
    end.

(** One iteration of the loop of [drain_queue], under the lock. *)
Definition drain_one (now : Instant) st : option (CoordinatorState * bytes) :=
  match take_next_ready st with
  | (_, None) => None
  | (st', Some entry) =>
      let '(st'', (_, data)) := prepare_xt now st' (pe_xt_request entry) (pe_chains entry) in
      Some (st'', data)
  end.

(** The loop; [clock n] is the instant iteration [n] reads. *)
Fixpoint drain_loop (fuel : nat) (clock : nat -> Instant) co : Coordinator * list effect :=
  match fuel with
  | O => (co, [])
  | S fuel =>
      match drain_one (clock 0%nat) (co_state co) with
      | None => (co, [])
      | Some (st', data) =>
          let co1 := metric_inc XtStarted (inc_broadcasts (with_state st' co)) in
          let '(co2, effs) := drain_loop fuel (fun n => clock (S n)) co1 in
          (co2, BroadcastRaw data "" :: effs)
      end
  end.

(** Each iteration removes an entry, so the queue's length bounds their number. *)
Definition drain_queue (clock : nat -> Instant) co : Coordinator * list effect :=
  drain_loop (S (length (cs_pending_queue (co_state co)))) clock co.

(** [hex::encode] of the [hex] crate. *)
Context (hex_encode : bytes -> string).

Definition handle_vote (clock : nat -> Instant) co (instance_id_bytes : bytes)
    (chain_id : ChainId) (vote : bool) : Coordinator * list effect :=
  let xt_id := hex_encode instance_id_bytes in
  match record_vote (clock 0%nat) (co_state co) xt_id instance_id_bytes chain_id vote with
  | (st', None) => (with_state st' co, [])
  | (st', Some (decision, latency, data)) =>
      let co1 := with_state st' co in
      let co2 := metric_inc (if decision : bool then XtDecidedCommit else XtDecidedAbort) co1 in
      let co3 := inc_broadcasts (metric_inc (XtDecisionLatency latency) co2) in
      let '(co4, effs) := drain_queue (fun n => clock (S n)) co3 in
      (co4, BroadcastRaw data "" :: effs)
  end.

Definition handle_mailbox_relay co (mailbox : Proto.MailboxMessage) : Coordinator * list effect :=
  match cs_chain_to_client (co_state co) !! Proto.mb_destination_chain mailbox with
  | None => (co, [])
  | Some client_id =>
      let data := encode_to_vec (publisher_message (Proto.PMailboxMessage mailbox)) in
      (inc_broadcasts co, [SendRaw client_id data])
  end.

Definition handle_ping co (client_id : string) (timestamp : Z) : Coordinator * list effect :=
  (co, [SendRaw client_id
          (encode_to_vec (publisher_message (Proto.PPong (Proto.mk_Pong timestamp))))]).

(** The loop that announces the timed-out instances. *)
Fixpoint announce_timeouts co (timed_out : list (string * bytes)) : Coordinator * list effect :=
  match timed_out with
  | [] => (co, [])
  | (_, data) :: rest =>
      let '(co', effs) := announce_timeouts (inc_broadcasts (metric_inc XtDecidedAbort co)) rest in
      (co', BroadcastRaw data "" :: effs)
  end.

Definition reap_timed_out_xts (order : gmap string ActiveXt -> list (string * ActiveXt))
    (clock : nat -> Instant) co : Coordinator * list effect :=
  let '(st', timed_out) := reap_timed_out order (clock 0%nat) (co_state co) (co_scp_timeout co) in
  let '(co1, effs) := announce_timeouts (with_state st' co) timed_out in
  match timed_out with
  | [] => (co1, effs)
  | _ => let '(co2, effs') := drain_queue (fun n => clock (S n)) co1 in (co2, effs ++ effs')
  end.

(** The second critical section of [reap_expired_proofs]. *)
Definition reset_superblock st : CoordinatorState :=
  set_next_superblock_number (cs_last_finalized_superblock_number st +! 1) st.

Definition rollback_message st : bytes :=
  encode_to_vec (publisher_message (Proto.PRollback
    (Proto.mk_Rollback (cs_current_period_id st) (cs_last_finalized_superblock_number st)
       (cs_last_finalized_superblock_hash st)))).

Definition coord_reap_expired_proofs (now : Instant) co : Coordinator * list effect :=
  match reap_expired_proofs now (co_state co) (co_proof_window co) with
  | (st', false) => (with_state st' co, [])
  | (st', true) =>
      let st'' := reset_superblock st' in
      (inc_broadcasts (with_state st'' co), [BroadcastRaw (rollback_message st'') ""])
  end.

Definition chain_for_client co (client_id : string) : option ChainId :=
  cs_client_to_chain (co_state co) !! client_id.

Definition current_superblock_number co : Z := cs_next_superblock_number (co_state co).

(** The critical section of [receive_proof]: the superblock number and proofs to submit,
    once every registered chain has reported. *)
Definition collect_proof (now : Instant) st (superblock_number chain_id : Z) (data : ProofData)
    : CoordinatorState * option (Z * gmap Z ProofData) :=
  let total := size (cs_chain_to_client st) in
  let started :=
    match cs_proof_collection_started st with None => Some now | some => some end in
  let proofs := <[chain_id := mk_ChainProof superblock_number data]> (cs_pending_proofs st) in
  let collected := size proofs in
  if (0 <? total)%nat && (total <=? collected)%nat then
    (set_proof_collection_started None (set_pending_proofs ∅ st),
     Some (cs_next_superblock_number st, cp_data <$> proofs))
  else
    (set_proof_collection_started started (set_pending_proofs proofs st), None).

(** [order] is the iteration order of the drained proofs. *)
Definition receive_proof (order : gmap Z ProofData -> list (Z * ProofData)) (now : Instant) co
    (superblock_number chain_id : Z) (data : ProofData) : Coordinator * list effect :=
  match collect_proof now (co_state co) superblock_number chain_id data with
  | (st', None) => (with_state st' co, [])
  | (st', Some (submit_sb_number, proofs)) =>
      match validate_mailbox_consistency (order proofs) with
      | Err _ => (with_state st' co, [])
      | Ok _ =>
          (with_state st' co,
           if co_has_l1_submitter co then [SpawnSubmit submit_sb_number proofs] else [])
      end
  end.

(** The write of the spawned task when the submission has succeeded. *)
Definition submission_succeeded st (submit_sb_number : Z) : CoordinatorState :=
  set_next_superblock_number (submit_sb_number +! 1)
    (set_last_finalized_superblock_number submit_sb_number st).

(** The integer entries of the JSON object of [stats]. *)
Definition stats co (connection_count : Z) : list (string * Z) :=
  let st := co_state co in
  [("active_connections", connection_count);
   ("registered_chains", Z.of_nat (size (cs_chain_to_client st)));
   ("active_2pc_transactions", Z.of_nat (size (cs_active_xts st)));
   ("active_chains", Z.of_nat (size (cs_active_chains st)));
   ("queued_xts", Z.of_nat (length (cs_pending_queue st)));
   ("pending_proof_superblocks", Z.of_nat (size (cs_pending_proofs st)));
   ("current_period_id", cs_current_period_id st);
   ("next_superblock_number", cs_next_superblock_number st);
   ("last_finalized_superblock", cs_last_finalized_superblock_number st);
   ("messages_processed", co_messages_processed co);
   ("broadcasts_sent", co_broadcasts_sent co)]%string.

End handlers.
