(* ===== verification/AtomicCommit.v ===== *)
(** * Abstract specification: atomic commitment of cross-chain transactions

    What the coordinator promises, without queues, locks or messages. An instance has
    participants, collects at most one vote from each, and is concluded at most once:
    committed only when every participant has voted yes, aborted on a no vote or a timeout.
    Instances under way never share a chain. [CoordRefinement] shows that the coordinator
    implements this. *)
From Stdlib Require Import ZArith Lia.
From S2P Require Import Prelude Spec.

(** The observable events of a run. [EvTimedOut] is the conclusion of an instance by the
    reaper; that this happens only at or after its deadline is shown in
    [CoordDeadline]. *)
Inductive ac_event :=
| EvStarted (xt : string) (chains : list ChainId)
| EvVoted (xt : string) (chain : ChainId) (vote : bool)
| EvDecided (xt : string) (decision : bool)
| EvTimedOut (xt : string).

#[export] Instance ac_event_eq_dec : EqDecision ac_event.
Proof. solve_decision. Defined.

(** The instance an event is about. *)
Definition ev_xt (e : ac_event) : string :=
  match e with EvStarted x _ | EvVoted x _ _ | EvDecided x _ | EvTimedOut x => x end.

(** Histories list the newest event first. *)
Definition ac_concluded (h : list ac_event) (x : string) : Prop :=
  EvTimedOut x ∈ h \/ exists d, EvDecided x d ∈ h.

Definition ac_open (h : list ac_event) (x : string) (cs : list ChainId) : Prop :=
  EvStarted x cs ∈ h /\ ~ ac_concluded h x.

(** The event may follow the history. *)
Inductive ac_allowed (h : list ac_event) : ac_event -> Prop :=
| ac_start x cs :
    (forall cs', EvStarted x cs' ∉ h) -> NoDup cs -> (2 <= length cs)%nat ->
    (forall y cs' c, ac_open h y cs' -> c ∈ cs -> c ∉ cs') ->
    ac_allowed h (EvStarted x cs)
| ac_vote x cs c v :
    ac_open h x cs -> c ∈ cs -> (forall v', EvVoted x c v' ∉ h) ->
    ac_allowed h (EvVoted x c v)
| ac_commit x cs :
    ac_open h x cs -> (forall c, c ∈ cs -> EvVoted x c true ∈ h) ->
    ac_allowed h (EvDecided x true)
| ac_abort x cs c :
    ac_open h x cs -> EvVoted x c false ∈ h ->
    ac_allowed h (EvDecided x false)
| ac_timeout x cs :
    ac_open h x cs -> ac_allowed h (EvTimedOut x).

(** The histories the specification admits. *)
Inductive ac_history : list ac_event -> Prop :=
| ac_history_nil : ac_history []
| ac_history_cons e h : ac_history h -> ac_allowed h e -> ac_history (e :: h).

#[export] Hint Constructors ac_history ac_allowed : core.

(** ** What every admitted history satisfies *)

Lemma ac_concluded_cons e h x :
  ac_concluded (e :: h) x <->
    ac_concluded h x \/ e = EvTimedOut x \/ exists d, e = EvDecided x d.
Proof.
  unfold ac_concluded. setoid_rewrite elem_of_cons. naive_solver.
Qed.

Lemma ac_open_cons_inv e h x cs :
  ac_open (e :: h) x cs -> (ac_open h x cs \/ e = EvStarted x cs) /\ ~ ac_concluded h x.
Proof.
  unfold ac_open. rewrite ac_concluded_cons, elem_of_cons. naive_solver.
Qed.

Lemma ac_open_cons e h x cs : ac_open h x cs -> ev_xt e <> x -> ac_open (e :: h) x cs.
Proof.
  intros [H1 H2] Hne. split; [set_solver|].
  rewrite ac_concluded_cons. intros [?|[->|[d ->]]]; [done| |]; by apply Hne.
Qed.

(** Every event after the start of an instance finds it open. *)
Lemma ac_allowed_open h e :
  ac_allowed h e -> (exists cs, e = EvStarted (ev_xt e) cs) \/ exists cs, ac_open h (ev_xt e) cs.
Proof. destruct 1; cbn; eauto. Qed.

Lemma ac_started_unique h x cs cs' :
  ac_history h -> EvStarted x cs ∈ h -> EvStarted x cs' ∈ h -> cs = cs'.
Proof.
  induction 1 as [|e h Hh IH He]; [set_solver|].
  rewrite !elem_of_cons. destruct He; naive_solver.
Qed.

(** Nothing happens to an instance that has not been started. *)
Lemma ac_started h e :
  ac_history h -> e ∈ h -> exists cs, EvStarted (ev_xt e) cs ∈ h.
Proof.
  induction 1 as [|e' h Hh IH He]; [set_solver|].
  rewrite elem_of_cons. setoid_rewrite elem_of_cons. intros [->|Hin].
  - apply ac_allowed_open in He as [[cs ->]|[cs [? _]]]; eauto.
  - destruct (IH Hin); eauto.
Qed.

Lemma ac_concluded_started h x :
  ac_history h -> ac_concluded h x -> exists cs, EvStarted x cs ∈ h.
Proof.
  intros Hh [Ht|[d Hd]]; [apply (ac_started h (EvTimedOut x))|apply (ac_started h (EvDecided x d))];
    done.
Qed.

(** Once concluded, an instance has no further event. *)
Lemma ac_concluded_final h e :
  ac_history h -> ac_allowed h e -> ~ ac_concluded h (ev_xt e).
Proof.
  intros Hh He Hc. pose proof (ac_concluded_started _ _ Hh Hc) as [cs Hs].
  destruct He; cbn in *; unfold ac_open in *; naive_solver.
Qed.

Lemma ac_vote_unique h x c v v' :
  ac_history h -> EvVoted x c v ∈ h -> EvVoted x c v' ∈ h -> v = v'.
Proof.
  induction 1 as [|e h Hh IH He]; [set_solver|].
  rewrite !elem_of_cons. destruct He; naive_solver.
Qed.

Lemma ac_decision_unique h x d d' :
  ac_history h -> EvDecided x d ∈ h -> EvDecided x d' ∈ h -> d = d'.
Proof.
  induction 1 as [|e h Hh IH He]; [set_solver|].
  pose proof (ac_concluded_final _ _ Hh He) as Hf. unfold ac_concluded in Hf.
  rewrite !elem_of_cons. intros [<-|H1] [H2|H2]; [by inversion H2|naive_solver| |by apply IH].
  subst e. naive_solver.
Qed.

Lemma ac_decided_or_timed_out h x d :
  ac_history h -> EvDecided x d ∈ h -> EvTimedOut x ∉ h.
Proof.
  induction 1 as [|e h Hh IH He]; [set_solver|].
  pose proof (ac_concluded_final _ _ Hh He) as Hf. unfold ac_concluded in Hf.
  rewrite !elem_of_cons. intros [<-|H1] [H2|H2]; [done|naive_solver| |by apply IH].
  subst e. naive_solver.
Qed.

Lemma ac_commit_unanimous h x cs c :
  ac_history h -> EvDecided x true ∈ h -> EvStarted x cs ∈ h -> c ∈ cs ->
  EvVoted x c true ∈ h.
Proof.
  intros Hh. revert cs c. induction Hh as [|e h Hh IH He]; [set_solver|].
  intros cs c Hd Hs Hc. apply elem_of_cons in Hd as [Hd|Hd].
  - subst e. inversion He as [| |y cs' [Hs' _] Hall| |]; subst.
    apply elem_of_cons in Hs as [[=]|Hs]. rewrite elem_of_cons. right. apply Hall.
    by rewrite (ac_started_unique h x cs' cs).
  - rewrite elem_of_cons. right. apply elem_of_cons in Hs as [<-|Hs]; [|by eapply IH].
    exfalso. eapply (ac_concluded_final h); [done..|]. cbn. right. eauto.
Qed.

Lemma ac_abort_cause h x :
  ac_history h -> EvDecided x false ∈ h -> exists c, EvVoted x c false ∈ h.
Proof.
  induction 1 as [|e h Hh IH He]; [set_solver|].
  setoid_rewrite elem_of_cons. intros [<-|Hd].
  - inversion He; subst. eauto.
  - destruct (IH Hd). eauto.
Qed.

Lemma ac_vote_participant h x c v cs :
  ac_history h -> EvVoted x c v ∈ h -> EvStarted x cs ∈ h -> c ∈ cs.
Proof.
  induction 1 as [|e h Hh IH He]; [set_solver|].
  rewrite !elem_of_cons. intros [<-|Hv] [Hs|Hs]; [done| |..].
  - inversion He as [|? cs' ? ? [Hs' _]| | |]; subst.
    by rewrite (ac_started_unique h x cs cs').
  - subst e. pose proof (ac_started _ _ Hh Hv) as [cs' Hs']. inversion He; subst. cbn in *.
    naive_solver.
  - by apply IH.
Qed.

(** Instances under way at the same time have disjoint participants. *)
Lemma ac_exclusive h x y cs cs' c :
  ac_history h -> ac_open h x cs -> ac_open h y cs' -> c ∈ cs -> c ∈ cs' -> x = y.
Proof.
  intros Hh. revert x y cs cs'. induction Hh as [|e h Hh IH He].
  { intros x y cs cs' [? _]. set_solver. }
  intros x y cs cs' Hx Hy Hc Hc'.
  apply ac_open_cons_inv in Hx as [[Hx|Hx] _]; apply ac_open_cons_inv in Hy as [[Hy|Hy] _];
    [by eapply IH|..]; subst; inversion He; subst; naive_solver.
Qed.

Lemma ac_participants h x cs :
  ac_history h -> EvStarted x cs ∈ h -> NoDup cs /\ (2 <= length cs)%nat.
Proof.
  induction 1 as [|e h Hh IH He]; [set_solver|].
  rewrite elem_of_cons. intros [<-|Hs]; [by inversion He|by apply IH].
Qed.

(** A suffix of an admitted history, that is, what had happened earlier, is admitted. *)
Lemma ac_history_app_inv h1 h2 : ac_history (h1 ++ h2) -> ac_history h2.
Proof. induction h1 as [|e h1 IH]; [done|]. inversion 1. by apply IH. Qed.

(** Conclusions are final: later events are about other instances. *)
Lemma ac_final h1 h2 e :
  ac_history (h1 ++ h2) -> ac_concluded h2 (ev_xt e) -> e ∉ h1.
Proof.
  induction h1 as [|e' h1 IH]; [set_solver|]. cbn. intros Hh Hc.
  inversion Hh as [|? ? Hh' He]; subst. rewrite elem_of_cons. intros [->|Hin].
  - eapply ac_concluded_final; [exact Hh'|exact He|].
    unfold ac_concluded in *. setoid_rewrite elem_of_app. naive_solver.
  - by apply IH.
Qed.

(** Starting a new instance opens it and leaves the others as they are. *)
Lemma ac_open_started h x cs y cs' :
  ac_history h -> (forall cs', EvStarted x cs' ∉ h) ->
  ac_open (EvStarted x cs :: h) y cs' <-> (y = x /\ cs' = cs) \/ (y <> x /\ ac_open h y cs').
Proof.
  intros Hh Hnew. split.
  - intros [[Ho|[= -> ->]] _]%ac_open_cons_inv; [right|by left]. split; [|done].
    intros ->. destruct Ho as [Hs _]. by apply Hnew in Hs.
  - intros [[-> ->]|[Hne Ho]]; [|by apply ac_open_cons]. split; [set_solver|].
    rewrite ac_concluded_cons. intros [Hc|[?|[? ?]]]; [|done..].
    destruct (ac_concluded_started _ _ Hh Hc) as [cs' Hs]. by apply Hnew in Hs.
Qed.
