(* ===== verification/CoordInv.v ===== *)
(** * Invariant of the coordinator state

    [coord_inv] ties the lock table to the instances under way, says what an instance under
    way looks like, bounds the queue and relates the settlement counters. The lemmas give
    the effect of each method on it; the steps of the running system are in
    [CoordRefinement]. *)
From Stdlib Require Import ZArith Lia.
From S2P Require Import Prelude Spec InstanceIdGen Messages CoordState Coordinator.

(** ** The invariant *)

(** An undecided instance: at least two distinct chains, only yes votes, not from all. *)
Record active_ok (x : string) (xt : ActiveXt) : Prop := {
  ao_id : x = InstanceId_to_string (ax_instance_id_bytes xt);
  ao_nodup : NoDup (ax_chains xt);
  ao_two : (2 <= length (ax_chains xt))%nat;
  ao_votes c v : ax_votes xt !! c = Some v -> v = true /\ c ∈ ax_chains xt;
  ao_undecided : (size (ax_votes xt) < length (ax_chains xt))%nat;
}.

(** The chain table holds exactly the participants of the instances under way. *)
Definition locks_ok (xts : gmap string ActiveXt) (locks : gmap Z string) : Prop :=
  forall c x, locks !! c = Some x <-> exists xt, xts !! x = Some xt /\ c ∈ ax_chains xt.

Definition entry_ok (e : PendingEntry) : Prop :=
  pe_chains e = extract_chains (pe_xt_request e) /\ (2 <= length (pe_chains e))%nat.

Record coord_inv (st : CoordinatorState) : Prop := {
  ci_locks : locks_ok (cs_active_xts st) (cs_active_chains st);
  ci_xts x xt : cs_active_xts st !! x = Some xt -> active_ok x xt;
  ci_queue : (length (cs_pending_queue st) <= MAX_PENDING_QUEUE_SIZE)%nat;
  ci_entries : Forall entry_ok (cs_pending_queue st);
  ci_proofs : cs_proof_collection_started st = None <-> cs_pending_proofs st = ∅;
  ci_superblock : cs_next_superblock_number st = cs_last_finalized_superblock_number st +! 1;
}.

#[export] Instance ActiveXt_eq_dec : EqDecision ActiveXt.
Proof. solve_decision. Defined.

Lemma coord_inv_new : coord_inv CoordinatorState_new.
Proof.
  split; cbn; [|done|unfold MAX_PENDING_QUEUE_SIZE; lia|by constructor|done|done].
  intros c x. split; [done|]. by intros (xt & ? & _).
Qed.

(** ** Chains of a request *)

Lemma extract_chains_first_occurrences req :
  extract_chains req = first_occurrences (Proto.ptr_chain_id <$> Proto.pxt_transaction_requests req).
Proof.
  rewrite <- dedup_loop_first_occurrences. unfold extract_chains.
  generalize (∅ : gset Z) ([] : list Z).
  induction (Proto.pxt_transaction_requests req) as [|r l IH]; intros seen cs; [done|].
  cbn. case_decide; apply IH.
Qed.

Lemma NoDup_extract_chains req : NoDup (extract_chains req).
Proof. rewrite extract_chains_first_occurrences. apply NoDup_first_occurrences. Qed.

(** ** Locks *)

Lemma has_overlap_false st chains :
  has_overlap st chains = false <-> forall c, c ∈ chains -> cs_active_chains st !! c = None.
Proof.
  unfold has_overlap. induction chains as [|c chains IH]; cbn [existsb]; [set_solver|].
  rewrite orb_false_iff, bool_decide_eq_false, <- eq_None_not_Some, IH.
  setoid_rewrite elem_of_cons. naive_solver.
Qed.

Lemma lookup_reserve_chains st x chains c :
  cs_active_chains (reserve_chains st x chains) !! c =
    if decide (c ∈ chains) then Some x else cs_active_chains st !! c.
Proof. apply lookup_foldl_insert. Qed.

Lemma lookup_release_chains st x xt c :
  cs_active_xts st !! x = Some xt ->
  cs_active_chains (release_chains st x) !! c =
    if decide (c ∈ ax_chains xt /\ cs_active_chains st !! c = Some x) then None
    else cs_active_chains st !! c.
Proof. unfold release_chains. intros ->. apply lookup_foldl_delete_if. Qed.

(** Starting an instance on free chains. *)
Lemma locks_ok_start st x xt :
  locks_ok (cs_active_xts st) (cs_active_chains st) ->
  cs_active_xts st !! x = None -> has_overlap st (ax_chains xt) = false ->
  locks_ok (<[x := xt]> (cs_active_xts st))
    (cs_active_chains (reserve_chains st x (ax_chains xt))).
Proof.
  intros HL Hx Hfree c y. rewrite has_overlap_false in Hfree.
  rewrite lookup_reserve_chains. setoid_rewrite lookup_insert. case_decide as Hc.
  - split.
    + intros [= <-]. exists xt. by rewrite decide_True.
    + intros (xt' & H & Hc'). case_decide; simplify_eq; [done|].
      assert (cs_active_chains st !! c = Some y) by (apply HL; eauto).
      rewrite Hfree in *; done.
  - rewrite (HL c y). split; intros (xt' & H & Hc'); exists xt'; (split; [|done]);
      case_decide; simplify_eq; done.
Qed.

(** Finishing an instance frees exactly its chains. *)
Lemma locks_ok_finish st x xt :
  locks_ok (cs_active_xts st) (cs_active_chains st) ->
  cs_active_xts st !! x = Some xt ->
  locks_ok (delete x (cs_active_xts st)) (cs_active_chains (release_chains st x)).
Proof.
  intros HL Hx c y. rewrite (lookup_release_chains _ _ _ _ Hx). setoid_rewrite lookup_delete.
  case_decide as Hc.
  - split; [done|]. intros (xt' & H & Hc'). case_decide; [done|].
    destruct Hc as [_ Hc]. assert (cs_active_chains st !! c = Some y) by (apply HL; eauto).
    simplify_eq.
  - rewrite (HL c y). split; intros (xt' & H & Hc'); exists xt'; (split; [|done]);
      case_decide; simplify_eq; try done.
    exfalso. apply Hc. split; [done|]. apply HL. eauto.
Qed.

Lemma locks_ok_same st x xt xt' :
  locks_ok (cs_active_xts st) (cs_active_chains st) ->
  cs_active_xts st !! x = Some xt -> ax_chains xt' = ax_chains xt ->
  locks_ok (<[x := xt']> (cs_active_xts st)) (cs_active_chains st).
Proof.
  intros HL Hx Hsame c y. rewrite (HL c y). setoid_rewrite lookup_insert.
  split; intros (z & H & Hc); case_decide; simplify_eq; rewrite ?Hsame in *; eauto.
  exists xt'. by rewrite Hsame.
Qed.

(** ** Votes *)

(** When as many votes as chains are in, every chain has voted. *)
Lemma votes_complete (votes : gmap Z bool) chains c :
  NoDup chains -> (forall c v, votes !! c = Some v -> c ∈ chains) ->
  (length chains <= size votes)%nat -> c ∈ chains -> is_Some (votes !! c).
Proof.
  intros Hnd Hsub Hlen Hc. apply elem_of_dom.
  assert (dom votes ⊆ list_to_set chains) as Hincl.
  { intros k [v Hv]%elem_of_dom. apply elem_of_list_to_set. eauto. }
  assert (dom votes = list_to_set chains) as ->; [|by apply elem_of_list_to_set].
  apply set_subseteq_size_eq; [done|].
  rewrite size_dom, size_list_to_set by done. done.
Qed.

Lemma forallb_votes (votes : gmap Z bool) :
  forallb id (map_to_list votes).*2 = true <-> forall c v, votes !! c = Some v -> v = true.
Proof.
  rewrite forallb_forall. split.
  - intros Hall c v Hv. apply (Hall v), list_elem_of_In, list_elem_of_fmap.
    exists (c, v). split; [done|]. by apply elem_of_map_to_list.
  - intros Hall v Hv%list_elem_of_In. apply list_elem_of_fmap in Hv as ([c w] & -> & Hin).
    apply elem_of_map_to_list in Hin. cbn. rewrite (Hall _ _ Hin). done.
Qed.

(** ** Methods *)

Section methods.
Context `{Sha2, ProstMessage}.
Implicit Types st : CoordinatorState.

(** The id the next instance gets. *)
Definition next_instance_id st (req : Proto.XtRequest) : InstanceId :=
  generate_instance_id (cs_current_period_id st) (cs_next_sequence_num st) (proto_to_spec_xt req).

Definition next_xt_id st (req : Proto.XtRequest) : string :=
  InstanceId_to_string (next_instance_id st req).

Definition start_instance_message st (req : Proto.XtRequest) : Proto.Message :=
  publisher_message (Proto.PStartInstance
    (Proto.mk_StartInstance (next_instance_id st req) (cs_current_period_id st)
       (cs_next_sequence_num st) (Some req))).

Lemma prepare_xt_result now st req chains :
  (prepare_xt now st req chains).2 =
    (next_xt_id st req, encode_to_vec (start_instance_message st req)).
Proof. done. Qed.

Lemma prepare_xt_active now st req chains :
  cs_active_xts (prepare_xt now st req chains).1 =
    <[next_xt_id st req := mk_ActiveXt chains ∅ (next_instance_id st req) now]> (cs_active_xts st).
Proof. done. Qed.

(** The chains a prepared instance needs must be free and its id unused. *)
Lemma coord_inv_prepare now st req chains :
  coord_inv st -> NoDup chains -> (2 <= length chains)%nat ->
  has_overlap st chains = false -> cs_active_xts st !! next_xt_id st req = None ->
  coord_inv (prepare_xt now st req chains).1.
Proof.
  intros [I1 I2 I3 I4 I5 I6] Hnd Hlen Hfree Hx. split; try done.
  - apply (locks_ok_start st _ (mk_ActiveXt chains ∅ (next_instance_id st req) now)); done.
  - intros x xt. rewrite prepare_xt_active, lookup_insert. case_decide; [|apply I2].
    intros [= <-]. subst x. split; cbn; try done. rewrite map_size_empty. lia.
Qed.

Lemma coord_inv_finish st x :
  coord_inv st -> coord_inv (finish_xt st x).
Proof.
  intros [I1 I2 I3 I4 I5 I6].
  destruct (cs_active_xts st !! x) as [xt|] eqn:Hx.
  - unfold finish_xt, release_chains. rewrite Hx. split; try done; cbn.
    + pose proof (locks_ok_finish st x xt I1 Hx) as HL. unfold release_chains in HL.
      by rewrite Hx in HL.
    + intros y yt. rewrite lookup_delete. case_decide; [done|apply I2].
  - unfold finish_xt, release_chains. rewrite Hx. split; try done; cbn;
      by rewrite delete_id.
Qed.

Lemma finish_xt_active st x : cs_active_xts (finish_xt st x) = delete x (cs_active_xts st).
Proof. unfold finish_xt, release_chains. by destruct (cs_active_xts st !! x). Qed.

(** Exactly the chains of a finished instance become free. *)
Lemma finish_xt_locks st x xt c :
  coord_inv st -> cs_active_xts st !! x = Some xt ->
  cs_active_chains (finish_xt st x) !! c =
    if decide (c ∈ ax_chains xt) then None else cs_active_chains st !! c.
Proof.
  intros Hinv Hx. unfold finish_xt. cbn. rewrite (lookup_release_chains _ _ _ _ Hx).
  repeat case_decide; try done; [tauto|].
  assert (cs_active_chains st !! c = Some x) by (apply (ci_locks _ Hinv); eauto). tauto.
Qed.

(** *** Votes *)

(** Whether a vote is counted: a participant of an instance under way, for the first time. *)
Definition vote_counts st (x : string) (c : ChainId) : bool :=
  match cs_active_xts st !! x with
  | Some xt => bool_decide (c ∈ ax_chains xt /\ ax_votes xt !! c = None)
  | None => false
  end.

Definition cast (c : ChainId) (v : bool) (xt : ActiveXt) : ActiveXt :=
  mk_ActiveXt (ax_chains xt) (<[c := v]> (ax_votes xt)) (ax_instance_id_bytes xt)
    (ax_start_time xt).

Definition with_vote st (x : string) (c : ChainId) (v : bool) (xt : ActiveXt) : CoordinatorState :=
  set_active_xts (<[x := cast c v xt]> (cs_active_xts st)) st.

Lemma record_vote_ignored now st x iid c v :
  vote_counts st x c = false -> record_vote now st x iid c v = (st, None).
Proof.
  unfold vote_counts, record_vote. destruct (cs_active_xts st !! x) as [xt|]; [|done].
  rewrite bool_decide_eq_false. intros Hno. case_decide as Hc; [done|].
  case_decide as Hv; [done|]. rewrite <- eq_None_not_Some in Hv. tauto.
Qed.

(** The three outcomes of a vote that counts. *)
Lemma record_vote_counted now st x xt iid c v :
  coord_inv st -> cs_active_xts st !! x = Some xt -> vote_counts st x c = true ->
  let st1 := with_vote st x c v xt in
  let latency := duration_since now (ax_start_time xt) in
  record_vote now st x iid c v =
    if v then
      if decide (S (size (ax_votes xt)) = length (ax_chains xt))
      then (finish_xt st1 x, Some (true, latency, decided_message iid true))
      else (st1, None)
    else (finish_xt st1 x, Some (false, latency, decided_message iid false)).
Proof.
  intros Hinv Hx. unfold vote_counts, record_vote. rewrite Hx, bool_decide_eq_true.
  intros [Hc Hn]. destruct (ci_xts _ Hinv _ _ Hx) as [_ Hnd _ Hv Hlt].
  rewrite decide_False by tauto. rewrite decide_False by (rewrite Hn; by intros [? ?]).
  unfold check_decision. cbn [cs_active_xts set_active_xts with_vote].
  rewrite !lookup_insert_eq. cbn [ax_votes ax_chains ax_start_time].
  destruct v; cbn [negb]; [|done].
  rewrite map_size_insert_None by done.
  destruct (Nat.ltb_spec (S (size (ax_votes xt))) (length (ax_chains xt))).
  - rewrite decide_False by lia. done.
  - rewrite decide_True by lia.
    assert (forallb id (map_to_list (<[c := true]> (ax_votes xt))).*2 = true) as ->; [|done].
    apply forallb_votes. intros c' v'. rewrite lookup_insert. case_decide; [by intros [= <-]|].
    intros Hv'. apply (Hv _ _ Hv').
Qed.

(** The instance leaves with its votes. *)
Lemma finish_with_vote st x xt c v :
  cs_active_xts st !! x = Some xt -> finish_xt (with_vote st x c v xt) x = finish_xt st x.
Proof.
  intros Hx. unfold finish_xt, release_chains, with_vote. cbn [cs_active_xts set_active_xts].
  rewrite lookup_insert_eq, Hx. cbn. unfold set_active_xts, set_active_chains. cbn.
  by rewrite delete_insert_eq.
Qed.

Lemma coord_inv_with_vote st x xt c :
  coord_inv st -> cs_active_xts st !! x = Some xt -> vote_counts st x c = true ->
  S (size (ax_votes xt)) <> length (ax_chains xt) ->
  coord_inv (with_vote st x c true xt).
Proof.
  intros Hinv Hx. unfold vote_counts. rewrite Hx, bool_decide_eq_true. intros [Hc Hn] Hsz.
  pose proof (ci_xts _ Hinv _ _ Hx) as [A1 A2 A3 A4 A5].
  destruct Hinv as [I1 I2 I3 I4 I5 I6]. split; try done; cbn.
  - by apply (locks_ok_same st x xt).
  - intros y yt. rewrite lookup_insert. case_decide; [|apply I2]. intros [= <-]. subst y.
    split; cbn; try done.
    + intros c' v'. rewrite lookup_insert. case_decide; [intros [= <-]; by subst|apply A4].
    + rewrite map_size_insert_None by done. lia.
Qed.

Lemma coord_inv_record_vote now st x iid c v :
  coord_inv st -> coord_inv (record_vote now st x iid c v).1.
Proof.
  intros Hinv. destruct (vote_counts st x c) eqn:Hvc; [|by rewrite record_vote_ignored].
  destruct (cs_active_xts st !! x) as [xt|] eqn:Hx;
    [|by unfold vote_counts in Hvc; rewrite Hx in Hvc].
  rewrite (record_vote_counted _ _ _ xt) by done.
  destruct v; [case_decide|]; cbn [fst]; rewrite ?finish_with_vote by done;
    auto using coord_inv_finish, coord_inv_with_vote.
Qed.

(** *** Timeouts *)

Lemma coord_inv_reap_loop st l : coord_inv st -> coord_inv (reap_loop st l).1.
Proof.
  revert st. induction l as [|x l IH]; intros st Hinv; [done|]. cbn.
  specialize (IH _ (coord_inv_finish st x Hinv)). by destruct (reap_loop (finish_xt st x) l).
Qed.

Lemma reap_loop_active st l x :
  cs_active_xts (reap_loop st l).1 !! x = if decide (x ∈ l) then None else cs_active_xts st !! x.
Proof.
  revert st. induction l as [|y l IH]; intros st; [done|]. cbn [reap_loop].
  specialize (IH (finish_xt st y)). destruct (reap_loop (finish_xt st y) l) as [st' rs].
  cbn [fst] in *. rewrite IH, finish_xt_active, lookup_delete.
  repeat case_decide; set_solver.
Qed.

(** One message per expired instance, with the id it was started under. *)
Lemma reap_loop_messages st l :
  NoDup l -> Forall (fun x => is_Some (cs_active_xts st !! x)) l ->
  (reap_loop st l).2 =
    (fun x => (x, decided_message
                    (default [] (ax_instance_id_bytes <$> cs_active_xts st !! x)) false)) <$> l.
Proof.
  revert st. induction l as [|y l IH]; intros st; [done|].
  rewrite NoDup_cons, Forall_cons. intros [Hy Hnd] [[xt Hx] Hl].
  cbn [reap_loop]. specialize (IH (finish_xt st y)). rewrite Hx.
  destruct (reap_loop (finish_xt st y) l) as [st' rs].
  cbn [fst snd] in *. rewrite fmap_cons, Hx. f_equal.
  assert (forall x, x ∈ l -> cs_active_xts (finish_xt st y) !! x = cs_active_xts st !! x) as Hsame.
  { intros x Hxl. rewrite finish_xt_active, lookup_delete_ne; [done|]. by intros ->. }
  rewrite IH; [|done|].
  - apply list_fmap_ext. intros i x Hi. rewrite Hsame; [done|]. by eapply list_elem_of_lookup_2.
  - rewrite Forall_forall in *. intros x Hxl. rewrite Hsame by done. by apply Hl.
Qed.

(** [order] enumerates a map: what [HashMap::iter] guarantees. *)
Definition iter_ok {K A} `{Countable K} (order : gmap K A -> list (K * A)) : Prop :=
  forall m, order m ≡ₚ map_to_list m.

Lemma elem_of_expired_xts order now st timeout x :
  iter_ok order ->
  x ∈ expired_xts order now st timeout <->
    exists xt, cs_active_xts st !! x = Some xt /\ timeout <= duration_since now (ax_start_time xt).
Proof.
  intros Hord. unfold expired_xts. rewrite list_elem_of_fmap.
  setoid_rewrite list_elem_of_filter. setoid_rewrite Hord. split.
  - intros ([y xt] & -> & Ht & Hin%elem_of_map_to_list). eauto.
  - intros (xt & Hx & Ht). exists (x, xt). by rewrite elem_of_map_to_list.
Qed.

Lemma NoDup_expired_xts order now st timeout :
  iter_ok order -> NoDup (expired_xts order now st timeout).
Proof.
  intros Hord. unfold expired_xts. rewrite (Hord (cs_active_xts st)).
  eapply sublist_NoDup; [apply (NoDup_fst_map_to_list (cs_active_xts st))|].
  apply fmap_sublist, sublist_filter.
Qed.

Lemma reap_timed_out_active order now st timeout x :
  iter_ok order ->
  cs_active_xts (reap_timed_out order now st timeout).1 !! x =
    xt ← cs_active_xts st !! x;
    if decide (timeout <= duration_since now (ax_start_time xt)) then None else Some xt.
Proof.
  intros Hord. unfold reap_timed_out. rewrite reap_loop_active.
  case_decide as Hin; rewrite elem_of_expired_xts in Hin by done.
  - destruct Hin as (xt & -> & ?). cbn. by rewrite decide_True.
  - destruct (cs_active_xts st !! x) as [xt|] eqn:Hx; [|done].
    cbn. rewrite decide_False; [done|]. intros Ht. apply Hin. eauto.
Qed.

(** *** The queue *)

Lemma take_next_ready_Some st st' e :
  take_next_ready st = (st', Some e) ->
  exists l1 l2, cs_pending_queue st = l1 ++ e :: l2 /\
    st' = set_pending_queue (l1 ++ l2) st /\ has_overlap st (pe_chains e) = false /\
    Forall (fun e' => has_overlap st (pe_chains e') = true) l1.
Proof.
  unfold take_next_ready. destruct (list_find _ _) as [[idx entry]|] eqn:Hf; [|done].
  intros [= <- <-]. apply list_find_Some in Hf as (Hl & Hfree & Hall).
  pose proof (take_drop_middle _ _ _ Hl) as Hq.
  exists (take idx (cs_pending_queue st)), (drop (S idx) (cs_pending_queue st)).
  split_and!; [done|by rewrite delete_take_drop|done|].
  apply Forall_lookup. intros i e' Hi. rewrite lookup_take_Some in Hi. destruct Hi as [Hi Hlt].
  apply not_false_is_true. by apply (Hall _ _ Hi).
Qed.

Lemma take_next_ready_None st st' :
  take_next_ready st = (st', None) ->
  st' = st /\ Forall (fun e => has_overlap st (pe_chains e) = true) (cs_pending_queue st).
Proof.
  unfold take_next_ready. destruct (list_find _ _) as [[idx entry]|] eqn:Hf; [done|].
  intros [= <-]. split; [done|]. apply list_find_None in Hf. eapply Forall_impl; [exact Hf|].
  intros e. apply not_false_is_true.
Qed.

(** Removing an entry from the queue. *)
Lemma coord_inv_dequeue st l1 l2 e :
  coord_inv st -> cs_pending_queue st = l1 ++ e :: l2 ->
  entry_ok e /\ coord_inv (set_pending_queue (l1 ++ l2) st).
Proof.
  intros [I1 I2 I3 I4 I5 I6] Hq. rewrite Hq in I3, I4.
  rewrite length_app in I3. cbn in I3. rewrite Forall_app, Forall_cons in I4.
  destruct I4 as (Hl1 & He & Hl2). split; [done|]. split; try done; cbn.
  - rewrite length_app. lia.
  - by apply Forall_app.
Qed.

(** A started queue entry, whose id must be unused. *)
Lemma drain_one_spec now st st' data :
  coord_inv st -> drain_one now st = Some (st', data) ->
  exists e l1 l2,
    cs_pending_queue st = l1 ++ e :: l2 /\ entry_ok e /\ has_overlap st (pe_chains e) = false /\
    data = encode_to_vec (start_instance_message st (pe_xt_request e)) /\
    st' = (prepare_xt now (set_pending_queue (l1 ++ l2) st) (pe_xt_request e) (pe_chains e)).1 /\
    coord_inv (set_pending_queue (l1 ++ l2) st).
Proof.
  intros Hinv. unfold drain_one.
  destruct (take_next_ready st) as [st0 [e|]] eqn:Ht; [|done].
  apply take_next_ready_Some in Ht as (l1 & l2 & Hq & -> & Hfree & _).
  destruct (coord_inv_dequeue st l1 l2 e) as [He Hinv']; [done..|].
  intros [= <- <-]. exists e, l1, l2. split_and!; done.
Qed.

Lemma coord_inv_enqueue st req :
  coord_inv st -> (2 <= length (extract_chains req))%nat ->
  (length (cs_pending_queue st) < MAX_PENDING_QUEUE_SIZE)%nat ->
  coord_inv (set_pending_queue (cs_pending_queue st ++ [mk_PendingEntry req (extract_chains req)]) st).
Proof.
  intros [I1 I2 I3 I4 I5 I6] Hlen Hq. split; try done; cbn.
  - rewrite length_app. cbn. lia.
  - apply Forall_app. split; [done|]. by apply Forall_singleton.
Qed.

(** *** Registration, periods and settlement *)

Lemma coord_inv_register st client chain :
  coord_inv st -> coord_inv (register_chain st client chain).
Proof.
  intros [I1 I2 I3 I4 I5 I6]. unfold register_chain.
  by destruct (cs_client_to_chain st !! client); split.
Qed.

Lemma coord_inv_next_period st : coord_inv st -> coord_inv (next_period st).
Proof. intros []. by split. Qed.

Lemma coord_inv_submission_succeeded st n : coord_inv st -> coord_inv (submission_succeeded st n).
Proof. intros []. by split. Qed.

(** The reset that precedes a rollback finds the counter where it puts it. *)
Lemma reset_superblock_id st : coord_inv st -> reset_superblock st = st.
Proof. intros [? ? ? ? ? I]. unfold reset_superblock. rewrite <- I. by destruct st. Qed.

Lemma coord_inv_reap_expired_proofs now st w :
  coord_inv st -> coord_inv (reap_expired_proofs now st w).1.
Proof.
  intros Hinv. unfold reap_expired_proofs.
  destruct (cs_proof_collection_started st); [|done]. case_match; [|done].
  destruct Hinv. by split.
Qed.

Lemma coord_inv_collect_proof now st sb c data :
  coord_inv st -> coord_inv (collect_proof now st sb c data).1.
Proof.
  intros []. unfold collect_proof. case_match; split; try done; cbn.
  split; intros Hn; [by destruct (cs_proof_collection_started st)|].
  exfalso. revert Hn. apply insert_non_empty.
Qed.

End methods.
