(* ===== verification/CoordRefinement.v ===== *)
(** * The coordinator implements atomic commitment

    The coordinator's tasks run concurrently and interleave at the points where they take
    the lock, so a run of the system is a sequence of critical sections ([section], each
    executed by [exec]). A world records, next to the state, the events of [AtomicCommit],
    the payloads handed to the transport for broadcast and the L1 submissions in flight.
    [world_inv] is the simulation relation: the instances under way are the open ones of
    the specification, with the same votes; every broadcast is justified by the history and
    every start and conclusion has been broadcast. *)
From Stdlib Require Import ZArith Lia.
From S2P Require Import Prelude Spec InstanceIdGen Messages CoordState Coordinator AtomicCommit.
From S2P Require Import CoordInv.

Record coord_world := mk_world {
  cw_state : CoordinatorState;
  cw_history : list ac_event;
  cw_sent : list bytes;
  cw_submissions : list Z;
}.

Definition world_init : coord_world := mk_world CoordinatorState_new [] [] [].

(** The critical sections of the coordinator, with what they read from outside. *)
Inductive section :=
| SRegister (client_id : string) (chain_id : ChainId)
| SInitL1 (sb_num : Z) (sb_hash : B256)
| SPeriod
| SAdmit (now : Instant) (req : Proto.XtRequest)
| SVote (now : Instant) (instance_id_bytes : bytes) (chain_id : ChainId) (vote : bool)
| SDrain (now : Instant)
| SReap (order : gmap string ActiveXt -> list (string * ActiveXt)) (now : Instant)
    (timeout : Duration)
| SReapProofs (now : Instant) (window : Duration)
| SReset
| SProof (now : Instant) (superblock_number chain_id : Z) (data : ProofData)
    (order : gmap Z ProofData -> list (Z * ProofData)) (submitter : bool)
| SSubmitted (superblock_number : Z)
| SSubmitFailed (superblock_number : Z).

Section world.
Context `{Sha2, ProstMessage, Requests}.
Context (hex_encode : bytes -> string).
Implicit Types (st : CoordinatorState) (w : coord_world) (h : list ac_event).

(** A request that can arrive: its numbers are [u64] and it is among those submitted. *)
Definition admissible (req : Proto.XtRequest) : Prop :=
  XtRequest_wf req /\ submitted (proto_to_spec_xt req).

(** Values from the wire are [u64], maps are enumerated, only spawned submissions end. *)
Definition section_ok w (s : section) : Prop :=
  match s with
  | SInitL1 n _ => u64_ok n
  | SAdmit _ req => admissible req
  | SReap order _ _ => iter_ok order
  | SProof _ _ _ _ order _ => iter_ok order
  | SSubmitted n | SSubmitFailed n => n ∈ cw_submissions w
  | _ => True
  end.

Definition vote_events st (x : string) (c : ChainId) (v : bool) : list ac_event :=
  if vote_counts st x c then [EvVoted x c v] else [].

Fixpoint remove_one (n : Z) (l : list Z) : list Z :=
  match l with
  | [] => []
  | m :: l' => if decide (m = n) then l' else m :: remove_one n l'
  end.

Definition exec (s : section) w : coord_world :=
  let '(mk_world st h sent subs) := w in
  match s with
  | SRegister client chain => mk_world (register_chain st client chain) h sent subs
  | SInitL1 n hash =>
      mk_world
        (set_next_superblock_number (n +! 1)
           (set_last_finalized_superblock_hash hash (set_last_finalized_superblock_number n st)))
        h sent subs
  | SPeriod =>
      let st' := next_period st in mk_world st' h (start_period_message st' :: sent) subs
  | SAdmit now req =>
      let chains := extract_chains req in
      if (length chains <? 2)%nat then w
      else
        match admit_xt now st req chains with
        | (st', Started data) =>
            mk_world st' (EvStarted (next_xt_id st req) chains :: h) (data :: sent) subs
        | (st', _) => mk_world st' h sent subs
        end
  | SVote now iid c v =>
      let x := hex_encode iid in
      match record_vote now st x iid c v with
      | (st', None) => mk_world st' (vote_events st x c v ++ h) sent subs
      | (st', Some (d, _, data)) =>
          mk_world st' (EvDecided x d :: vote_events st x c v ++ h) (data :: sent) subs
      end
  | SDrain now =>
      match take_next_ready st, drain_one now st with
      | (_, Some e), Some (st', data) =>
          mk_world st' (EvStarted (next_xt_id st (pe_xt_request e)) (pe_chains e) :: h)
            (data :: sent) subs
      | _, _ => w
      end
  | SReap order now timeout =>
      let '(st', out) := reap_timed_out order now st timeout in
      mk_world st' (reverse (EvTimedOut <$> out.*1) ++ h) (reverse out.*2 ++ sent) subs
  | SReapProofs now window => mk_world (reap_expired_proofs now st window).1 h sent subs
  | SReset => let st' := reset_superblock st in mk_world st' h (rollback_message st' :: sent) subs
  | SProof now sb c data order submitter =>
      match collect_proof now st sb c data with
      | (st', Some (n, proofs)) =>
          mk_world st' h sent
            (if is_ok (validate_mailbox_consistency (order proofs)) && submitter
             then n :: subs else subs)
      | (st', None) => mk_world st' h sent subs
      end
  | SSubmitted n => mk_world (submission_succeeded st n) h sent (remove_one n subs)
  | SSubmitFailed n => mk_world st h sent (remove_one n subs)
  end.

Definition coord_step w w' : Prop := exists s, section_ok w s /\ exec s w = w'.

(** ** Broadcasts and the history *)

(** The history justifies the message. *)
Definition justified h (p : Proto.Payload) : Prop :=
  match p with
  | Proto.PStartInstance si =>
      exists req, Proto.si_xt_request si = Some req /\
        EvStarted (InstanceId_to_string (Proto.si_instance_id si)) (extract_chains req) ∈ h
  | Proto.PDecided m =>
      EvDecided (InstanceId_to_string (Proto.dec_instance_id m)) (Proto.dec_decision m) ∈ h \/
      (Proto.dec_decision m = false /\
       EvTimedOut (InstanceId_to_string (Proto.dec_instance_id m)) ∈ h)
  | Proto.PStartPeriod _ | Proto.PRollback _ => True
  | _ => False
  end.

Definition broadcast_ok h (data : bytes) : Prop :=
  exists p, data = encode_to_vec (publisher_message p) /\ Payload_wf p /\ justified h p.

(** The event has been broadcast. *)
Definition announced (sent : list bytes) (e : ac_event) : Prop :=
  match e with
  | EvStarted x cs =>
      exists iid p s req, InstanceId_to_string iid = x /\ extract_chains req = cs /\
        Payload_wf (Proto.PStartInstance (Proto.mk_StartInstance iid p s (Some req))) /\
        encode_to_vec (publisher_message (Proto.PStartInstance
          (Proto.mk_StartInstance iid p s (Some req)))) ∈ sent
  | EvDecided x d => exists iid, InstanceId_to_string iid = x /\ decided_message iid d ∈ sent
  | EvTimedOut x => exists iid, InstanceId_to_string iid = x /\ decided_message iid false ∈ sent
  | EvVoted _ _ _ => True
  end.

(** Numbered before the next instance. *)
Definition used_id st (x : string) : Prop :=
  exists p s r, x = InstanceId_to_string (generate_instance_id p s r) /\ submitted r /\
    u64_ok p /\ u64_ok s /\
    (p < cs_current_period_id st \/ (p = cs_current_period_id st /\ s < cs_next_sequence_num st)).

(** ** The simulation relation, after [n] sections *)
Record world_inv (n : nat) w : Prop := {
  wi_coord : coord_inv (cw_state w);
  wi_history : ac_history (cw_history w);
  wi_open x cs : ac_open (cw_history w) x cs <->
    exists xt, cs_active_xts (cw_state w) !! x = Some xt /\ ax_chains xt = cs;
  wi_votes x xt c v : cs_active_xts (cw_state w) !! x = Some xt ->
    EvVoted x c v ∈ cw_history w <-> ax_votes xt !! c = Some v;
  wi_used x cs : EvStarted x cs ∈ cw_history w -> used_id (cw_state w) x;
  wi_period : 0 <= cs_current_period_id (cw_state w) <= Z.of_nat n;
  wi_seq : 1 <= cs_next_sequence_num (cw_state w) <= Z.of_nat n + 1;
  wi_superblock : u64_ok (cs_last_finalized_superblock_number (cw_state w));
  wi_queue : Forall (fun e => admissible (pe_xt_request e)) (cs_pending_queue (cw_state w));
  wi_submissions : Forall u64_ok (cw_submissions w);
  wi_sent : Forall (broadcast_ok (cw_history w)) (cw_sent w);
  wi_announced : Forall (announced (cw_sent w)) (cw_history w);
}.

Lemma world_inv_init : world_inv 0 world_init.
Proof.
  split; cbn; try done; try by constructor.
  - apply coord_inv_new.
  - intros x cs. split; [intros [? _]; set_solver|]. by intros (xt & ? & _).
  - intros x cs. set_solver.
Qed.

Lemma broadcast_ok_mono h h' data : h ⊆ h' -> broadcast_ok h data -> broadcast_ok h' data.
Proof.
  intros Hsub (p & -> & Hwf & Hj). exists p. split_and!; [done..|].
  destruct p; cbn in *; try done; [destruct Hj as (req & ? & ?); exists req; auto|].
  destruct Hj as [Hj|[Hj ?]]; auto.
Qed.

Lemma announced_mono sent sent' e : sent ⊆ sent' -> announced sent e -> announced sent' e.
Proof.
  intros Hsub. destruct e; cbn -[Payload_wf]; [|done|naive_solver..].
  intros (iid & p & s & req & ? & ? & ? & ?). exists iid, p, s, req. split_and!; auto.
Qed.

(** More events and more broadcasts keep what was sent justified and announced. *)
Lemma sent_extend h h' sent sent' :
  Forall (broadcast_ok h) sent -> Forall (announced sent) h ->
  Forall (broadcast_ok (h' ++ h)) sent' -> Forall (announced (sent' ++ sent)) h' ->
  Forall (broadcast_ok (h' ++ h)) (sent' ++ sent) /\ Forall (announced (sent' ++ sent)) (h' ++ h).
Proof.
  intros Hs Hh Hs' Hh'. split; apply Forall_app; (split; [done|]).
  - eapply Forall_impl; [exact Hs|]. intros d. apply broadcast_ok_mono. set_solver.
  - eapply Forall_impl; [exact Hh|]. intros e. apply announced_mono. set_solver.
Qed.

Lemma used_id_mono st st' x :
  used_id st x ->
  cs_current_period_id st < cs_current_period_id st' \/
  (cs_current_period_id st = cs_current_period_id st' /\
   cs_next_sequence_num st <= cs_next_sequence_num st') ->
  used_id st' x.
Proof.
  intros (p & s & r & Hx & Hr & Hp & Hs & Hlt) Hle. exists p, s, r. split_and!; [done..|].
  destruct Hlt as [?|[-> ?]], Hle as [?|[<- ?]]; lia.
Qed.

(** ** Sections without an event *)

(** [st'] differs from [st] in registrations, proofs, superblock counters or by a period. *)
Lemma world_inv_quiet n st h sent subs st' sent' subs' :
  world_inv n (mk_world st h sent subs) ->
  coord_inv st' -> cs_active_xts st' = cs_active_xts st ->
  Forall (fun e => admissible (pe_xt_request e)) (cs_pending_queue st') ->
  (cs_current_period_id st' = cs_current_period_id st /\
   cs_next_sequence_num st' = cs_next_sequence_num st \/
   cs_current_period_id st' = cs_current_period_id st + 1 /\ cs_next_sequence_num st' = 1) ->
  u64_ok (cs_last_finalized_superblock_number st') ->
  Forall u64_ok subs' -> Forall (broadcast_ok h) sent' ->
  world_inv (S n) (mk_world st' h (sent' ++ sent) subs').
Proof.
  intros [I1 I2 I3 I4 I5 I6 I7 I8 I9 I10 I11 I12] Hinv Hxts Hq Hnum Hsb Hsubs Hsent.
  cbn in *.
  destruct (sent_extend h [] sent sent') as [Hs1 Hs2]; [done|done|done|by constructor|].
  split; cbn; rewrite ?Hxts; try done; try lia.
  intros x cs Hx. apply (used_id_mono st); [eauto|]. lia.
Qed.

Lemma world_inv_S n w : world_inv n w -> world_inv (S n) w.
Proof.
  intros [I1 I2 I3 I4 I5 I6 I7 I8 I9 I10 I11 I12]. split; try done; lia.
Qed.

(** ** Starting an instance *)

Context `{!InstanceIdsDistinct}.

(** The next id differs from every id used so far. *)
Lemma next_xt_id_fresh n w req :
  world_inv n w -> Z.of_nat (S n) < u64_max -> admissible req ->
  ~ used_id (cw_state w) (next_xt_id (cw_state w) req).
Proof.
  intros Hw Hn [_ Hreq] (p & s & r & Hx & Hr & Hp & Hs & Hlt). destruct Hw as [_ _ _ _ _ I6 I7 _ _ _ _ _].
  apply InstanceId_to_string_inj, instance_ids_distinct in Hx as [<- <-];
    try done; unfold u64_ok, u64_max in *; lia.
Qed.

(** The start message is justified by the start event, and announces it. *)
Lemma start_sent n st h sent req :
  Forall (broadcast_ok h) sent -> Forall (announced sent) h ->
  0 <= cs_current_period_id st <= Z.of_nat n -> 1 <= cs_next_sequence_num st <= Z.of_nat n + 1 ->
  Z.of_nat (S n) < u64_max -> XtRequest_wf req ->
  let e := EvStarted (next_xt_id st req) (extract_chains req) in
  let data := encode_to_vec (start_instance_message st req) in
  Forall (broadcast_ok (e :: h)) (data :: sent) /\ Forall (announced (data :: sent)) (e :: h).
Proof.
  intros Hs Ha Hp Hq Hn Hwf e data.
  apply (sent_extend h [e] sent [data]); [done..| |]; apply Forall_singleton.
  - eexists. split_and!; [done| |].
    + cbn. unfold u64_ok, u64_max in *. split_and!; [lia..|done].
    + cbn. exists req. split; [done|]. apply list_elem_of_here.
  - cbn -[Payload_wf]. do 4 eexists. split_and!; [reflexivity..| |apply list_elem_of_here].
    unfold u64_max in *. cbn. split_and!; [unfold u64_ok; lia..|done].
Qed.

Lemma world_inv_start n st h sent subs now req l :
  world_inv n (mk_world st h sent subs) -> Z.of_nat (S n) < u64_max ->
  (2 <= length (extract_chains req))%nat -> admissible req ->
  has_overlap st (extract_chains req) = false ->
  coord_inv (set_pending_queue l st) ->
  Forall (fun e => admissible (pe_xt_request e)) l ->
  world_inv (S n)
    (mk_world (prepare_xt now (set_pending_queue l st) req (extract_chains req)).1
       (EvStarted (next_xt_id st req) (extract_chains req) :: h)
       (encode_to_vec (start_instance_message st req) :: sent) subs).
Proof.
  intros Hw Hn Hlen Hwf Hfree Hinv Hl.
  pose proof (next_xt_id_fresh _ _ req Hw Hn Hwf) as Hfresh. destruct Hwf as [Hwf Hreq]. cbn in Hfresh.
  destruct Hw as [I1 I2 I3 I4 I5 I6 I7 I8 I9 I10 I11 I12]. cbn in * |-.
  set (x := next_xt_id st req) in *. set (cs := extract_chains req) in *.
  assert (forall cs', EvStarted x cs' ∉ h) as Hnew by (intros cs' Hin; eauto).
  assert (cs_active_xts st !! x = None) as Hx.
  { destruct (cs_active_xts st !! x) as [xt|] eqn:E; [|done].
    destruct (proj2 (I3 x (ax_chains xt))) as [Hs _]; [eauto|]. by apply Hnew in Hs. }
  assert (forall e, e ∈ h -> ev_xt e <> x) as Hother.
  { intros e He <-. destruct (ac_started h e) as [cs' Hs]; [done..|]. by apply Hnew in Hs. }
  rewrite has_overlap_false in Hfree.
  destruct (start_sent n st h sent req) as [Hs1 Hs2]; [done..|].
  split; cbn [cw_state cw_history cw_sent cw_submissions]; try done.
  - apply (coord_inv_prepare now (set_pending_queue l st) req cs);
      [done|apply NoDup_extract_chains|done|by apply (has_overlap_false st)|done].
  - constructor; [done|]. constructor; [done|apply NoDup_extract_chains|done|].
    intros y cs' c Hy Hc Hc'. apply I3 in Hy as (xt & Hxt & <-).
    assert (cs_active_chains st !! c = Some y) by (apply (ci_locks _ I1); eauto).
    rewrite Hfree in *; done.
  - intros y cs'. rewrite ac_open_started, I3, prepare_xt_active, lookup_insert by done.
    change (next_xt_id (set_pending_queue l st) req) with x. case_decide as Hy.
    + subst y. split; [intros [[_ ->]|[? _]]; [eauto|done]|].
      intros (xt & [= <-] & <-). by left.
    + split; [intros [[? _]|[_ ?]]; [by subst|done]|]. intros ?. right. split; [|done].
      by intros ->.
  - intros y yt c v. rewrite prepare_xt_active, lookup_insert.
    change (next_xt_id (set_pending_queue l st) req) with x. rewrite elem_of_cons.
    case_decide as Hy; [|intros Hyt; rewrite <- I4 by done; naive_solver].
    subst y. intros [= <-]. cbn. rewrite lookup_empty. split; [|done].
    intros [?|Hin]; [done|]. by apply Hother in Hin.
  - intros y cs'. rewrite elem_of_cons. intros [[= -> ->]|Hy].
    + exists (cs_current_period_id st), (cs_next_sequence_num st), (proto_to_spec_xt req).
      cbn. unfold u64_ok, u64_max in *. split_and!; [done|done|lia..|]. right. split; [done|u64_lia].
    + apply (used_id_mono st); [eauto|]. right. cbn. unfold u64_max in *. split; [done|u64_lia].
  - cbn. lia.
  - cbn. unfold u64_max in *. u64_lia.
Qed.

(** ** Votes and conclusions *)

Lemma finish_xt_frame st x :
  cs_current_period_id (finish_xt st x) = cs_current_period_id st /\
  cs_next_sequence_num (finish_xt st x) = cs_next_sequence_num st /\
  cs_pending_queue (finish_xt st x) = cs_pending_queue st /\
  cs_last_finalized_superblock_number (finish_xt st x) = cs_last_finalized_superblock_number st.
Proof. unfold finish_xt, release_chains. by destruct (cs_active_xts st !! x). Qed.

(** [h1] are votes on the instance that [e] concludes and the message [d] announces. *)
Lemma world_inv_conclude n st h sent subs x xt h1 e iid d :
  world_inv n (mk_world st h sent subs) -> cs_active_xts st !! x = Some xt ->
  InstanceId_to_string iid = x ->
  Forall (fun e' => exists c v, e' = EvVoted x c v) h1 ->
  (e = EvDecided x d \/ (d = false /\ e = EvTimedOut x)) ->
  ac_history (e :: h1 ++ h) ->
  world_inv n (mk_world (finish_xt st x) (e :: h1 ++ h) (decided_message iid d :: sent) subs).
Proof.
  intros Hw Hx Hid Hh1 He Hhist.
  destruct Hw as [I1 I2 I3 I4 I5 I6 I7 I8 I9 I10 I11 I12]. cbn in * |-.
  pose proof (finish_xt_frame st x) as (F1 & F2 & F3 & F4).
  rewrite Forall_forall in Hh1.
  assert (forall e', e' ∈ h1 -> ev_xt e' = x) as Hh1x.
  { intros e' He'. by destruct (Hh1 _ He') as (c & v & ->). }
  assert (ev_xt e = x) as Hex by (destruct He as [->|[_ ->]]; done).
  assert (ac_concluded (e :: h1 ++ h) x) as Hconc.
  { apply ac_concluded_cons. destruct He as [->|[_ ->]]; eauto. }
  destruct (sent_extend h (e :: h1) sent [decided_message iid d]) as [Hs1 Hs2]; [done..| | |].
  { apply Forall_singleton. eexists. split_and!; [done|done|].
    cbn [justified Proto.dec_instance_id Proto.dec_decision]. rewrite Hid.
    destruct He as [->|[-> ->]]; [left|right; split; [done|]]; apply list_elem_of_here. }
  { apply Forall_cons. split.
    - destruct He as [->|[-> ->]]; exists iid; (split; [done|]); apply list_elem_of_here.
    - apply Forall_forall. intros e' He'. by destruct (Hh1 _ He') as (c & v & ->). }
  split; cbn [cw_state cw_history cw_sent cw_submissions]; rewrite ?finish_xt_active, ?F1, ?F2, ?F3, ?F4;
    try done.
  - by apply coord_inv_finish.
  - intros y cs. rewrite lookup_delete. case_decide as Hy.
    + subst y. split; [by intros [_ ?]|]. by intros (? & ? & _).
    + rewrite <- I3. unfold ac_open, ac_concluded. cbn in *.
      assert (forall e', ev_xt e' = y -> e' ∈ e :: h1 ++ h <-> e' ∈ h) as Hsame.
      { intros e' <-. rewrite elem_of_cons, elem_of_app. split; [|tauto].
        intros [->|[He'|?]]; [done|by apply Hh1x in He'|done]. }
      setoid_rewrite Hsame; done.
  - intros y yt c v. rewrite lookup_delete. case_decide as Hy; [done|]. intros Hyt.
    rewrite <- (I4 _ _ c v Hyt), elem_of_cons, elem_of_app. split; [|tauto].
    intros [<-|[He'|?]]; [done|by apply Hh1x in He'|done].
  - intros y cs Hy. apply (used_id_mono st); [|rewrite F1, F2; lia].
    apply elem_of_cons in Hy as [<-|[Hy|Hy]%elem_of_app]; [by destruct He as [?|[? ?]]| |eauto].
    by destruct (Hh1 _ Hy) as (c & v & ?).
Qed.

Lemma world_inv_vote n st h sent subs x xt c :
  world_inv n (mk_world st h sent subs) -> cs_active_xts st !! x = Some xt ->
  vote_counts st x c = true -> S (size (ax_votes xt)) <> length (ax_chains xt) ->
  ac_history (EvVoted x c true :: h) ->
  world_inv n (mk_world (with_vote st x c true xt) (EvVoted x c true :: h) sent subs).
Proof.
  intros Hw Hx Hvc Hsz Hhist.
  destruct Hw as [I1 I2 I3 I4 I5 I6 I7 I8 I9 I10 I11 I12]. cbn in * |-.
  destruct (sent_extend h [EvVoted x c true] sent []) as [Hs1 Hs2]; [done..|by constructor| |].
  { by apply Forall_singleton. }
  split; cbn [cw_state cw_history cw_sent cw_submissions]; try done.
  - by apply coord_inv_with_vote.
  - intros y cs. cbn. rewrite lookup_insert.
    assert (ac_open (EvVoted x c true :: h) y cs <-> ac_open h y cs) as ->.
    { unfold ac_open. rewrite ac_concluded_cons, elem_of_cons. naive_solver. }
    rewrite I3. case_decide; subst; [|done]. rewrite Hx.
    split; intros (? & [= <-] & <-); eauto.
  - intros y yt c' v. cbn. rewrite lookup_insert, elem_of_cons. case_decide; subst.
    + intros [= <-]. cbn. rewrite lookup_insert, (I4 _ xt) by done.
      unfold vote_counts in Hvc. rewrite Hx, bool_decide_eq_true in Hvc. destruct Hvc as [_ Hn].
      case_decide; naive_solver.
    + intros Hyt. rewrite (I4 _ yt) by done. naive_solver.
  - intros y cs. rewrite elem_of_cons. intros [[=]|Hy]. eauto.
Qed.

(** A counted vote may be cast; the instance is the open one of the specification. *)
Lemma vote_allowed n st h sent subs x c v :
  world_inv n (mk_world st h sent subs) -> vote_counts st x c = true ->
  exists xt, cs_active_xts st !! x = Some xt /\ ac_open h x (ax_chains xt) /\
    c ∈ ax_chains xt /\ ax_votes xt !! c = None /\ ac_history (EvVoted x c v :: h).
Proof.
  intros Hw Hvc. unfold vote_counts in Hvc.
  destruct (cs_active_xts st !! x) as [xt|] eqn:Hx; [|done]. exists xt.
  rewrite bool_decide_eq_true in Hvc. destruct Hvc as [Hc Hn].
  assert (ac_open h x (ax_chains xt)) as Hopen by (apply (wi_open _ _ Hw); eauto).
  split_and!; [done..|]. constructor; [apply (wi_history _ _ Hw)|].
  apply (ac_vote _ _ (ax_chains xt)); [done..|]. intros v' Hv'.
  apply (wi_votes _ _ Hw x xt) in Hv'; [|done]. congruence.
Qed.

Lemma ac_open_voted h x cs y c v : ac_open h x cs -> ac_open (EvVoted y c v :: h) x cs.
Proof.
  intros [Hs Hc]. split; [set_solver|]. rewrite ac_concluded_cons. naive_solver.
Qed.

(** The last yes vote allows the commit. *)
Lemma commit_allowed n st h sent subs x xt c :
  world_inv n (mk_world st h sent subs) -> cs_active_xts st !! x = Some xt ->
  ac_open h x (ax_chains xt) -> c ∈ ax_chains xt -> ax_votes xt !! c = None ->
  S (size (ax_votes xt)) = length (ax_chains xt) ->
  ac_allowed (EvVoted x c true :: h) (EvDecided x true).
Proof.
  intros Hw Hx Hopen Hc Hn Hsz. apply (ac_commit _ _ (ax_chains xt)); [by apply ac_open_voted|].
  destruct (ci_xts _ (wi_coord _ _ Hw) _ _ Hx) as [_ Hnd _ Hv _].
  intros c' Hc'. rewrite elem_of_cons. destruct (decide (c' = c)) as [->|Hne]; [by left|right].
  destruct (votes_complete (<[c := true]> (ax_votes xt)) (ax_chains xt) c') as [v Hv']; [done| | |done|].
  - intros k v. rewrite lookup_insert. case_decide; [by subst|]. intros Hk. by apply (Hv k v).
  - rewrite map_size_insert_None by done. lia.
  - rewrite lookup_insert_ne in Hv' by done. destruct (Hv _ _ Hv') as [-> _].
    by apply (wi_votes _ _ Hw x xt).
Qed.

(** [hex::encode] writes lowercase hexadecimal, as [Display for InstanceId] does. *)
Context (Hhex : forall l, hex_encode l = hex_string l).

Lemma world_inv_SVote n w now iid c v :
  world_inv n w -> world_inv n (exec (SVote now iid c v) w).
Proof.
  destruct w as [st h sent subs]. intros Hw. cbn -[record_vote]. rewrite Hhex.
  set (x := hex_string iid). unfold vote_events.
  destruct (vote_counts st x c) eqn:Hvc; [|by rewrite record_vote_ignored].
  destruct (vote_allowed _ _ _ _ _ _ _ v Hw Hvc) as (xt & Hx & Hopen & Hc & Hn & Hhist).
  rewrite (record_vote_counted _ _ _ xt) by first [done|apply (wi_coord _ _ Hw)].
  assert (Forall (fun e' => exists c v, e' = EvVoted x c v) [EvVoted x c v]) as Hh1.
  { apply Forall_singleton. eauto. }
  destruct v; [case_decide as Hsz|]; rewrite ?finish_with_vote by done.
  - eapply world_inv_conclude; eauto using commit_allowed.
  - cbn. by apply world_inv_vote.
  - eapply world_inv_conclude; [done..|eauto|]. constructor; [done|].
    eapply ac_abort; [by apply ac_open_voted|apply list_elem_of_here].
Qed.

Lemma world_inv_reap_loop n st h sent subs l :
  world_inv n (mk_world st h sent subs) -> NoDup l ->
  Forall (fun x => is_Some (cs_active_xts st !! x)) l ->
  world_inv n
    (mk_world (reap_loop st l).1 (reverse (EvTimedOut <$> (reap_loop st l).2.*1) ++ h)
       (reverse (reap_loop st l).2.*2 ++ sent) subs).
Proof.
  revert st h sent. induction l as [|x l IH]; intros st h sent Hw; [done|].
  rewrite NoDup_cons, Forall_cons. intros [Hx Hnd] [[xt Hxt] Hl].
  cbn [reap_loop]. rewrite Hxt.
  specialize (IH (finish_xt st x) (EvTimedOut x :: h)
    (decided_message (ax_instance_id_bytes xt) false :: sent)).
  destruct (reap_loop (finish_xt st x) l) as [st' rs]. cbn [fst snd] in *.
  rewrite !fmap_cons, !reverse_cons, <- !app_assoc. cbn [fst snd app]. apply IH; [|done|].
  - eapply (world_inv_conclude _ _ _ _ _ _ _ []); [done..| |by constructor|by right|].
    + symmetry. apply (ao_id _ _ (ci_xts _ (wi_coord _ _ Hw) _ _ Hxt)).
    + constructor; [apply (wi_history _ _ Hw)|]. apply (ac_timeout _ _ (ax_chains xt)).
      apply (wi_open _ _ Hw). eauto.
  - rewrite Forall_forall in *. intros y Hy. rewrite finish_xt_active, lookup_delete_ne; [by apply Hl|].
    by intros ->.
Qed.

Lemma world_inv_SAdmit n w now req :
  world_inv n w -> Z.of_nat (S n) < u64_max -> admissible req ->
  world_inv (S n) (exec (SAdmit now req) w).
Proof.
  destruct w as [st h sent subs]. intros Hw Hn Hwf. cbn -[Nat.ltb admit_xt].
  destruct (Nat.ltb_spec (length (extract_chains req)) 2) as [?|Hlen]; [by apply world_inv_S|].
  unfold admit_xt. destruct (has_overlap st (extract_chains req)) eqn:Hfree.
  - destruct (Nat.leb_spec MAX_PENDING_QUEUE_SIZE (length (cs_pending_queue st)));
      [by apply world_inv_S|].
    destruct Hw as [I1 I2 I3 I4 I5 I6 I7 I8 I9 I10 I11 I12]; cbn in * |-.
    split; cbn [cw_state cw_history cw_sent cw_submissions]; try done; [|cbn; lia..|].
    + by apply coord_inv_enqueue.
    + cbn. rewrite Forall_app, Forall_singleton. done.
  - pose proof (wi_coord _ _ Hw) as Hinv.
    assert (set_pending_queue (cs_pending_queue st) st = st) as Hst by by destruct st.
    pose proof (world_inv_start n st h sent subs now req (cs_pending_queue st)) as Hstart.
    rewrite Hst in Hstart. cbn in Hinv. apply Hstart; try done. apply (wi_queue _ _ Hw).
Qed.

Lemma world_inv_SDrain n w now :
  world_inv n w -> Z.of_nat (S n) < u64_max -> world_inv (S n) (exec (SDrain now) w).
Proof.
  destruct w as [st h sent subs]. intros Hw Hn. cbn -[drain_one].
  destruct (take_next_ready st) as [st0 [e|]] eqn:Ht; [|by apply world_inv_S].
  assert (drain_one now st = let '(st'', (_, data)) :=
    prepare_xt now st0 (pe_xt_request e) (pe_chains e) in Some (st'', data)) as ->.
  { unfold drain_one. by rewrite Ht. }
  apply take_next_ready_Some in Ht as (l1 & l2 & Hq & -> & Hfree & _).
  destruct (coord_inv_dequeue st l1 l2 e) as [[Hec Hlen] Hinv']; [apply (wi_coord _ _ Hw)|done|].
  pose proof (wi_queue _ _ Hw) as Hwf. cbn in Hwf.
  rewrite Hq, Forall_app, Forall_cons in Hwf. destruct Hwf as (Hwf1 & Hwfe & Hwf2).
  rewrite Hec in *. apply (world_inv_start n st h sent subs now (pe_xt_request e) (l1 ++ l2));
    try done. by apply Forall_app.
Qed.

Lemma collect_proof_frame now st sb c data :
  let st' := (collect_proof now st sb c data).1 in
  cs_active_xts st' = cs_active_xts st /\ cs_pending_queue st' = cs_pending_queue st /\
  cs_current_period_id st' = cs_current_period_id st /\
  cs_next_sequence_num st' = cs_next_sequence_num st /\
  cs_last_finalized_superblock_number st' = cs_last_finalized_superblock_number st.
Proof. unfold collect_proof. by case_match. Qed.

Lemma collect_proof_number now st sb c data n proofs :
  (collect_proof now st sb c data).2 = Some (n, proofs) -> n = cs_next_superblock_number st.
Proof. unfold collect_proof. case_match; cbn; congruence. Qed.

Lemma remove_one_Forall (P : Z -> Prop) n l : Forall P l -> Forall P (remove_one n l).
Proof. induction 1; cbn; [done|]. case_decide; [done|by constructor]. Qed.

Lemma world_inv_SProof n w now sb c data order sub :
  world_inv n w -> world_inv (S n) (exec (SProof now sb c data order sub) w).
Proof.
  destruct w as [st h sent subs]. intros Hw. cbn -[collect_proof].
  pose proof (collect_proof_frame now st sb c data) as (F1 & F2 & F3 & F4 & F5).
  pose proof (coord_inv_collect_proof now st sb c data (wi_coord _ _ Hw)) as Hinv.
  pose proof (collect_proof_number now st sb c data) as Hnum.
  destruct (collect_proof now st sb c data) as [st' r]. cbn in F1, F2, F3, F4, F5, Hinv, Hnum.
  assert (forall subs', Forall u64_ok subs' -> world_inv (S n) (mk_world st' h sent subs')) as Hany.
  { intros subs' Hs. apply (world_inv_quiet n st h sent subs st' [] subs'); try done.
    - rewrite F2. apply (wi_queue _ _ Hw).
    - left. by rewrite F3, F4.
    - rewrite F5. apply (wi_superblock _ _ Hw). }
  pose proof (wi_submissions _ _ Hw) as Hsubs. cbn in Hsubs.
  destruct r as [[m proofs]|]; [|by apply Hany].
  apply Hany. case_match; [|done]. constructor; [|done].
  rewrite (Hnum m proofs), (ci_superblock st) by first [done|apply (wi_coord _ _ Hw)].
  apply u64_add_ok.
Qed.

Lemma world_inv_SPeriod n w :
  world_inv n w -> Z.of_nat (S n) < u64_max -> world_inv (S n) (exec SPeriod w).
Proof.
  destruct w as [st h sent subs]. intros Hw Hn. cbn -[next_period].
  pose proof (wi_period _ _ Hw) as Hp. cbn in Hp.
  assert (cs_current_period_id st +! 1 = cs_current_period_id st + 1) as Hsucc.
  { unfold u64_max in *. u64_lia. }
  apply (world_inv_quiet n st h sent subs (next_period st) [_] subs); try done.
  - apply coord_inv_next_period, (wi_coord _ _ Hw).
  - apply (wi_queue _ _ Hw).
  - right. cbn. by rewrite Hsucc.
  - apply (wi_superblock _ _ Hw).
  - apply (wi_submissions _ _ Hw).
  - apply Forall_singleton. eexists. split_and!; [reflexivity| |done]. cbn. split.
    + apply u64_add_ok.
    + rewrite (ci_superblock st) by apply (wi_coord _ _ Hw). apply u64_add_ok.
Qed.

Lemma world_inv_SReset n w :
  world_inv n w -> Z.of_nat (S n) < u64_max -> world_inv (S n) (exec SReset w).
Proof.
  destruct w as [st h sent subs]. intros Hw Hn. cbn -[reset_superblock].
  pose proof (wi_coord _ _ Hw) as Hinv. cbn in Hinv. rewrite reset_superblock_id by done.
  pose proof (wi_period _ _ Hw) as Hp. pose proof (wi_superblock _ _ Hw) as Hsb. cbn in Hp, Hsb.
  apply (world_inv_quiet n st h sent subs st [_] subs); try done.
  - apply (wi_queue _ _ Hw).
  - by left.
  - apply (wi_submissions _ _ Hw).
  - apply Forall_singleton. eexists. split_and!; [reflexivity| |done]. cbn.
    unfold u64_ok, u64_max in *. split; lia.
Qed.

(** Every section keeps the relation. *)
Lemma world_inv_exec n w s :
  world_inv n w -> Z.of_nat (S n) < u64_max -> section_ok w s -> world_inv (S n) (exec s w).
Proof.
  intros Hw Hn Hok.
  pose proof (wi_coord _ _ Hw) as Hinv. pose proof (wi_queue _ _ Hw) as Hq.
  pose proof (wi_superblock _ _ Hw) as Hsb. pose proof (wi_submissions _ _ Hw) as Hsubs.
  destruct s; cbn in Hok; auto using world_inv_SAdmit, world_inv_SDrain, world_inv_SProof,
    world_inv_SPeriod, world_inv_SReset, world_inv_S, world_inv_SVote;
    destruct w as [st h sent subs]; cbn in * |-.
  - apply (world_inv_quiet n st h sent subs _ []); try done;
      [by apply coord_inv_register|..]; unfold register_chain;
      destruct (cs_client_to_chain st !! client_id); auto.
  - apply (world_inv_quiet n st h sent subs _ []); try done; [|by left].
    destruct Hinv. by split.
  - cbn -[reap_timed_out]. unfold reap_timed_out.
    pose proof (world_inv_reap_loop n st h sent subs (expired_xts order now st timeout) Hw) as Hr.
    destruct (reap_loop st _) as [st' out]. cbn in Hr. apply world_inv_S, Hr.
    + by apply NoDup_expired_xts.
    + apply Forall_forall. intros x (xt & Hx & _)%elem_of_expired_xts; eauto.
  - apply (world_inv_quiet n st h sent subs _ []); try done;
      [by apply coord_inv_reap_expired_proofs|..]; unfold reap_expired_proofs;
      destruct (cs_proof_collection_started st); try case_match; auto.
  - apply (world_inv_quiet n st h sent subs _ []); try done; [by apply coord_inv_submission_succeeded| | |].
    + by left.
    + rewrite Forall_forall in Hsubs. by apply Hsubs.
    + by apply remove_one_Forall.
  - apply (world_inv_quiet n st h sent subs _ []); try done; [by left|by apply remove_one_Forall].
Qed.

Lemma world_inv_nsteps n w w' k :
  world_inv k w -> nsteps coord_step n w w' -> Z.of_nat (k + n) < u64_max -> world_inv (k + n) w'.
Proof.
  intros Hw Hsteps. revert k Hw.
  induction Hsteps as [w|n w1 w2 w3 (s & Hok & <-) Hsteps IH]; intros k Hw Hn.
  - by rewrite Nat.add_0_r.
  - replace (k + S n)%nat with (S k + n)%nat in * by lia.
    apply IH; [|done]. apply world_inv_exec; [done|lia|done].
Qed.

(** A run that starts with the coordinator and stays within the range of [u64]. *)
Definition reachable w : Prop :=
  exists n, Z.of_nat n < u64_max /\ nsteps coord_step n world_init w.

Lemma reachable_inv w : reachable w -> exists n, world_inv n w.
Proof.
  intros (n & Hn & Hsteps). exists n.
  apply (world_inv_nsteps n world_init w 0); [apply world_inv_init|done|done].
Qed.

End world.
