(* ===== verification/CoordProps.v ===== *)
(** * What runs of the coordinator guarantee

    Consequences of the refinement, stated on what a sidecar sees: the messages it decodes
    from the broadcasts. [decoded sent p] says that some broadcast decodes to payload [p].
    [demo_run] is the run the closed instances of the theorems are checked on. *)
From Stdlib Require Import ZArith Lia.
From S2P Require Import Prelude Spec InstanceIdGen Messages Protobuf CoordState Coordinator AtomicCommit.
From S2P Require Import CoordInv CoordRefinement.

(** ** Executable runs *)

Definition exec_all `{Sha2, ProstMessage} (hex_encode : bytes -> string) (l : list section)
    (w : coord_world) : coord_world :=
  foldl (fun w s => exec hex_encode s w) w l.

Fixpoint sections_ok `{Sha2, ProstMessage, Requests} (hex_encode : bytes -> string) (l : list section)
    (w : coord_world) : Prop :=
  match l with
  | [] => True
  | s :: l' => section_ok w s /\ sections_ok hex_encode l' (exec hex_encode s w)
  end.

Lemma exec_all_nsteps `{Sha2, ProstMessage, Requests} hex_encode l w :
  sections_ok hex_encode l w -> nsteps (coord_step hex_encode) (length l) w (exec_all hex_encode l w).
Proof.
  revert w. induction l as [|s l IH]; intros w; cbn; [constructor|].
  intros [Hs Hl]. econstructor; [by exists s|by apply IH].
Qed.

Lemma exec_all_reachable `{Sha2, ProstMessage, Requests} hex_encode l :
  sections_ok hex_encode l world_init -> Z.of_nat (length l) < u64_max ->
  reachable hex_encode (exec_all hex_encode l world_init).
Proof. intros Hok Hlen. exists (length l). split; [done|]. by apply exec_all_nsteps. Qed.

Lemma sections_ok_app `{Sha2, ProstMessage, Requests} hex_encode l1 l2 w :
  sections_ok hex_encode (l1 ++ l2) w <->
    sections_ok hex_encode l1 w /\ sections_ok hex_encode l2 (exec_all hex_encode l1 w).
Proof.
  revert w. induction l1 as [|s l1 IH]; intros w; cbn; [tauto|]. rewrite IH. cbn. tauto.
Qed.

Lemma exec_all_app `{Sha2, ProstMessage} hex_encode l1 l2 w :
  exec_all hex_encode (l1 ++ l2) w = exec_all hex_encode l2 (exec_all hex_encode l1 w).
Proof. apply foldl_app. Qed.

(** Two chains vote yes on a first instance; a second one is stopped by a no vote. *)
Definition demo_req : Proto.XtRequest :=
  Proto.mk_XtRequest [Proto.mk_TransactionRequest 1 [[x0a]]; Proto.mk_TransactionRequest 2 [[x0b]]].

Definition demo_id (seq : Z) : InstanceId :=
  @generate_instance_id prefix_sha256 1 seq (proto_to_spec_xt demo_req).

Definition demo_sections : list section :=
  [SRegister "a" 1; SRegister "b" 2; SPeriod; SAdmit 0 demo_req; SAdmit 0 demo_req;
   SVote 5 (demo_id 1) 1 true; SVote 7 (demo_id 1) 2 true; SDrain 8;
   SVote 9 (demo_id 2) 2 false].

Definition demo_world : coord_world :=
  @exec_all prefix_sha256 prost_codec hex_string demo_sections world_init.

Lemma demo_sections_ok : @sections_ok prefix_sha256 prost_codec all_requests hex_string demo_sections world_init.
Proof. unfold demo_sections. cbn [sections_ok section_ok]. split_and!; try done; by_compute. Qed.

Lemma demo_reachable : @reachable prefix_sha256 prost_codec all_requests hex_string demo_world.
Proof. apply exec_all_reachable; [apply demo_sections_ok|by_compute]. Qed.

(** The run up to the second request: one instance under way, one request queued. *)
Definition demo_half_world : coord_world :=
  @exec_all prefix_sha256 prost_codec hex_string (take 5 demo_sections) world_init.

Lemma demo_half_reachable : @reachable prefix_sha256 prost_codec all_requests hex_string demo_half_world.
Proof.
  apply exec_all_reachable; [|by_compute]. cbn [take demo_sections sections_ok section_ok].
  split_and!; try done; by_compute.
Qed.

Section props.
Context `{Sha2, ProstMessage, Requests}.
Context (hex_encode : bytes -> string).
Implicit Types (w : coord_world).

(** The votes of a history were cast by its vote sections. *)
Lemma exec_votes sec w x c v :
  EvVoted x c v ∈ cw_history (exec hex_encode sec w) ->
  EvVoted x c v ∈ cw_history w \/ exists now iid, sec = SVote now iid c v /\ x = hex_encode iid.
Proof.
  destruct w as [st h sent subs], sec; cbn -[admit_xt drain_one take_next_ready record_vote
    reap_timed_out reap_expired_proofs collect_proof Nat.ltb]; try (by left).
  - destruct (_ <? _)%nat; [by left|]. destruct (admit_xt _ _ _ _) as [st' []]; cbn; set_solver.
  - assert (EvVoted x c v ∈ vote_events st (hex_encode instance_id_bytes) chain_id vote ->
      x = hex_encode instance_id_bytes /\ c = chain_id /\ v = vote) as Hv.
    { unfold vote_events. destruct (vote_counts _ _ _); set_solver. }
    destruct (record_vote _ _ _ _ _ _) as [st' [[[d l] m]|]]; cbn;
      rewrite ?elem_of_cons, elem_of_app; naive_solver.
  - destruct (take_next_ready st) as [st0 [e|]]; [|by left].
    destruct (drain_one now st) as [[st' d]|]; cbn; set_solver.
  - destruct (reap_timed_out _ _ _ _) as [st' out]. cbn. rewrite elem_of_app, elem_of_reverse.
    intros [(y & [=] & _)%list_elem_of_fmap|?]. by left.
  - destruct (collect_proof _ _ _ _ _) as [st' [[n proofs]|]]; by left.
Qed.

Lemma exec_all_votes l w x c v :
  EvVoted x c v ∈ cw_history (exec_all hex_encode l w) ->
  EvVoted x c v ∈ cw_history w \/ exists now iid, SVote now iid c v ∈ l /\ x = hex_encode iid.
Proof.
  revert w. induction l as [|sec l IH]; intros w; [by left|]. cbn.
  intros [Hin|(now & iid & Hin & ->)]%IH; [|right; exists now, iid; by split; [right|]].
  apply exec_votes in Hin as [?|(now & iid & -> & ->)]; [by left|]. right. exists now, iid.
  by split; [left|].
Qed.

(** Some broadcast decodes to the publisher's message with this payload. *)
Definition decoded (sent : list bytes) (p : Proto.Payload) : Prop :=
  exists data, data ∈ sent /\ decode data = Ok (publisher_message p).

Definition decision_sent w (iid : InstanceId) (d : bool) : Prop :=
  decoded (cw_sent w) (Proto.PDecided (Proto.mk_Decided iid d)).

Definition instance_sent w (iid : InstanceId) (req : Proto.XtRequest) : Prop :=
  exists p s, decoded (cw_sent w) (Proto.PStartInstance (Proto.mk_StartInstance iid p s (Some req))).

Context `{!InstanceIdsDistinct}.
Context (Hhex : forall l, hex_encode l = hex_string l).

Lemma publisher_message_wf p : Payload_wf p -> Message_wf (publisher_message p).
Proof. by split. Qed.

(** What is decoded was justified when it was sent. *)
Lemma decoded_justified `{!ProstRoundtrip} w p :
  reachable hex_encode w -> decoded (cw_sent w) p -> justified (cw_history w) p.
Proof.
  intros (n & Hw)%reachable_inv (data & Hin & Hdec); [|done..].
  pose proof (wi_sent _ _ Hw) as Hs. rewrite Forall_forall in Hs.
  destruct (Hs _ Hin) as (p' & -> & Hwf & Hj).
  rewrite prost_decode_encode in Hdec by by apply publisher_message_wf.
  unfold publisher_message in Hdec. by simplify_eq.
Qed.

Lemma started_sent `{!ProstRoundtrip} w iid cs :
  reachable hex_encode w -> EvStarted (InstanceId_to_string iid) cs ∈ cw_history w ->
  exists req, instance_sent w iid req /\ extract_chains req = cs.
Proof.
  intros Hr Hin. destruct (reachable_inv _ Hhex _ Hr) as (n & Hw).
  pose proof (wi_announced _ _ Hw) as Ha. rewrite Forall_forall in Ha.
  destruct (Ha _ Hin) as (iid' & p & s & req & Hid & Hcs & Hwf & Hsent).
  apply InstanceId_to_string_inj in Hid as ->.
  exists req. split; [|done]. exists p, s. eexists. split; [exact Hsent|].
  by apply prost_decode_encode, publisher_message_wf.
Qed.

(** C1. Refinement: in every run of the coordinator, whatever the interleaving of its
    critical sections, the events form a history that the atomic-commit specification
    admits, and the coordinator's table of active transactions is exactly the set of open
    instances, with the same participants and the same votes. *)
Theorem coordinator_refines_atomic_commit w :
  reachable hex_encode w ->
  ac_history (cw_history w) /\
  (forall x cs, ac_open (cw_history w) x cs <->
     exists xt, cs_active_xts (cw_state w) !! x = Some xt /\ ax_chains xt = cs) /\
  (forall x xt c v, cs_active_xts (cw_state w) !! x = Some xt ->
     EvVoted x c v ∈ cw_history w <-> ax_votes xt !! c = Some v).
Proof. intros (n & [])%reachable_inv; done. Qed.

Lemma commit_unanimous `{!ProstRoundtrip} w iid :
  reachable hex_encode w -> decision_sent w iid true ->
  exists req, instance_sent w iid req /\ (2 <= length (extract_chains req))%nat /\
    forall c, c ∈ extract_chains req ->
      EvVoted (InstanceId_to_string iid) c true ∈ cw_history w.
Proof.
  intros Hr Hd%decoded_justified; [|done]. destruct (reachable_inv _ Hhex _ Hr) as (n & Hw).
  pose proof (wi_history _ _ Hw) as Hh. destruct Hd as [Hd|[? _]]; [|done]. cbn in Hd.
  destruct (ac_started _ _ Hh Hd) as [cs Hs]. cbn in Hs.
  destruct (started_sent w iid cs) as (req & Hreq & <-); [done..|].
  exists req. split_and!; [done|by eapply ac_participants|].
  intros c Hc. by eapply ac_commit_unanimous.
Qed.

(** Validity of commits: when a sidecar decodes [Decided { instance_id, true }], the
    instance was announced by a [StartInstance] with that id, and every chain of its
    request, at least two, has voted yes. *)
Theorem commit_is_unanimous `{!ProstRoundtrip} w iid :
  reachable hex_encode w -> decision_sent w iid true ->
  exists req, instance_sent w iid req /\ (2 <= length (extract_chains req))%nat /\
    forall c, c ∈ extract_chains req ->
      EvVoted (InstanceId_to_string iid) c true ∈ cw_history w.
Proof. apply commit_unanimous. Qed.

(** A decoded abort follows a no vote of a participant, or the instance is among those the
    reaper concluded; [CoordDeadline] says when it does so. *)
Lemma abort_cause `{!ProstRoundtrip} w iid :
  reachable hex_encode w -> decision_sent w iid false ->
  exists req, instance_sent w iid req /\
    (EvTimedOut (InstanceId_to_string iid) ∈ cw_history w \/
     exists c, c ∈ extract_chains req /\
       EvVoted (InstanceId_to_string iid) c false ∈ cw_history w).
Proof.
  intros Hr Hd%decoded_justified; [|done]. destruct (reachable_inv _ Hhex _ Hr) as (n & Hw).
  pose proof (wi_history _ _ Hw) as Hh. cbn in Hd.
  assert (exists e, e ∈ cw_history w /\ ev_xt e = InstanceId_to_string iid) as (e & He & Hx)
    by (destruct Hd as [?|[_ ?]]; eauto).
  destruct (ac_started _ _ Hh He) as [cs Hs]. rewrite Hx in Hs.
  destruct (started_sent w iid cs) as (req & Hreq & <-); [done..|].
  exists req. split; [done|]. destruct Hd as [Hd|[_ ?]]; [right|by left].
  destruct (ac_abort_cause _ _ Hh Hd) as [c Hc]. exists c. split; [|done].
  by eapply ac_vote_participant.
Qed.

Lemma decision_unique `{!ProstRoundtrip} w iid d d' :
  reachable hex_encode w -> decision_sent w iid d -> decision_sent w iid d' -> d = d'.
Proof.
  intros Hr Hd%decoded_justified Hd'%decoded_justified; [|done..].
  destruct (reachable_inv _ Hhex _ Hr) as (n & Hw).
  pose proof (wi_history _ _ Hw) as Hh. cbn in Hd, Hd'.
  destruct Hd as [Hd|[-> Hd]], Hd' as [Hd'|[-> Hd']].
  - by eapply ac_decision_unique.
  - by eapply ac_decided_or_timed_out in Hd.
  - by eapply ac_decided_or_timed_out in Hd'.
  - done.
Qed.

(** Agreement: all the decisions ever broadcast for an instance are the same. *)
Theorem decisions_agree `{!ProstRoundtrip} w iid d d' :
  reachable hex_encode w -> decision_sent w iid d -> decision_sent w iid d' -> d = d'.
Proof. apply decision_unique. Qed.

(** C8. Exclusion: the chain table is exact. A chain is locked by an instance if and only
    if the instance is under way and the chain takes part in it, so two different instances
    under way never share a chain and a finished instance holds no lock. *)
Theorem chain_locks_exact w :
  reachable hex_encode w ->
  (forall c x, cs_active_chains (cw_state w) !! c = Some x <->
     exists xt, cs_active_xts (cw_state w) !! x = Some xt /\ c ∈ ax_chains xt) /\
  (forall c x y xt yt, cs_active_xts (cw_state w) !! x = Some xt ->
     cs_active_xts (cw_state w) !! y = Some yt -> c ∈ ax_chains xt -> c ∈ ax_chains yt -> x = y).
Proof.
  intros (n & Hw)%reachable_inv; [|done..]. pose proof (ci_locks _ (wi_coord _ _ Hw)) as HL.
  split; [exact HL|]. intros c x y xt yt Hx Hy Hc Hc'.
  assert (cs_active_chains (cw_state w) !! c = Some x) by (apply HL; eauto).
  assert (cs_active_chains (cw_state w) !! c = Some y) by (apply HL; eauto).
  congruence.
Qed.

(** C18. The shape of the state in every run: an active transaction is stored under the hex
    form of its id, has at least two distinct chains, only yes votes, from participants and
    not yet from all of them; the queue never exceeds its limit and holds requests over at
    least two chains; proofs are being timed exactly while some are pending. *)
Theorem coordinator_state_invariant w :
  reachable hex_encode w ->
  (forall x xt, cs_active_xts (cw_state w) !! x = Some xt -> active_ok x xt) /\
  (length (cs_pending_queue (cw_state w)) <= MAX_PENDING_QUEUE_SIZE)%nat /\
  Forall entry_ok (cs_pending_queue (cw_state w)) /\
  (cs_proof_collection_started (cw_state w) = None <-> cs_pending_proofs (cw_state w) = ∅).
Proof. intros (n & [[] ])%reachable_inv; done. Qed.

End props.

(** ** Closed instances *)

#[local] Existing Instances prefix_sha256 all_requests prefix_sha256_ids prost_codec prost_codec_laws.

Lemma demo_sent p :
  Payload_wf p -> encode_to_vec (publisher_message p) ∈ cw_sent demo_world ->
  decoded (cw_sent demo_world) p.
Proof.
  intros Hwf Hin. eexists. split; [exact Hin|]. by apply prost_decode_encode, publisher_message_wf.
Qed.

Lemma demo_commit_sent : decision_sent demo_world (demo_id 1) true.
Proof. apply demo_sent; [done|by_compute]. Qed.

Lemma demo_abort_sent : decision_sent demo_world (demo_id 2) false.
Proof. apply demo_sent; [done|by_compute]. Qed.

Lemma coordinator_refines_atomic_commit_witness :
  ac_history (cw_history demo_world) /\ length (cw_history demo_world) = 7%nat.
Proof.
  split; [|by_compute].
  apply (coordinator_refines_atomic_commit hex_string (fun _ => eq_refl) demo_world demo_reachable).
Defined.

Lemma commit_is_unanimous_witness :
  exists req, instance_sent demo_world (demo_id 1) req /\ (2 <= length (extract_chains req))%nat /\
    forall c, c ∈ extract_chains req ->
      EvVoted (InstanceId_to_string (demo_id 1)) c true ∈ cw_history demo_world.
Proof.
  apply (commit_is_unanimous hex_string (fun _ => eq_refl) demo_world (demo_id 1));
    [apply demo_reachable|apply demo_commit_sent].
Defined.

Lemma decisions_agree_witness :
  decision_sent demo_world (demo_id 1) true /\ true = true.
Proof.
  split; [apply demo_commit_sent|].
  apply (decisions_agree hex_string (fun _ => eq_refl) demo_world (demo_id 1) true true);
    [apply demo_reachable|apply demo_commit_sent|apply demo_commit_sent].
Defined.

Lemma chain_locks_exact_witness :
  (exists x, cs_active_chains (cw_state demo_half_world) !! 1 = Some x) /\
  (forall c x y xt yt, cs_active_xts (cw_state demo_half_world) !! x = Some xt ->
     cs_active_xts (cw_state demo_half_world) !! y = Some yt ->
     c ∈ ax_chains xt -> c ∈ ax_chains yt -> x = y).
Proof.
  split; [exists (InstanceId_to_string (demo_id 1)); by_compute|].
  apply (chain_locks_exact hex_string (fun _ => eq_refl) demo_half_world demo_half_reachable).
Defined.

Lemma coordinator_state_invariant_witness :
  size (cs_active_xts (cw_state demo_half_world)) = 1%nat /\
  Forall entry_ok (cs_pending_queue (cw_state demo_half_world)).
Proof.
  split; [vm_compute; reflexivity|].
  apply (coordinator_state_invariant hex_string (fun _ => eq_refl) demo_half_world
           demo_half_reachable).
Defined.
