(* ===== verification/CoordProgress.v ===== *)
(** * Progress of the coordinator

    What handlers achieve when they run: votes lead to decisions, deadlines free chains, a
    freed chain lets the queue move. These are theorems about the handlers as functions. *)
From Stdlib Require Import ZArith Lia.
From S2P Require Import Prelude Spec InstanceIdGen Messages Protobuf CoordState Coordinator AtomicCommit.
From S2P Require Import CoordInv CoordRefinement CoordProps.

Section progress.
Context `{Sha2, ProstMessage}.
Implicit Types (st : CoordinatorState) (co : Coordinator).

(** ** Votes lead to a decision *)

(** The votes of a list of chains, in order, with the decisions they give. *)
Fixpoint vote_all (x : string) (iid : bytes) (v : bool) (l : list (Instant * ChainId)) st
    : CoordinatorState * list (bool * Duration * bytes) :=
  match l with
  | [] => (st, [])
  | (now, c) :: l' =>
      let '(st1, r) := record_vote now st x iid c v in
      let '(st2, out) := vote_all x iid v l' st1 in
      (st2, option_list r ++ out)
  end.

Lemma vote_all_ignored x iid v l st :
  cs_active_xts st !! x = None -> vote_all x iid v l st = (st, []).
Proof.
  intros Hx. induction l as [|[now c] l IH]; [done|]. cbn [vote_all].
  rewrite record_vote_ignored by (unfold vote_counts; by rewrite Hx). by rewrite IH.
Qed.

(** The chains still to vote, [l], all vote yes. *)
Lemma vote_all_yes x xt iid l st :
  coord_inv st -> cs_active_xts st !! x = Some xt -> l <> [] -> NoDup l.*2 ->
  (forall c, c ∈ l.*2 -> c ∈ ax_chains xt /\ ax_votes xt !! c = None) ->
  (length l + size (ax_votes xt) = length (ax_chains xt))%nat ->
  exists latency,
    vote_all x iid true l st = (finish_xt st x, [(true, latency, decided_message iid true)]).
Proof.
  revert st xt. induction l as [|[now c] l IH]; intros st xt Hinv Hx Hne; [done|].
  rewrite fmap_cons, NoDup_cons. cbn [snd length]. intros [Hc Hnd] Hl Hlen. cbn [vote_all].
  assert (vote_counts st x c = true) as Hvc.
  { unfold vote_counts. rewrite Hx. apply bool_decide_eq_true, Hl. set_solver. }
  rewrite (record_vote_counted _ _ _ xt) by done. case_decide as Hsz.
  - assert (l = []) as -> by (destruct l; [done|cbn in *; lia]). cbn.
    rewrite finish_with_vote by done. eauto.
  - assert (cs_active_xts (with_vote st x c true xt) !! x = Some (cast c true xt)) as Hx'
      by apply lookup_insert_eq.
    destruct (IH (with_vote st x c true xt) (cast c true xt)) as [latency ->].
    + by apply coord_inv_with_vote.
    + done.
    + intros ->. cbn in Hlen. lia.
    + done.
    + intros c' Hc'. destruct (Hl c') as [? ?]; [set_solver|]. split; [done|].
      cbn. rewrite lookup_insert_ne; [done|]. by intros ->.
    + cbn. rewrite map_size_insert_None by (apply Hl; set_solver). lia.
    + rewrite finish_with_vote by done. eauto.
Qed.

(** C12. Unanimity commits: when every participant of an instance without votes votes yes,
    in whatever order, exactly one decision is taken, it is commit, the message carries the
    instance id of the votes, the instance is gone, its chains are free and the locks of
    the other instances are untouched. *)
Theorem unanimous_votes_commit x xt iid l st :
  coord_inv st -> cs_active_xts st !! x = Some xt -> ax_votes xt = ∅ ->
  l.*2 ≡ₚ ax_chains xt ->
  let '(st', out) := vote_all x iid true l st in
  (exists latency, out = [(true, latency, decided_message iid true)]) /\
  cs_active_xts st' = delete x (cs_active_xts st) /\
  (forall c, cs_active_chains st' !! c =
     if decide (c ∈ ax_chains xt) then None else cs_active_chains st !! c).
Proof.
  intros Hinv Hx Hv Hperm. pose proof (ci_xts _ Hinv _ _ Hx) as [_ Hnd Htwo _ _].
  pose proof (Permutation_length Hperm) as Hlen. rewrite length_fmap in Hlen.
  destruct (vote_all_yes x xt iid l st) as [latency ->]; [done|done| | | | |].
  - intros ->. cbn in Hlen. lia.
  - by rewrite Hperm.
  - intros c. rewrite Hperm, Hv. done.
  - rewrite Hv, map_size_empty. lia.
  - split_and!; [eauto|apply finish_xt_active|]. intros c. by apply finish_xt_locks.
Qed.

(** A no vote of a participant that has not voted aborts at once, before the other
    votes are in: the decision is abort, the instance is gone, every chain it held is free,
    and whatever votes arrive later for it change nothing. *)
Theorem no_vote_aborts x xt now iid c st l v :
  coord_inv st -> cs_active_xts st !! x = Some xt -> vote_counts st x c = true ->
  let '(st', r) := record_vote now st x iid c false in
  (exists latency, r = Some (false, latency, decided_message iid false)) /\
  cs_active_xts st' = delete x (cs_active_xts st) /\
  (forall c', c' ∈ ax_chains xt -> cs_active_chains st' !! c' = None) /\
  vote_all x iid v l st' = (st', []).
Proof.
  intros Hinv Hx Hvc. rewrite (record_vote_counted _ _ _ xt) by done.
  rewrite finish_with_vote by done. split_and!; [eauto|apply finish_xt_active| |].
  - intros c' Hc'. by rewrite (finish_xt_locks _ _ xt), decide_True by done.
  - apply vote_all_ignored. rewrite finish_xt_active. apply lookup_delete_eq.
Qed.

(** ** Deadlines *)

(** C13. Deadlines: the reaper concludes exactly the instances whose age has reached the
    timeout. Each of them is answered by one [Decided { id, false }] with its own id, no
    other message is produced, the others stay as they were, and the lock table is that of
    the instances that are left. *)
Theorem timeouts_reaped order now st timeout :
  iter_ok order -> coord_inv st ->
  let '(st', out) := reap_timed_out order now st timeout in
  (forall x, cs_active_xts st' !! x =
     xt ← cs_active_xts st !! x;
     if decide (timeout <= duration_since now (ax_start_time xt)) then None else Some xt) /\
  (forall x data, (x, data) ∈ out <-> exists xt, cs_active_xts st !! x = Some xt /\
     timeout <= duration_since now (ax_start_time xt) /\
     data = decided_message (ax_instance_id_bytes xt) false) /\
  NoDup out.*1 /\
  locks_ok (cs_active_xts st') (cs_active_chains st').
Proof.
  intros Hord Hinv. pose proof (reap_timed_out_active order now st timeout) as Hact.
  pose proof (coord_inv_reap_loop st (expired_xts order now st timeout) Hinv) as Hinv'.
  pose proof (reap_loop_messages st (expired_xts order now st timeout)) as Hmsg.
  unfold reap_timed_out in *. destruct (reap_loop st _) as [st' out]. cbn [fst snd] in *.
  rewrite Hmsg; clear Hmsg.
  - split_and!; [by intros x; apply Hact| | |apply (ci_locks _ Hinv')].
    + intros x data. rewrite list_elem_of_fmap. setoid_rewrite elem_of_expired_xts; [|done]. split.
      * intros (y & [= -> ->] & xt & Hx & Ht). exists xt. by rewrite Hx.
      * intros (xt & Hx & Ht & ->). exists x. rewrite Hx. eauto.
    + rewrite <- list_fmap_compose. unfold compose. cbn. rewrite list_fmap_id.
      by apply NoDup_expired_xts.
  - by apply NoDup_expired_xts.
  - apply Forall_forall. intros x (xt & Hx & _)%elem_of_expired_xts; eauto.
Qed.

(** ** The queue *)

(** Every queued request waits for a chain that is in use. *)
Definition nothing_ready st : Prop :=
  Forall (fun e => has_overlap st (pe_chains e) = true) (cs_pending_queue st).

#[export] Instance nothing_ready_dec st : Decision (nothing_ready st).
Proof. unfold nothing_ready. apply _. Defined.

Lemma drain_one_None now st : drain_one now st = None -> nothing_ready st.
Proof.
  unfold drain_one. destruct (take_next_ready st) as [st' [e|]] eqn:Ht; [by intros|].
  intros _. by apply take_next_ready_None in Ht as [_ ?].
Qed.

Lemma drain_one_length now st st' data :
  drain_one now st = Some (st', data) ->
  length (cs_pending_queue st) = S (length (cs_pending_queue st')).
Proof.
  unfold drain_one. destruct (take_next_ready st) as [st0 [e|]] eqn:Ht; [|done].
  apply take_next_ready_Some in Ht as (l1 & l2 & Hq & -> & _). intros [= <- <-].
  rewrite Hq. cbn. rewrite !length_app. cbn. lia.
Qed.

Lemma metric_inc_state k co : co_state (metric_inc k co) = co_state co.
Proof. done. Qed.

(** With more fuel than queued requests the loop ends because nothing is ready. *)
Lemma drain_loop_spec fuel clock co :
  (length (cs_pending_queue (co_state co)) < fuel)%nat ->
  let '(co', effs) := drain_loop fuel clock co in
  nothing_ready (co_state co') /\
  (length effs + length (cs_pending_queue (co_state co')) =
     length (cs_pending_queue (co_state co)))%nat /\
  (forall fuel', (fuel <= fuel')%nat -> drain_loop fuel' clock co = (co', effs)).
Proof.
  revert clock co. induction fuel as [|fuel IH]; intros clock co Hf; [lia|]. cbn [drain_loop].
  destruct (drain_one (clock 0%nat) (co_state co)) as [[st' data]|] eqn:Hd.
  - pose proof (drain_one_length _ _ _ _ Hd) as Hlen.
    set (co1 := metric_inc XtStarted (inc_broadcasts (with_state st' co))).
    specialize (IH (fun n => clock (S n)) co1). cbn in IH.
    destruct (drain_loop fuel _ co1) as [co2 effs]. destruct IH as (H1 & H2 & H3); [lia|].
    split_and!; [done|cbn; lia|]. intros [|fuel'] Hle; [lia|]. cbn [drain_loop].
    rewrite Hd. fold co1. rewrite H3 by lia. done.
  - split_and!; [by eapply drain_one_None|done|]. intros [|fuel'] Hle; [lia|]. cbn [drain_loop].
    by rewrite Hd.
Qed.

(** *** The reference: one pass over the queue *)

Definition busy (held : gset Z) (chains : list ChainId) : bool :=
  existsb (fun c => bool_decide (c ∈ held)) chains.

(** Requests are looked at once, oldest first; one whose chains are all free starts and takes
    them, any other keeps its place. *)
Fixpoint first_fit (held : gset Z) (q : list PendingEntry) : list PendingEntry * list PendingEntry :=
  match q with
  | [] => ([], [])
  | e :: q' =>
      if busy held (pe_chains e) then
        let '(started, kept) := first_fit held q' in (started, e :: kept)
      else
        let '(started, kept) := first_fit (held ∪ list_to_set (pe_chains e)) q' in (e :: started, kept)
  end.

(** The instances started one after the other, without looking at the queue. *)
Fixpoint start_each (clock : nat -> Instant) st (l : list PendingEntry) : CoordinatorState :=
  match l with
  | [] => st
  | e :: l' =>
      start_each (fun n => clock (S n)) (prepare_xt (clock 0%nat) st (pe_xt_request e) (pe_chains e)).1 l'
  end.

(** Their announcements, with consecutive sequence numbers of one period. *)
Fixpoint start_messages (period_id sequence_number : Z) (l : list PendingEntry) : list effect :=
  match l with
  | [] => []
  | e :: l' =>
      let iid := generate_instance_id period_id sequence_number (proto_to_spec_xt (pe_xt_request e)) in
      BroadcastRaw (encode_to_vec (publisher_message (Proto.PStartInstance
        (Proto.mk_StartInstance iid period_id sequence_number (Some (pe_xt_request e)))))) ""
      :: start_messages period_id (sequence_number +! 1) l'
  end.

Lemma busy_has_overlap st chains : busy (dom (cs_active_chains st)) chains = has_overlap st chains.
Proof.
  unfold busy, has_overlap. induction chains as [|c chains IH]; [done|]. cbn. rewrite IH. f_equal.
  apply bool_decide_ext. apply elem_of_dom.
Qed.

Lemma busy_mono held held' chains : held ⊆ held' -> busy held chains = true -> busy held' chains = true.
Proof.
  unfold busy. intros Hsub. rewrite !existsb_exists. intros (c & Hin & Hc). exists c.
  split; [done|]. rewrite bool_decide_eq_true in *. set_solver.
Qed.

(** Nothing starts when every request waits. *)
Lemma first_fit_waiting held q :
  Forall (fun e => busy held (pe_chains e) = true) q -> first_fit held q = ([], q).
Proof. induction 1 as [|e q He _ IH]; [done|]. cbn. by rewrite He, IH. Qed.

(** The first free request starts, whatever waits in front of it. *)
Lemma first_fit_next held l1 e l2 :
  Forall (fun e' => busy held (pe_chains e') = true) l1 -> busy held (pe_chains e) = false ->
  first_fit held (l1 ++ e :: l2) =
    (e :: (first_fit (held ∪ list_to_set (pe_chains e)) (l1 ++ l2)).1,
     (first_fit (held ∪ list_to_set (pe_chains e)) (l1 ++ l2)).2).
Proof.
  intros Hl1 He. induction Hl1 as [|e' l1 He' _ IH]; cbn.
  - rewrite He. by destruct (first_fit _ l2).
  - rewrite He', IH. rewrite (busy_mono held _ (pe_chains e')) by (set_solver || done).
    by destruct (first_fit _ (l1 ++ l2)).
Qed.

Lemma prepare_xt_held now st req chains :
  dom (cs_active_chains (prepare_xt now st req chains).1) =
    dom (cs_active_chains st) ∪ list_to_set chains.
Proof.
  apply set_eq. intros c. cbn. rewrite elem_of_union, elem_of_list_to_set, !elem_of_dom, lookup_foldl_insert.
  case_decide; naive_solver.
Qed.

Lemma drain_loop_first_fit fuel clock co :
  (length (cs_pending_queue (co_state co)) < fuel)%nat ->
  let st := co_state co in
  let '(started, kept) := first_fit (dom (cs_active_chains st)) (cs_pending_queue st) in
  let '(co', effs) := drain_loop fuel clock co in
  co_state co' = start_each clock (set_pending_queue kept st) started /\
  effs = start_messages (cs_current_period_id st) (cs_next_sequence_num st) started.
Proof.
  revert clock co. induction fuel as [|fuel IH]; intros clock co Hf; [lia|]. cbn [drain_loop].
  unfold drain_one. destruct (take_next_ready (co_state co)) as [st0 [e|]] eqn:Ht.
  - apply take_next_ready_Some in Ht as (l1 & l2 & Hq & -> & He & Hl1).
    rewrite Hq in Hf |- *. rewrite length_app in Hf. cbn in Hf. cbv zeta.
    rewrite first_fit_next by (try (eapply Forall_impl; [exact Hl1|]; cbn; intros ?);
      by rewrite busy_has_overlap).
    set (co1 := metric_inc XtStarted (inc_broadcasts (with_state
      (prepare_xt (clock 0%nat) (set_pending_queue (l1 ++ l2) (co_state co)) (pe_xt_request e)
         (pe_chains e)).1 co))).
    specialize (IH (fun n => clock (S n)) co1). cbv zeta in IH.
    change (cs_pending_queue (co_state co1)) with (l1 ++ l2) in IH.
    change (dom (cs_active_chains (co_state co1))) with (dom (cs_active_chains (prepare_xt (clock 0%nat)
      (set_pending_queue (l1 ++ l2) (co_state co)) (pe_xt_request e) (pe_chains e)).1)) in IH.
    rewrite length_app, prepare_xt_held in IH. cbn [set_pending_queue cs_active_chains] in IH.
    specialize (IH ltac:(lia)).
    destruct (first_fit _ (l1 ++ l2)) as [started kept]. cbn [fst snd].
    change (prepare_xt (clock 0%nat) (set_pending_queue (l1 ++ l2) (co_state co)) (pe_xt_request e)
      (pe_chains e)) with (co_state co1, (next_xt_id (co_state co) (pe_xt_request e),
      encode_to_vec (start_instance_message (co_state co) (pe_xt_request e)))). cbv beta iota.
    change (metric_inc XtStarted (inc_broadcasts (with_state (co_state co1) co))) with co1.
    destruct (drain_loop fuel _ co1) as [co2 effs].
    destruct IH as [E1 E2]. split; [|by rewrite E2]. rewrite E1. done.
  - apply take_next_ready_None in Ht as [-> Hw]. cbv zeta. rewrite first_fit_waiting.
    + split; [|done]. cbn. by destruct (co_state co).
    + eapply Forall_impl; [exact Hw|]. intros e. cbn. by rewrite busy_has_overlap.
Qed.

(** C16. The drain loop, which searches the queue from the front after every start, is one
    pass of first fit over it: the requests started are, in the order of the queue, those
    whose chains are free of the locks held before and of those taken by requests started
    earlier in the pass, each announced with its own request and the next sequence number;
    the others stay in their order, and each of them waits for a chain in use. The state is
    the one in which exactly those instances have been prepared. The loop stops by itself:
    more iterations than queued requests change nothing. *)
Theorem drain_queue_complete clock co :
  let st := co_state co in
  let '(started, kept) := first_fit (dom (cs_active_chains st)) (cs_pending_queue st) in
  let '(co', effs) := drain_queue clock co in
  co_state co' = start_each clock (set_pending_queue kept st) started /\
  effs = start_messages (cs_current_period_id st) (cs_next_sequence_num st) started /\
  nothing_ready (co_state co') /\
  (forall fuel, (length (cs_pending_queue st) < fuel)%nat -> drain_loop fuel clock co = (co', effs)).
Proof.
  cbv zeta. unfold drain_queue.
  pose proof (drain_loop_spec (S (length (cs_pending_queue (co_state co)))) clock co) as Hd.
  pose proof (drain_loop_first_fit (S (length (cs_pending_queue (co_state co)))) clock co) as Hf.
  cbv zeta in Hf. destruct (first_fit _ _) as [started kept].
  destruct (drain_loop _ clock co) as [co' effs]. destruct Hd as (H1 & _ & H3); [lia|].
  destruct Hf as [H4 H5]; [lia|]. split_and!; [done..|]. intros fuel Hfuel. apply H3. lia.
Qed.

Lemma drain_queue_nothing_ready clock co :
  nothing_ready (co_state (drain_queue clock co).1).
Proof.
  unfold drain_queue.
  pose proof (drain_loop_spec (S (length (cs_pending_queue (co_state co)))) clock co) as Hd.
  destruct (drain_loop _ clock co) as [co' effs]. destruct Hd as (H1 & _); [lia|done].
Qed.

(** More locks keep requests waiting. *)
Lemma has_overlap_mono st st' chains :
  (forall c, is_Some (cs_active_chains st !! c) -> is_Some (cs_active_chains st' !! c)) ->
  has_overlap st chains = true -> has_overlap st' chains = true.
Proof.
  unfold has_overlap. intros Hsub. rewrite !existsb_exists. intros (c & Hin & Hc).
  exists c. split; [done|]. rewrite bool_decide_eq_true in *. auto.
Qed.

Lemma nothing_ready_mono st st' :
  cs_pending_queue st' = cs_pending_queue st ->
  (forall c, is_Some (cs_active_chains st !! c) -> is_Some (cs_active_chains st' !! c)) ->
  nothing_ready st -> nothing_ready st'.
Proof.
  unfold nothing_ready. intros -> Hsub Hn. eapply Forall_impl; [exact Hn|].
  intros e. by apply has_overlap_mono.
Qed.

Lemma admit_xt_nothing_ready now st req chains :
  nothing_ready st -> nothing_ready (admit_xt now st req chains).1.
Proof.
  intros Hn. unfold admit_xt. destruct (has_overlap st chains) eqn:Ho.
  - destruct (MAX_PENDING_QUEUE_SIZE <=? _)%nat; [done|]. unfold nothing_ready. cbn.
    apply Forall_app. split; [done|]. by apply Forall_singleton.
  - refine (nothing_ready_mono st _ _ _ Hn); [done|].
    intros c Hc. cbn. rewrite lookup_foldl_insert. by case_decide.
Qed.

(** A vote that decides nothing and a reaping that finds nothing free no chain. *)
Lemma record_vote_nothing_ready now st x iid c v st' :
  record_vote now st x iid c v = (st', None) -> nothing_ready st -> nothing_ready st'.
Proof.
  intros Hr Hn. refine (nothing_ready_mono st _ _ _ Hn); unfold record_vote in Hr;
    repeat case_match; by simplify_eq.
Qed.

Lemma reap_timed_out_nothing order now st timeout st' :
  reap_timed_out order now st timeout = (st', []) -> st' = st.
Proof.
  unfold reap_timed_out. destruct (expired_xts _ _ _ _); cbn; [congruence|].
  by destruct (reap_loop _ _).
Qed.

Lemma announce_timeouts_state co l : co_state (announce_timeouts co l).1 = co_state co.
Proof.
  revert co. induction l as [|[x d] l IH]; intros co; [done|]. cbn.
  specialize (IH (inc_broadcasts (metric_inc XtDecidedAbort co))).
  by destruct (announce_timeouts _ l).
Qed.

(** No handler leaves a startable request in the queue: if every queued request waits
    for a chain in use before the handler runs, this is so after an XT request, after a
    vote, whether it decides or not, and after the reaping of timed-out instances. *)
Theorem handlers_leave_nothing_ready hex_encode co :
  nothing_ready (co_state co) ->
  (forall now req, nothing_ready (co_state (handle_xt_request now co req).1)) /\
  (forall clock iid c v, nothing_ready (co_state (handle_vote hex_encode clock co iid c v).1)) /\
  (forall order clock, nothing_ready (co_state (reap_timed_out_xts order clock co).1)).
Proof.
  intros Hn. split_and!.
  - intros now req. unfold handle_xt_request. case_match; [done|].
    pose proof (admit_xt_nothing_ready now (co_state co) req (extract_chains req) Hn).
    by destruct (admit_xt _ _ _ _) as [st' []].
  - intros clock iid c v. unfold handle_vote.
    destruct (record_vote _ _ _ _ _ _) as [st' [[[d latency] data]|]] eqn:Hr.
    + match goal with |- context [drain_queue ?k ?o] =>
        pose proof (drain_queue_nothing_ready k o) as Hd; by destruct (drain_queue k o) end.
    + by eapply record_vote_nothing_ready.
  - intros order clock. unfold reap_timed_out_xts.
    destruct (reap_timed_out _ _ _ _) as [st' out] eqn:Hr.
    pose proof (announce_timeouts_state (with_state st' co) out) as Hst.
    destruct (announce_timeouts (with_state st' co) out) as [co1 effs]. cbn in Hst.
    destruct out as [|[x d] out].
    + apply reap_timed_out_nothing in Hr. cbn. by rewrite Hst, Hr.
    + match goal with |- context [drain_queue ?k ?o] =>
        pose proof (drain_queue_nothing_ready k o) as Hd; by destruct (drain_queue k o) end.
Qed.

End progress.

(** ** Closed instances: the state of the demonstration run after its first start *)

#[local] Existing Instances prefix_sha256 all_requests prefix_sha256_ids prost_codec.

Definition demo_started : CoordinatorState :=
  cw_state demo_half_world.

Definition demo_xt : ActiveXt := mk_ActiveXt [1; 2] ∅ (demo_id 1) 0.

Definition demo_coordinator : Coordinator :=
  with_state demo_started (Coordinator_new (Some PublisherMetrics_new) 5 9).

Lemma demo_started_inv : coord_inv demo_started.
Proof.
  destruct (reachable_inv hex_string (fun _ => eq_refl) demo_half_world demo_half_reachable)
    as [n Hw].
  apply (wi_coord _ _ Hw).
Qed.

Lemma demo_started_active :
  cs_active_xts demo_started !! InstanceId_to_string (demo_id 1) = Some demo_xt.
Proof. by_compute. Qed.

Lemma unanimous_votes_commit_witness :
  let x := InstanceId_to_string (demo_id 1) in
  let '(st', out) := vote_all x (demo_id 1) true [(3, 2); (4, 1)] demo_started in
  (exists latency, out = [(true, latency, decided_message (demo_id 1) true)]) /\
  cs_active_xts st' = delete x (cs_active_xts demo_started) /\
  (forall c, cs_active_chains st' !! c =
     if decide (c ∈ [1; 2]) then None else cs_active_chains demo_started !! c).
Proof.
  apply (unanimous_votes_commit _ demo_xt (demo_id 1) [(3, 2); (4, 1)] demo_started).
  - apply demo_started_inv.
  - apply demo_started_active.
  - reflexivity.
  - apply (Permutation_swap 1 2 []).
Defined.

Lemma no_vote_aborts_witness :
  let x := InstanceId_to_string (demo_id 1) in
  let '(st', r) := record_vote 3 demo_started x (demo_id 1) 2 false in
  (exists latency, r = Some (false, latency, decided_message (demo_id 1) false)) /\
  cs_active_xts st' = delete x (cs_active_xts demo_started) /\
  (forall c', c' ∈ [1; 2] -> cs_active_chains st' !! c' = None) /\
  vote_all x (demo_id 1) true [(4, 1)] st' = (st', []).
Proof.
  apply (no_vote_aborts _ demo_xt 3 (demo_id 1) 2 demo_started [(4, 1)] true).
  - apply demo_started_inv.
  - apply demo_started_active.
  - by_compute.
Defined.

(** Chains 1 and 2 are held. Of five queued requests, those over 3, 4 and over 5, 6 start; the
    ones over 2, 3, over 4, 5 and over 1, 6 keep waiting, in this order. *)
Definition demo_entry (a b : Z) : PendingEntry :=
  mk_PendingEntry (Proto.mk_XtRequest
    [Proto.mk_TransactionRequest a [[x0a]]; Proto.mk_TransactionRequest b [[x0b]]]) [a; b].

Definition demo_queue : Coordinator :=
  with_state (set_pending_queue [demo_entry 2 3; demo_entry 3 4; demo_entry 4 5; demo_entry 5 6; demo_entry 1 6]
    demo_started) demo_coordinator.

Lemma drain_queue_complete_witness :
  let '(co', effs) := drain_queue (fun n => Z.of_nat n) demo_queue in
  cs_pending_queue (co_state co') = [demo_entry 2 3; demo_entry 4 5; demo_entry 1 6] /\
  effs = start_messages 1 2 [demo_entry 3 4; demo_entry 5 6] /\
  nothing_ready (co_state co').
Proof.
  pose proof (drain_queue_complete (fun n => Z.of_nat n) demo_queue) as Hd. cbv zeta in Hd.
  assert (first_fit (dom (cs_active_chains (co_state demo_queue))) (cs_pending_queue (co_state demo_queue)) =
    ([demo_entry 3 4; demo_entry 5 6], [demo_entry 2 3; demo_entry 4 5; demo_entry 1 6])) as E
    by (vm_compute; reflexivity).
  rewrite E in Hd. clear E. destruct (drain_queue _ demo_queue) as [co' effs].
  destruct Hd as (H1 & H2 & H3 & _).
  split; [rewrite H1; vm_compute; reflexivity|]. split; [rewrite H2; vm_compute; reflexivity|done].
Defined.

Lemma timeouts_reaped_witness :
  let '(st', out) := reap_timed_out map_to_list 6 demo_started 5 in
  (forall x, cs_active_xts st' !! x =
     xt ← cs_active_xts demo_started !! x;
     if decide (5 <= duration_since 6 (ax_start_time xt)) then None else Some xt) /\
  (forall x data, (x, data) ∈ out <-> exists xt, cs_active_xts demo_started !! x = Some xt /\
     5 <= duration_since 6 (ax_start_time xt) /\
     data = decided_message (ax_instance_id_bytes xt) false) /\
  NoDup out.*1 /\
  locks_ok (cs_active_xts st') (cs_active_chains st').
Proof.
  apply (timeouts_reaped map_to_list 6 demo_started 5); [intros m; reflexivity|apply demo_started_inv].
Defined.

Lemma handlers_leave_nothing_ready_witness :
  length (cs_pending_queue (co_state demo_coordinator)) = 1%nat /\
  nothing_ready
    (co_state (handle_vote hex_string (fun _ => 7) demo_coordinator (demo_id 1) 2 false).1).
Proof.
  split; [vm_compute; reflexivity|].
  refine (proj1 (proj2 (handlers_leave_nothing_ready hex_string demo_coordinator _))
            (fun _ => 7) (demo_id 1) 2 false).
  by_compute.
Defined.
