(* ===== verification/CoordDeadline.v ===== *)
(** * Deadlines and sizes over whole runs of the coordinator

    An instance under way keeps the instant it was started at, so the first reaping after
    its deadline concludes it unless the votes did so before: no instance, and no lock, can
    outlive a reaper that keeps ticking; and the reaper concludes no instance earlier, so an
    abort without a no vote is a real timeout. The last part counts: how many instances and
    locks a state holds. *)
From Stdlib Require Import ZArith Lia.
From S2P Require Import Prelude Spec InstanceIdGen Messages Protobuf CoordState Coordinator AtomicCommit.
From S2P Require Import CoordInv CoordRefinement CoordProps CoordProgress.

(** ** Start instants *)

(** What both tables know of an instance is the same. *)
Definition same_start (xts xts' : gmap string ActiveXt) : Prop :=
  forall x xt xt', xts !! x = Some xt -> xts' !! x = Some xt' ->
    ax_start_time xt' = ax_start_time xt /\ ax_instance_id_bytes xt' = ax_instance_id_bytes xt.

Lemma same_start_refl xts : same_start xts xts.
Proof. intros x xt xt' H H'. by simplify_eq. Qed.

Lemma same_start_delete xts x : same_start xts (delete x xts).
Proof. intros y yt yt' H [_ H']%lookup_delete_Some. by simplify_eq. Qed.

Lemma same_start_insert xts x xt :
  (forall xt', xts !! x = Some xt' ->
     ax_start_time xt = ax_start_time xt' /\ ax_instance_id_bytes xt = ax_instance_id_bytes xt') ->
  same_start xts (<[x := xt]> xts).
Proof.
  intros Hx y yt yt' H. rewrite lookup_insert. case_decide; [|intros; by simplify_eq].
  subst y. intros [= <-]. by apply Hx.
Qed.

#[local] Hint Resolve same_start_refl same_start_delete : core.

Section deadlines.
Context `{Sha2, ProstMessage, Requests}.
Context `{!InstanceIdsDistinct}.
Context (hex_encode : bytes -> string) (Hhex : forall l, hex_encode l = hex_string l).
Implicit Types (st : CoordinatorState) (w : coord_world).

Lemma same_start_reap_loop st l : same_start (cs_active_xts st) (cs_active_xts (reap_loop st l).1).
Proof. intros x xt xt' Hx. rewrite reap_loop_active. case_decide; [done|]. intros. by simplify_eq. Qed.

Lemma same_start_prepare st now req chains :
  cs_active_xts st !! next_xt_id st req = None ->
  same_start (cs_active_xts st) (cs_active_xts (prepare_xt now st req chains).1).
Proof. intros Hx. rewrite prepare_xt_active. apply same_start_insert. intros xt'. by rewrite Hx. Qed.

Lemma next_xt_id_unused n w req :
  world_inv n w -> Z.of_nat (S n) < u64_max -> admissible req ->
  cs_active_xts (cw_state w) !! next_xt_id (cw_state w) req = None.
Proof.
  intros Hw Hn Hreq. apply eq_None_not_Some. intros [xt E].
  destruct (proj2 (wi_open _ _ Hw (next_xt_id (cw_state w) req) (ax_chains xt))) as [Hs _]; [eauto|].
  by apply (wi_used _ _ Hw) in Hs as ?%(next_xt_id_fresh n _ req Hw Hn Hreq).
Qed.

(** No section moves the start of an instance under way. *)
Lemma same_start_exec n w s :
  world_inv n w -> Z.of_nat (S n) < u64_max -> section_ok w s ->
  same_start (cs_active_xts (cw_state w)) (cs_active_xts (cw_state (exec hex_encode s w))).
Proof.
  intros Hw Hn Hok. pose proof (next_xt_id_unused n w) as Hnew.
  pose proof (wi_queue _ _ Hw) as Hq. pose proof (wi_coord _ _ Hw) as Hinv.
  destruct w as [st h sent subs]. destruct s; cbn in * |-; try apply same_start_refl.
  - cbn. unfold register_chain. destruct (cs_client_to_chain st !! client_id); apply same_start_refl.
  - cbn -[Nat.ltb admit_xt]. destruct (length (extract_chains req) <? 2)%nat; [done|].
    unfold admit_xt. destruct (has_overlap st (extract_chains req)).
    + destruct (MAX_PENDING_QUEUE_SIZE <=? _)%nat; apply same_start_refl.
    + by apply (same_start_prepare st), Hnew.
  - cbn -[record_vote]. destruct (record_vote now st (hex_encode instance_id_bytes) _ _ _) as [st' r] eqn:E.
    assert (same_start (cs_active_xts st) (cs_active_xts st')) as Hs; [|by destruct r as [[[? ?] ?]|]].
    change st' with (st', r).1. rewrite <- E. set (x := hex_encode instance_id_bytes).
    destruct (vote_counts st x chain_id) eqn:Hvc; [|by rewrite record_vote_ignored].
    destruct (cs_active_xts st !! x) as [xt|] eqn:Hx;
      [|by unfold vote_counts in Hvc; rewrite Hx in Hvc].
    rewrite (record_vote_counted _ _ _ xt), finish_with_vote by done.
    destruct vote; [case_decide|]; cbn [fst]; rewrite ?finish_xt_active; auto.
    apply same_start_insert. intros xt'. rewrite Hx. by intros [= <-].
  - cbn -[drain_one]. destruct (take_next_ready st) as [st0 [e|]] eqn:Ht; [|done].
    unfold drain_one. rewrite Ht.
    apply take_next_ready_Some in Ht as (l1 & l2 & Hl & -> & _).
    rewrite Hl, Forall_app, Forall_cons in Hq. destruct Hq as (_ & Hreq & _).
    by apply (same_start_prepare (set_pending_queue (l1 ++ l2) st)), Hnew.
  - cbn -[reap_timed_out]. unfold reap_timed_out.
    pose proof (same_start_reap_loop st (expired_xts order now st timeout)) as Hr.
    by destruct (reap_loop st _).
  - cbn. unfold reap_expired_proofs.
    destruct (cs_proof_collection_started st); [case_match|]; apply same_start_refl.
  - cbn. pose proof (collect_proof_frame now st superblock_number chain_id data) as (E & _).
    destruct (collect_proof now st superblock_number chain_id data) as [st' [[? ?]|]];
      cbn in *; by rewrite E.
Qed.

(** Events and broadcasts are never lost. *)
Lemma exec_history_mono s w : cw_history w ⊆ cw_history (exec hex_encode s w).
Proof.
  destruct w as [st h sent subs]. destruct s; cbn -[admit_xt record_vote drain_one reap_timed_out];
    try done; repeat case_match; cbn; try done; intros e; rewrite ?elem_of_cons, ?elem_of_app; auto.
Qed.

Lemma exec_all_history_mono l w : cw_history w ⊆ cw_history (exec_all hex_encode l w).
Proof.
  revert w. induction l as [|s l IH]; intros w; [done|]. cbn.
  etransitivity; [apply exec_history_mono|apply IH].
Qed.

Lemma concluded_mono l w x :
  ac_concluded (cw_history w) x -> ac_concluded (cw_history (exec_all hex_encode l w)) x.
Proof. unfold ac_concluded. pose proof (exec_all_history_mono l w). set_solver. Qed.

Lemma world_inv_exec_all k l w :
  world_inv k w -> sections_ok hex_encode l w -> Z.of_nat (k + length l) < u64_max ->
  world_inv (k + length l) (exec_all hex_encode l w).
Proof.
  intros Hw Hok Hn. by eapply world_inv_nsteps; [..|apply exec_all_nsteps|].
Qed.

(** An instance that disappears from the table has been concluded. *)
Lemma gone_concluded n w x xt l :
  world_inv n w -> cs_active_xts (cw_state w) !! x = Some xt ->
  sections_ok hex_encode l w -> Z.of_nat (n + length l) < u64_max ->
  cs_active_xts (cw_state (exec_all hex_encode l w)) !! x = None ->
  ac_concluded (cw_history (exec_all hex_encode l w)) x.
Proof.
  intros Hw Hx Hok Hn Hgone. pose proof (world_inv_exec_all n l w Hw Hok Hn) as Hw'.
  assert (ac_open (cw_history w) x (ax_chains xt)) as [Hs _] by (apply (wi_open _ _ Hw); eauto).
  destruct (decide (EvTimedOut x ∈ cw_history (exec_all hex_encode l w))) as [?|HT]; [by left|].
  destruct (decide (EvDecided x true ∈ cw_history (exec_all hex_encode l w))) as [?|HC]; [right; eauto|].
  destruct (decide (EvDecided x false ∈ cw_history (exec_all hex_encode l w))) as [?|HA]; [right; eauto|].
  destruct (proj1 (wi_open _ _ Hw' x (ax_chains xt))) as (xt' & E & _); [|congruence].
  split; [by apply exec_all_history_mono|]. intros [?|[[] ?]]; done.
Qed.

(** Along a run an instance stays in the table, unmoved, or has been concluded. *)
Lemma under_way_or_concluded n w x xt l :
  world_inv n w -> cs_active_xts (cw_state w) !! x = Some xt ->
  sections_ok hex_encode l w -> Z.of_nat (n + length l) < u64_max ->
  ac_concluded (cw_history (exec_all hex_encode l w)) x \/
  exists xt', cs_active_xts (cw_state (exec_all hex_encode l w)) !! x = Some xt' /\
    ax_start_time xt' = ax_start_time xt /\ ax_instance_id_bytes xt' = ax_instance_id_bytes xt.
Proof.
  revert n w xt. induction l as [|s l IH]; intros n w xt Hw Hx Hok Hn; [right; eauto|].
  cbn in Hok, Hn. destruct Hok as [Hs Hl]. change (exec_all hex_encode (s :: l) w) with
    (exec_all hex_encode l (exec hex_encode s w)).
  assert (world_inv (S n) (exec hex_encode s w)) as Hw1 by (apply world_inv_exec; [done..|lia|done]).
  destruct (cs_active_xts (cw_state (exec hex_encode s w)) !! x) as [xt1|] eqn:E.
  - assert (Z.of_nat (S n) < u64_max) as Hn1 by lia.
    destruct (same_start_exec n w s Hw Hn1 Hs x xt xt1 Hx E) as [T1 T2].
    destruct (IH (S n) (exec hex_encode s w) xt1) as [?|(xt' & ? & ? & ?)]; [done..|lia|by left|].
    right. exists xt'. split_and!; congruence.
  - left. apply concluded_mono. apply (gone_concluded n w x xt [s]); [done..|by cbn|cbn; lia|done].
Qed.

Lemma concluded_sent n w x iid :
  world_inv n w -> ac_concluded (cw_history w) x -> x = InstanceId_to_string iid ->
  exists d, decided_message iid d ∈ cw_sent w.
Proof.
  intros Hw Hc ->. pose proof (wi_announced _ _ Hw) as Ha. rewrite Forall_forall in Ha.
  destruct Hc as [Hc|[d Hc]]; destruct (Ha _ Hc) as (iid' & E%InstanceId_to_string_inj & ?);
    subst; eauto.
Qed.

(** C9. Every instance is concluded by its deadline: whatever the coordinator does in between
    and afterwards, once a reaping has run at an instant when the instance is as old as the
    timeout, the instance is concluded. It is no longer in the table, it holds no lock, and
    a decision with its id has been broadcast. *)
Theorem deadline_concludes l l1 order now timeout l2 x xt :
  let later := l1 ++ SReap order now timeout :: l2 in
  sections_ok hex_encode (l ++ later) world_init ->
  Z.of_nat (length (l ++ later)) < u64_max ->
  let w := exec_all hex_encode l world_init in
  let w' := exec_all hex_encode later w in
  cs_active_xts (cw_state w) !! x = Some xt ->
  timeout <= duration_since now (ax_start_time xt) ->
  ac_concluded (cw_history w') x /\ cs_active_xts (cw_state w') !! x = None /\
  (forall c, cs_active_chains (cw_state w') !! c <> Some x) /\
  exists d, decided_message (ax_instance_id_bytes xt) d ∈ cw_sent w'.
Proof.
  intros later Hok Hn w w' Hx Hage. apply sections_ok_app in Hok as [Hok Hlater].
  rewrite length_app in Hn. fold w in Hlater.
  assert (world_inv (length l) w) as Hw.
  { apply (world_inv_exec_all 0); [apply world_inv_init|done|lia]. }
  assert (world_inv (length l + length later) w') as Hw' by by apply world_inv_exec_all.
  assert (ac_concluded (cw_history w') x) as Hc.
  { unfold w', later in *. rewrite exec_all_app. cbn [exec_all foldl].
    apply sections_ok_app in Hlater as [Hl1 [Hreap Hl2]]. rewrite length_app in Hn. cbn in Hn.
    apply (concluded_mono l2). set (w1 := exec_all hex_encode l1 w) in *.
    destruct (under_way_or_concluded (length l) w x xt l1) as [?|(xt1 & Hx1 & E1 & E2)];
      [done..|lia|by apply (concluded_mono [_])|].
    apply (gone_concluded (length l + length l1) w1 x xt1 [SReap order now timeout]);
      [apply world_inv_exec_all; [done..|lia]|done|by cbn|cbn; lia|].
    fold w1 in Hx1. clearbody w1. destruct w1 as [st1 h1 s1 b1]. cbn in Hx1. cbn -[reap_timed_out].
    pose proof (reap_timed_out_active order now st1 timeout x Hreap) as Hr.
    destruct (reap_timed_out order now st1 timeout) as [st2 out]. cbn in Hr |- *.
    rewrite Hr, Hx1. cbn. by rewrite E1, decide_True. }
  assert (cs_active_xts (cw_state w') !! x = None) as Hgone.
  { apply eq_None_not_Some. intros [xt' E].
    destruct (proj2 (wi_open _ _ Hw' x (ax_chains xt'))) as [_ ?]; [eauto|done]. }
  split_and!; [done|done| |].
  - intros c (xt' & E & _)%(ci_locks _ (wi_coord _ _ Hw')). congruence.
  - eapply (concluded_sent _ w' x); [done..|]. apply (ao_id _ _ (ci_xts _ (wi_coord _ _ Hw) _ _ Hx)).
Qed.

(** ** Timeouts *)

(** The instant a section that starts instances reads. *)
Definition start_instant (s : section) : option Instant :=
  match s with SAdmit now _ | SDrain now => Some now | _ => None end.

Lemma prepare_xt_origin now st req chains x xt :
  cs_active_xts (prepare_xt now st req chains).1 !! x = Some xt ->
  cs_active_xts st !! x = Some xt \/ ax_start_time xt = now.
Proof.
  rewrite prepare_xt_active, lookup_insert. case_decide; [|by left]. intros [= <-]. by right.
Qed.

(** An instance in the table was there before, started at the same instant, or was started
    by this section at the instant it read. *)
Lemma exec_origin s w x xt :
  coord_inv (cw_state w) -> cs_active_xts (cw_state (exec hex_encode s w)) !! x = Some xt ->
  (exists xt0, cs_active_xts (cw_state w) !! x = Some xt0 /\ ax_start_time xt0 = ax_start_time xt) \/
  start_instant s = Some (ax_start_time xt).
Proof.
  destruct w as [st h sent subs]. cbn [cw_state]. intros Hinv.
  destruct s; cbn -[admit_xt record_vote take_next_ready drain_one
    reap_timed_out reap_expired_proofs collect_proof Nat.ltb]; try (intros; left; by eauto).
  - unfold register_chain. destruct (cs_client_to_chain st !! client_id); left; eauto.
  - destruct (_ <? _)%nat; [left; eauto|]. unfold admit_xt. destruct (has_overlap st _).
    + destruct (MAX_PENDING_QUEUE_SIZE <=? _)%nat; left; eauto.
    + intros [?| <-]%prepare_xt_origin; [left; eauto|by right].
  - set (y := hex_encode instance_id_bytes). intros Hx. left.
    assert (cs_active_xts (record_vote now st y instance_id_bytes chain_id vote).1 !! x = Some xt) as Hx'
      by (by destruct (record_vote _ _ _ _ _ _) as [st' [[[? ?] ?]|]]). clear Hx.
    destruct (vote_counts st y chain_id) eqn:Hvc; [|rewrite record_vote_ignored in Hx'; eauto].
    destruct (cs_active_xts st !! y) as [yt|] eqn:Hy; [|by unfold vote_counts in Hvc; rewrite Hy in Hvc].
    rewrite (record_vote_counted _ _ _ yt), finish_with_vote in Hx' by done.
    destruct vote; [case_decide|]; cbn [fst] in Hx'; rewrite ?finish_xt_active in Hx';
      try (apply lookup_delete_Some in Hx' as [_ ?]; by eauto).
    cbn in Hx'. apply lookup_insert_Some in Hx' as [[<- <-]|[_ ?]]; [|eauto]. exists yt. done.
  - destruct (take_next_ready st) as [st0 [e|]] eqn:Ht; [|left; eauto].
    unfold drain_one. rewrite Ht. apply take_next_ready_Some in Ht as (l1 & l2 & _ & -> & _).
    intros [?| <-]%(prepare_xt_origin now (set_pending_queue (l1 ++ l2) st)); [left; eauto|by right].
  - unfold reap_timed_out. pose proof (reap_loop_active st (expired_xts order now st timeout) x) as Hr.
    destruct (reap_loop st _). cbn in *. rewrite Hr. case_decide; [done|]. left; eauto.
  - unfold reap_expired_proofs. destruct (cs_proof_collection_started st); [case_match|]; left; eauto.
  - pose proof (collect_proof_frame now st superblock_number chain_id data) as (E & _).
    destruct (collect_proof now st superblock_number chain_id data) as [st' [[? ?]|]];
      cbn in *; rewrite E; left; eauto.
Qed.

Lemma exec_all_origin l x xt :
  sections_ok hex_encode l world_init -> Z.of_nat (length l) < u64_max ->
  cs_active_xts (cw_state (exec_all hex_encode l world_init)) !! x = Some xt ->
  exists s, s ∈ l /\ start_instant s = Some (ax_start_time xt).
Proof.
  revert xt. induction l as [|s l IH] using rev_ind; intros xt Hok Hn; [done|].
  apply sections_ok_app in Hok as [Hok Hs]. rewrite length_app in Hn. cbn in Hn.
  assert (world_inv (0 + length l) (exec_all hex_encode l world_init)) as Hw
    by (apply world_inv_exec_all; [apply world_inv_init|done|lia]).
  rewrite exec_all_app. cbn.
  intros [(xt0 & Hx & <-)|E]%(exec_origin _ _ _ _ (wi_coord _ _ Hw)); [|exists s; set_solver].
  destruct (IH xt0) as (s0 & Hs0 & E); [done|lia|done|]. exists s0. set_solver.
Qed.

(** The section reaped the instance, which was as old as the timeout. *)
Definition reaped_by w (s : section) (x : string) : Prop :=
  exists order now timeout xt, s = SReap order now timeout /\
    cs_active_xts (cw_state w) !! x = Some xt /\ timeout <= duration_since now (ax_start_time xt).

Lemma exec_timed_out s w x :
  section_ok w s -> EvTimedOut x ∈ cw_history (exec hex_encode s w) ->
  EvTimedOut x ∈ cw_history w \/ reaped_by w s x.
Proof.
  destruct w as [st h sent subs], s; cbn -[admit_xt drain_one take_next_ready record_vote
    reap_timed_out reap_expired_proofs collect_proof Nat.ltb]; intros Hok; try (by left).
  - destruct (_ <? _)%nat; [by left|]. destruct (admit_xt _ _ _ _) as [st' []]; cbn; set_solver.
  - unfold vote_events. destruct (record_vote _ _ _ _ _ _) as [st' [[[d l] m]|]];
      destruct (vote_counts _ _ _); cbn; set_solver.
  - destruct (take_next_ready st) as [st0 [e|]]; [|by left].
    destruct (drain_one now st) as [[st' d]|]; cbn; set_solver.
  - unfold reap_timed_out. pose proof (reap_loop_messages st (expired_xts order now st timeout)) as Hm.
    destruct (reap_loop st _) as [st' out]. cbn in *.
    rewrite elem_of_app, elem_of_reverse. intros [(y & [= <-] & Hy)%list_elem_of_fmap|?]; [right|by left].
    rewrite Hm in Hy.
    + rewrite <- list_fmap_compose in Hy. unfold compose in Hy. cbn in Hy. rewrite list_fmap_id in Hy.
      apply elem_of_expired_xts in Hy as (xt & Hx & Ht); [|done]. by exists order, now, timeout, xt.
    + by apply NoDup_expired_xts.
    + apply Forall_forall. intros z (xt & Hx & _)%elem_of_expired_xts; eauto.
  - destruct (collect_proof _ _ _ _ _) as [st' [[n proofs]|]]; by left.
Qed.

Lemma exec_all_timed_out l w x :
  sections_ok hex_encode l w -> EvTimedOut x ∈ cw_history (exec_all hex_encode l w) ->
  EvTimedOut x ∈ cw_history w \/
  exists l1 s l2, l = l1 ++ s :: l2 /\ reaped_by (exec_all hex_encode l1 w) s x.
Proof.
  revert w. induction l as [|s l IH]; intros w Hok Hin; [by left|]. destruct Hok as [Hs Hok].
  destruct (IH _ Hok Hin) as [Ht|(l1 & s' & l2 & -> & Hr)]; [|right; by exists (s :: l1), s', l2].
  apply exec_timed_out in Ht as [?|Hr]; [by left| |done]. right. by exists [], s, l.
Qed.

(** C11. Validity of aborts: when a sidecar decodes [Decided { instance_id, false }], the
    instance was announced, and there is a cause. Either a chain of its request cast the
    vote no and the vote was counted; or a reaping ran at an instant when the instance was
    under way and at least as old as the timeout, its age counted from the instant read by
    the section that started it. *)
Theorem abort_has_cause `{!ProstRoundtrip} l iid :
  sections_ok hex_encode l world_init -> Z.of_nat (length l) < u64_max ->
  let w := exec_all hex_encode l world_init in
  decision_sent w iid false ->
  let x := InstanceId_to_string iid in
  exists req, instance_sent w iid req /\
    ((exists c now, c ∈ extract_chains req /\ SVote now iid c false ∈ l /\
        EvVoted x c false ∈ cw_history w) \/
     (exists l1 order now timeout l2 xt s, l = l1 ++ SReap order now timeout :: l2 /\
        cs_active_xts (cw_state (exec_all hex_encode l1 world_init)) !! x = Some xt /\
        timeout <= duration_since now (ax_start_time xt) /\
        s ∈ l1 /\ start_instant s = Some (ax_start_time xt))).
Proof.
  intros Hok Hn w Hd x.
  assert (reachable hex_encode w) as Hr by by apply exec_all_reachable.
  destruct (abort_cause hex_encode Hhex w iid Hr Hd) as (req & Hreq & Hc). exists req. split; [done|].
  destruct Hc as [Ht|(c & Hc & Hv)]; [right|left].
  - apply exec_all_timed_out in Ht as [?%elem_of_nil|(l1 & s & l2 & -> & Hre)]; [done| |done].
    destruct Hre as (order & now & timeout & xt & -> & Hx & Hage).
    apply sections_ok_app in Hok as [Hok _]. rewrite length_app in Hn.
    destruct (exec_all_origin l1 x xt Hok ltac:(lia) Hx) as (s & Hs & Hstart).
    by exists l1, order, now, timeout, l2, xt, s.
  - exists c. pose proof Hv as [?%elem_of_nil|(now & iid' & Hin & Hx)]%exec_all_votes; [done|]. exists now. rewrite Hhex in Hx. apply InstanceId_to_string_inj in Hx as <-. done.
Qed.

End deadlines.

(** ** Sizes *)

Section sizes.
Context `{Sha2, ProstMessage, Requests, !InstanceIdsDistinct}.
Context (hex_encode : bytes -> string) (Hhex : forall l, hex_encode l = hex_string l).

(** The participants of all instances under way. *)
Definition participants (xts : gmap string ActiveXt) : list ChainId :=
  map_to_list xts ≫= fun kv => ax_chains kv.2.

Lemma participants_locked st :
  coord_inv st ->
  NoDup (participants (cs_active_xts st)) /\
  list_to_set (participants (cs_active_xts st)) =@{gset Z} dom (cs_active_chains st).
Proof.
  intros Hinv. pose proof (ci_locks _ Hinv) as HL. split.
  - apply NoDup_bind.
    + intros [x xt] [y yt] c Hx%elem_of_map_to_list Hy%elem_of_map_to_list Hc Hc'. cbn in *.
      assert (cs_active_chains st !! c = Some x) by (apply HL; eauto).
      assert (cs_active_chains st !! c = Some y) by (apply HL; eauto). congruence.
    + intros [x xt] Hx%elem_of_map_to_list. apply (ao_nodup _ _ (ci_xts _ Hinv _ _ Hx)).
    + apply NoDup_map_to_list.
  - apply set_eq. intros c. rewrite elem_of_list_to_set, elem_of_dom. unfold participants.
    rewrite list_elem_of_bind. split.
    + intros ([x xt] & Hc & Hx%elem_of_map_to_list). exists x. apply HL. eauto.
    + intros [x (xt & Hx & Hc)%HL]. exists (x, xt). by rewrite elem_of_map_to_list.
Qed.

Lemma participants_length xts :
  (forall x xt, xts !! x = Some xt -> (2 <= length (ax_chains xt))%nat) ->
  (2 * size xts <= length (participants xts))%nat.
Proof.
  intros Hall. unfold participants. rewrite <- length_map_to_list.
  assert (Forall (fun kv : string * ActiveXt => (2 <= length (ax_chains kv.2))%nat) (map_to_list xts)) as HF.
  { apply Forall_forall. intros [x xt] Hx%elem_of_map_to_list. by apply (Hall x). }
  induction HF as [|kv l Hkv HF IH]; cbn [length mbind list_bind]; [lia|].
  rewrite length_app. lia.
Qed.

(** C17. Sizes are bounded and exact in every run: each locked chain is counted once among the
    participants, so there are at most half as many instances as locked chains; a queued
    request waits in a queue of at most 100; the period and the sequence counter have not
    wrapped: they are at most the number of critical sections executed. *)
Theorem coordinator_sizes_bounded n w :
  nsteps (coord_step hex_encode) n world_init w -> Z.of_nat n < u64_max ->
  let st := cw_state w in
  size (cs_active_chains st) = length (participants (cs_active_xts st)) /\
  (2 * size (cs_active_xts st) <= size (cs_active_chains st))%nat /\
  (length (cs_pending_queue st) <= MAX_PENDING_QUEUE_SIZE)%nat /\
  0 <= cs_current_period_id st <= Z.of_nat n /\
  1 <= cs_next_sequence_num st <= Z.of_nat n + 1 /\
  u64_ok (cs_next_superblock_number st).
Proof.
  intros Hsteps Hn st.
  assert (world_inv n w) as Hw.
  { apply (world_inv_nsteps hex_encode Hhex n world_init w 0); [apply world_inv_init|done..]. }
  pose proof (wi_coord _ _ Hw) as Hinv. fold st in Hinv.
  destruct (participants_locked st Hinv) as [Hnd Hdom].
  assert (size (cs_active_chains st) = length (participants (cs_active_xts st))) as Hsz.
  { by rewrite <- size_dom, <- Hdom, size_list_to_set. }
  split; [done|]. split.
  { rewrite Hsz. apply participants_length. intros x xt Hx.
    apply (ao_two _ _ (ci_xts _ Hinv _ _ Hx)). }
  split; [apply (ci_queue _ Hinv)|]. split; [apply (wi_period _ _ Hw)|].
  split; [apply (wi_seq _ _ Hw)|]. rewrite (ci_superblock _ Hinv). auto with u64.
Qed.

End sizes.

(** ** Closed instances *)

#[local] Existing Instances prefix_sha256 all_requests prefix_sha256_ids prost_codec prost_codec_laws.

Lemma deadline_concludes_witness :
  let w := exec_all hex_string (take 5 demo_sections) world_init in
  let w' := exec_all hex_string ([SPeriod] ++ SReap map_to_list 30 25 :: [SDrain 31]) w in
  let x := InstanceId_to_string (demo_id 1) in
  ac_concluded (cw_history w') x /\ cs_active_xts (cw_state w') !! x = None /\
  (forall c, cs_active_chains (cw_state w') !! c <> Some x) /\
  exists d, decided_message (demo_id 1) d ∈ cw_sent w'.
Proof.
  apply (deadline_concludes hex_string (fun _ => eq_refl) (take 5 demo_sections) [SPeriod] map_to_list
    30 25 [SDrain 31] (InstanceId_to_string (demo_id 1)) demo_xt).
  - cbn [app take demo_sections sections_ok section_ok].
    split_and!; try done; first [by intros m|by_compute].
  - by_compute.
  - apply demo_started_active.
  - by_compute.
Defined.

(** The first instance of the run, left without votes, is reaped. *)
Lemma abort_has_cause_witness :
  let l := take 5 demo_sections ++ [SPeriod; SReap map_to_list 30 25] in
  exists req, instance_sent (exec_all hex_string l world_init) (demo_id 1) req /\
    ((exists c now, c ∈ extract_chains req /\ SVote now (demo_id 1) c false ∈ l /\
        EvVoted (InstanceId_to_string (demo_id 1)) c false ∈ cw_history (exec_all hex_string l world_init)) \/
     exists l1 order now timeout l2 xt s, l = l1 ++ SReap order now timeout :: l2 /\
       cs_active_xts (cw_state (exec_all hex_string l1 world_init)) !! InstanceId_to_string (demo_id 1) = Some xt /\
       timeout <= duration_since now (ax_start_time xt) /\
       s ∈ l1 /\ start_instant s = Some (ax_start_time xt)).
Proof.
  apply (abort_has_cause hex_string (fun _ => eq_refl)
    (take 5 demo_sections ++ [SPeriod; SReap map_to_list 30 25]) (demo_id 1)).
  - cbn [app take demo_sections sections_ok section_ok].
    split_and!; try done; first [by intros m|by_compute].
  - by_compute.
  - exists (decided_message (demo_id 1) false). split; [by_compute|].
    apply prost_decode_encode. split; [reflexivity|by_compute].
Defined.

Lemma coordinator_sizes_bounded_witness :
  let st := cw_state demo_half_world in
  size (cs_active_chains st) = 2%nat /\ (2 * size (cs_active_xts st) <= size (cs_active_chains st))%nat.
Proof.
  split; [vm_compute; reflexivity|].
  assert (nsteps (coord_step hex_string) 5 world_init demo_half_world) as Hs.
  { apply (exec_all_nsteps hex_string (take 5 demo_sections)).
    cbn [take demo_sections sections_ok section_ok]. split_and!; try done; by_compute. }
  refine (proj1 (proj2 (coordinator_sizes_bounded hex_string (fun _ => eq_refl) 5 demo_half_world Hs _))).
  by_compute.
Defined.
