(* ===== verification/CoordSbcp.v ===== *)
(** * The coordinator as an implementation of the SBCP publisher

    The service and the reference state machine of [crates/spec-sbcp] are separate code:
    [coordinator.rs] never calls [publisher.rs]. This file relates them. [tracks] compares
    the states (period, sequence counter, chains in use); admission of a request is shown
    equivalent to [Publisher::start_instance]; and every run of the coordinator's critical
    sections is matched by a run of the SBCP publisher that starts, with the same ids and
    numbers, and decides the same instances. *)
From Stdlib Require Import ZArith Lia.
From S2P Require Import Prelude Spec InstanceIdGen Messages Protobuf SbcpPublisher CoordState Coordinator.
From S2P Require Import AtomicCommit CoordInv CoordRefinement CoordProps.

(** ** The same request, seen by both halves *)

Lemma proto_to_spec_xt_convert req : proto_to_spec_xt req = XtRequest_from_proto req.
Proof. done. Qed.

Lemma extract_chains_spec req : extract_chains req = chains_from_request (proto_to_spec_xt req).
Proof.
  rewrite extract_chains_first_occurrences, chains_from_request_first_occurrences. cbn.
  by rewrite <- list_fmap_compose.
Qed.

Lemma extract_chains_length req :
  (length (extract_chains req) <= length (xt_transactions (proto_to_spec_xt req)))%nat.
Proof.
  rewrite extract_chains_first_occurrences. cbn. rewrite length_fmap.
  etransitivity; [apply length_first_occurrences|]. by rewrite length_fmap.
Qed.

(** ** Related states *)

Record tracks (st : CoordinatorState) (ps : PublisherState) : Prop := {
  tr_period : ps_period_id ps = cs_current_period_id st;
  tr_sequence : cs_next_sequence_num st = ps_sequence_number ps +! 1;
  tr_active : ps_active_chains ps = (fun _ => true) <$> cs_active_chains st;
}.

(** The message that announces an instance. *)
Definition start_message (i : Instance_) : Proto.Message :=
  publisher_message (Proto.PStartInstance (Instance_to_start_instance i)).

Section agree.
Context `{Sha2, ProstMessage}.
Implicit Types (st : CoordinatorState) (ps : PublisherState).

(** The instance the coordinator starts next for a request. *)
Definition next_instance st (req : Proto.XtRequest) : Instance_ :=
  mk_Instance (next_instance_id st req) (cs_current_period_id st) (cs_next_sequence_num st)
    (proto_to_spec_xt req).

Lemma start_message_next st req : start_instance_message st req = start_message (next_instance st req).
Proof.
  unfold start_message, next_instance, Instance_to_start_instance. cbn.
  by rewrite proto_to_spec_xt_convert, XtRequest_spec_roundtrip.
Qed.

Lemma overlap_agrees st ps chains :
  tracks st ps -> any_chain_already_active (ps_active_chains ps) chains = has_overlap st chains.
Proof.
  intros [_ _ Ha]. unfold any_chain_already_active, has_overlap. rewrite Ha.
  induction chains as [|c l IH]; [done|]. cbn [existsb]. rewrite IH, lookup_fmap. f_equal.
  by destruct (cs_active_chains st !! c).
Qed.

(** Reserving the chains of an instance, on both sides. *)
Lemma tracks_prepare st ps now req ps' :
  tracks st ps -> 
  ps' = ps_set_active_chains
          (foldl (fun m c => <[c := true]> m) (ps_active_chains ps) (extract_chains req))
          (ps_set_sequence_number (ps_sequence_number ps +! 1) ps) ->
  tracks (prepare_xt now st req (extract_chains req)).1 ps'.
Proof.
  intros [Hp Hs Ha] ->. split; cbn; [done|by rewrite Hs|].
  apply map_eq. intros c. rewrite lookup_foldl_insert, lookup_fmap.
  change (cs_active_chains (reserve_chains ?s ?x ?l)) with
    (foldl (fun m c => <[c := x]> m) (cs_active_chains s) l).
  rewrite lookup_foldl_insert, Ha, lookup_fmap. cbn. by case_decide.
Qed.

Lemma start_instance_agrees st ps req :
  tracks st ps -> (2 <= length (extract_chains req))%nat ->
  start_instance ps (proto_to_spec_xt req) =
    if has_overlap st (extract_chains req) then (ps, Err CannotStartInstance)
    else (ps_set_active_chains
            (foldl (fun m c => <[c := true]> m) (ps_active_chains ps) (extract_chains req))
            (ps_set_sequence_number (ps_sequence_number ps +! 1) ps),
          Ok (next_instance st req)).
Proof.
  intros Ht Hlen. pose proof (extract_chains_length req). unfold start_instance.
  rewrite (proj2 (Nat.ltb_ge _ _)) by lia. cbn zeta. rewrite <- extract_chains_spec.
  rewrite (overlap_agrees st) by done. case_match; [done|]. destruct Ht as [Hp Hs _].
  unfold next_instance, next_instance_id. by rewrite Hs, Hp.
Qed.

(** C19. Admission agrees with the reference: in related states, a request over at least two
    chains is started by the coordinator exactly when [Publisher::start_instance] starts it;
    the message broadcast is then the [StartInstance] of the very instance the reference
    returns, which a sidecar converts back to that instance, and the states stay related.
    When the reference refuses, it is because a chain is in use, and the coordinator only
    queues or drops the request: locks, counters and instances are untouched. *)
Theorem admission_agrees_with_sbcp `{!Sha2Digest} st ps now req :
  tracks st ps -> (2 <= length (extract_chains req))%nat ->
  let '(st', outcome) := admit_xt now st req (extract_chains req) in
  let '(ps', r) := start_instance ps (proto_to_spec_xt req) in
  match r with
  | Ok i =>
      outcome = Started (encode_to_vec (start_message i)) /\ tracks st' ps' /\
      Instance_try_from_start_instance (Instance_to_start_instance i) = Ok i
  | Err e =>
      e = CannotStartInstance /\ ps' = ps /\ (outcome = Queued \/ outcome = Rejected_queue_full) /\
      exists q, st' = set_pending_queue q st
  end.
Proof.
  intros Ht Hlen. rewrite (start_instance_agrees st) by done. unfold admit_xt.
  destruct (has_overlap st (extract_chains req)).
  - destruct (MAX_PENDING_QUEUE_SIZE <=? _)%nat; split_and!; try done; [auto| |auto|by eexists].
    exists (cs_pending_queue st). by destruct st.
  - pose proof (prepare_xt_result now st req (extract_chains req)) as Hres.
    pose proof (tracks_prepare st ps now req _ Ht eq_refl) as Ht'.
    destruct (prepare_xt now st req (extract_chains req)) as [st' [x data]]. cbn in Hres.
    injection Hres as -> ->. split_and!; [by rewrite start_message_next|done|].
    rewrite start_instance_roundtrip, decide_True; [done|]. apply sha256_length.
Qed.

End agree.

(** ** Runs *)

Section simulation.
Context `{Sha2, ProstMessage, Requests}.
Context (values : gmap Z bytes -> list bytes).
Implicit Types (st : CoordinatorState) (sent : list bytes) (pw : pub_world).

(** The publisher's live instances are the coordinator's transactions under way, and each
    was announced by its own start message. *)
Record sbcp_sim st sent pw : Prop := {
  sim_tracks : tracks st (pw_state pw);
  sim_window : ps_proof_window (pw_state pw) = 0;
  sim_ids : NoDup (inst_id <$> pw_live pw);
  sim_live i : i ∈ pw_live pw ->
    exists xt, cs_active_xts st !! InstanceId_to_string (inst_id i) = Some xt /\
      ax_chains xt = Instance_chains i;
  sim_xts x xt : cs_active_xts st !! x = Some xt ->
    exists i, i ∈ pw_live pw /\ InstanceId_to_string (inst_id i) = x;
  sim_sent i : i ∈ pw_live pw -> encode_to_vec (start_message i) ∈ sent;
}.

(** Sections that neither lock nor release. *)
Lemma sim_quiet st st' sent sent' pw :
  sbcp_sim st sent pw -> sent ⊆ sent' ->
  cs_current_period_id st' = cs_current_period_id st ->
  cs_next_sequence_num st' = cs_next_sequence_num st ->
  cs_active_chains st' = cs_active_chains st ->
  (forall x, ax_chains <$> cs_active_xts st' !! x = ax_chains <$> cs_active_xts st !! x) ->
  sbcp_sim st' sent' pw.
Proof.
  intros [[T1 T2 T3] S2 S3 S4 S5 S6] Hsub Hp Hs Hc Hx. split; auto.
  - split; congruence.
  - intros i Hi. destruct (S4 i Hi) as (xt & E & <-).
    specialize (Hx (InstanceId_to_string (inst_id i))). rewrite E in Hx.
    destruct (cs_active_xts st' !! _) as [xt'|]; [|done]. exists xt'. split; [done|].
    by injection Hx.
  - intros x xt E. specialize (Hx x). rewrite E in Hx.
    destruct (cs_active_xts st !! x) as [xt'|] eqn:E'; [|done]. by apply (S5 x xt').
Qed.

Lemma sim_period st sent pw data :
  sbcp_sim st sent pw ->
  exists pw', pub_step_due values pw pw' /\ sbcp_sim (next_period st) (data :: sent) pw'.
Proof.
  intros [[T1 T2 T3] S2 S3 S4 S5 S6].
  destruct (start_period (pw_state pw)) as [[ps evs] r] eqn:E.
  eexists. split; [by eapply step_start_period|]. revert E. unfold start_period.
  rewrite S2. cbn [negb andb Z.eqb]. intros [= <- <- <-].
  split; cbn; try done; [|set_solver]. split; cbn; [by rewrite T1|done|done].
Qed.

(** A start on free chains is a successful [start_instance]. *)
Lemma sim_start st sent pw now req q :
  sbcp_sim st sent pw -> (2 <= length (extract_chains req))%nat ->
  has_overlap st (extract_chains req) = false -> cs_active_xts st !! next_xt_id st req = None ->
  exists pw', pub_step_due values pw pw' /\
    sbcp_sim (prepare_xt now (set_pending_queue q st) req (extract_chains req)).1
      (encode_to_vec (start_instance_message st req) :: sent) pw'.
Proof.
  intros [T S2 S3 S4 S5 S6] Hlen Hfree Hnew.
  pose proof (start_instance_agrees st (pw_state pw) req T Hlen) as E. rewrite Hfree in E.
  eexists. split; [by eapply step_start_instance|]. set (i := next_instance st req).
  split; cbn [pw_state pw_live].
  - apply (tracks_prepare _ (pw_state pw)); [|done]. by destruct T.
  - done.
  - rewrite fmap_cons. apply NoDup_cons. split; [|done].
    intros (j & Hj & Hin)%list_elem_of_fmap. destruct (S4 j Hin) as (xt & E' & _).
    rewrite <- Hj in E'. change (cs_active_xts st !! next_xt_id st req = Some xt) in E'. congruence.
  - rewrite prepare_xt_active. change (next_xt_id (set_pending_queue q st) req) with (next_xt_id st req).
    intros j [->|Hj]%elem_of_cons.
    + eexists. split; [apply lookup_insert_eq|]. apply extract_chains_spec.
    + destruct (S4 j Hj) as (xt & E' & Hc). exists xt. split; [|done].
      rewrite lookup_insert_ne; [done|]. congruence.
  - rewrite prepare_xt_active. change (next_xt_id (set_pending_queue q st) req) with (next_xt_id st req).
    intros x xt. rewrite lookup_insert. case_decide as Hx.
    + intros _. exists i. split; [set_solver|done].
    + intros (j & Hj & ?)%S5. exists j. split; [set_solver|done].
  - intros j [->|Hj]%elem_of_cons; [|set_solver]. rewrite start_message_next. set_solver.
Qed.

(** Concluding a transaction is a successful [decide_instance]. *)
Lemma sim_finish st sent pw x xt data :
  coord_inv st -> sbcp_sim st sent pw -> exclusive (pw_state pw) (pw_live pw) ->
  cs_active_xts st !! x = Some xt ->
  exists pw', pub_step_due values pw pw' /\ sbcp_sim (finish_xt st x) (data :: sent) pw'.
Proof.
  intros Hinv [[T1 T2 T3] S2 S3 S4 S5 S6] Hex Hx.
  destruct (S5 x xt Hx) as (i & Hi & <-).
  destruct (S4 i Hi) as (xt' & Hx' & Hch). rewrite Hx in Hx'. injection Hx' as <-.
  apply list_elem_of_split in Hi as (l1 & l2 & Hl). rewrite Hl in *.
  eexists. split; [eapply step_decide_instance; [done|by eapply decide_live_ok]|].
  assert (forall j, j ∈ l1 ++ l2 -> j ∈ l1 ++ i :: l2 /\ inst_id j <> inst_id i) as Hother.
  { intros j Hj. split; [set_solver|]. rewrite fmap_app, fmap_cons in S3.
    assert (inst_id i ∉ (inst_id <$> (l1 ++ l2))) as Hn.
    { rewrite fmap_app. rewrite <- Permutation_middle, NoDup_cons in S3. apply S3. }
    intros E. apply Hn. rewrite <- E. by apply list_elem_of_fmap_2. }
  split; cbn [pw_state pw_live].
  - split; cbn; unfold finish_xt, release_chains; rewrite Hx; cbn; [done..|].
    apply map_eq. intros c. rewrite lookup_foldl_delete, lookup_fmap, lookup_foldl_delete_if.
    rewrite T3, lookup_fmap, Hch. repeat case_decide; try done; [|tauto].
    assert (cs_active_chains st !! c = Some (InstanceId_to_string (inst_id i))); [|tauto].
    apply (ci_locks _ Hinv). exists xt. by rewrite Hch.
  - done.
  - rewrite fmap_app in *. rewrite fmap_cons, <- Permutation_middle, NoDup_cons in S3. apply S3.
  - intros j Hj. destruct (Hother j Hj) as [Hin Hne]. destruct (S4 j Hin) as (yt & E & Hc).
    exists yt. rewrite finish_xt_active, lookup_delete_ne; [done|].
    intros E'%InstanceId_to_string_inj. congruence.
  - intros y yt. rewrite finish_xt_active, lookup_delete. case_decide; [done|].
    intros (j & Hj & <-)%S5. exists j. split; [|done].
    assert (j <> i) by congruence. set_solver.
  - intros j Hj. destruct (Hother j Hj) as [Hin _]. set_solver.
Qed.

Lemma sim_reap_loop st sent pw l :
  coord_inv st -> sbcp_sim st sent pw -> exclusive (pw_state pw) (pw_live pw) ->
  NoDup l -> Forall (fun x => is_Some (cs_active_xts st !! x)) l ->
  exists pw', rtc (pub_step_due values) pw pw' /\
    sbcp_sim (reap_loop st l).1 (reverse (reap_loop st l).2.*2 ++ sent) pw'.
Proof.
  revert st sent pw. induction l as [|x l IH]; intros st sent pw Hinv Hsim Hex; [by exists pw|].
  rewrite NoDup_cons, Forall_cons. intros [Hx Hnd] [[xt Hxt] Hl]. cbn [reap_loop]. rewrite Hxt.
  destruct (sim_finish st sent pw x xt (decided_message (ax_instance_id_bytes xt) false))
    as (pw1 & Hstep & Hsim1); [done..|].
  destruct (IH (finish_xt st x) (decided_message (ax_instance_id_bytes xt) false :: sent) pw1)
    as (pw2 & Hsteps & Hsim2); [by apply coord_inv_finish|done|by eapply pub_step_exclusive|done| |].
  - rewrite Forall_forall in *. intros y Hy. rewrite finish_xt_active, lookup_delete_ne; [by apply Hl|].
    by intros ->.
  - exists pw2. split; [by eapply rtc_l|]. destruct (reap_loop (finish_xt st x) l) as [st' rs].
    cbn [fst snd] in *. by rewrite fmap_cons, reverse_cons, <- app_assoc.
Qed.

Context (hex_encode : bytes -> string).

Lemma sim_SVote n w pw now iid c v :
  world_inv n w -> sbcp_sim (cw_state w) (cw_sent w) pw ->
  exclusive (pw_state pw) (pw_live pw) ->
  let w' := exec hex_encode (SVote now iid c v) w in
  exists pw', rtc (pub_step_due values) pw pw' /\ sbcp_sim (cw_state w') (cw_sent w') pw'.
Proof.
  destruct w as [st h sent subs]. intros Hw Hsim Hex. cbn -[record_vote].
  pose proof (wi_coord _ _ Hw) as Hinv. cbn in Hinv, Hsim. set (x := hex_encode iid).
  destruct (vote_counts st x c) eqn:Hvc; [|rewrite record_vote_ignored by done; by exists pw].
  assert (exists xt, cs_active_xts st !! x = Some xt) as [xt Hx].
  { unfold vote_counts in Hvc. destruct (cs_active_xts st !! x); [eauto|done]. }
  rewrite (record_vote_counted _ _ _ xt) by done.
  assert (forall data, exists pw', rtc (pub_step_due values) pw pw' /\
    sbcp_sim (finish_xt (with_vote st x c v xt) x) (data :: sent) pw') as Hfin.
  { intros data. rewrite finish_with_vote by done.
    destruct (sim_finish st sent pw x xt data) as (pw' & Hs & ?); [done..|].
    exists pw'. split; [by apply rtc_once|done]. }
  destruct v; [case_decide|]; [apply Hfin| |apply Hfin].
  exists pw. split; [done|]. eapply (sim_quiet st); [done..|]. intros y. cbn. rewrite lookup_insert.
  case_decide; [|done]. subst y. by rewrite Hx.
Qed.

(** A start in the world: the new id is unused. *)
Lemma sim_started `{!InstanceIdsDistinct} n st h sent subs pw now req q :
  world_inv n (mk_world st h sent subs) -> Z.of_nat (S n) < u64_max ->
  sbcp_sim st sent pw -> admissible req -> (2 <= length (extract_chains req))%nat ->
  has_overlap st (extract_chains req) = false ->
  exists pw', rtc (pub_step_due values) pw pw' /\
    sbcp_sim (prepare_xt now (set_pending_queue q st) req (extract_chains req)).1
      (encode_to_vec (start_instance_message st req) :: sent) pw'.
Proof.
  intros Hw Hn Hsim Hreq Hlen Hfree.
  destruct (sim_start st sent pw now req q) as (pw' & Hs & Hsim'); [done..| |].
  - destruct (cs_active_xts st !! next_xt_id st req) as [xt|] eqn:E; [|done].
    destruct (proj2 (wi_open _ _ Hw (next_xt_id st req) (ax_chains xt))) as [Hst _]; [eauto|].
    by apply (wi_used _ _ Hw) in Hst as ?%(next_xt_id_fresh n _ req Hw Hn Hreq).
  - exists pw'. split; [by apply rtc_once|done].
Qed.

Lemma sim_exec `{!InstanceIdsDistinct} n w s pw :
  world_inv n w -> Z.of_nat (S n) < u64_max -> section_ok w s ->
  sbcp_sim (cw_state w) (cw_sent w) pw -> exclusive (pw_state pw) (pw_live pw) ->
  let w' := exec hex_encode s w in
  exists pw', rtc (pub_step_due values) pw pw' /\ sbcp_sim (cw_state w') (cw_sent w') pw'.
Proof.
  intros Hw Hn Hok Hsim Hex. pose proof (wi_coord _ _ Hw) as Hinv.
  pose proof (wi_queue _ _ Hw) as Hq.
  destruct s; cbn in Hok; eauto using sim_SVote; destruct w as [st h sent subs]; cbn in * |-.
  - exists pw. split; [done|]. cbn. unfold register_chain.
    destruct (cs_client_to_chain st !! client_id); by eapply (sim_quiet st).
  - exists pw. split; [done|]. by eapply (sim_quiet st).
  - destruct (sim_period st sent pw (start_period_message (next_period st))) as (pw' & Hs & ?); [done|].
    exists pw'. split; [by apply rtc_once|done].
  - cbn -[Nat.ltb admit_xt]. destruct (Nat.ltb_spec (length (extract_chains req)) 2); [by exists pw|].
    unfold admit_xt. destruct (has_overlap st (extract_chains req)) eqn:Ho.
    + exists pw. split; [done|].
      destruct (MAX_PENDING_QUEUE_SIZE <=? _)%nat; by eapply (sim_quiet st).
    + assert (set_pending_queue (cs_pending_queue st) st = st) as Hst by by destruct st.
      pose proof (sim_started n st h sent subs pw now req (cs_pending_queue st)) as Hstart.
      rewrite Hst in Hstart. by apply Hstart.
  - cbn -[drain_one]. destruct (take_next_ready st) as [st0 [e|]] eqn:Ht; [|by exists pw].
    unfold drain_one. rewrite Ht.
    apply take_next_ready_Some in Ht as (l1 & l2 & Hl & -> & Hfree & _).
    destruct (coord_inv_dequeue st l1 l2 e) as [[Hec Hlen] _]; [done..|].
    rewrite Hl, Forall_app, Forall_cons in Hq. destruct Hq as (_ & Hreq & _).
    rewrite Hec in *. by eapply sim_started.
  - cbn -[reap_timed_out]. unfold reap_timed_out.
    pose proof (sim_reap_loop st sent pw (expired_xts order now st timeout) Hinv Hsim Hex) as Hr.
    destruct (reap_loop st _) as [st' out]. apply Hr; [by apply NoDup_expired_xts|].
    apply Forall_forall. intros x (xt & Hx & _)%elem_of_expired_xts; eauto.
  - exists pw. split; [done|]. cbn. unfold reap_expired_proofs.
    destruct (cs_proof_collection_started st); [case_match|]; by eapply (sim_quiet st).
  - exists pw. split; [done|]. eapply (sim_quiet st); try done. set_solver.
  - exists pw. split; [done|]. cbn -[andb]. unfold collect_proof.
    destruct ((0 <? _)%nat && _); by eapply (sim_quiet st).
  - exists pw. split; [done|]. by eapply (sim_quiet st).
  - by exists pw.
Qed.

Context (Hhex : forall l, hex_encode l = hex_string l).

Lemma sim_nsteps `{!InstanceIdsDistinct} n w w' k pw :
  world_inv k w -> nsteps (coord_step hex_encode) n w w' -> Z.of_nat (k + n) < u64_max ->
  sbcp_sim (cw_state w) (cw_sent w) pw -> exclusive (pw_state pw) (pw_live pw) ->
  exists pw', rtc (pub_step_due values) pw pw' /\ sbcp_sim (cw_state w') (cw_sent w') pw'.
Proof.
  intros Hw Hsteps. revert k pw Hw.
  induction Hsteps as [w|n w1 w2 w3 (s & Hok & <-) Hsteps IH]; intros k pw Hw Hn Hsim Hex.
  - by exists pw.
  - destruct (sim_exec k w1 s pw) as (pw1 & Hr1 & Hsim1); [done|lia|done..|].
    destruct (IH (S k) pw1) as (pw2 & Hr2 & Hsim2);
      [apply world_inv_exec; [done..|lia|done]|lia|done| |].
    + clear -Hr1 Hex. induction Hr1; [done|]. eauto using pub_step_exclusive.
    + exists pw2. split; [by transitivity pw1|done].
Qed.

Lemma sim_initial pub0 :
  pub_initial pub0 -> ps_period_id (pw_state pub0) = 0 -> ps_proof_window (pw_state pub0) = 0 ->
  sbcp_sim CoordinatorState_new [] pub0.
Proof.
  intros [(p & t & f & h & win & cs & E) [Hlive _]]. apply new_Ok in E as [_ E].
  destruct pub0 as [ps live infl tr]. cbn in *. subst. cbn. intros -> ->.
  split; cbn; try done; [constructor|by intros i ?%not_elem_of_nil..].
Qed.

(** C4. The service implements the reference protocol: for every run of the coordinator
    there is a run of the SBCP publisher (from its initial state, with the proof window
    disabled) after which the two agree. They are in the same period, give the next instance
    the same number, have the same chains in use; the publisher's live instances are exactly
    the coordinator's transactions under way, chain for chain, and each was broadcast as the
    [StartInstance] message of that instance. *)
Theorem coordinator_implements_sbcp `{!InstanceIdsDistinct} w pub0 :
  reachable hex_encode w -> pub_initial pub0 ->
  ps_period_id (pw_state pub0) = 0 -> ps_proof_window (pw_state pub0) = 0 ->
  exists pub, rtc (pub_step_due values) pub0 pub /\ sbcp_sim (cw_state w) (cw_sent w) pub.
Proof.
  intros (n & Hn & Hsteps) Hpub Hp Hw.
  apply (sim_nsteps n world_init w 0); [apply world_inv_init|done..| |].
  - by apply sim_initial.
  - by apply pub_initial_exclusive.
Qed.

End simulation.

(** ** Closed instances *)

#[local] Existing Instances prefix_sha256 all_requests prefix_sha256_ids prost_codec.
#[local] Existing Instance prefix_sha256_digest.

(** An SBCP publisher for chains 1 and 2, before its first period. *)
Definition demo_pub : pub_world :=
  mk_pub_world (mk_PublisherState 0 0 0 (replicate 32 x00) ∅ {[1; 2]} 0 ∅ 0) [] [] [].

Lemma demo_pub_initial : pub_initial demo_pub.
Proof. split; [|done]. by exists 0, 0, 0, (replicate 32 x00), 0, {[1; 2]}. Qed.

Lemma coordinator_implements_sbcp_witness :
  exists pub, rtc (pub_step_due map_values) demo_pub pub /\
    sbcp_sim (cw_state demo_half_world) (cw_sent demo_half_world) pub /\
    exists i, i ∈ pw_live pub /\ inst_id i = demo_id 1 /\ Instance_chains i = [1; 2].
Proof.
  destruct (coordinator_implements_sbcp map_values hex_string (fun _ => eq_refl) demo_half_world
    demo_pub demo_half_reachable demo_pub_initial eq_refl eq_refl) as (pub & Hr & Hsim).
  exists pub. split_and!; [exact Hr|exact Hsim|].
  assert (cs_active_xts (cw_state demo_half_world) !! InstanceId_to_string (demo_id 1) =
    Some (mk_ActiveXt [1; 2] ∅ (demo_id 1) 0)) as Hx by by_compute.
  destruct (sim_xts _ _ _ Hsim _ _ Hx) as (i & Hi & Hid). exists i. split; [exact Hi|].
  destruct (sim_live _ _ _ Hsim i Hi) as (xt & Hxt & Hc). rewrite Hid, Hx in Hxt.
  injection Hxt as <-. split; [by apply InstanceId_to_string_inj in Hid|exact (eq_sym Hc)].
Defined.

Lemma admission_agrees_with_sbcp_witness :
  let ps := mk_PublisherState 1 0 0 [] ∅ {[1; 2]} 0 ∅ 0 in
  let st := next_period CoordinatorState_new in
  tracks st ps /\
  exists i ps', start_instance ps (proto_to_spec_xt demo_req) = (ps', Ok i) /\
    (admit_xt 0 st demo_req [1; 2]).2 = Started (encode_to_vec (start_message i)).
Proof.
  intros ps st. assert (tracks st ps) as Ht by (by split).
  split; [exact Ht|].
  pose proof (admission_agrees_with_sbcp st ps 0 demo_req Ht ltac:(by_compute)) as Hadm.
  change (extract_chains demo_req) with [1; 2] in Hadm.
  destruct (admit_xt 0 st demo_req [1; 2]) as [st' o].
  destruct (start_instance ps (proto_to_spec_xt demo_req)) as [ps' [i|e]] eqn:E.
  - exists i, ps'. split; [done|]. apply Hadm.
  - exfalso. vm_compute in E. discriminate.
Defined.
