(* ===== verification/CoordStream.v ===== *)
(** * The stream of broadcasts

    What the coordinator broadcasts, decoded and read in the order in which its critical
    sections produced it, as one chain sees it: [view] is what the chain has been told so
    far, [view_step] the next message the protocol allows. The coordinator keeps the view
    of every chain in step with its locks. The last part relates the views to the SBCP
    sequencer: a sequencer that agrees with the view accepts what the view allows. *)
From Stdlib Require Import ZArith Lia.
From S2P Require Import Prelude Spec InstanceIdGen Messages Protobuf SbcpSequencer CoordState Coordinator.
From S2P Require Import AtomicCommit CoordInv CoordRefinement CoordProps CoordSbcp.

(** ** The stream of broadcasts, as one chain sees it *)

Record view := mk_view {
  v_period : PeriodId;
  v_active : option InstanceId;
  v_last : option SequenceNumber;
  v_known : gset bytes;
}.

Definition view_init : view := mk_view 0 None None ∅.

(** The start of [i] is acceptable: no instance under way, the current period, a new number. *)
Definition may_start (v : view) (i : Instance_) : bool :=
  bool_decide (v_active v = None) && (inst_period_id i =? v_period v) &&
  match v_last v with Some l => l <? inst_sequence_number i | None => true end.

Lemma may_start_true v i :
  may_start v i = true <->
  v_active v = None /\ inst_period_id i = v_period v /\
  (forall l, v_last v = Some l -> l < inst_sequence_number i).
Proof.
  unfold may_start. rewrite !andb_true_iff, bool_decide_eq_true, Z.eqb_eq.
  destruct (v_last v) as [l|]; [rewrite Z.ltb_lt|]; naive_solver.
Qed.

(** [None]: a message the protocol does not allow at this point. *)
Definition view_step (c : ChainId) (p : Proto.Payload) (v : view) : option view :=
  match p with
  | Proto.PStartPeriod sp => Some (mk_view (Proto.sp_period_id sp) (v_active v) None (v_known v))
  | Proto.PStartInstance si =>
      match Instance_try_from_start_instance si with
      | Ok i =>
          if decide (c ∈ Instance_chains i) then
            if may_start v i
            then Some (mk_view (v_period v) (Some (inst_id i)) (Some (inst_sequence_number i))
                         ({[inst_id i]} ∪ v_known v))
            else None
          else Some v
      | Err _ => None
      end
  | Proto.PDecided d =>
      if decide (Proto.dec_instance_id d ∈ v_known v) then
        if decide (v_active v = Some (Proto.dec_instance_id d))
        then Some (mk_view (v_period v) None (v_last v) (v_known v))
        else None
      else Some v
  | Proto.PRollback rb => if Proto.rb_period_id rb =? v_period v then Some v else None
  | _ => None
  end.

Section views.
Context `{Sha2, ProstMessage}.

(** What a sidecar decodes. *)
Definition payload_of (data : bytes) : option Proto.Payload :=
  match decode data with Ok m => Proto.msg_payload m | Err _ => None end.

(** [sent] lists the newest broadcast first. *)
Fixpoint view_of (c : ChainId) (sent : list bytes) : option view :=
  match sent with
  | [] => Some view_init
  | data :: older => v ← view_of c older; p ← payload_of data; view_step c p v
  end.

Lemma payload_of_encode `{!ProstRoundtrip} p :
  Payload_wf p -> payload_of (encode_to_vec (publisher_message p)) = Some p.
Proof. intros Hwf. unfold payload_of. rewrite prost_decode_encode; [done|]. by apply publisher_message_wf. Qed.

Lemma view_of_app c newer older :
  is_Some (view_of c (newer ++ older)) -> is_Some (view_of c older).
Proof.
  induction newer as [|d l IH]; [done|]. cbn. intros [v Hv].
  destruct (view_of c (l ++ older)); [|done]. eauto.
Qed.

End views.

(** ** The coordinator keeps every view in step with its locks *)

Section coordinator.
Context `{Sha2, ProstMessage, Requests}.
Context `{!ProstRoundtrip, !Sha2Digest, !InstanceIdsDistinct}.
Implicit Types (st : CoordinatorState) (w : coord_world).

Record view_ok (c : ChainId) w (v : view) : Prop := {
  vo_view : view_of c (cw_sent w) = Some v;
  vo_period : v_period v = cs_current_period_id (cw_state w);
  vo_active iid : v_active v = Some iid <->
    cs_active_chains (cw_state w) !! c = Some (InstanceId_to_string iid);
  vo_last l : v_last v = Some l -> l < cs_next_sequence_num (cw_state w);
  vo_known iid : iid ∈ v_known v <->
    exists cs, EvStarted (InstanceId_to_string iid) cs ∈ cw_history w /\ c ∈ cs;
}.

Lemma view_ok_init c : view_ok c world_init view_init.
Proof. split; cbn; try done. intros iid. set_solver. Qed.

(** Sections that broadcast nothing leave the view alone. *)
Lemma view_ok_quiet c st h sent subs st' h' subs' v :
  view_ok c (mk_world st h sent subs) v ->
  cs_current_period_id st' = cs_current_period_id st ->
  cs_next_sequence_num st' = cs_next_sequence_num st ->
  cs_active_chains st' = cs_active_chains st ->
  (forall x cs, EvStarted x cs ∈ h' <-> EvStarted x cs ∈ h) ->
  view_ok c (mk_world st' h' sent subs') v.
Proof.
  intros [V1 V2 V3 V4 V5] Hp Hs Hc Hh. cbn in *.
  split; cbn; rewrite ?Hp, ?Hs, ?Hc; try done.
  intros iid. rewrite V5. by setoid_rewrite Hh.
Qed.

Lemma view_ok_period n c st h sent subs v :
  world_inv n (mk_world st h sent subs) -> view_ok c (mk_world st h sent subs) v ->
  exists v', view_ok c
    (mk_world (next_period st) h (start_period_message (next_period st) :: sent) subs) v'.
Proof.
  intros Hw [V1 V2 V3 V4 V5]. cbn in * |-.
  pose proof (ci_superblock _ (wi_coord _ _ Hw)) as Hsb. cbn in Hsb.
  exists (mk_view (cs_current_period_id st +! 1) (v_active v) None (v_known v)).
  split; cbn; try done. rewrite V1. unfold start_period_message.
  rewrite payload_of_encode; [done|]. cbn. rewrite Hsb. auto with u64.
Qed.

(** The announcement of an instance, as a sidecar decodes it. *)
Lemma start_decoded n st h sent subs req :
  world_inv n (mk_world st h sent subs) -> Z.of_nat (S n) < u64_max -> admissible req ->
  let si := Instance_to_start_instance (next_instance st req) in
  payload_of (encode_to_vec (start_instance_message st req)) = Some (Proto.PStartInstance si) /\
  Instance_try_from_start_instance si = Ok (next_instance st req) /\
  Instance_chains (next_instance st req) = extract_chains req.
Proof.
  intros Hw Hn [Hwf _] si.
  pose proof (wi_period _ _ Hw) as Hp. pose proof (wi_seq _ _ Hw) as Hs. cbn in Hp, Hs.
  split_and!; [| |symmetry; apply extract_chains_spec].
  - rewrite start_message_next. apply payload_of_encode. cbn.
    rewrite proto_to_spec_xt_convert, XtRequest_spec_roundtrip.
    unfold u64_max in *. split_and!; [unfold u64_ok; lia..|done].
  - unfold si. rewrite start_instance_roundtrip, decide_True; [done|]. apply sha256_length.
Qed.

(** What starting does to the locks and the counter. *)
Lemma prepare_xt_locks now q st req c :
  cs_active_chains (prepare_xt now (set_pending_queue q st) req (extract_chains req)).1 !! c =
    if decide (c ∈ extract_chains req) then Some (next_xt_id st req) else cs_active_chains st !! c.
Proof. apply lookup_foldl_insert. Qed.

Lemma view_ok_start n c st h sent subs now req q v :
  world_inv n (mk_world st h sent subs) -> Z.of_nat (S n) < u64_max ->
  view_ok c (mk_world st h sent subs) v -> admissible req ->
  has_overlap st (extract_chains req) = false ->
  exists v', view_ok c
    (mk_world (prepare_xt now (set_pending_queue q st) req (extract_chains req)).1
       (EvStarted (next_xt_id st req) (extract_chains req) :: h)
       (encode_to_vec (start_instance_message st req) :: sent) subs) v'.
Proof.
  intros Hw Hn [V1 V2 V3 V4 V5] Hreq Hfree. cbn in * |-.
  destruct (start_decoded n st h sent subs req) as (Hpay & Hconv & Hchains); [done..|].
  set (i := next_instance st req) in *. rewrite has_overlap_false in Hfree.
  pose proof (wi_seq _ _ Hw) as Hs. cbn in Hs.
  assert (cs_next_sequence_num st +! 1 = cs_next_sequence_num st + 1) as Hseq.
  { unfold u64_max in *. u64_lia. }
  destruct (decide (c ∈ extract_chains req)) as [Hc|Hc].
  - exists (mk_view (v_period v) (Some (inst_id i)) (Some (inst_sequence_number i))
              ({[inst_id i]} ∪ v_known v)).
    split; cbn [cw_state cw_sent cw_history v_period v_active v_last v_known]; [|done|..].
    + cbn [view_of]. rewrite V1, Hpay. cbn [mbind option_bind view_step].
      rewrite Hconv, Hchains, decide_True by done. rewrite (proj2 (may_start_true v i)); [done|].
      split_and!; [|done|exact V4].
      apply eq_None_not_Some. intros [iid E%V3]. by rewrite Hfree in E.
    + intros iid. rewrite prepare_xt_locks, decide_True by done. unfold next_xt_id. split.
      * by intros [= <-].
      * intros [= E%InstanceId_to_string_inj]. by rewrite <- E.
    + intros l [= <-]. cbn. rewrite Hseq. lia.
    + intros iid. rewrite elem_of_union, elem_of_singleton, V5. setoid_rewrite elem_of_cons. split.
      * intros [->|(cs & ? & ?)]; eauto.
      * intros (cs & [[= E ->]|?] & ?); [left; by apply InstanceId_to_string_inj in E|eauto].
  - exists v. split; cbn [cw_state cw_sent cw_history]; [|done|..].
    + cbn [view_of]. rewrite V1, Hpay. cbn [mbind option_bind view_step].
      by rewrite Hconv, Hchains, decide_False by done.
    + intros iid. by rewrite prepare_xt_locks, decide_False by done.
    + intros l Hl%V4. cbn. rewrite Hseq. lia.
    + intros iid. rewrite V5. setoid_rewrite elem_of_cons. split; [naive_solver|].
      intros (cs & [[= _ ->]|?] & ?); [done|eauto].
Qed.

(** A conclusion, decided or timed out, frees the chain. *)
Lemma view_ok_finish n c st h sent subs x xt iid d h' subs' v :
  world_inv n (mk_world st h sent subs) -> view_ok c (mk_world st h sent subs) v ->
  cs_active_xts st !! x = Some xt -> InstanceId_to_string iid = x ->
  (forall y cs, EvStarted y cs ∈ h' <-> EvStarted y cs ∈ h) ->
  exists v', view_ok c (mk_world (finish_xt st x) h' (decided_message iid d :: sent) subs') v'.
Proof.
  intros Hw [V1 V2 V3 V4 V5] Hx Hid Hh. cbn in * |-.
  assert (ac_open h x (ax_chains xt)) as [Hst _] by (apply (wi_open _ _ Hw); eauto).
  assert (payload_of (decided_message iid d) = Some (Proto.PDecided (Proto.mk_Decided iid d))) as Hpay.
  { by apply payload_of_encode. }
  assert (iid ∈ v_known v <-> c ∈ ax_chains xt) as Hknown.
  { rewrite V5, Hid. split; [|eauto]. intros (cs & Hs & Hc).
    pose proof (wi_history _ _ Hw). by rewrite (ac_started_unique h x (ax_chains xt) cs). }
  pose proof (finish_xt_locks st x xt c (wi_coord _ _ Hw) Hx) as Hlocks.
  assert (forall iid', iid' ∈ v_known v <-> exists cs, EvStarted (InstanceId_to_string iid') cs ∈ h' /\ c ∈ cs)
    as Hk' by (intros iid'; rewrite V5; by setoid_rewrite Hh).
  assert (cs_current_period_id (finish_xt st x) = cs_current_period_id st /\
    cs_next_sequence_num (finish_xt st x) = cs_next_sequence_num st) as [Hp Hs].
  { unfold finish_xt, release_chains. by rewrite Hx. }
  destruct (decide (c ∈ ax_chains xt)) as [Hc|Hc].
  - assert (v_active v = Some iid) as Hact.
    { apply V3, (ci_locks _ (wi_coord _ _ Hw)). rewrite Hid. eauto. }
    exists (mk_view (v_period v) None (v_last v) (v_known v)).
    split; cbn [cw_state cw_sent cw_history v_period v_active v_last v_known]; rewrite ?Hp, ?Hs; try done.
    + cbn [view_of]. rewrite V1, Hpay. cbn. rewrite decide_True by tauto. by rewrite decide_True.
    + intros iid'. by rewrite Hlocks.
  - exists v. split; cbn [cw_state cw_sent cw_history]; rewrite ?Hp, ?Hs; try done.
    + cbn [view_of]. rewrite V1, Hpay. cbn. by rewrite decide_False by tauto.
    + intros iid'. by rewrite Hlocks.
Qed.

Lemma view_ok_reap_loop n c st h sent subs l v :
  world_inv n (mk_world st h sent subs) -> view_ok c (mk_world st h sent subs) v ->
  NoDup l -> Forall (fun x => is_Some (cs_active_xts st !! x)) l ->
  exists v', view_ok c
    (mk_world (reap_loop st l).1 (reverse (EvTimedOut <$> (reap_loop st l).2.*1) ++ h)
       (reverse (reap_loop st l).2.*2 ++ sent) subs) v'.
Proof.
  revert st h sent v. induction l as [|x l IH]; intros st h sent v Hw Hv; [by eexists|].
  intros Hnd Hl. pose proof Hl as [[xt Hxt] _]%Forall_cons.
  pose proof (world_inv_reap_loop hex_string n st h sent subs [x]) as Hw1. cbn in Hw1. rewrite Hxt in Hw1.
  specialize (Hw1 Hw). rewrite NoDup_cons in Hnd. destruct Hnd as [Hx Hnd].
  pose proof (ao_id _ _ (ci_xts _ (wi_coord _ _ Hw) _ _ Hxt)) as Hid. cbn in Hid.
  destruct (view_ok_finish n c st h sent subs x xt (ax_instance_id_bytes xt) false
    (EvTimedOut x :: h) subs v) as [v1 Hv1]; try done.
  { intros y cs. rewrite elem_of_cons. naive_solver. }
  cbn [reap_loop]. rewrite Hxt.
  specialize (IH (finish_xt st x) (EvTimedOut x :: h)
    (decided_message (ax_instance_id_bytes xt) false :: sent) v1).
  destruct (reap_loop (finish_xt st x) l) as [st' rs]. cbn [fst snd] in *.
  rewrite !fmap_cons, !reverse_cons, <- !app_assoc. cbn [fst snd app]. apply IH; [|done|done|].
  - apply Hw1; [apply NoDup_singleton|apply Forall_singleton; eauto].
  - apply Forall_cons in Hl as [_ Hl]. rewrite Forall_forall in *. intros y Hy.
    rewrite finish_xt_active, lookup_delete_ne; [by apply Hl|]. by intros ->.
Qed.

(** A rollback names the current period and leaves instances and locks alone. *)
Lemma view_ok_reset n c st h sent subs v :
  world_inv n (mk_world st h sent subs) -> Z.of_nat (S n) < u64_max ->
  view_ok c (mk_world st h sent subs) v ->
  view_ok c (mk_world (reset_superblock st) h (rollback_message (reset_superblock st) :: sent) subs) v.
Proof.
  intros Hw Hn [V1 V2 V3 V4 V5]. cbn in * |-.
  pose proof (wi_period _ _ Hw) as Hp. pose proof (wi_superblock _ _ Hw) as Hsb. cbn in Hp, Hsb.
  split; cbn -[rollback_message]; try done. rewrite V1. unfold rollback_message.
  rewrite payload_of_encode; [|cbn; unfold u64_ok, u64_max in *; split; lia].
  cbn. by rewrite V2, Z.eqb_refl.
Qed.

Context (hex_encode : bytes -> string) (Hhex : forall l, hex_encode l = hex_string l).

Lemma view_ok_SVote n c w v now iid ch vote :
  world_inv n w -> view_ok c w v ->
  exists v', view_ok c (exec hex_encode (SVote now iid ch vote) w) v'.
Proof.
  destruct w as [st h sent subs]. intros Hw Hv. cbn -[record_vote]. rewrite Hhex.
  pose proof (wi_coord _ _ Hw) as Hinv. cbn in Hinv. set (x := hex_string iid).
  unfold vote_events. destruct (vote_counts st x ch) eqn:Hvc;
    [|rewrite record_vote_ignored by done; by exists v].
  assert (exists xt, cs_active_xts st !! x = Some xt) as [xt Hx].
  { unfold vote_counts in Hvc. destruct (cs_active_xts st !! x); [eauto|done]. }
  rewrite (record_vote_counted _ _ _ xt), finish_with_vote by done.
  destruct vote; [case_decide|];
    [eapply view_ok_finish; try done|exists v; eapply view_ok_quiet; try done
    |eapply view_ok_finish; try done].
  all: intros y cs; cbn; rewrite !elem_of_cons; naive_solver.
Qed.

Lemma view_ok_exec n c w s v :
  world_inv n w -> Z.of_nat (S n) < u64_max -> section_ok w s ->
  view_ok c w v -> exists v', view_ok c (exec hex_encode s w) v'.
Proof.
  intros Hw Hn Hok Hv. pose proof (wi_coord _ _ Hw) as Hinv. pose proof (wi_queue _ _ Hw) as Hq.
  destruct s; cbn in Hok; try done; eauto using view_ok_SVote; destruct w as [st h sent subs];
    cbn in * |-.
  - exists v. cbn. unfold register_chain.
    destruct (cs_client_to_chain st !! client_id); by eapply (view_ok_quiet c st).
  - exists v. by eapply (view_ok_quiet c st).
  - by eapply view_ok_period.
  - cbn -[Nat.ltb admit_xt]. destruct (Nat.ltb_spec (length (extract_chains req)) 2); [by exists v|].
    unfold admit_xt. destruct (has_overlap st (extract_chains req)) eqn:Ho.
    + exists v. destruct (MAX_PENDING_QUEUE_SIZE <=? _)%nat; by eapply (view_ok_quiet c st).
    + assert (set_pending_queue (cs_pending_queue st) st = st) as Hst by by destruct st.
      pose proof (view_ok_start n c st h sent subs now req (cs_pending_queue st)) as Hstart.
      rewrite Hst in Hstart. by eapply Hstart.
  - cbn -[drain_one]. destruct (take_next_ready st) as [st0 [e|]] eqn:Ht; [|by exists v].
    unfold drain_one. rewrite Ht.
    apply take_next_ready_Some in Ht as (l1 & l2 & Hl & -> & Hfree & _).
    destruct (coord_inv_dequeue st l1 l2 e) as [[Hec Hlen] _]; [done..|].
    rewrite Hl, Forall_app, Forall_cons in Hq. destruct Hq as (_ & Hreq & _).
    rewrite Hec in *. by eapply view_ok_start.
  - cbn -[reap_timed_out]. unfold reap_timed_out.
    pose proof (view_ok_reap_loop n c st h sent subs (expired_xts order now st timeout) v Hw Hv) as Hr.
    destruct (reap_loop st _) as [st' out]. apply Hr; [by apply NoDup_expired_xts|].
    apply Forall_forall. intros x (xt & Hx & _)%elem_of_expired_xts; eauto.
  - exists v. cbn. unfold reap_expired_proofs.
    destruct (cs_proof_collection_started st); [case_match|]; by eapply (view_ok_quiet c st).
  - exists v. by eapply view_ok_reset.
  - exists v. cbn -[andb]. unfold collect_proof.
    destruct ((0 <? _)%nat && _); by eapply (view_ok_quiet c st).
  - exists v. by eapply (view_ok_quiet c st).
  - exists v. by eapply (view_ok_quiet c st).
Qed.

Lemma view_ok_exec_all k c l v w :
  world_inv k w -> view_ok c w v -> sections_ok hex_encode l w ->
  Z.of_nat (k + length l) < u64_max ->
  exists v', view_ok c (exec_all hex_encode l w) v'.
Proof.
  revert k v w. induction l as [|s l IH]; intros k v w Hw Hv; cbn; [by exists v|].
  intros [Hok Hl] Hn.
  destruct (view_ok_exec k c w s v) as [v' Hv']; [done|lia|done..|].
  apply (IH (S k) v'); [apply world_inv_exec; [done..|lia|done]|done|done|lia].
Qed.

(** C5. The broadcasts respect the locks, message by message: in every run of the coordinator,
    rollbacks included, and for every chain, decode the broadcasts in the order in which the
    critical sections produced them. Every instance of the chain is started in the period
    announced last, while no other instance of the chain is undecided, under a sequence
    number above those of the period's earlier ones; a decision on such an instance comes
    exactly once, while it is under way; a rollback names the current period. And what the
    messages leave undecided is the instance that holds the chain's lock. *)
Theorem broadcast_stream_ordered c l :
  sections_ok hex_encode l world_init -> Z.of_nat (length l) < u64_max ->
  let w := exec_all hex_encode l world_init in
  exists v, view_of c (cw_sent w) = Some v /\
    v_period v = cs_current_period_id (cw_state w) /\
    (forall iid, v_active v = Some iid <->
       cs_active_chains (cw_state w) !! c = Some (InstanceId_to_string iid)) /\
    (forall n, v_last v = Some n -> n < cs_next_sequence_num (cw_state w)) /\
    (forall iid, iid ∈ v_known v <->
       exists cs, EvStarted (InstanceId_to_string iid) cs ∈ cw_history w /\ c ∈ cs).
Proof.
  intros Hok Hn. destruct (view_ok_exec_all 0 c l view_init world_init) as [v []]; try done.
  - apply world_inv_init.
  - apply view_ok_init.
  - by exists v.
Qed.

End coordinator.

(** ** Sequencers that agree with the view *)

Section sequencer.
Context `{SequencerEnv}.
Implicit Types sq : SequencerState.

Record agrees sq (v : view) : Prop := {
  ag_period : sq_period_id sq = v_period v;
  ag_active : sq_active_instance_id sq = v_active v;
  ag_last : sq_last_sequence_number sq = v_last v;
}.

(** With a block of the period open, the start of an instance that the view allows is
    accepted, and so is its decision; the sequencer agrees with the view again. A start
    that comes while another instance is undecided is refused. *)
Theorem sequencer_accepts_view sq v b i :
  agrees sq v -> sq_pending_block sq = Some b -> pb_period_id b = v_period v ->
  (may_start v i = true ->
   exists sq', on_start_instance sq (inst_id i) (inst_period_id i) (inst_sequence_number i) = (sq', Ok ()) /\
     agrees sq' (mk_view (v_period v) (Some (inst_id i)) (Some (inst_sequence_number i))
                   ({[inst_id i]} ∪ v_known v))) /\
  (v_active v = Some (inst_id i) ->
   exists sq', on_decided_instance sq (inst_id i) = (sq', Ok ()) /\
     agrees sq' (mk_view (v_period v) None (v_last v) (v_known v))) /\
  (is_Some (v_active v) ->
   on_start_instance sq (inst_id i) (inst_period_id i) (inst_sequence_number i) =
     (sq, Err ActiveInstanceExists)).
Proof.
  intros [F1 F2 F3] Hb Hper. split_and!.
  - intros (Hact & Hp & Hlast)%may_start_true. unfold on_start_instance.
    rewrite Hb, F2, Hact, decide_False by by intros [? ?].
    rewrite (proj2 (Z.eqb_eq (pb_period_id b) _)) by congruence. cbn [negb]. rewrite F3.
    destruct (v_last v) as [n|]; [rewrite (proj2 (Z.leb_gt _ _)) by by apply Hlast|];
      (eexists; split; [done|]); split; cbn; congruence.
  - intros Hact. unfold on_decided_instance. rewrite F2, Hact, decide_True by done.
    eexists. split; [done|]. split; cbn; congruence.
  - intros Ha. unfold on_start_instance. rewrite Hb, F2, decide_True by done. done.
Qed.

End sequencer.

(** ** A rollback orphans the instances under way *)

(** The coordinator's rollback keeps its locks and its instances, while a sequencer that
    accepts the message drops the instance it takes part in: the chain stays locked for an
    instance its sequencer no longer knows, whose decision it will refuse. *)
Theorem rollback_orphans_instance `{SequencerEnv} st sq c x iid :
  cs_active_chains st !! c = Some x ->
  ss_superblock_number (sq_settled_state sq) = cs_last_finalized_superblock_number st ->
  ss_superblock_hash (sq_settled_state sq) = cs_last_finalized_superblock_hash st ->
  let '(sq', r) := rollback sq (cs_last_finalized_superblock_number st)
    (cs_last_finalized_superblock_hash st) (cs_current_period_id st) in
  is_ok r = true /\ sq_active_instance_id sq' = None /\
  on_decided_instance sq' iid = (sq', Err NoActiveInstance) /\
  cs_active_chains (reset_superblock st) !! c = Some x.
Proof.
  intros Hc Hn Hh. unfold rollback. rewrite decide_False; [done|]. intros [?|?]; congruence.
Qed.

(** ** Closed instances *)

#[local] Existing Instances prefix_sha256 all_requests prefix_sha256_ids prost_codec prost_codec_laws.
#[local] Existing Instances prefix_sha256_digest sample_env.

Lemma broadcast_stream_ordered_witness :
  length (cw_sent demo_world) = 5%nat /\
  exists v, view_of 1 (cw_sent demo_world) = Some v /\
    v_period v = cs_current_period_id (cw_state demo_world) /\
    (forall iid, v_active v = Some iid <->
       cs_active_chains (cw_state demo_world) !! 1 = Some (InstanceId_to_string iid)).
Proof.
  split; [vm_compute; reflexivity|].
  destruct (broadcast_stream_ordered hex_string (fun _ => eq_refl) 1 demo_sections demo_sections_ok)
    as (v & Hv & Hp & Ha & _); [by_compute|].
  exists v. split; [exact Hv|]. split; [exact Hp|exact Ha].
Defined.

Lemma sequencer_accepts_view_witness :
  let i := mk_Instance (demo_id 1) 9 1 (proto_to_spec_xt demo_req) in
  exists sq', on_start_instance sample_open (demo_id 1) 9 1 = (sq', Ok ()) /\
    agrees sq' (mk_view 9 (Some (demo_id 1)) (Some 1) ({[demo_id 1]} ∪ ∅)).
Proof.
  intros i.
  apply (sequencer_accepts_view sample_open (mk_view 9 None None ∅) (mk_PendingBlock 41 9 10) i);
    [by split|vm_compute; reflexivity|reflexivity|vm_compute; reflexivity].
Defined.

Lemma rollback_orphans_instance_witness :
  let st := set_active_chains {[1 := "x"%string]} CoordinatorState_new in
  let sq := SbcpSequencer.new 0 1 (mk_SettledState (mk_BlockHeader 40 [] []) 0 []) in
  let '(sq', r) := rollback sq 0 [] 0 in
  is_ok r = true /\ sq_active_instance_id sq' = None /\
  on_decided_instance sq' [x07] = (sq', Err NoActiveInstance) /\
  cs_active_chains (reset_superblock st) !! 1 = Some "x"%string.
Proof.
  apply (rollback_orphans_instance (set_active_chains {[1 := "x"%string]} CoordinatorState_new)
    (SbcpSequencer.new 0 1 (mk_SettledState (mk_BlockHeader 40 [] []) 0 [])) 1 "x"%string [x07]);
    reflexivity.
Defined.
