(* ===== verification/CoordSettlement.v ===== *)
(** * Settlement: registration, proofs, mailboxes, rollbacks

    The parts of the coordinator outside atomic commitment: which client speaks for which
    chain, when the collected proofs are submitted, what the mailbox check accepts and what
    the rollback message says. *)
From Stdlib Require Import ZArith Lia.
From S2P Require Import Prelude Spec InstanceIdGen Messages Protobuf CoordState Coordinator AtomicCommit.
From S2P Require Import CoordInv CoordRefinement CoordProps.

(** ** Registration *)

Lemma register_chain_spec st client chain :
  let st' := register_chain st client chain in
  cs_chain_to_client st' !! chain = Some client /\ cs_client_to_chain st' !! client = Some chain.
Proof.
  unfold register_chain. destruct (cs_client_to_chain st !! client); cbn;
    by rewrite !lookup_insert_eq.
Qed.

(** A registration can be undone by a client that no longer holds it. When a second
    client takes over the chain of a first one and the first then registers another chain,
    the second is still recorded as speaking for its chain, but the chain has no client any
    more: mailbox messages for it are dropped and it does not count as registered. *)
Theorem reregistration_drops_successor st a b c d :
  a <> b -> c <> d ->
  let st' := register_chain (register_chain (register_chain st a c) b c) a d in
  cs_client_to_chain st' !! b = Some c /\ is_chain_registered st' c = false.
Proof.
  intros Hab Hcd. set (st1 := register_chain st a c). set (st2 := register_chain st1 b c).
  assert (cs_client_to_chain st2 !! b = Some c) as Hb by apply register_chain_spec.
  assert (cs_client_to_chain st2 !! a = Some c) as Ha.
  { assert (cs_client_to_chain st1 !! a = Some c) as Ha by apply register_chain_spec.
    unfold st2, register_chain. destruct (cs_client_to_chain st1 !! b); cbn;
      by rewrite lookup_insert_ne. }
  clearbody st2. unfold is_chain_registered, register_chain. rewrite Ha. cbn. split.
  - by rewrite lookup_insert_ne.
  - apply bool_decide_eq_false. rewrite lookup_insert_ne, lookup_delete_eq by done.
    by intros [? ?].
Qed.

Lemma reregistration_drops_successor_witness :
  let st' := register_chain (register_chain (register_chain CoordinatorState_new "a" 1) "b" 1) "a" 2 in
  cs_client_to_chain st' !! "b" = Some 1 /\ is_chain_registered st' 1 = false.
Proof.
  apply (reregistration_drops_successor CoordinatorState_new "a" "b" 1 2); [done|done].
Defined.

(** ** Proof collection *)

(** When proofs are submitted. A proof replaces the one its chain sent before; the
    collection is handed over exactly when chains are registered and at least as many
    chains have a proof as are registered. It then goes out whole, under the next
    superblock number, whatever number the proofs themselves carry, and the collection and
    its timer are empty; otherwise it is kept and the timer keeps its first start. *)
Theorem collect_proof_spec now st sb c data :
  let proofs := <[c := mk_ChainProof sb data]> (cs_pending_proofs st) in
  let '(st', r) := collect_proof now st sb c data in
  if decide (0 < size (cs_chain_to_client st) /\
             size (cs_chain_to_client st) <= size proofs)%nat
  then r = Some (cs_next_superblock_number st, cp_data <$> proofs) /\
       cs_pending_proofs st' = ∅ /\ cs_proof_collection_started st' = None
  else r = None /\ cs_pending_proofs st' = proofs /\
       cs_proof_collection_started st' =
         Some (default now (cs_proof_collection_started st)).
Proof.
  unfold collect_proof.
  destruct (Nat.ltb_spec 0 (size (cs_chain_to_client st)));
    destruct (Nat.leb_spec (size (cs_chain_to_client st))
                (size (<[c := mk_ChainProof sb data]> (cs_pending_proofs st)))); cbn [andb];
    case_decide; try lia; split_and!; try done; cbn; by destruct (cs_proof_collection_started st).
Qed.

(** ** Superblock numbers and rollbacks *)

Section settlement.
Context `{Sha2, ProstMessage, Requests}.
Context (hex_encode : bytes -> string).
Implicit Types w : coord_world.

(** Numbering: in every run the next superblock is the successor of the last finalized
    one, so the reset that precedes a rollback changes nothing, and every period announced
    before the next L1 submission succeeds carries the same superblock number. *)
Theorem superblock_follows_finalized `{!InstanceIdsDistinct} w :
  (forall l, hex_encode l = hex_string l) -> reachable hex_encode w ->
  cs_next_superblock_number (cw_state w) =
    cs_last_finalized_superblock_number (cw_state w) +! 1 /\
  reset_superblock (cw_state w) = cw_state w /\
  cs_next_superblock_number (next_period (cw_state w)) =
    cs_last_finalized_superblock_number (cw_state w) +! 1.
Proof.
  intros Hhex (n & Hw)%reachable_inv; [|done..]. pose proof (wi_coord _ _ Hw) as Hinv.
  pose proof (ci_superblock _ Hinv) as Hsb.
  split_and!; [done|by apply reset_superblock_id|done].
Qed.

(** What settlement works on, and the sections that serve atomic commitment only. *)
Definition settlement_fields (st : CoordinatorState) :=
  (cs_chain_to_client st, cs_client_to_chain st, cs_pending_proofs st,
   cs_proof_collection_started st, cs_last_finalized_superblock_number st,
   cs_next_superblock_number st, cs_last_finalized_superblock_hash st).

Definition commit_section (s : section) : bool :=
  match s with
  | SPeriod | SAdmit _ _ | SVote _ _ _ _ | SDrain _ | SReap _ _ _ => true
  | _ => false
  end.

Lemma finish_xt_settlement st x : settlement_fields (finish_xt st x) = settlement_fields st.
Proof. unfold finish_xt, release_chains. by destruct (cs_active_xts st !! x). Qed.

Lemma reap_loop_settlement st l : settlement_fields (reap_loop st l).1 = settlement_fields st.
Proof.
  revert st. induction l as [|x l IH]; intros st; [done|]. cbn [reap_loop].
  specialize (IH (finish_xt st x)). rewrite finish_xt_settlement in IH.
  by destruct (reap_loop (finish_xt st x) l).
Qed.

Lemma commit_section_settlement s w :
  commit_section s = true ->
  settlement_fields (cw_state (exec hex_encode s w)) = settlement_fields (cw_state w).
Proof.
  destruct w as [st h sent subs].
  destruct s as [| | |now req|now iid c v|now|order now timeout| | | | |]; try done; intros _; cbn.
  - unfold admit_xt. case_match; [done|]. destruct (has_overlap st (extract_chains req)); [|done].
    by destruct (MAX_PENDING_QUEUE_SIZE <=? _)%nat.
  - unfold record_vote. destruct (cs_active_xts st !! hex_encode iid) as [xt|]; [|done].
    repeat (case_decide; [done|]). set (st1 := set_active_xts _ st).
    destruct (if negb v then Some false else check_decision st1 (hex_encode iid)); [|done].
    apply (finish_xt_settlement st1).
  - unfold drain_one, take_next_ready. by destruct (list_find _ _) as [[idx e]|].
  - unfold reap_timed_out. pose proof (reap_loop_settlement st (expired_xts order now st timeout)) as Hr.
    by destruct (reap_loop st _).
Qed.

Lemma exec_hash s w :
  (forall n hash, s <> SInitL1 n hash) ->
  cs_last_finalized_superblock_hash (cw_state (exec hex_encode s w)) =
    cs_last_finalized_superblock_hash (cw_state w).
Proof.
  intros Hs. destruct (commit_section s) eqn:Hc.
  { pose proof (commit_section_settlement s w Hc) as Hf. unfold settlement_fields in Hf. congruence. }
  destruct w as [st h sent subs]. destruct s; try done; cbn.
  - unfold register_chain. by destruct (cs_client_to_chain st !! client_id).
  - by destruct (Hs sb_num sb_hash).
  - unfold reap_expired_proofs. destruct (cs_proof_collection_started st); [|done].
    by destruct (window <=? _).
  - unfold collect_proof. by destruct ((0 <? size (cs_chain_to_client st))%nat && _).
Qed.

Lemma exec_all_hash l w :
  Forall (fun s => forall n hash, s <> SInitL1 n hash) l ->
  cs_last_finalized_superblock_hash (cw_state (exec_all hex_encode l w)) =
    cs_last_finalized_superblock_hash (cw_state w).
Proof.
  revert w. induction l as [|s l IH]; intros w; [done|]. rewrite Forall_cons. intros [Hs Hl].
  change (exec_all hex_encode (s :: l) w) with (exec_all hex_encode l (exec hex_encode s w)).
  rewrite IH by done. by apply exec_hash.
Qed.

(** C40. The hash in a rollback is never brought up to date: whatever sections run after
    the start, successful L1 submissions included, the hash stays the one read at startup.
    After the submission of superblock [n] succeeds, the rollback message names [n]
    together with the hash of an older superblock, the empty string when the coordinator
    started from genesis. *)
Theorem rollback_hash_is_stale l n w :
  Forall (fun s => forall m hash, s <> SInitL1 m hash) l ->
  let w' := exec hex_encode SReset (exec hex_encode (SSubmitted n) (exec_all hex_encode l w)) in
  head (cw_sent w') =
    Some (encode_to_vec (publisher_message (Proto.PRollback
      (Proto.mk_Rollback (cs_current_period_id (cw_state (exec_all hex_encode l w))) n
         (cs_last_finalized_superblock_hash (cw_state w)))))).
Proof.
  intros Hl w'. rewrite <- (exec_all_hash l w Hl). unfold w'. clear w'.
  by destruct (exec_all hex_encode l w).
Qed.

End settlement.

Lemma superblock_follows_finalized_witness :
  cs_next_superblock_number (cw_state demo_world) =
    cs_last_finalized_superblock_number (cw_state demo_world) +! 1.
Proof.
  apply (superblock_follows_finalized (H := prefix_sha256) (H0 := prost_codec) hex_string
           (H1 := all_requests) (H2 := prefix_sha256_ids all_requests) demo_world (fun _ => eq_refl) demo_reachable).
Defined.

Lemma rollback_hash_is_stale_witness :
  let w' := @exec prefix_sha256 prost_codec hex_string SReset
    (@exec prefix_sha256 prost_codec hex_string (SSubmitted 1)
       (@exec_all prefix_sha256 prost_codec hex_string [SRegister "a" 1; SPeriod] world_init)) in
  head (cw_sent w') =
    Some (@encode_to_vec prost_codec (publisher_message (Proto.PRollback
      (Proto.mk_Rollback 1 1 [])))).
Proof.
  apply (rollback_hash_is_stale (H := prefix_sha256) (H0 := prost_codec) hex_string
           [SRegister "a" 1; SPeriod] 1 world_init).
  repeat constructor; intros; discriminate.
Defined.

(** ** Mailbox consistency *)

(** The root the check compares an inbox entry with: the outbox root, towards the inbox's
    source chain, of the first proof that has an outbox towards that chain. *)
Definition compared_root (proofs : list ProofData) (inbox_chain : B256) : option B256 :=
  '(_, cp) ← list_find (fun p => inbox_chain ∈ mi_outbox_chains (pd_mailbox_info p)) proofs;
  '(i, _) ← list_find (fun oc => oc = inbox_chain) (mi_outbox_chains (pd_mailbox_info cp));
  mi_outbox_roots (pd_mailbox_info cp) !! i.

(** An inbox entry that passes: it has a root, equal to the compared one if there is one. *)
Definition inbox_entry_ok (proofs : list ProofData) (mi : MailboxInfo) (i : nat) (c : B256) : Prop :=
  exists root, mi_inbox_roots mi !! i = Some root /\
    forall r, compared_root proofs c = Some r -> r = root.

Lemma check_inbox_entry_ok proofs chain mi i c :
  check_inbox_entry proofs chain mi i c = Ok () <-> inbox_entry_ok proofs mi i c.
Proof.
  unfold check_inbox_entry, inbox_entry_ok, compared_root.
  destruct (mi_inbox_roots mi !! i) as [root|]; [|naive_solver].
  destruct (list_find _ proofs) as [[j cp]|]; cbn; [|naive_solver].
  destruct (list_find _ _) as [[k oc]|]; cbn; [|naive_solver].
  destruct (mi_outbox_roots (pd_mailbox_info cp) !! k) as [r|]; [|naive_solver].
  case_decide; naive_solver.
Qed.

Lemma check_inbox_ok proofs chain mi i l :
  check_inbox proofs chain mi i l = Ok () <->
    forall j c, l !! j = Some c -> inbox_entry_ok proofs mi (i + j) c.
Proof.
  revert i. induction l as [|c l IH]; intros i; cbn [check_inbox]; [done|].
  destruct (check_inbox_entry proofs chain mi i c) as [[]|e] eqn:Hc.
  - rewrite IH. apply check_inbox_entry_ok in Hc. split.
    + intros Hall [|j] c' Hj; [|by rewrite Nat.add_succ_r; apply Hall].
      rewrite Nat.add_0_r. cbn in Hj. by simplify_eq.
    + intros Hall j c' Hj. rewrite Nat.add_succ_comm. by apply (Hall (S j)).
  - split; [done|]. intros Hall. specialize (Hall 0%nat c eq_refl).
    rewrite Nat.add_0_r, <- check_inbox_entry_ok in Hall. by rewrite Hc in Hall.
Qed.

Lemma check_chains_ok proofs entries :
  check_chains proofs entries = Ok () <->
    forall chain p, (chain, p) ∈ entries ->
      forall j c, mi_inbox_chains (pd_mailbox_info p) !! j = Some c ->
        inbox_entry_ok proofs (pd_mailbox_info p) j c.
Proof.
  induction entries as [|[ch p] entries IH]; cbn [check_chains]; [set_solver|].
  destruct (check_inbox proofs ch (pd_mailbox_info p) 0 _) as [[]|e] eqn:Hc.
  - rewrite IH. rewrite check_inbox_ok in Hc. setoid_rewrite elem_of_cons. naive_solver.
  - split; [done|]. intros Hall.
    enough (check_inbox proofs ch (pd_mailbox_info p) 0 (mi_inbox_chains (pd_mailbox_info p)) = Ok ())
      as Hok by by rewrite Hok in Hc.
    apply check_inbox_ok. intros j c Hj. eapply Hall; [|done]. apply list_elem_of_here.
Qed.

(** What the mailbox check accepts: it succeeds exactly when every inbox entry of every
    proof has a root and that root equals the outbox root found for the entry's source
    chain; in particular proofs without inboxes, such as all those sent over QUIC, pass. *)
Theorem mailbox_check_spec (proofs : list (Z * ProofData)) :
  (validate_mailbox_consistency proofs = Ok () <->
     forall chain p j c, (chain, p) ∈ proofs ->
       mi_inbox_chains (pd_mailbox_info p) !! j = Some c ->
       inbox_entry_ok proofs.*2 (pd_mailbox_info p) j c) /\
  (Forall (fun cp => mi_inbox_chains (pd_mailbox_info cp.2) = []) proofs ->
     validate_mailbox_consistency proofs = Ok ()).
Proof.
  unfold validate_mailbox_consistency. rewrite check_chains_ok. split; [naive_solver|].
  rewrite Forall_forall. intros Hnone chain p Hin j c.
  specialize (Hnone _ Hin). cbn in Hnone. by rewrite Hnone.
Qed.

(** A proof of a chain that exchanges messages with one other chain. *)
Definition mailbox_proof (other in_root out_root : B256) : ProofData :=
  mk_ProofData AggregationOutputs_default [] B256_ZERO
    (mk_MailboxInfo [other] [other] [in_root] [out_root]).

(** A proof with an outbox towards the source of its own inbox is compared with itself. *)
Lemma check_inbox_entry_self rest chain other in_root out_root :
  in_root <> out_root ->
  check_inbox_entry (mailbox_proof other in_root out_root :: rest) chain
    (pd_mailbox_info (mailbox_proof other in_root out_root)) 0 other =
    Err (MailboxMismatch chain other).
Proof.
  intros Hr. unfold check_inbox_entry. cbn -[list_find]. cbn [list_find].
  rewrite decide_True by (cbn; set_solver). cbn -[list_find]. cbn [list_find].
  rewrite decide_True by done. cbn. by rewrite decide_False.
Qed.

(** The check looks for an outbox towards the source of an inbox entry, not from it, so
    it rejects consistent mailboxes: two chains that exchange messages, each one's inbox
    root equal to the other's outbox root, are refused in either iteration order as soon as
    the traffic differs in the two directions. *)
Theorem consistent_mailboxes_rejected a b r1 r2 :
  r1 <> r2 ->
  let pa := (1, mailbox_proof b r1 r2) in
  let pb := (2, mailbox_proof a r2 r1) in
  validate_mailbox_consistency [pa; pb] = Err (MailboxMismatch 1 b) /\
  validate_mailbox_consistency [pb; pa] = Err (MailboxMismatch 2 a).
Proof.
  intros Hr pa pb. unfold validate_mailbox_consistency, pa, pb.
  cbn [fmap list_fmap fst snd check_chains pd_mailbox_info mailbox_proof mi_inbox_chains check_inbox].
  split; by rewrite check_inbox_entry_self.
Qed.

Lemma consistent_mailboxes_rejected_witness :
  let pa := (1, mailbox_proof [x02] [x0a] [x0b]) in
  let pb := (2, mailbox_proof [x01] [x0b] [x0a]) in
  validate_mailbox_consistency [pa; pb] = Err (MailboxMismatch 1 [x02]) /\
  validate_mailbox_consistency [pb; pa] = Err (MailboxMismatch 2 [x01]).
Proof.
  apply (consistent_mailboxes_rejected [x01] [x02] [x0a] [x0b]); done.
Defined.
