(* ===== verification/CoordProofs.v ===== *)
(** * Which proofs a superblock is settled with

    [Coordinator::receive_proof] hands the collection over when it holds as many proofs as
    chains are registered; the handlers take proofs of registered chains only, but look the
    chain up in a critical section of its own. This file says when counting is enough for a
    submission to cover every registered chain, and what happens otherwise. *)
From Stdlib Require Import ZArith Lia.
From S2P Require Import Prelude Spec InstanceIdGen Messages Protobuf CoordState Coordinator AtomicCommit.
From S2P Require Import CoordInv CoordRefinement CoordProps CoordSettlement.

Section proofs.
Context `{Sha2, ProstMessage}.
Context (hex_encode : bytes -> string).
Implicit Types (st : CoordinatorState) (w : coord_world) (s : section).

(** Proofs are held for registered chains only. *)
Definition pending_registered st : Prop :=
  dom (cs_pending_proofs st) ⊆ dom (cs_chain_to_client st).

(** The chain a client gives up by registering another one. *)
Definition given_up st (client : string) (chain : ChainId) : option ChainId :=
  old ← cs_client_to_chain st !! client; if decide (old = chain) then None else Some old.

(** A section that keeps the collection to registered chains: a proof comes from a chain
    registered when it is stored, and no client gives up a chain whose proof is held. *)
Definition keeps_collection st s : bool :=
  match s with
  | SProof _ _ c _ _ _ => is_chain_registered st c
  | SRegister client chain =>
      match given_up st client chain with
      | Some old => bool_decide (cs_pending_proofs st !! old = None)
      | None => true
      end
  | _ => true
  end.

Fixpoint collecting (l : list section) w : bool :=
  match l with
  | [] => true
  | s :: l' => keeps_collection (cw_state w) s && collecting l' (exec hex_encode s w)
  end.

Lemma is_chain_registered_dom st c :
  is_chain_registered st c = true <-> c ∈ dom (cs_chain_to_client st).
Proof. unfold is_chain_registered. by rewrite bool_decide_eq_true, elem_of_dom. Qed.

Lemma register_chain_pending st client chain :
  keeps_collection st (SRegister client chain) = true ->
  pending_registered st -> pending_registered (register_chain st client chain).
Proof.
  unfold pending_registered, keeps_collection, given_up, register_chain. intros Hk Hp.
  destruct (cs_client_to_chain st !! client) as [old|]; cbn in *; rewrite dom_insert_L;
    [|set_solver].
  rewrite dom_delete_L. destruct (decide (old = chain)) as [->|Hne]; cbn in Hk.
  - intros c Hc. destruct (decide (c = chain)); set_solver.
  - apply bool_decide_eq_true in Hk. intros c Hc. destruct (decide (c = old)) as [->|]; [|set_solver].
    apply elem_of_dom in Hc as [? Hc]. congruence.
Qed.

Lemma collect_proof_pending now st sb c data :
  is_chain_registered st c = true ->
  pending_registered st -> pending_registered (collect_proof now st sb c data).1.
Proof.
  rewrite is_chain_registered_dom. unfold pending_registered, collect_proof. intros Hc Hp.
  case_match; cbn; rewrite ?dom_insert_L; set_solver.
Qed.

Lemma exec_pending s w :
  keeps_collection (cw_state w) s = true ->
  pending_registered (cw_state w) -> pending_registered (cw_state (exec hex_encode s w)).
Proof.
  intros Hk Hp. destruct (commit_section s) eqn:Hc.
  { pose proof (commit_section_settlement hex_encode s w Hc) as [= E1 _ E2 _ _ _ _].
    unfold pending_registered. by rewrite E1, E2. }
  destruct w as [st h sent subs]. destruct s; try done; cbn in *.
  - by apply (register_chain_pending st client_id chain_id).
  - unfold reap_expired_proofs. destruct (cs_proof_collection_started st); [|done].
    case_match; [|done]. unfold pending_registered. set_solver.
  - pose proof (collect_proof_pending now st superblock_number chain_id data Hk Hp) as Hcp.
    by destruct (collect_proof now st _ _ _) as [? [[]|]].
Qed.

Lemma collecting_pending l w :
  collecting l w = true -> pending_registered (cw_state w) ->
  pending_registered (cw_state (exec_all hex_encode l w)).
Proof.
  revert w. induction l as [|s l IH]; intros w; cbn; [done|]. intros [Hk Hl]%andb_prop Hp.
  apply IH; [done|]. by apply exec_pending.
Qed.

(** C15. Submissions are complete: as long as every proof comes from a registered chain and no
    client gives up a chain whose proof is held, the collection is handed over exactly when
    every registered chain has reported. It then holds one proof for each registered chain
    and for no other, the last one that chain sent; until then it names a chain that is
    still missing. *)
Theorem submissions_complete l now sb c data :
  collecting l world_init = true ->
  let st := cw_state (exec_all hex_encode l world_init) in
  is_chain_registered st c = true ->
  match (collect_proof now st sb c data).2 with
  | Some (n, proofs) =>
      n = cs_next_superblock_number st /\ dom proofs = dom (cs_chain_to_client st) /\
      proofs !! c = Some data /\
      forall c', c' <> c -> proofs !! c' = cp_data <$> cs_pending_proofs st !! c'
  | None =>
      exists c', is_chain_registered st c' = true /\ c' <> c /\ cs_pending_proofs st !! c' = None
  end.
Proof.
  intros Hl st Hc. pose proof (collecting_pending l world_init Hl ltac:(done)) as Hp.
  fold st in Hp. apply is_chain_registered_dom in Hc. unfold collect_proof.
  set (proofs := <[c := mk_ChainProof sb data]> (cs_pending_proofs st)).
  assert (dom proofs ⊆ dom (cs_chain_to_client st)) as Hsub.
  { unfold proofs. rewrite dom_insert_L. unfold pending_registered in Hp. set_solver. }
  rewrite <- (size_dom (cs_chain_to_client st)), <- (size_dom proofs).
  assert (0 < size (dom (cs_chain_to_client st)))%nat as Hpos.
  { apply Nat.neq_0_lt_0. rewrite size_non_empty_iff. set_solver. }
  rewrite (proj2 (Nat.ltb_lt _ _) Hpos). cbn [andb].
  destruct (Nat.leb_spec (size (dom (cs_chain_to_client st))) (size (dom proofs))) as [Hle|Hlt]; cbn [snd].
  - split_and!; [done| | |].
    + rewrite dom_fmap_L. by apply set_subseteq_size_eq.
    + unfold proofs. by rewrite lookup_fmap, lookup_insert_eq.
    + intros c' Hc'. unfold proofs. by rewrite lookup_fmap, lookup_insert_ne.
  - destruct (set_choose_or_empty (dom (cs_chain_to_client st) ∖ dom proofs)) as [[c' Hc']|Hemp].
    + exists c'. rewrite is_chain_registered_dom. apply elem_of_difference in Hc' as [? Hn].
      unfold proofs in Hn. rewrite dom_insert_L in Hn. split_and!; [done|set_solver|].
      apply not_elem_of_dom. set_solver.
    + pose proof (subseteq_size (dom (cs_chain_to_client st)) (dom proofs)) as Hs.
      assert (dom (cs_chain_to_client st) ⊆ dom proofs) as Hincl by (intros x Hx; destruct (decide (x ∈ dom proofs)); set_solver).
      specialize (Hs Hincl). lia.
Qed.

End proofs.

(** ** Closed instances *)

#[local] Existing Instances prefix_sha256 all_requests prefix_sha256_ids prost_codec.

(** A proof as it comes over QUIC. *)
Definition quic_proof (payload : bytes) : ProofData :=
  mk_ProofData AggregationOutputs_default payload B256_ZERO MailboxInfo_default.

(** The clients [a] and [b] speak for the chains 1 and 3; chain 1 reports. *)
Definition one_report : list section :=
  [SRegister "a" 1; SRegister "b" 3; SProof 0 1 1 (quic_proof [x01]) map_to_list true].

Lemma submissions_complete_witness :
  let st := cw_state (exec_all hex_string one_report world_init) in
  exists proofs, (collect_proof 5 st 1 3 (quic_proof [x03])).2 = Some (1, proofs) /\
    dom proofs = dom (cs_chain_to_client st).
Proof.
  pose proof (submissions_complete hex_string one_report 5 1 3 (quic_proof [x03])
    ltac:(by vm_compute) ltac:(by vm_compute)) as Hc.
  cbv zeta in Hc |- *. set (st := cw_state _) in *.
  assert (exists proofs, (collect_proof 5 st 1 3 (quic_proof [x03])).2 = Some (1, proofs)) as [proofs Hp]
    by (by vm_compute; eexists).
  exists proofs. split; [exact Hp|]. rewrite Hp in Hc. apply Hc.
Defined.

(** Counting is not enough when a client gives up its chain in between, which a handshake
    with another client id makes it do: the proof held for the abandoned chain 1 counts for
    chain 3, so superblock 1 is handed over with the proofs of the chains 1 and 2 although
    chain 3, which is registered, has not reported. *)
Theorem abandoned_chain_completes_set :
  let st := cw_state (exec_all hex_string (one_report ++ [SRegister "a" 2]) world_init) in
  dom (cs_chain_to_client st) = {[2; 3]} /\
  exists proofs, (collect_proof 5 st 1 2 (quic_proof [x02])).2 = Some (1, proofs) /\
    dom proofs = {[1; 2]}.
Proof.
  split; [apply (bool_decide_unpack _); by vm_compute|].
  eexists. split; [by vm_compute|]. apply (bool_decide_unpack _). by vm_compute.
Qed.

(** One chain reports twice before the first submission has ended, so superblock 1 is
    submitted twice; the first success lets superblock 2 be submitted. *)
Definition two_submissions : list section :=
  let proof := SProof 0 1 1 (quic_proof [x01]) map_to_list true in
  [SRegister "a" 1; proof; proof; SSubmitted 1; proof; SSubmitted 2].

(** A submission under way is not compared with the state it ends in: when the second
    submission of superblock 1 succeeds late, the last finalized superblock goes back from 2
    to 1 and superblock 2 is announced and submitted again. *)
Theorem late_submission_regresses :
  let w := exec_all hex_string two_submissions world_init in
  let w' := exec hex_string (SSubmitted 1) w in
  reachable hex_string w' /\
  cs_last_finalized_superblock_number (cw_state w) = 2 /\
  cs_last_finalized_superblock_number (cw_state w') = 1 /\
  cs_next_superblock_number (cw_state w') = 2.
Proof.
  cbv zeta. split; [|by vm_compute].
  change (exec hex_string (SSubmitted 1) (exec_all hex_string two_submissions world_init))
    with (exec_all hex_string (two_submissions ++ [SSubmitted 1]) world_init).
  apply exec_all_reachable; [|by vm_compute].
  cbn. split_and!; try done; vm_compute; set_solver.
Qed.
