(* ===== verification/Dispatch.v ===== *)
(** * Inbound messages ([crates/coordinator/src/handlers.rs])

    [dispatch] decodes a frame and calls the handler for its payload. The last part shows
    that what a handler does is a sequence of the critical sections of [CoordRefinement],
    with the broadcasts in the same order, so that the theorems on runs apply to it. *)
From Stdlib Require Import ZArith Lia.
From S2P Require Import Prelude Spec InstanceIdGen Messages Protobuf CoordState Coordinator AtomicCommit.
From S2P Require Import CoordInv CoordRefinement CoordProps.

(** ** Chain ids in client names *)

Inductive ParseChainIdError := mk_ParseChainIdError (client_id : string).

(** [Display for ParseChainIdError]. *)
Definition ParseChainIdError_to_string (e : ParseChainIdError) : string :=
  let '(mk_ParseChainIdError s) := e in "no numeric chain ID prefix in '" +:+ s +:+ "'".

(** [chars().take_while(|c| c.is_ascii_digit()).collect()]. *)
Fixpoint take_digits (s : string) : string :=
  match s with
  | String c s' => if is_ascii_digit c then String c (take_digits s') else ""
  | EmptyString => ""
  end.

Definition parse_chain_id (client_id : string) : result ChainId ParseChainIdError :=
  let num_str := take_digits client_id in
  match num_str with
  | EmptyString => Err (mk_ParseChainIdError client_id)
  | _ =>
      match parse_u64 num_str with
      | Some n => Ok n
      | None => Err (mk_ParseChainIdError client_id)
      end
  end.

(** ** Handlers *)

Section dispatch.
Context `{Sha2, ProstMessage}.
Context (hex_encode : bytes -> string).
Implicit Types co : Coordinator.

Definition handle_handshake co (client_id : string) (req : Proto.HandshakeRequest)
    : Coordinator * list effect :=
  let co1 :=
    match Proto.hsr_client_id req with
    | EmptyString => co
    | requested =>
        match parse_chain_id requested with
        | Ok chain_id => coord_register_chain co client_id chain_id
        | Err _ => co
        end
    end in
  let resp :=
    publisher_message (Proto.PHandshakeResponse (Proto.mk_HandshakeResponse true "" client_id)) in
  (co1, [SendRaw client_id (encode_to_vec resp)]).

Definition handle_proof (order : gmap Z ProofData -> list (Z * ProofData)) (now : Instant) co
    (client_id : string) (proof : Proto.Proof) : Coordinator * list effect :=
  match chain_for_client co client_id with
  | None => (co, [])
  | Some chain_id =>
      let data :=
        mk_ProofData AggregationOutputs_default (Proto.pf_proof_data proof) B256_ZERO
          MailboxInfo_default in
      receive_proof order now co (Proto.pf_superblock_number proof) chain_id data
  end.

Definition dispatch (order : gmap Z ProofData -> list (Z * ProofData)) (clock : nat -> Instant)
    co (client_id : string) (data : bytes) : Coordinator * list effect :=
  let co1 := inc_messages co in
  match decode data with
  | Err _ => (co1, [])
  | Ok msg =>
      match Proto.msg_payload msg with
      | None => (co1, [])
      | Some (Proto.PVote vote) =>
          handle_vote hex_encode clock co1 (Proto.vote_instance_id vote)
            (Proto.vote_chain_id vote) (Proto.vote_vote vote)
      | Some (Proto.PXtRequest xt_req) => handle_xt_request (clock 0%nat) co1 xt_req
      | Some (Proto.PPing ping) => handle_ping co1 client_id (Proto.ping_timestamp ping)
      | Some (Proto.PHandshakeRequest req) => handle_handshake co1 client_id req
      | Some (Proto.PMailboxMessage mb) => handle_mailbox_relay co1 mb
      | Some (Proto.PProof proof) => handle_proof order (clock 0%nat) co1 client_id proof
      | Some _ => (co1, [])
      end
  end.

End dispatch.

(** ** Chain ids: round trip *)

Definition starts_with_digit (s : string) : bool :=
  match s with String c _ => is_ascii_digit c | EmptyString => false end.

Lemma take_digits_app s1 s2 :
  all_digits s1 = true -> starts_with_digit s2 = false -> take_digits (s1 +:+ s2) = s1.
Proof.
  intros H1 H2. induction s1 as [|c s1 IH]; cbn [all_digits] in H1.
  - change ("" +:+ s2) with s2. destruct s2 as [|c s2]; [done|]. cbn in *. by rewrite H2.
  - apply andb_true_iff in H1 as [Hc H1]. change (String c s1 +:+ s2) with (String c (s1 +:+ s2)).
    cbn. by rewrite Hc, IH.
Qed.

Lemma all_digits_take_digits s : all_digits (take_digits s) = true.
Proof.
  induction s as [|c s IH]; [done|]. cbn. destruct (is_ascii_digit c) eqn:Hc; [|done].
  cbn. by rewrite Hc.
Qed.

Lemma parse_u64_digits c s :
  is_ascii_digit c = true -> parse_u64 (String c s) = parse_digits (String c s) 0.
Proof. intros Hc. unfold parse_u64. case_decide; [by subst|done]. Qed.

(** Client names: a decimal chain id followed by anything that does not go on with a
    digit is read back exactly, over the whole range of [u64]; a name that starts with no
    digit is refused; and whatever is accepted is in range, longer digit strings being
    refused and never truncated. *)
Theorem parse_chain_id_roundtrip n suffix s m :
  u64_ok n -> starts_with_digit suffix = false ->
  parse_chain_id (u64_to_string n +:+ suffix) = Ok n /\
  parse_chain_id suffix = Err (mk_ParseChainIdError suffix) /\
  (parse_chain_id s = Ok m -> u64_ok m).
Proof.
  intros Hn Hs. split_and!.
  - unfold parse_chain_id. rewrite take_digits_app by (done || apply all_digits_u64_to_string).
    destruct (u64_to_string_nonempty n Hn) as (c & t & Hct).
    pose proof (all_digits_u64_to_string n) as Hd. rewrite Hct in Hd. cbn in Hd.
    apply andb_true_iff in Hd as [Hc _]. rewrite Hct, parse_u64_digits by done.
    by rewrite <- Hct, parse_digits_u64_to_string.
  - unfold parse_chain_id. destruct suffix as [|c t]; [done|]. cbn in *. by rewrite Hs.
  - unfold parse_chain_id. destruct (take_digits s) as [|c t] eqn:E; [done|].
    pose proof (all_digits_take_digits s) as Hd. rewrite E in Hd. cbn in Hd.
    apply andb_true_iff in Hd as [Hc _]. rewrite parse_u64_digits by done.
    destruct (parse_digits (String c t) 0) as [k|] eqn:Hp; [|done]. intros [= ->].
    eapply parse_digits_ok; [|exact Hp]. by vm_compute.
Qed.

Lemma parse_chain_id_roundtrip_witness :
  parse_chain_id (u64_to_string 88888 +:+ "-sidecar") = Ok 88888 /\
  parse_chain_id "-sidecar" = Err (mk_ParseChainIdError "-sidecar") /\
  (parse_chain_id "18446744073709551616" = Ok 0 -> u64_ok 0).
Proof.
  apply (parse_chain_id_roundtrip 88888 "-sidecar" "18446744073709551616" 0); [by_compute|done].
Defined.

(** ** Handlers are sequences of critical sections *)

Definition broadcasts (effs : list effect) : list bytes :=
  omap (fun e => match e with BroadcastRaw d _ => Some d | _ => None end) effs.

Definition submissions (effs : list effect) : list Z :=
  omap (fun e => match e with SpawnSubmit n _ => Some n | _ => None end) effs.

Arguments broadcasts effs : simpl never.
Arguments submissions effs : simpl never.

Section sections.
Context `{Sha2, ProstMessage, Requests}.
Context (hex_encode : bytes -> string).
Implicit Types (co : Coordinator) (w : coord_world).

(** [l] takes [w] to the coordinator's new state, with what it broadcast and spawned. *)
Definition runs_as (l : list section) w (r : Coordinator * list effect) : Prop :=
  sections_ok hex_encode l w /\
  let w' := exec_all hex_encode l w in
  cw_state w' = co_state r.1 /\
  cw_sent w' = reverse (broadcasts r.2) ++ cw_sent w /\
  cw_submissions w' = reverse (submissions r.2) ++ cw_submissions w.

Lemma runs_as_nil w co effs :
  cw_state w = co_state co -> broadcasts effs = [] -> submissions effs = [] ->
  runs_as [] w (co, effs).
Proof. intros Hst Hb Hs. split; [done|]. cbn. by rewrite Hb, Hs. Qed.

(** The handler's outcome [r] is a run of sections, at most [k] more than it has effects. *)
Definition amounts_to (k : nat) w (r : Coordinator * list effect) : Prop :=
  exists l, runs_as l w r /\ (length l <= k + length r.2)%nat.

Lemma amounts_to_nil k w co effs :
  cw_state w = co_state co -> broadcasts effs = [] -> submissions effs = [] ->
  amounts_to k w (co, effs).
Proof. intros. exists []. split; [by apply runs_as_nil|cbn; lia]. Qed.

Lemma amounts_to_one s w r : runs_as [s] w r -> amounts_to 1 w r.
Proof. intros. exists [s]. split; [done|cbn; lia]. Qed.

(** Sequential composition. *)
Lemma runs_as_cons s l w co effs co1 effs1 :
  runs_as [s] w (co1, effs1) -> runs_as l (exec hex_encode s w) (co, effs) ->
  runs_as (s :: l) w (co, effs1 ++ effs).
Proof.
  intros [[Hs _] (L1 & L2 & L3)] [Hl (K1 & K2 & K3)]. cbn in L1, L2, L3.
  split; [done|]. change (exec_all hex_encode (s :: l) w)
    with (exec_all hex_encode l (exec hex_encode s w)). cbn [fst snd] in *.
  unfold broadcasts, submissions in *.
  rewrite K1, K2, K3, L2, L3, !omap_app, !reverse_app, !app_assoc. done.
Qed.

Lemma drain_one_exec now w st' data :
  drain_one now (cw_state w) = Some (st', data) ->
  cw_state (exec hex_encode (SDrain now) w) = st' /\
  cw_sent (exec hex_encode (SDrain now) w) = data :: cw_sent w /\
  cw_submissions (exec hex_encode (SDrain now) w) = cw_submissions w.
Proof.
  destruct w as [st h sent subs]. cbn -[drain_one]. intros Hd.
  assert (exists st0 e, take_next_ready st = (st0, Some e)) as (st0 & e & ->).
  { unfold drain_one in Hd. destruct (take_next_ready st) as [st0 [e|]]; [eauto|done]. }
  by rewrite Hd.
Qed.

Lemma drain_loop_sections fuel clock co w :
  cw_state w = co_state co ->
  exists l, runs_as l w (drain_loop fuel clock co) /\ length l = length (drain_loop fuel clock co).2.
Proof.
  revert clock co w. induction fuel as [|fuel IH]; intros clock co w Hst; cbn [drain_loop].
  { exists []. split; [by apply runs_as_nil|done]. }
  rewrite <- Hst. destruct (drain_one (clock 0%nat) (cw_state w)) as [[st' data]|] eqn:Hd.
  - apply drain_one_exec in Hd as (L1 & L2 & L3).
    set (co1 := metric_inc XtStarted (inc_broadcasts (with_state st' co))).
    destruct (IH (fun n => clock (S n)) co1 (exec hex_encode (SDrain (clock 0%nat)) w))
      as (l & Hl & Hlen); [done|].
    destruct (drain_loop fuel _ co1) as [co2 effs]. exists (SDrain (clock 0%nat) :: l).
    split; [|by cbn in *; rewrite Hlen].
    apply (runs_as_cons _ _ _ _ _ co1 [BroadcastRaw data ""]); [|done].
    split; [done|]. cbn. by rewrite L1, L2, L3.
  - exists []. split; [by apply runs_as_nil|done].
Qed.

Lemma handle_vote_sections clock co iid c v w :
  cw_state w = co_state co -> amounts_to 1 w (handle_vote hex_encode clock co iid c v).
Proof.
  intros Hst. destruct w as [st h sent subs]. cbn in Hst. subst st. unfold handle_vote.
  destruct (record_vote (clock 0%nat) (co_state co) (hex_encode iid) iid c v)
    as [st' [[[d latency] data]|]] eqn:Hr.
  - set (co3 := inc_broadcasts _). set (w := mk_world (co_state co) h sent subs).
    destruct (drain_loop_sections (S (length (cs_pending_queue (co_state co3))))
      (fun n => clock (S n)) co3 (exec hex_encode (SVote (clock 0%nat) iid c v) w))
      as (l & Hl & Hlen).
    { unfold w. cbn -[record_vote]. by rewrite Hr. }
    unfold drain_queue. destruct (drain_loop _ _ co3) as [co4 effs].
    exists (SVote (clock 0%nat) iid c v :: l). split; [|cbn in *; lia].
    apply (runs_as_cons _ _ _ _ _ co3 [BroadcastRaw data ""]); [|done].
    split; [done|]. unfold w. cbn -[record_vote]. by rewrite Hr.
  - apply (amounts_to_one (SVote (clock 0%nat) iid c v)). split; [done|].
    cbn -[record_vote]. by rewrite Hr.
Qed.

Lemma handle_xt_request_sections now co req w :
  cw_state w = co_state co -> admissible req ->
  amounts_to 1 w (handle_xt_request now co req).
Proof.
  intros Hst Hwf. destruct w as [st h sent subs]. cbn in Hst. subst st.
  apply (amounts_to_one (SAdmit now req)). split; [done|]. cbn -[admit_xt Nat.ltb]. unfold handle_xt_request.
  destruct (length (extract_chains req) <? 2)%nat; [done|].
  destruct (admit_xt now (co_state co) req (extract_chains req)) as [st' [| |data]]; done.
Qed.

Lemma receive_proof_sections order now co sb c data w :
  cw_state w = co_state co -> iter_ok order ->
  runs_as [SProof now sb c data order (co_has_l1_submitter co)] w
    (receive_proof order now co sb c data).
Proof.
  intros Hst Hord. destruct w as [st h sent subs]. cbn in Hst. subst st. split; [done|].
  cbn -[collect_proof]. unfold receive_proof.
  destruct (collect_proof now (co_state co) sb c data) as [st' [[n proofs]|]]; [|done].
  destruct (validate_mailbox_consistency (order proofs)); [|done].
  by destruct (co_has_l1_submitter co).
Qed.

Lemma handle_proof_sections order now co client proof w :
  cw_state w = co_state co -> iter_ok order ->
  amounts_to 1 w (handle_proof order now co client proof).
Proof.
  intros Hst Hord. unfold handle_proof. destruct (chain_for_client co client) as [c|];
    [eauto using amounts_to_one, receive_proof_sections|by apply amounts_to_nil].
Qed.

Lemma dispatch_is_sections_lemma order clock co client data w :
  cw_state w = co_state co -> iter_ok order ->
  (forall m r, decode data = Ok m -> Proto.msg_payload m = Some (Proto.PXtRequest r) ->
     admissible r) ->
  exists l, runs_as l w (dispatch hex_encode order clock co client data) /\
    (length l <= 1 + length (dispatch hex_encode order clock co client data).2)%nat.
Proof.
  intros Hst Hord Hwire. change (co_state co) with (co_state (inc_messages co)) in Hst.
  change (amounts_to 1 w (dispatch hex_encode order clock co client data)).
  unfold dispatch. destruct (decode data) as [[sender [payload|]]|e]; cbn [Proto.msg_payload];
    [|by apply amounts_to_nil..].
  destruct payload; try by apply amounts_to_nil.
  - destruct w as [st h sent subs]. cbn in Hst. unfold handle_handshake.
    destruct (Proto.hsr_client_id m) as [|a s]; [by apply amounts_to_nil|].
    destruct (parse_chain_id (String a s)) as [chain|]; [|by apply amounts_to_nil].
    apply (amounts_to_one (SRegister client chain)). split; [done|]. cbn. by rewrite Hst.
  - apply handle_xt_request_sections; [done|]. by eapply Hwire.
  - by apply handle_vote_sections.
  - unfold handle_mailbox_relay. destruct (_ !! _); by apply amounts_to_nil.
  - by apply handle_proof_sections.
Qed.

(** Every inbound frame, whoever sends it and whatever it contains, amounts to a
    sequence of the critical sections above, taking the world to the coordinator's new
    state with exactly the broadcasts and L1 submissions the handler produced, in order.
    So the theorems on runs hold of any interleaving of dispatched messages. There is at
    most one section more than there are effects. *)
Theorem dispatch_is_sections order clock co client data w :
  cw_state w = co_state co -> iter_ok order ->
  (forall m r, decode data = Ok m -> Proto.msg_payload m = Some (Proto.PXtRequest r) ->
     admissible r) ->
  exists l, runs_as l w (dispatch hex_encode order clock co client data) /\
    (length l <= 1 + length (dispatch hex_encode order clock co client data).2)%nat.
Proof. apply dispatch_is_sections_lemma. Qed.

End sections.

Definition demo_frame : bytes :=
  @encode_to_vec prost_codec (Proto.mk_Message "1-sidecar" (Some (Proto.PXtRequest demo_req))).

Lemma dispatch_is_sections_witness :
  let r := @dispatch prefix_sha256 prost_codec hex_string map_to_list (fun _ => 0)
    (Coordinator_new None 5 9) "1-sidecar" demo_frame in
  exists l, @runs_as prefix_sha256 prost_codec all_requests hex_string l world_init r /\
    (length l <= 1 + length r.2)%nat.
Proof.
  apply (dispatch_is_sections (H := prefix_sha256) (H0 := prost_codec) (H1 := all_requests) hex_string map_to_list
           (fun _ => 0) (Coordinator_new None 5 9) "1-sidecar" demo_frame world_init).
  - reflexivity.
  - intros m. reflexivity.
  - intros m r Hdec Hp. unfold demo_frame in Hdec.
    rewrite (@prost_decode_encode prost_codec prost_codec_laws) in Hdec
      by (split; [reflexivity|by_compute]).
    injection Hdec as <-. injection Hp as <-. split; [by_compute|done].
Defined.
