(* ===== verification/NetAddr.v ===== *)
(** * Socket addresses

    [QuicServer::start] reads its listen address with [SocketAddr::from_str] of the standard
    library: a recursive-descent parser without backtracking over what a sub-parser has
    consumed, except that a failed sub-parser leaves the input where it was. Parsers are
    functions to the value and the rest of the input. *)
From Stdlib Require Import ZArith Lia.
From S2P Require Import Prelude.

Inductive SocketAddr :=
| V4 (octets : list Z) (port : Z)
| V6 (segments : list Z) (port scope_id : Z).

Definition is_ipv6 (a : SocketAddr) : bool := match a with V4 _ _ => false | V6 _ _ _ => true end.

Abbreviation parser A := (string -> option (A * string)) (only parsing).

(** [char::to_digit] for the radixes 10 and 16. *)
Definition to_digit (radix : Z) (c : ascii) : option Z :=
  let n := Z.of_N (Ascii.N_of_ascii c) in
  let d :=
    if (48 <=? n) && (n <=? 57) then n - 48
    else if (97 <=? n) && (n <=? 102) then n - 87
    else if (65 <=? n) && (n <=? 70) then n - 55
    else radix in
  if d <? radix then Some d else None.

(** The longest run of digits. *)
Fixpoint read_digits (radix : Z) (s : string) : list Z * string :=
  match s with
  | String c s' =>
      match to_digit radix c with
      | Some d => let '(ds, rest) := read_digits radix s' in (d :: ds, rest)
      | None => ([], s)
      end
  | EmptyString => ([], s)
  end.

Definition digits_value (radix acc : Z) (ds : list Z) : Z :=
  foldl (fun a d => a * radix + d) acc ds.

(** [read_number]: the digits, at most [max_digits] of them, without superfluous leading
    zero unless allowed, below [bound]. *)
Definition read_number (radix : Z) (max_digits : option nat) (allow_zero_prefix : bool) (bound : Z)
    : parser Z := fun s =>
  let '(ds, rest) := read_digits radix s in
  let n := digits_value radix 0 ds in
  if match max_digits with Some m => (m <? length ds)%nat | None => false end then None
  else
    match ds with
    | [] => None
    | d :: ds' =>
        if negb allow_zero_prefix && (d =? 0) && negb (bool_decide (ds' = [])) then None
        else if n <? bound then Some (n, rest) else None
    end.

Definition read_given_char (c : ascii) : parser unit := fun s =>
  match s with
  | String c' s' => if decide (c' = c) then Some ((), s') else None
  | EmptyString => None
  end.

(** The separator comes before every element but the first. *)
Definition read_separator {A} (sep : ascii) (index : nat) (inner : parser A) : parser A := fun s =>
  match index with
  | O => inner s
  | S _ => '(_, s') ← read_given_char sep s; inner s'
  end.

Definition u8_bound : Z := 2 ^ 8.
Definition u16_bound : Z := 2 ^ 16.

Fixpoint read_octets (n index : nat) : parser (list Z) := fun s =>
  match n with
  | O => Some ([], s)
  | S n' =>
      '(o, s1) ← read_separator "." index (read_number 10 (Some 3%nat) false u8_bound) s;
      '(os, s2) ← read_octets n' (S index) s1;
      Some (o :: os, s2)
  end.

Definition read_ipv4_addr : parser (list Z) := read_octets 4 0.

(** The groups read, and whether they end in an embedded IPv4 address. *)
Fixpoint read_groups (left index : nat) (s : string) : list Z * bool * string :=
  match left with
  | O => ([], false, s)
  | S left' =>
      let ipv4 := if (0 <? left')%nat then read_separator ":" index read_ipv4_addr s else None in
      match ipv4 with
      | Some ([a; b; c; d], s') => ([a * 256 + b; c * 256 + d], true, s')
      | _ =>
          match read_separator ":" index (read_number 16 (Some 4%nat) true u16_bound) s with
          | Some (g, s') =>
              let '(gs, v4, s'') := read_groups left' (S index) s' in (g :: gs, v4, s'')
          | None => ([], false, s)
          end
      end
  end.

Definition read_ipv6_addr : parser (list Z) := fun s =>
  let '(head, head_ipv4, s1) := read_groups 8 0 s in
  if decide (length head = 8%nat) then Some (head, s1)
  else if head_ipv4 : bool then None
  else
    '(_, s2) ← read_given_char ":" s1;
    '(_, s3) ← read_given_char ":" s2;
    let '(tail, _, s4) := read_groups (8 - (length head + 1)) 0 s3 in
    Some (head ++ replicate (8 - length head - length tail) 0 ++ tail, s4).

Definition read_port : parser Z := fun s =>
  '(_, s1) ← read_given_char ":" s; read_number 10 None true u16_bound s1.

Definition read_scope_id : parser Z := fun s =>
  '(_, s1) ← read_given_char "%" s; read_number 10 None true u32_modulus s1.

Definition read_socket_addr_v4 : parser SocketAddr := fun s =>
  '(ip, s1) ← read_ipv4_addr s; '(port, s2) ← read_port s1; Some (V4 ip port, s2).

Definition read_socket_addr_v6 : parser SocketAddr := fun s =>
  '(_, s1) ← read_given_char "[" s;
  '(ip, s2) ← read_ipv6_addr s1;
  let '(scope, s3) := default (0, s2) (read_scope_id s2) in
  '(_, s4) ← read_given_char "]" s3;
  '(port, s5) ← read_port s4;
  Some (V6 ip port scope, s5).

Definition AddrParseError : string := "invalid socket address syntax".

(** [SocketAddr::from_str]: the whole input must be read. *)
Definition parse_socket_addr (s : string) : result SocketAddr string :=
  let r := match read_socket_addr_v4 s with Some x => Some x | None => read_socket_addr_v6 s end in
  match r with
  | Some (a, EmptyString) => Ok a
  | _ => Err AddrParseError
  end.

(** ** Lemmas *)

Lemma to_digit_10 c : is_ascii_digit c = true -> to_digit 10 c = Some (digit_value c).
Proof. destruct c as [[] [] [] [] [] [] [] []]; intros H; try discriminate H; reflexivity. Qed.

Lemma read_digits_decimal s acc n :
  parse_digits s acc = Some n ->
  exists ds, read_digits 10 s = (ds, ""%string) /\ digits_value 10 acc ds = n /\
    (s <> ""%string -> ds <> []).
Proof.
  revert acc. induction s as [|c s IH]; intros acc; cbn [parse_digits read_digits].
  - intros [= <-]. by exists [].
  - destruct (is_ascii_digit c) eqn:Hd; [|done]. rewrite to_digit_10 by done.
    destruct (_ <? _); [|done]. intros (ds & -> & Hv & _)%IH.
    exists (digit_value c :: ds). done.
Qed.

(** Any [u16] port is read. *)
Lemma read_port_decimal n :
  0 <= n < u16_bound -> read_port (":" +:+ u64_to_string n) = Some (n, ""%string).
Proof.
  intros Hn. assert (u64_ok n) as Hok by (unfold u64_ok, u64_modulus, u16_bound in *; lia).
  destruct (read_digits_decimal _ _ _ (parse_digits_u64_to_string n Hok)) as (ds & Hr & Hv & Hne).
  change (":" +:+ u64_to_string n) with (String ":" (u64_to_string n)).
  unfold read_port. cbn [read_given_char]. rewrite decide_True by done. cbn [mbind option_bind].
  unfold read_number. rewrite Hr, Hv.
  destruct ds as [|d ds]; [|cbn [negb andb]; by rewrite (proj2 (Z.ltb_lt _ _)) by lia].
  destruct (u64_to_string_nonempty n Hok) as (c & t & E). rewrite E in Hne. by destruct Hne.
Qed.

(** The unspecified host with a port. *)
Lemma parse_any_host n :
  0 <= n < u16_bound -> parse_socket_addr ("0.0.0.0:" +:+ u64_to_string n) = Ok (V4 [0; 0; 0; 0] n).
Proof.
  intros Hn. unfold parse_socket_addr, read_socket_addr_v4.
  change ("0.0.0.0:" +:+ u64_to_string n) with ("0.0.0.0" +:+ (":" +:+ u64_to_string n)).
  assert (forall t, read_ipv4_addr ("0.0.0.0" +:+ (":" +:+ t)) = Some ([0; 0; 0; 0], ":" +:+ t)) as ->
    by by intros t.
  cbn [mbind option_bind]. by rewrite read_port_decimal.
Qed.

(** An address without a host is no socket address. *)
Lemma parse_no_host s : parse_socket_addr (String ":" s) = Err AddrParseError.
Proof. reflexivity. Qed.
