(* ===== verification/Framing.v ===== *)
(** * Length-prefixed frames ([crates/transport/src/framing.rs], [error.rs])

    The buffer of the [bytes] crate is the parameter [BytesMut], with the documented effect
    of its operations as the class [BytesMutSpec]. *)
From Stdlib Require Import ZArith Lia.
From S2P Require Import Prelude.

(** ** Errors *)

Inductive TransportError :=
| ClientNotFound (client_id : string)
| Tls (msg : string)
| Quic (msg : string)
| MessageTooLarge (size max : Z)
| Io (msg : string)
| Other (msg : string).

Definition TransportError_to_string (e : TransportError) : string :=
  match e with
  | ClientNotFound c => "client not found: " +:+ c
  | Tls m => "TLS error: " +:+ m
  | Quic m => "QUIC error: " +:+ m
  | MessageTooLarge size max =>
      "message too large: " +:+ u64_to_string size +:+ " > " +:+ u64_to_string max
  | Io m => "io error: " +:+ m
  | Other m => m
  end.

(** ** Buffers *)

Class BytesMut := {
  buf : Type;
  with_capacity : Z -> buf;
  put_u32 : buf -> Z -> buf;
  put_slice : buf -> bytes -> buf;
  freeze : buf -> bytes;
}.

(** [put_u32] appends four bytes, the most significant first. *)
Class BytesMutSpec `{BytesMut} : Prop := {
  freeze_with_capacity n : freeze (with_capacity n) = [];
  freeze_put_u32 b n : freeze (put_u32 b n) = freeze b ++ be_bytes 4 n;
  freeze_put_slice b s : freeze (put_slice b s) = freeze b ++ s;
}.

#[export] Instance list_buf : BytesMut := {|
  buf := bytes;
  with_capacity _ := [];
  put_u32 b n := b ++ be_bytes 4 n;
  put_slice b s := b ++ s;
  freeze b := b |}.

Lemma list_buf_spec : @BytesMutSpec list_buf.
Proof. by split. Qed.

(** ** The codec *)

Record LengthPrefixCodec := mk_LengthPrefixCodec { max_message_size : Z }.

Definition LengthPrefixCodec_new (max_message_size : Z) : LengthPrefixCodec :=
  mk_LengthPrefixCodec max_message_size.

Definition LengthPrefixCodec_default : LengthPrefixCodec :=
  LengthPrefixCodec_new (4 * 1024 * 1024).

Definition len (payload : bytes) : Z := Z.of_nat (length payload).

Definition encode_frame `{BytesMut} (codec : LengthPrefixCodec) (payload : bytes)
    : result bytes TransportError :=
  if max_message_size codec <? len payload then
    Err (MessageTooLarge (len payload) (max_message_size codec))
  else
    let b := with_capacity (4 + len payload) in
    let b := put_u32 b (as_u32 (len payload)) in
    let b := put_slice b payload in
    Ok (freeze b).

(** [header] is an array of four bytes. *)
Definition decode_length (codec : LengthPrefixCodec) (header : bytes) : result Z TransportError :=
  let len := be_value header in
  if max_message_size codec <? len then
    Err (MessageTooLarge len (max_message_size codec))
  else Ok len.

(** ** Theorems *)

Section framing.
Context `{BytesMutSpec}.
Implicit Types (codec : LengthPrefixCodec) (payload : bytes).

Lemma encode_frame_ok codec payload :
  len payload <= max_message_size codec ->
  encode_frame codec payload = Ok (be_bytes 4 (as_u32 (len payload)) ++ payload).
Proof.
  intros Hle. unfold encode_frame. rewrite (proj2 (Z.ltb_ge _ _)) by done.
  by rewrite freeze_put_slice, freeze_put_u32, freeze_with_capacity.
Qed.

Lemma be_value_as_u32 n : be_value (be_bytes 4 (as_u32 n)) = as_u32 n.
Proof.
  rewrite be_value_bytes. apply Z.mod_small. apply Z.mod_pos_bound. done.
Qed.

(** C35. Frames: under a limit below 4 GiB every payload within the limit is framed, its
    header is accepted by the receiver and gives exactly the payload's length, and the rest
    of the frame is the payload; every payload beyond the limit is refused with its size,
    and so is every header that announces more than the limit. *)
Theorem frame_roundtrip codec payload header :
  0 <= max_message_size codec < u32_modulus ->
  (len payload <= max_message_size codec ->
   exists frame, encode_frame codec payload = Ok frame /\
     length (take 4 frame) = 4%nat /\
     decode_length codec (take 4 frame) = Ok (len payload) /\
     drop 4 frame = payload) /\
  (max_message_size codec < len payload ->
   encode_frame codec payload = Err (MessageTooLarge (len payload) (max_message_size codec))) /\
  (max_message_size codec < be_value header ->
   decode_length codec header = Err (MessageTooLarge (be_value header) (max_message_size codec))).
Proof.
  intros [Hpos Hmax]. split_and!.
  - intros Hle. exists (be_bytes 4 (as_u32 (len payload)) ++ payload).
    assert (length (be_bytes 4 (as_u32 (len payload))) = 4%nat) as H4 by apply length_be_bytes.
    split_and!; [by apply encode_frame_ok|..].
    + rewrite take_app_length' by done. done.
    + rewrite take_app_length' by done. unfold decode_length.
      rewrite be_value_as_u32. unfold as_u32. rewrite Z.mod_small by (unfold len in *; lia).
      by rewrite (proj2 (Z.ltb_ge _ _)).
    + by rewrite drop_app_length' by done.
  - intros Hlt. unfold encode_frame. by rewrite (proj2 (Z.ltb_lt _ _)).
  - intros Hlt. unfold decode_length. by rewrite (proj2 (Z.ltb_lt _ _)).
Qed.

(** The header has 32 bits: with a limit of 4 GiB or more, a payload within the limit
    but longer than 4 GiB is framed without error under its length modulo 2^32, and the
    receiver reads a truncated message. *)
Theorem frame_header_truncates codec payload :
  u32_modulus <= len payload <= max_message_size codec ->
  exists frame, encode_frame codec payload = Ok frame /\
    decode_length codec (take 4 frame) = Ok (len payload mod u32_modulus) /\
    len payload mod u32_modulus < len payload.
Proof.
  intros [Hlo Hhi]. exists (be_bytes 4 (as_u32 (len payload)) ++ payload).
  assert (0 <= len payload mod u32_modulus < u32_modulus) by by apply Z.mod_pos_bound.
  split_and!; [by apply encode_frame_ok| |lia].
  rewrite take_app_length' by (by rewrite length_be_bytes). unfold decode_length.
  rewrite be_value_as_u32. unfold as_u32. rewrite (proj2 (Z.ltb_ge _ _)); [done|lia].
Qed.

End framing.

Lemma frame_roundtrip_witness :
  exists frame, encode_frame LengthPrefixCodec_default [x68; x69] = Ok frame /\
    length (take 4 frame) = 4%nat /\
    decode_length LengthPrefixCodec_default (take 4 frame) = Ok 2 /\
    drop 4 frame = [x68; x69].
Proof.
  apply (frame_roundtrip (H0 := list_buf_spec) LengthPrefixCodec_default [x68; x69] []);
    [by_compute|by_compute].
Defined.

Lemma frame_header_truncates_witness :
  let payload := replicate (Z.to_nat u32_modulus) x00 in
  exists frame, encode_frame (LengthPrefixCodec_new u64_max) payload = Ok frame /\
    decode_length (LengthPrefixCodec_new u64_max) (take 4 frame) =
      Ok (len payload mod u32_modulus) /\
    len payload mod u32_modulus < len payload.
Proof.
  apply (frame_header_truncates (H0 := list_buf_spec)). unfold len.
  rewrite length_replicate, Z2Nat.id by done. split; [lia|done].
Defined.
