(* ===== verification/Transport.v ===== *)
(** * The QUIC server ([crates/transport/src/server.rs])

    [quinn] is outside the sources: a connection is known by its [stable_id], a stream by
    what [read_exact] returns on it, sending by the outcome of [open_uni], [write_all] and
    [finish]. Each accepted connection is served by a task running [handle_connection];
    tasks interleave at the registry's lock, so the server is a step relation over the
    registry and the tasks, with the callbacks and deliveries they made. *)
From Stdlib Require Import ZArith Lia.
From S2P Require Import Prelude Utf8 Framing.

(** [quinn::Connection::stable_id]. *)
Abbreviation Connection := Z (only parsing).

Abbreviation ConnectionRegistry := (gmap string Z) (only parsing).

(** ** Reading frames *)

(** [RecvStream::read_exact]. *)
Class RecvStream := {
  stream : Type;
  read_exact : stream -> Z -> result (bytes * stream) string;
}.

Inductive FrameError :=
| HeaderRead (e : string)
| FrameLength (e : TransportError)
| PayloadRead (e : string).

(** Header, length check, payload: the reads of one frame. *)
Definition read_frame `{RecvStream} (codec : LengthPrefixCodec) (recv : stream)
    : result bytes FrameError :=
  match read_exact recv 4 with
  | Err e => Err (HeaderRead e)
  | Ok (header, recv') =>
      match decode_length codec header with
      | Err e => Err (FrameLength e)
      | Ok len =>
          match read_exact recv' len with
          | Err e => Err (PayloadRead e)
          | Ok (payload, _) => Ok payload
          end
      end
  end.

(** [String::from_utf8] is applied to the first frame. *)
Definition read_client_id `{RecvStream} (codec : LengthPrefixCodec) (recv : stream)
    : result string TransportError :=
  match read_frame codec recv with
  | Err (HeaderRead e) | Err (PayloadRead e) => Err (Quic e)
  | Err (FrameLength e) => Err e
  | Ok id_buf =>
      match from_utf8 id_buf with
      | Some client_id => Ok client_id
      | None => Err (Other "invalid UTF-8 in client ID")
      end
  end.

(** A stream that holds [data] and then ends. *)
Definition byte_stream : RecvStream := {|
  stream := bytes;
  read_exact s n :=
    if n <=? len s then Ok (take (Z.to_nat n) s, drop (Z.to_nat n) s)
    else Err "stream finished early" |}.

(** ** Connections *)

(** What the tasks and the callbacks have done. *)
Record transport_world := mk_tw {
  tw_registry : ConnectionRegistry;
  tw_tasks : gmap Z string;
  tw_closed : list Connection;
  tw_gauge : Z;
  tw_delivered : list (string * bytes);
}.

Definition tw_init : transport_world := mk_tw ∅ ∅ [] 0 [].

(** The first critical section: the connection replaces the client's previous one, which
    is closed; then [on_connect] counts it. *)
Definition connect (client_id : string) (conn : Connection) (w : transport_world)
    : transport_world :=
  let closed :=
    match tw_registry w !! client_id with
    | Some old => old :: tw_closed w
    | None => tw_closed w
    end in
  mk_tw (<[client_id := conn]> (tw_registry w)) (<[conn := client_id]> (tw_tasks w)) closed
    (tw_gauge w + 1) (tw_delivered w).

(** One pass of the loop: a frame read in full is handed to [on_message], any failure is
    logged and the loop goes on. *)
Definition serve_stream `{RecvStream} (codec : LengthPrefixCodec) (client_id : string)
    (recv : stream) (w : transport_world) : transport_world :=
  match read_frame codec recv with
  | Ok payload =>
      mk_tw (tw_registry w) (tw_tasks w) (tw_closed w) (tw_gauge w)
        ((client_id, payload) :: tw_delivered w)
  | Err _ => w
  end.

(** The second critical section, after the loop: the registry entry goes only if it is
    still this connection's; then [on_disconnect]. *)
Definition disconnect (client_id : string) (conn : Connection) (w : transport_world)
    : transport_world :=
  let registry :=
    match tw_registry w !! client_id with
    | Some stored => if decide (stored = conn) then delete client_id (tw_registry w) else tw_registry w
    | None => tw_registry w
    end in
  mk_tw registry (delete conn (tw_tasks w)) (tw_closed w) (tw_gauge w - 1) (tw_delivered w).

Inductive transport_step `{RecvStream} (codec : LengthPrefixCodec) (w : transport_world)
    : transport_world -> Prop :=
| ts_connect client_id conn :
    tw_tasks w !! conn = None -> transport_step codec w (connect client_id conn w)
| ts_stream client_id conn recv :
    tw_tasks w !! conn = Some client_id ->
    transport_step codec w (serve_stream codec client_id recv w)
| ts_disconnect client_id conn :
    tw_tasks w !! conn = Some client_id -> transport_step codec w (disconnect client_id conn w).

Definition connection_count (registry : ConnectionRegistry) : nat := size registry.

(** ** Sending *)

Section sending.
Context `{BytesMut}.
(** The outcome of opening, writing and finishing a unidirectional stream. *)
Context (open_uni : Connection -> result unit string).
Context (write_and_finish : Connection -> bytes -> result unit string).

Definition send_frame (conn : Connection) (codec : LengthPrefixCodec) (data : bytes)
    : result unit TransportError :=
  match open_uni conn with
  | Err e => Err (Quic e)
  | Ok _ =>
      match encode_frame codec data with
      | Err e => Err e
      | Ok frame =>
          match write_and_finish conn frame with
          | Err e => Err (Quic e)
          | Ok _ => Ok ()
          end
      end
  end.

Definition send_raw (codec : LengthPrefixCodec) (registry : ConnectionRegistry)
    (client_id : string) (data : bytes) : result unit TransportError :=
  match registry !! client_id with
  | None => Err (ClientNotFound client_id)
  | Some conn => send_frame conn codec data
  end.

(** The attempts of a broadcast, in the registry's iteration order, and its result. *)
Definition broadcast_raw (order : gmap string Z -> list (string * Z)) (codec : LengthPrefixCodec)
    (registry : ConnectionRegistry) (data : bytes) (exclude : string)
    : list (string * result unit TransportError) * result unit TransportError :=
  let connections := filter (fun ic => ic.1 <> exclude) (order registry) in
  ((fun ic => (ic.1, send_frame ic.2 codec data)) <$> connections, Ok ()).

End sending.

(** ** Theorems *)

(** A receiver reads the frame of a payload within its limit, and refuses any other. *)
Lemma read_frame_encoded (codec : LengthPrefixCodec) (payload rest : bytes) :
  len payload < u32_modulus ->
  read_frame (H := byte_stream) codec (be_bytes 4 (as_u32 (len payload)) ++ payload ++ rest) =
    if max_message_size codec <? len payload
    then Err (FrameLength (MessageTooLarge (len payload) (max_message_size codec)))
    else Ok payload.
Proof.
  intros Hu32. unfold read_frame. cbn [read_exact byte_stream].
  assert (length (be_bytes 4 (as_u32 (len payload))) = 4%nat) as H4 by apply length_be_bytes.
  pose proof (be_value_as_u32 (len payload)) as Hval. revert H4 Hval.
  generalize (be_bytes 4 (as_u32 (len payload))). intros hd H4 Hval.
  rewrite (proj2 (Z.leb_le _ _)) by (unfold len; rewrite length_app, H4; lia).
  change (Z.to_nat 4) with 4%nat. rewrite take_app_length', drop_app_length' by done.
  unfold decode_length. rewrite Hval. unfold as_u32.
  rewrite Z.mod_small by (unfold len in *; lia). destruct (_ <? _); [done|].
  rewrite (proj2 (Z.leb_le _ _)) by (unfold len; rewrite length_app; lia).
  rewrite take_app_length'; [done|]. unfold len. lia.
Qed.

(** What is framed is read as it is by every receiver that accepts its length. *)
Lemma framed_read `{BytesMutSpec} codec receiver payload frame :
  0 <= max_message_size codec < u32_modulus -> encode_frame codec payload = Ok frame ->
  len payload <= max_message_size codec /\
  read_frame (H := byte_stream) receiver frame =
    if max_message_size receiver <? len payload
    then Err (FrameLength (MessageTooLarge (len payload) (max_message_size receiver)))
    else Ok payload.
Proof.
  intros Hmax Henc.
  assert (len payload <= max_message_size codec) as Hle.
  { destruct (Z_lt_le_dec (max_message_size codec) (len payload)) as [Hlt|]; [|done].
    unfold encode_frame in Henc. by rewrite (proj2 (Z.ltb_lt _ _)) in Henc. }
  split; [done|]. rewrite encode_frame_ok in Henc by done. assert (frame = be_bytes 4 (as_u32 (len payload)) ++ payload) as ->
    by congruence.
  rewrite <- (read_frame_encoded receiver payload []) by lia. by rewrite app_nil_r.
Qed.

(** Frames cross the wire: what a client frames with the server's limit is delivered to
    [on_message] unchanged, under the client's id, once, and the registry is not touched. *)
Theorem framed_message_delivered `{BytesMutSpec} codec client_id payload frame w :
  0 <= max_message_size codec < u32_modulus -> encode_frame codec payload = Ok frame ->
  serve_stream (H := byte_stream) codec client_id frame w =
    mk_tw (tw_registry w) (tw_tasks w) (tw_closed w) (tw_gauge w)
      ((client_id, payload) :: tw_delivered w).
Proof.
  intros Hmax Henc. destruct (framed_read codec codec payload frame Hmax Henc) as [Hle Hr].
  rewrite (proj2 (Z.ltb_ge _ _)) in Hr by done.
  unfold serve_stream. by rewrite Hr.
Qed.

Lemma framed_message_delivered_witness :
  tw_delivered (serve_stream (H := byte_stream) LengthPrefixCodec_default "1"
    [x00; x00; x00; x02; x68; x69] tw_init) = [("1", [x68; x69])].
Proof.
  rewrite (framed_message_delivered (H0 := list_buf_spec) LengthPrefixCodec_default "1" [x68; x69]
    [x00; x00; x00; x02; x68; x69] tw_init); [reflexivity|by_compute|reflexivity].
Defined.

(** Entries belong to running tasks; a running task holds its entry or has been closed. *)
Record transport_inv (w : transport_world) : Prop := {
  ti_entry id c : tw_registry w !! id = Some c -> tw_tasks w !! c = Some id;
  ti_task c id : tw_tasks w !! c = Some id -> tw_registry w !! id = Some c \/ c ∈ tw_closed w;
  ti_gauge : tw_gauge w = Z.of_nat (size (tw_tasks w));
}.

Lemma transport_inv_connect w id c :
  transport_inv w -> tw_tasks w !! c = None -> transport_inv (connect id c w).
Proof.
  intros [I1 I2 I3] Hc. split; cbn.
  - intros id' c'. rewrite !lookup_insert. case_decide as Hid.
    + intros [= <-]. by rewrite decide_True, Hid.
    + intros Hreg. rewrite decide_False; [by apply I1|]. intros <-. by rewrite (I1 _ _ Hreg) in Hc.
  - intros c' id'. rewrite !lookup_insert. case_decide as Hcc.
    + intros [= <-]. left. by rewrite decide_True, Hcc.
    + intros Ht. destruct (I2 _ _ Ht) as [Hreg|Hcl].
      * case_decide as Hid; [subst|by left]. right. rewrite Hreg. set_solver.
      * right. destruct (tw_registry w !! id); set_solver.
  - rewrite map_size_insert_None by done. lia.
Qed.

Lemma transport_inv_disconnect w id c :
  transport_inv w -> tw_tasks w !! c = Some id -> transport_inv (disconnect id c w).
Proof.
  intros [I1 I2 I3] Hc.
  assert (forall id', tw_registry (disconnect id c w) !! id' =
    if decide (tw_registry w !! id' = Some c) then None else tw_registry w !! id') as Hreg.
  { assert (forall id', tw_registry w !! id' = Some c -> id' = id) as Hown
      by (intros id' H'%I1; congruence).
    intros id'. cbn. case_decide as Hd.
    - rewrite <- (Hown _ Hd), Hd, decide_True by done. apply lookup_delete_eq.
    - destruct (tw_registry w !! id) as [stored|] eqn:Hs; [|done]. case_decide; [|done]. subst.
      apply lookup_delete_ne. by intros <-. }
  split.
  - intros id' c'. rewrite Hreg. case_decide as Hd; [done|]. intros H'. cbn.
    rewrite lookup_delete_ne; [by apply I1|]. by intros ->.
  - intros c' id'. rewrite Hreg. cbn. rewrite lookup_delete. case_decide; [done|]. intros Ht.
    destruct (I2 _ _ Ht) as [Hr|?]; [left|by right]. rewrite decide_False by congruence. done.
  - cbn. rewrite map_size_delete, Hc. assert (size (tw_tasks w) <> 0%nat).
    { intros Hz. apply map_size_empty_inv in Hz. rewrite Hz in Hc. done. }
    cbn. lia.
Qed.

Lemma serve_stream_inv `{RecvStream} codec client recv w :
  transport_inv w -> transport_inv (serve_stream codec client recv w).
Proof. intros [I1 I2 I3]. unfold serve_stream. by destruct (read_frame codec recv). Qed.

(** C32. The connection registry in every run of the server, however connections come, go
    and replace each other: an entry always names a connection that is being served, for
    that very client; a connection being served either holds its client's entry or was
    closed when another took its place; the gauge is the number of connections served. And
    the end of a replaced connection leaves its replacement registered. *)
Theorem registry_tracks_connections `{RecvStream} codec w :
  rtc (transport_step codec) tw_init w ->
  transport_inv w /\
  (forall id old new, tw_registry w !! id = Some new -> old <> new ->
     tw_registry (disconnect id old w) !! id = Some new).
Proof.
  intros Hrun. split.
  - assert (transport_inv tw_init) as H0 by by split.
    induction Hrun as [|w1 w2 w3 Hstep _ IH]; [done|]. apply IH.
    destruct Hstep; [by apply transport_inv_connect|by apply serve_stream_inv|].
    by apply transport_inv_disconnect.
  - intros id old new Hid Hne. cbn. rewrite Hid. by rewrite decide_False.
Qed.

Lemma registry_tracks_connections_witness :
  let w := connect "1" 11 (connect "1" 10 tw_init) in
  transport_inv w /\
  (forall id old new, tw_registry w !! id = Some new -> old <> new ->
     tw_registry (disconnect id old w) !! id = Some new).
Proof.
  apply (registry_tracks_connections (H := byte_stream) LengthPrefixCodec_default).
  eapply rtc_l; [by apply (ts_connect _ _ "1" 10)|].
  eapply rtc_l; [by apply (ts_connect _ _ "1" 11)|]. apply rtc_refl.
Defined.

(** Broadcasts: a broadcast tries every registered client but the excluded one, each
    exactly once, whatever happens with the others; it always reports success; and when the
    payload exceeds the limit no client can receive it, silently for the caller. *)
Theorem broadcast_reaches_registered `{BytesMut} open_uni write order codec registry data exclude :
  (forall m, order m ≡ₚ map_to_list m) ->
  let '(attempts, r) := broadcast_raw open_uni write order codec registry data exclude in
  r = Ok () /\ NoDup attempts.*1 /\
  (forall id res, (id, res) ∈ attempts <->
     exists conn, registry !! id = Some conn /\ id <> exclude /\
       res = send_frame open_uni write conn codec data) /\
  (max_message_size codec < len data -> Forall (fun a => is_ok a.2 = false) attempts).
Proof.
  intros Hord. cbn. split_and!; [done|..].
  - rewrite <- list_fmap_compose. unfold compose. cbn.
    eapply sublist_NoDup; [|apply fmap_sublist, sublist_filter].
    rewrite (Hord registry). apply NoDup_fst_map_to_list.
  - intros id res. rewrite list_elem_of_fmap. split.
    + intros ([i c] & [= -> ->] & [Hne Hin]%list_elem_of_filter).
      rewrite (Hord registry), elem_of_map_to_list in Hin. eauto.
    + intros (conn & Hreg & Hne & ->). exists (id, conn). split; [done|].
      rewrite list_elem_of_filter, (Hord registry), elem_of_map_to_list. done.
  - intros Hbig. apply Forall_fmap, Forall_forall. intros [i c] _. cbn. unfold send_frame.
    destruct (open_uni c); [|done]. unfold encode_frame. by rewrite (proj2 (Z.ltb_lt _ _)).
Qed.

Lemma broadcast_reaches_registered_witness :
  let '(attempts, r) := broadcast_raw (fun _ => Ok ()) (fun _ _ => Ok ()) map_to_list
    LengthPrefixCodec_default {[ "1" := 10; "2" := 11 ]} [x68] "2" in
  r = Ok () /\ NoDup attempts.*1.
Proof.
  pose proof (broadcast_reaches_registered (fun _ => Ok ()) (fun _ _ => Ok ()) map_to_list
    LengthPrefixCodec_default {[ "1" := 10; "2" := 11 ]} [x68] "2"
    (fun m => Permutation_refl _)) as Hb.
  destruct (broadcast_raw _ _ _ _ _ _ _) as [attempts r]. split; apply Hb.
Defined.
