(* ===== verification/L1Submit.v ===== *)
(** * L1 settlement ([crates/coordinator/src/l1_submit.rs])

    The contract, its ABI encoding, the provider and Keccak are outside the sources: they
    are the parameter [L1Env]. [build_submission] is the part of [submit] that assembles
    the call, [submit] the retry loop around it. *)
From Stdlib Require Import ZArith Lia Sorting.Sorted.
From stdpp Require Import sorting.
From S2P Require Import Prelude Spec InstanceIdGen Messages CoordState.

Definition MAX_RETRIES : nat := 3.

(** Nanoseconds. *)
Definition from_secs (n : Z) : Duration := n * 10 ^ 9.

Definition INITIAL_RETRY_DELAY : Duration := from_secs 2.

Record BootInfoStruct := mk_BootInfoStruct {
  bi_l1Head : B256;
  bi_l2PreRoot : B256;
  bi_l2PostRoot : B256;
  bi_l2BlockNumber : Z;
  bi_rollupConfigHash : B256;
}.

Record SuperblockAggregationOutputs := mk_SuperblockAggregationOutputs {
  sao_superblockNumber : Z;
  sao_parentSuperblockBatchHash : B256;
  sao_bootInfo : list BootInfoStruct;
}.

(** The [alloy] crates: the ABI encodings that [sol!] derives, the address parser, Keccak. *)
Class L1Env := {
  abi_encode : SuperblockAggregationOutputs -> bytes;
  abi_encode_params : SuperblockAggregationOutputs * bytes -> bytes;
  keccak256 : bytes -> B256;
  parse_address : string -> result Address string;
}.

Record L1Submitter := mk_L1Submitter {
  ls_l2oo_address : Address;
  ls_rpc_url : string;
  ls_private_key : string;
  ls_parent_hash : B256;
}.

Definition L1Submitter_new `{L1Env} (l2oo_address rpc_url private_key : string)
    : result L1Submitter string :=
  match parse_address l2oo_address with
  | Err _ => Err "invalid l2oo_address"
  | Ok addr => Ok (mk_L1Submitter addr rpc_url private_key B256_ZERO)
  end.

Definition set_parent_hash (h : B256) (s : L1Submitter) : L1Submitter :=
  mk_L1Submitter (ls_l2oo_address s) (ls_rpc_url s) (ls_private_key s) h.

(** ** Ordering *)

(** [Ord for B256]: byte by byte. *)
Fixpoint bytes_le (a b : bytes) : bool :=
  match a, b with
  | [], _ => true
  | _, [] => false
  | x :: a', y :: b' =>
      (byte_to_Z x <? byte_to_Z y) || ((byte_to_Z x =? byte_to_Z y) && bytes_le a' b')
  end.

Definition sort_key (p : ProofData) : B256 := ao_rollup_config_hash (pd_aggregation_outputs p).

(** [sort_by_key], which is stable: elements with equal keys keep their order. *)
Fixpoint insert_by_key (p : ProofData) (l : list ProofData) : list ProofData :=
  match l with
  | [] => [p]
  | q :: l' => if bytes_le (sort_key p) (sort_key q) then p :: l else q :: insert_by_key p l'
  end.

Definition sort_by_key (l : list ProofData) : list ProofData := foldr insert_by_key [] l.

(** [Iterator::max] of [B256] values. *)
Definition max_bytes (l : list bytes) : option bytes :=
  foldl (fun acc b => match acc with
                      | None => Some b
                      | Some a => if bytes_le a b then Some b else Some a
                      end) None l.

(** ** Submission *)

Definition boot_info (p : ProofData) : BootInfoStruct :=
  let o := pd_aggregation_outputs p in
  mk_BootInfoStruct (ao_l1_head o) (ao_l2_pre_root o) (ao_l2_post_root o)
    (ao_l2_block_number o) (ao_rollup_config_hash o).

Definition l1_heads (values : list ProofData) : list B256 :=
  (fun p => ao_l1_head (pd_aggregation_outputs p)) <$> values.

Section submit.
Context `{L1Env, Sha2}.

(** The arguments of [proposeL2Output] and the outputs they encode; [values] are the
    proofs in iteration order. *)
Definition build_submission (parent_hash : B256) (superblock_number : Z) (values : list ProofData)
    : SuperblockAggregationOutputs * (bytes * bytes * bytes) :=
  let ordered := sort_by_key values in
  let agg_outputs :=
    mk_SuperblockAggregationOutputs superblock_number parent_hash (boot_info <$> ordered) in
  let proof_bytes := ordered ≫= pd_compressed_proof in
  let extra_data := abi_encode_params (agg_outputs, proof_bytes) in
  let output_root := sha256 (abi_encode agg_outputs) in
  let l1_hash := default B256_ZERO (max_bytes (l1_heads values)) in
  (agg_outputs, (output_root, l1_hash, extra_data)).

(** What the provider answers to one attempt: to [send] and to [get_receipt]. *)
Inductive attempt_outcome :=
| Receipt
| SendFailed (e : string)
| ReceiptFailed (e : string).

(** The loop over the attempts: the delays slept and the result. *)
Fixpoint retry_loop (propose : nat -> attempt_outcome) (fuel attempt : nat) (last_err : option string)
    : list Duration * result unit string :=
  match fuel with
  | O => ([], Err (default "L1 submission failed after 3 attempts" last_err))
  | S fuel =>
      let delays :=
        if (0 <? attempt)%nat then [INITIAL_RETRY_DELAY * 2 ^ Z.of_nat (attempt - 1)] else [] in
      match propose attempt with
      | Receipt => (delays, Ok ())
      | SendFailed e | ReceiptFailed e =>
          let '(ds, r) := retry_loop propose fuel (S attempt) (Some e) in (delays ++ ds, r)
      end
  end.

(** [provider] is the outcome of [build_provider], [propose] what the contract call
    answers on each attempt, given the arguments of the call. *)
Definition submit (provider : result unit string)
    (propose : bytes * bytes * bytes -> nat -> attempt_outcome)
    (order : gmap Z ProofData -> list (Z * ProofData)) (s : L1Submitter)
    (superblock_number : Z) (proofs : gmap Z ProofData)
    : L1Submitter * (list Duration * result unit string) :=
  let '(agg_outputs, call) :=
    build_submission (ls_parent_hash s) superblock_number (order proofs).*2 in
  match provider with
  | Err e => (s, ([], Err e))
  | Ok _ =>
      match retry_loop (propose call) MAX_RETRIES 0 None with
      | (delays, Ok _) => (set_parent_hash (keccak256 (abi_encode agg_outputs)) s, (delays, Ok ()))
      | (delays, Err e) => (s, (delays, Err e))
      end
  end.

(** [latest] and [hash_of] are the answers of the contract's two views; numbers beyond
    [u64] count as zero. *)
Definition fetch_latest_superblock_state (provider : result unit string) (latest : result Z string)
    (hash_of : Z -> result B256 string) (s : L1Submitter)
    : L1Submitter * result (option (Z * B256)) string :=
  match provider with
  | Err e => (s, Err e)
  | Ok _ =>
      match latest with
      | Err _ => (s, Err "latestSuperblockNumber call failed")
      | Ok result =>
          let sb_num := if result <? u64_modulus then result else 0 in
          if sb_num =? 0 then (s, Ok None)
          else
            match hash_of sb_num with
            | Err _ => (s, Err "getSuperblockHash call failed")
            | Ok sb_hash => (set_parent_hash sb_hash s, Ok (Some (sb_num, sb_hash)))
            end
      end
  end.

End submit.

(** ** Lemmas on the order *)

Lemma bytes_le_refl a : bytes_le a a = true.
Proof.
  induction a as [|x a IH]; [done|]. cbn. by rewrite Z.eqb_refl, IH, orb_true_r.
Qed.

Lemma bytes_le_cons x y a b :
  bytes_le (x :: a) (y :: b) = true <->
    byte_to_Z x < byte_to_Z y \/ (x = y /\ bytes_le a b = true).
Proof.
  cbn. rewrite orb_true_iff, andb_true_iff, Z.ltb_lt, Z.eqb_eq. split.
  - intros [?|[Hxy ?]]; [by left|right]. by apply (inj byte_to_Z) in Hxy.
  - intros [?|[-> ?]]; [by left|by right].
Qed.

#[export] Instance bytes_le_total : Total (fun a b => bytes_le a b = true).
Proof.
  intros a. induction a as [|x a IH]; intros [|y b]; [by left|by left|by right|].
  rewrite !bytes_le_cons.
  destruct (Z.lt_trichotomy (byte_to_Z x) (byte_to_Z y)) as [?|[Hxy|?]]; [tauto| |tauto].
  apply (inj byte_to_Z) in Hxy as ->. destruct (IH b); tauto.
Qed.

#[export] Instance bytes_le_trans : Transitive (fun a b => bytes_le a b = true).
Proof.
  intros a. induction a as [|x a IH]; intros [|y b] [|z c]; try done.
  rewrite !bytes_le_cons. intros [?|[-> H1]] [?|[-> H2]]; [left; lia|by left|by left|].
  right. split; [done|]. by apply (IH b).
Qed.

#[export] Instance bytes_le_anti : AntiSymm (=) (fun a b => bytes_le a b = true).
Proof.
  intros a. induction a as [|x a IH]; intros [|y b]; try done.
  rewrite !bytes_le_cons. intros [?|[-> H1]] [?|[Hxy H2]]; subst; try lia.
  by rewrite (IH b).
Qed.

Definition key_le (p q : ProofData) : Prop := bytes_le (sort_key p) (sort_key q) = true.

#[export] Instance key_le_trans : Transitive key_le.
Proof. intros p q r. unfold key_le. apply bytes_le_trans. Qed.

Lemma insert_by_key_perm p l : insert_by_key p l ≡ₚ p :: l.
Proof.
  induction l as [|q l IH]; [done|]. cbn. case_match; [done|]. rewrite IH. constructor.
Qed.

Lemma sort_by_key_perm l : sort_by_key l ≡ₚ l.
Proof. induction l as [|p l IH]; [done|]. cbn. rewrite insert_by_key_perm. by constructor. Qed.

Lemma insert_by_key_sorted p l :
  StronglySorted key_le l -> StronglySorted key_le (insert_by_key p l).
Proof.
  induction 1 as [|q l Hl IH Hq]; cbn; [by repeat constructor|].
  destruct (bytes_le (sort_key p) (sort_key q)) eqn:Hpq.
  - constructor; [by constructor|]. constructor; [done|].
    eapply Forall_impl; [exact Hq|]. intros r. by apply key_le_trans.
  - constructor; [done|]. rewrite insert_by_key_perm. constructor; [|done].
    destruct (bytes_le_total (sort_key p) (sort_key q)); [congruence|done].
Qed.

Lemma sort_by_key_sorted l : StronglySorted key_le (sort_by_key l).
Proof. induction l; cbn; [constructor|by apply insert_by_key_sorted]. Qed.

(** With distinct keys the result does not depend on the order of the input. *)
Lemma sort_by_key_unique l1 l2 :
  NoDup (sort_key <$> l1) -> l1 ≡ₚ l2 -> sort_by_key l1 = sort_by_key l2.
Proof.
  intros Hnd Hperm. apply (StronglySorted_unique_strong key_le).
  - intros p q. rewrite !sort_by_key_perm, <- Hperm. intros Hp Hq Hpq Hqp.
    assert (sort_key p = sort_key q) as Hk by by apply bytes_le_anti.
    apply list_elem_of_lookup in Hp as [i Hi], Hq as [j Hj].
    assert (i = j) as ->; [|congruence].
    eapply NoDup_lookup; [exact Hnd|by rewrite list_lookup_fmap, Hi|].
    by rewrite list_lookup_fmap, Hj, Hk.
  - apply sort_by_key_sorted.
  - apply sort_by_key_sorted.
  - by rewrite !sort_by_key_perm.
Qed.

(** The maximum: an element, and an upper bound. *)
Lemma max_bytes_fold l acc :
  exists m, foldl (fun acc b => match acc with
    | None => Some b | Some a => if bytes_le a b then Some b else Some a end) (Some acc) l = Some m /\
    (m = acc \/ m ∈ l) /\ bytes_le acc m = true /\ forall b, b ∈ l -> bytes_le b m = true.
Proof.
  revert acc. induction l as [|b l IH]; intros acc; cbn [foldl].
  { exists acc. split_and!; [done|by left|apply bytes_le_refl|set_solver]. }
  destruct (bytes_le acc b) eqn:Hle.
  - destruct (IH b) as (m & -> & Hm & Hb & Hall). exists m.
    split_and!; [done|set_solver|by eapply bytes_le_trans|]. intros b'. set_solver.
  - assert (bytes_le b acc = true) as Hba by (destruct (bytes_le_total b acc); congruence).
    destruct (IH acc) as (m & -> & Hm & Hb & Hall). exists m.
    split_and!; [done|set_solver|done|]. intros b' [->|?]%elem_of_cons; [|by apply Hall].
    by eapply bytes_le_trans.
Qed.

Lemma max_bytes_spec l :
  match max_bytes l with
  | Some m => m ∈ l /\ forall b, b ∈ l -> bytes_le b m = true
  | None => l = []
  end.
Proof.
  unfold max_bytes. destruct l as [|b l]; [done|]. cbn [foldl].
  destruct (max_bytes_fold l b) as (m & -> & Hm & Hb & Hall). split; [set_solver|].
  intros b' [->|?]%elem_of_cons; auto.
Qed.

Lemma max_bytes_perm l1 l2 : l1 ≡ₚ l2 -> max_bytes l1 = max_bytes l2.
Proof.
  intros Hperm. pose proof (max_bytes_spec l1) as H1. pose proof (max_bytes_spec l2) as H2.
  destruct (max_bytes l1) as [m1|], (max_bytes l2) as [m2|].
  - f_equal. destruct H1 as [Hm1 H1], H2 as [Hm2 H2].
    apply bytes_le_anti; [apply H2; by rewrite <- Hperm|apply H1; by rewrite Hperm].
  - subst. symmetry in Hperm. apply Permutation_nil in Hperm. set_solver.
  - subst. apply Permutation_nil in Hperm. set_solver.
  - done.
Qed.

(** ** Theorems *)

Definition zero_env : L1Env := {|
  abi_encode _ := []; abi_encode_params p := p.2; keccak256 b := b;
  parse_address _ := Err "no address" |}.

Definition proof_of (hash proof : bytes) : ProofData :=
  mk_ProofData
    (mk_AggregationOutputs hash B256_ZERO B256_ZERO 0 hash B256_ZERO B256_ZERO Address_ZERO)
    proof B256_ZERO MailboxInfo_default.

(** C29. Determinism: when the rollup config hashes of the proofs are distinct, the call
    made to L1 is a function of the set of proofs. Two iteration orders of the map give the
    same outputs, the same root, the same L1 head and the same extra data. The boot infos
    are the proofs' in increasing order of hash, the proof bytes follow the same order, and
    the L1 head is one of the proofs' and the highest. *)
Theorem submission_deterministic `{L1Env, Sha2} parent n values values' :
  NoDup (sort_key <$> values) -> values ≡ₚ values' ->
  build_submission parent n values = build_submission parent n values' /\
  exists ordered, ordered ≡ₚ values /\ StronglySorted key_le ordered /\
    let '(agg, (root, l1_hash, extra)) := build_submission parent n values in
    sao_bootInfo agg = boot_info <$> ordered /\
    extra = abi_encode_params (agg, ordered ≫= pd_compressed_proof) /\
    (forall p, p ∈ values -> bytes_le (ao_l1_head (pd_aggregation_outputs p)) l1_hash = true).
Proof.
  intros Hnd Hperm. split.
  - unfold build_submission. rewrite (sort_by_key_unique values values') by done.
    rewrite (max_bytes_perm (l1_heads values) (l1_heads values')); [done|].
    by apply fmap_Permutation.
  - exists (sort_by_key values). split_and!; [apply sort_by_key_perm|apply sort_by_key_sorted|].
    cbn. split_and!; [done|done|]. intros p Hp.
    pose proof (max_bytes_spec (l1_heads values)) as Hm.
    destruct (max_bytes (l1_heads values)) as [m|]; cbn.
    + apply (proj2 Hm), list_elem_of_fmap. eauto.
    + apply fmap_nil_inv in Hm as ->. set_solver.
Qed.

Lemma submission_deterministic_witness :
  let values := [proof_of [x02] [xaa]; proof_of [x01] [xbb]] in
  @build_submission zero_env prefix_sha256 B256_ZERO 7 values =
    @build_submission zero_env prefix_sha256 B256_ZERO 7 (reverse values).
Proof.
  apply (submission_deterministic (H := zero_env) (H0 := prefix_sha256) B256_ZERO 7
           [proof_of [x02] [xaa]; proof_of [x01] [xbb]]
           (reverse [proof_of [x02] [xaa]; proof_of [x01] [xbb]])).
  - by_compute.
  - symmetry. apply reverse_Permutation.
Defined.

(** Proofs that arrive over QUIC all carry the zero hash, so sorting leaves them in the
    order of the hash map: for two such proofs the concatenated proof bytes depend on the
    iteration order, unlike what the sort is there for. *)
Theorem quic_proofs_keep_map_order `{L1Env, Sha2} parent n a b :
  let proof data := mk_ProofData AggregationOutputs_default data B256_ZERO MailboxInfo_default in
  let extra values := (build_submission parent n values).2.2 in
  exists agg,
    extra [proof a; proof b] = abi_encode_params (agg, a ++ b) /\
    extra [proof b; proof a] = abi_encode_params (agg, b ++ a).
Proof.
  cbn. eexists. split; [by rewrite app_nil_r|by rewrite app_nil_r].
Qed.

Lemma retry_loop_spec propose fuel attempt err :
  (retry_loop propose fuel attempt err).2 = Ok () <->
    exists k, (attempt <= k < attempt + fuel)%nat /\ propose k = Receipt.
Proof.
  revert attempt err. induction fuel as [|fuel IH]; intros attempt err; cbn [retry_loop].
  { split; [done|]. intros (k & ? & _). lia. }
  destruct (propose attempt) as [|e|e] eqn:Hp.
  { split; [|done]. intros _. exists attempt. split; [lia|done]. }
  all: specialize (IH (S attempt) (Some e));
    destruct (retry_loop propose fuel (S attempt) _) as [ds r]; cbn [snd] in *; rewrite IH;
    split; intros (k & Hk & Hr); exists k; (split; [|done]); try lia;
    (destruct (decide (k = attempt)) as [->|]; [congruence|lia]).
Qed.

(** C30. Retries: the submission succeeds exactly when the provider can be built and one of
    the first three attempts gets its receipt; it sleeps at most two seconds and then four,
    and the parent hash moves exactly on success, to the Keccak hash of what was submitted. *)
Theorem submit_spec `{L1Env, Sha2} provider propose order s n proofs :
  let '(agg, call) := build_submission (ls_parent_hash s) n (order proofs).*2 in
  let '(s', (delays, r)) := submit provider propose order s n proofs in
  (r = Ok () <-> provider = Ok () /\ exists k, (k < 3)%nat /\ propose call k = Receipt) /\
  delays `prefix_of` [from_secs 2; from_secs 4] /\
  ls_parent_hash s' =
    if is_ok r then keccak256 (abi_encode agg) else ls_parent_hash s.
Proof.
  unfold submit. destruct (build_submission _ _ _) as [agg call].
  destruct provider as [[]|e].
  2:{ split_and!; [split; [done|by intros [? _]]|apply prefix_nil|done]. }
  pose proof (retry_loop_spec (propose call) MAX_RETRIES 0 None) as Hr.
  assert ((retry_loop (propose call) MAX_RETRIES 0 None).1 `prefix_of` [from_secs 2; from_secs 4])
    as Hd.
  { unfold MAX_RETRIES. cbn [retry_loop].
    destruct (propose call 0%nat); [by_compute|..]; (destruct (propose call 1%nat); [by_compute|..]);
      destruct (propose call 2%nat); by_compute. }
  destruct (retry_loop (propose call) MAX_RETRIES 0 None) as [delays [[]|e]]; cbn [fst snd] in Hd, Hr;
    (split_and!; [|done|done]).
  - split; [|done]. intros _. split; [done|]. destruct (proj1 Hr eq_refl) as (k & Hk & ?).
    exists k. unfold MAX_RETRIES in Hk. split; [lia|done].
  - split; [done|]. intros (_ & k & Hk & Hp). apply Hr. exists k. unfold MAX_RETRIES.
    split; [lia|done].
Qed.
