(* ===== verification/L1Chain.v ===== *)
(** * The chain of superblocks on L1 ([crates/coordinator/src/l1_submit.rs])

    A submission names the hash of its parent, read from the shared [parent_hash] when the
    call is assembled; [parent_hash] moves when the receipt arrives, many awaits later. So
    submissions are modelled as two steps that interleave: [submission_begin] and
    [submission_end]. One at a time they form a hash chain; two under way at once name the
    same parent. *)
From Stdlib Require Import ZArith Lia.
From S2P Require Import Prelude Spec InstanceIdGen Messages CoordState L1Submit.

(** The shared hash, the submissions under way, and those with a receipt, latest first. *)
Record l1_world := mk_l1_world {
  lw_parent : B256;
  lw_open : list SuperblockAggregationOutputs;
  lw_accepted : list SuperblockAggregationOutputs;
}.

Definition l1_start (seed : B256) : l1_world := mk_l1_world seed [] [].

Section chain.
Context `{L1Env, Sha2}.
Implicit Types (w : l1_world) (agg : SuperblockAggregationOutputs).

Definition superblock_hash agg : B256 := keccak256 (abi_encode agg).

(** [submit] up to its first await: the outputs are assembled under the current parent. *)
Definition submission_begin (superblock_number : Z) (values : list ProofData) w : l1_world :=
  let agg := (build_submission (lw_parent w) superblock_number values).1 in
  mk_l1_world (lw_parent w) (lw_open w ++ [agg]) (lw_accepted w).

(** The end of the [i]-th submission under way: with a receipt the parent hash moves. *)
Definition submission_end (i : nat) (receipt : bool) w : option l1_world :=
  agg ← lw_open w !! i;
  Some (if receipt
        then mk_l1_world (superblock_hash agg) (delete i (lw_open w)) (agg :: lw_accepted w)
        else mk_l1_world (lw_parent w) (delete i (lw_open w)) (lw_accepted w)).

Inductive l1_step w : l1_world -> Prop :=
| l1_begin n values : l1_step w (submission_begin n values w)
| l1_end i receipt w' : submission_end i receipt w = Some w' -> l1_step w w'.

(** No submission begins while another is under way. *)
Definition l1_step_alone w w' : Prop := l1_step w w' /\ (length (lw_open w') <= 1)%nat.

Definition head_hash (seed : B256) (l : list SuperblockAggregationOutputs) : B256 :=
  match l with [] => seed | agg :: _ => superblock_hash agg end.

(** Each superblock names the one before it, the first one the seed. *)
Fixpoint chained (seed : B256) (l : list SuperblockAggregationOutputs) : Prop :=
  match l with
  | [] => True
  | agg :: l' => sao_parentSuperblockBatchHash agg = head_hash seed l' /\ chained seed l'
  end.

(** ** Submissions are these two steps *)

Lemma submit_begin_end provider propose order s n proofs :
  exists w, submission_end 0 (is_ok (submit provider propose order s n proofs).2.2)
      (submission_begin n (order proofs).*2 (l1_start (ls_parent_hash s))) = Some w /\
    lw_open w = [] /\ lw_parent w = ls_parent_hash (submit provider propose order s n proofs).1.
Proof.
  unfold submit. destruct (build_submission _ _ _) as [agg call] eqn:Hb.
  unfold submission_end, submission_begin. cbn [lw_parent l1_start]. rewrite Hb.
  destruct provider as [[]|e]; [|by eexists].
  destruct (retry_loop (propose call) MAX_RETRIES 0 None) as [delays [[]|e]]; by eexists.
Qed.

(** ** The chain *)

(** What is under way names the seed or a superblock already accepted. *)
Definition descends (seed : B256) (l : list SuperblockAggregationOutputs) agg : Prop :=
  sao_parentSuperblockBatchHash agg = seed \/
  exists parent, parent ∈ l /\ sao_parentSuperblockBatchHash agg = superblock_hash parent.

Fixpoint rooted (seed : B256) (l : list SuperblockAggregationOutputs) : Prop :=
  match l with [] => True | agg :: l' => descends seed l' agg /\ rooted seed l' end.

Lemma descends_mono seed l l' agg : l ⊆ l' -> descends seed l agg -> descends seed l' agg.
Proof. unfold descends. set_solver. Qed.

Record l1_inv (seed : B256) w : Prop := {
  li_parent : lw_parent w = head_hash seed (lw_accepted w);
  li_open : Forall (descends seed (lw_accepted w)) (lw_open w);
  li_accepted : rooted seed (lw_accepted w);
}.

Lemma l1_step_inv seed w w' : l1_step w w' -> l1_inv seed w -> l1_inv seed w'.
Proof.
  intros [n values|i receipt w1 He] [I1 I2 I3].
  - split; [done| |done]. cbn. apply Forall_app. split; [done|]. constructor; [|done].
    unfold descends. cbn. rewrite I1. destruct (lw_accepted w); [by left|right].
    eexists. by split; [left|].
  - unfold submission_end in He. destruct (lw_open w !! i) as [agg|] eqn:Hi; [|done]. injection He as <-.
    assert (descends seed (lw_accepted w) agg) as Hagg by by eapply (Forall_lookup_1 _ _ _ _ I2 Hi).
    assert (Forall (descends seed (lw_accepted w)) (delete i (lw_open w))) as Hrest by by apply Forall_delete.
    destruct receipt; split; cbn; try done. eapply Forall_impl; [exact Hrest|].
    intros agg'. apply descends_mono. set_solver.
Qed.

(** Always: a superblock with a receipt names the seed or one accepted before it. *)
Theorem submissions_rooted seed w : rtc l1_step (l1_start seed) w -> rooted seed (lw_accepted w).
Proof.
  intros Hrun. apply (li_accepted seed). assert (l1_inv seed (l1_start seed)) as Hinv by by split.
  induction Hrun as [|w1 w2 w3 Hs _ IH]; [done|]. by eapply IH, l1_step_inv.
Qed.

(** C31. The chain on L1: while no submission begins before the previous one has ended, the
    superblocks that got their receipt form a hash chain from the hash read at startup: each
    names the hash of the one before it, failed submissions leave no gap, and the stored
    parent hash is that of the last. *)
Theorem lone_submissions_chain seed w :
  rtc l1_step_alone (l1_start seed) w ->
  chained seed (lw_accepted w) /\ lw_parent w = head_hash seed (lw_accepted w).
Proof.
  intros Hrun.
  assert (chained seed (lw_accepted (l1_start seed)) /\ (length (lw_open (l1_start seed)) <= 1)%nat /\
    lw_parent (l1_start seed) = head_hash seed (lw_accepted (l1_start seed)) /\
    Forall (fun agg => sao_parentSuperblockBatchHash agg = lw_parent (l1_start seed))
      (lw_open (l1_start seed))) as Hinv by (cbn; split_and!; [done|lia|done..]).
  induction Hrun as [w|w1 w2 w3 [Hs Hone] _ IH]; [by destruct Hinv as (? & _ & ? & _)|].
  apply IH. clear IH w3. destruct Hinv as (I1 & I2 & I3 & I4).
  destruct Hs as [n values|i receipt w2 He].
  - cbn in *. split_and!; [done..|]. apply Forall_app. by split; [|repeat constructor].
  - unfold submission_end in He. destruct (lw_open w1) as [|agg [|]]; [done| |cbn in I2; lia].
    destruct i as [|[|]]; [|done..]. cbn in He. injection He as <-.
    apply Forall_cons in I4 as [I4 _].
    destruct receipt; cbn in *; split_and!; try done; try lia. by rewrite I4.
Qed.

(** Two submissions under way at once name the same parent, so the second does not extend
    the first: what was accepted is not a chain unless the first hash happens to be the
    seed. *)
Theorem overlapping_submissions_fork seed (n m : Z) (values values' : list ProofData) :
  exists w first second, rtc l1_step (l1_start seed) w /\ lw_accepted w = [second; first] /\
    sao_superblockNumber first = n /\ sao_superblockNumber second = m /\
    sao_parentSuperblockBatchHash first = seed /\ sao_parentSuperblockBatchHash second = seed /\
    (chained seed (lw_accepted w) -> superblock_hash first = seed).
Proof.
  set (first := (build_submission seed n values).1). set (second := (build_submission seed m values').1).
  exists (mk_l1_world (superblock_hash second) [] [second; first]), first, second.
  split_and!; try done.
  - eapply rtc_l; [apply (l1_begin _ n values)|]. eapply rtc_l; [apply (l1_begin _ m values')|].
    eapply rtc_l; [by apply (l1_end _ 0 true)|]. eapply rtc_l; [by apply (l1_end _ 0 true)|]. done.
  - by intros (Hp & _).
Qed.

End chain.

(** Two superblocks, a submission in between that fails. *)
Lemma lone_submissions_chain_witness :
  exists w, rtc (l1_step_alone (H := zero_env) (H0 := prefix_sha256)) (l1_start B256_ZERO) w /\
    length (lw_accepted w) = 2%nat /\ chained (H := zero_env) B256_ZERO (lw_accepted w).
Proof.
  pose (values := [proof_of [x02] [xaa]]).
  assert (exists w, rtc (l1_step_alone (H := zero_env) (H0 := prefix_sha256)) (l1_start B256_ZERO) w /\
    length (lw_accepted w) = 2%nat) as (w & Hrun & Hlen).
  { eexists. split; [|].
    - eapply rtc_l; [split; [apply (l1_begin _ 1 values)|cbn; lia]|].
      eapply rtc_l; [split; [by apply (l1_end _ 0 true)|cbn; lia]|].
      eapply rtc_l; [split; [apply (l1_begin _ 2 values)|cbn; lia]|].
      eapply rtc_l; [split; [by apply (l1_end _ 0 false)|cbn; lia]|].
      eapply rtc_l; [split; [apply (l1_begin _ 2 values)|cbn; lia]|].
      eapply rtc_l; [split; [by apply (l1_end _ 0 true)|cbn; lia]|]. apply rtc_refl.
    - reflexivity. }
  exists w. split; [exact Hrun|]. split; [exact Hlen|].
  apply (lone_submissions_chain (H := zero_env) (H0 := prefix_sha256) B256_ZERO w Hrun).
Defined.
