(* ===== verification/HttpServer.v ===== *)
(** * The HTTP API ([crates/server])

    A handler returns the status code and the body; [handle_submit_proof] also returns the
    coordinator and what it hands out. Reading the body up to the parsed JSON is [axum]'s,
    reading the JSON as a submission is [ProofSubmission_de]; the route table is [routes].
    A handler is dropped at its next [await] when the timeout layer fires: [respond] is a
    request whose locks are granted, or not, before the deadline, with the coordinator other
    tasks have left by then. *)
From Stdlib Require Import ZArith Lia.
From S2P Require Import Prelude Spec Serde InstanceIdGen Messages Protobuf CoordState Coordinator AtomicCommit.
From S2P Require Import CoordInv CoordRefinement CoordProps Dispatch.

(** ** Status codes *)

Inductive StatusCode :=
| OK
| ACCEPTED
| BAD_REQUEST
| NOT_FOUND
| METHOD_NOT_ALLOWED
| REQUEST_TIMEOUT
| Rejection (code : Z)
| INTERNAL_SERVER_ERROR
| SERVICE_UNAVAILABLE.

#[export] Instance StatusCode_eq_dec : EqDecision StatusCode.
Proof. solve_decision. Defined.

(** ** Routes ([router.rs]) *)

Inductive Method := GET | HEAD | POST | OPTIONS | OtherMethod (name : string).

Inductive endpoint := Health | Ready | Stats | Metrics | SubmitProof.

#[export] Instance Method_eq_dec : EqDecision Method.
Proof. solve_decision. Defined.

Definition routes : list (string * Method * endpoint) :=
  [("/health", GET, Health); ("/ready", GET, Ready); ("/stats", GET, Stats);
   ("/metrics", GET, Metrics); ("/v1/proofs/op-succinct", POST, SubmitProof)]%string.

Definition route (path : string) (m : Method) : option endpoint :=
  snd ∘ snd <$> list_find (fun r => r.1 = (path, m)) routes.

(** How [axum] routes: a [GET] route serves [HEAD] too, an unknown path is 404, another method
    on a known path 405. *)
Definition dispatch_route (path : string) (m : Method) : result endpoint StatusCode :=
  match route path (match m with HEAD => GET | _ => m end) with
  | Some e => Ok e
  | None =>
      if decide (path ∈ (routes.*1).*1) then Err METHOD_NOT_ALLOWED else Err NOT_FOUND
  end.

(** ** Health, readiness, statistics, metrics *)

(** [now] is the system clock, [None] before the epoch. *)
Definition unix_now (now : option Z) : Z := default 0 now.

Definition handle_health (now : option Z) : StatusCode * (string * Z) :=
  (OK, ("healthy", unix_now now)).

Definition handle_ready (connections : nat) : StatusCode * (string * Z) :=
  if decide (connections = 0%nat) then (SERVICE_UNAVAILABLE, ("no_connections", 0))
  else (OK, ("ready", Z.of_nat connections)).

Definition handle_stats (co : Coordinator) (connections : nat) : StatusCode * list (string * Z) :=
  (OK, stats co (Z.of_nat connections)).

(** [encoded] is what the Prometheus encoder returns for the registry, if there is one. *)
Definition handle_metrics (registry : option (result string string)) : StatusCode * string :=
  match registry with
  | None => (NOT_FOUND, "metrics not enabled")
  | Some (Err _) => (INTERNAL_SERVER_ERROR, "failed to encode metrics")
  | Some (Ok body) => (OK, body)
  end.

(** ** Proof submission ([handlers/proofs.rs]) *)

Record IncomingAggregationOutputs := mk_IncomingAggregationOutputs {
  in_l1_head : B256;
  in_l2_pre_root : B256;
  in_l2_post_root : B256;
  in_l2_block_number : Z;
  in_rollup_config_hash : B256;
  in_mailbox_root : B256;
  in_multi_block_vkey : B256;
  in_prover_address : Address;
}.

Record ProofSubmission := mk_ProofSubmission {
  ps_superblock_number : Z;
  ps_chain_id : Z;
  ps_aggregation_outputs : IncomingAggregationOutputs;
  ps_agg_vkey_hash : B256;
  ps_proof : option bytes;
}.

Section json.
Context `{Scalars}.

Definition IncomingAggregationOutputs_fields : list (string * (Value -> result unit string)) :=
  [("l1Head", readable (de_fixed_bytes 32)); ("l2PreRoot", readable (de_fixed_bytes 32));
   ("l2PostRoot", readable (de_fixed_bytes 32)); ("l2BlockNumber", readable de_u64);
   ("rollupConfigHash", readable (de_fixed_bytes 32)); ("mailboxRoot", readable (de_fixed_bytes 32));
   ("multiBlockVKey", readable (de_fixed_bytes 32));
   ("proverAddress", readable (de_fixed_bytes 20))]%string.

Definition IncomingAggregationOutputs_de (v : Value) : result IncomingAggregationOutputs string :=
  (let? m := de_struct IncomingAggregationOutputs_fields v in
   let? l1_head := field_of (de_fixed_bytes 32) "l1Head" m in
   let? l2_pre_root := field_of (de_fixed_bytes 32) "l2PreRoot" m in
   let? l2_post_root := field_of (de_fixed_bytes 32) "l2PostRoot" m in
   let? l2_block_number := field_of de_u64 "l2BlockNumber" m in
   let? rollup_config_hash := field_of (de_fixed_bytes 32) "rollupConfigHash" m in
   let? mailbox_root := field_of (de_fixed_bytes 32) "mailboxRoot" m in
   let? multi_block_vkey := field_of (de_fixed_bytes 32) "multiBlockVKey" m in
   let? prover_address := field_of (de_fixed_bytes 20) "proverAddress" m in
   Ok (mk_IncomingAggregationOutputs l1_head l2_pre_root l2_post_root l2_block_number
         rollup_config_hash mailbox_root multi_block_vkey prover_address))%result.

Definition ProofSubmission_fields : list (string * (Value -> result unit string)) :=
  [("superblock_number", readable de_u64); ("chain_id", readable de_u64);
   ("aggregation_outputs", readable IncomingAggregationOutputs_de);
   ("agg_vkey_hash", readable (de_fixed_bytes 32)); ("proof", readable de_byte_vec)]%string.

(** Only [proof] has [serde(default)]. *)
Definition ProofSubmission_de (v : Value) : result ProofSubmission string :=
  (let? m := de_struct ProofSubmission_fields v in
   let? superblock_number := field_of de_u64 "superblock_number" m in
   let? chain_id := field_of de_u64 "chain_id" m in
   let? aggregation_outputs := field_of IncomingAggregationOutputs_de "aggregation_outputs" m in
   let? agg_vkey_hash := field_of (de_fixed_bytes 32) "agg_vkey_hash" m in
   let? proof := field_or de_byte_vec "proof" None m in
   Ok (mk_ProofSubmission superblock_number chain_id aggregation_outputs agg_vkey_hash proof))%result.

(** The [Json] extractor: [body] is the parsed JSON, or the status of the rejection; JSON
    that is not a submission is refused with 422. *)
Definition extract_submission (body : result Value Z) : result ProofSubmission Z :=
  (let? v := body in
   match ProofSubmission_de v with Ok s => Ok s | Err _ => Err 422 end)%result.

End json.

Definition submitted_proof (body : ProofSubmission) : ProofData :=
  let o := ps_aggregation_outputs body in
  mk_ProofData
    (mk_AggregationOutputs (in_l1_head o) (in_l2_pre_root o) (in_l2_post_root o)
       (in_l2_block_number o) (in_rollup_config_hash o) (in_mailbox_root o)
       (in_multi_block_vkey o) (in_prover_address o))
    (default [] (ps_proof body)) (ps_agg_vkey_hash body) MailboxInfo_default.

Definition handle_submit_proof (order : gmap Z ProofData -> list (Z * ProofData)) (now : Instant)
    (co : Coordinator) (body : ProofSubmission) : Coordinator * list effect * StatusCode :=
  let o := ps_aggregation_outputs body in
  if decide (in_l1_head o = B256_ZERO) then (co, [], BAD_REQUEST)
  else if negb (is_chain_registered (co_state co) (ps_chain_id body)) then (co, [], BAD_REQUEST)
  else
    (receive_proof order now co (ps_superblock_number body) (ps_chain_id body)
       (submitted_proof body), ACCEPTED).

(** The same handler with its two [await]s: the read lock of [is_chain_registered] and the
    write lock of [receive_proof], each with the coordinator found when it was granted, or
    [None] when the request timed out first. No [await] follows the second. *)
Definition submit_proof_awaiting (order : gmap Z ProofData -> list (Z * ProofData)) (now : Instant)
    (read write : option Coordinator) (body : ProofSubmission)
    : option (Coordinator * list effect) * StatusCode :=
  if decide (in_l1_head (ps_aggregation_outputs body) = B256_ZERO) then (None, BAD_REQUEST)
  else
    match read with
    | None => (None, REQUEST_TIMEOUT)
    | Some co =>
        if negb (is_chain_registered (co_state co) (ps_chain_id body)) then (None, BAD_REQUEST)
        else
          match write with
          | None => (None, REQUEST_TIMEOUT)
          | Some co' =>
              (Some (receive_proof order now co' (ps_superblock_number body) (ps_chain_id body)
                       (submitted_proof body)), ACCEPTED)
          end
    end.

(** ** A request ([build_router]) *)

Record request := mk_request {
  rq_method : Method;
  rq_path : string;
  rq_body : result Value Z;
}.

(** What a request finds: the clock, the registered connections, the encoded metrics (and
    whether their lock was granted in time), and the coordinator at each lock it takes. *)
Record surroundings := mk_surroundings {
  su_now : option Z;
  su_connections : option nat;
  su_registry : option (result string string);
  su_registry_locked : bool;
  su_instant : Instant;
  su_read : option Coordinator;
  su_write : option Coordinator;
}.

(** The permissive CORS layer answers [OPTIONS] itself; the timeout layer turns a handler
    that is still waiting into 408. *)
Definition respond `{Scalars} (order : gmap Z ProofData -> list (Z * ProofData)) (su : surroundings)
    (rq : request) : option (Coordinator * list effect) * StatusCode :=
  if decide (rq_method rq = OPTIONS) then (None, OK)
  else
    match dispatch_route (rq_path rq) (rq_method rq) with
    | Err code => (None, code)
    | Ok Health => (None, (handle_health (su_now su)).1)
    | Ok Ready =>
        (None, match su_connections su with
               | Some n => (handle_ready n).1
               | None => REQUEST_TIMEOUT
               end)
    | Ok Stats =>
        (None, match su_read su, su_connections su with
               | Some co, Some n => (handle_stats co n).1
               | _, _ => REQUEST_TIMEOUT
               end)
    | Ok Metrics =>
        (None, if bool_decide (is_Some (su_registry su)) && negb (su_registry_locked su)
               then REQUEST_TIMEOUT else (handle_metrics (su_registry su)).1)
    | Ok SubmitProof =>
        match extract_submission (rq_body rq) with
        | Err code => (None, Rejection code)
        | Ok body => submit_proof_awaiting order (su_instant su) (su_read su) (su_write su) body
        end
    end.

(** ** Theorems *)

(** The routes answer their own method only. *)
Lemma route_spec path m e : route path m = Some e <-> (path, m, e) ∈ routes.
Proof.
  unfold route. split.
  - intros Hr. destruct (list_find _ routes) as [[i [[p m'] e']]|] eqn:Hf; [|done].
    apply list_find_Some in Hf as (Hl & Heq & _). cbn in *. simplify_eq.
    by eapply list_elem_of_lookup_2.
  - intros Hin. unfold routes in Hin. rewrite !elem_of_cons in Hin.
    destruct Hin as [H|[H|[H|[H|[H|H]]]]]; [by simplify_eq..|set_solver].
Qed.

(** The proof endpoint answers 400, without touching the coordinator, exactly when the
    L1 head is zero or the chain is not registered; otherwise it answers 202 and the
    coordinator has run one critical section, the reception of that chain's proof. *)
Theorem submit_proof_endpoint `{Sha2, ProstMessage, Requests} hex_encode order now co body w :
  cw_state w = co_state co -> iter_ok order ->
  let '(co', effs, status) := handle_submit_proof order now co body in
  (status = BAD_REQUEST <->
     in_l1_head (ps_aggregation_outputs body) = B256_ZERO \/
     cs_chain_to_client (co_state co) !! ps_chain_id body = None) /\
  (status = BAD_REQUEST -> co' = co /\ effs = []) /\
  (status <> BAD_REQUEST ->
     status = ACCEPTED /\
     runs_as hex_encode
       [SProof now (ps_superblock_number body) (ps_chain_id body) (submitted_proof body) order
          (co_has_l1_submitter co)] w (co', effs)).
Proof.
  intros Hst Hord. unfold handle_submit_proof, is_chain_registered.
  destruct (decide (in_l1_head (ps_aggregation_outputs body) = B256_ZERO)) as [?|Hne].
  { split_and!; [naive_solver|done|done]. }
  destruct (cs_chain_to_client (co_state co) !! ps_chain_id body) as [client|] eqn:Hc; cbn.
  - pose proof (receive_proof_sections hex_encode order now co (ps_superblock_number body)
      (ps_chain_id body) (submitted_proof body) w Hst Hord) as Hr.
    destruct (receive_proof order now co _ _ _) as [co' effs]. split_and!; [naive_solver|done|done].
  - split_and!; [naive_solver|done|done].
Qed.

Definition demo_submission : ProofSubmission :=
  mk_ProofSubmission 1 1
    (mk_IncomingAggregationOutputs [x01] [] [] 0 [] [] [] Address_ZERO) [] (Some [xaa]).

Lemma submit_proof_endpoint_witness :
  let '(co', effs, status) :=
    handle_submit_proof map_to_list 0 (Coordinator_new None 5 9) demo_submission in
  status = BAD_REQUEST <->
    in_l1_head (ps_aggregation_outputs demo_submission) = B256_ZERO \/
    cs_chain_to_client (co_state (Coordinator_new None 5 9)) !! ps_chain_id demo_submission = None.
Proof.
  apply (submit_proof_endpoint (H := prefix_sha256) (H0 := prost_codec) (H1 := all_requests) hex_string map_to_list 0
           (Coordinator_new None 5 9) demo_submission world_init); [reflexivity|].
  intros m. reflexivity.
Defined.

(** ** What is a submission *)

Section body.
Context `{Scalars}.

(** The aggregation outputs: an object with the eight keys, none of them twice, or an array
    of the eight values. *)
Definition is_outputs (v : Value) (o : IncomingAggregationOutputs) : Prop :=
  match v with
  | VMap l =>
      known_once IncomingAggregationOutputs_fields l /\
      reads (de_fixed_bytes 32) l "l1Head" (in_l1_head o) /\
      reads (de_fixed_bytes 32) l "l2PreRoot" (in_l2_pre_root o) /\
      reads (de_fixed_bytes 32) l "l2PostRoot" (in_l2_post_root o) /\
      reads de_u64 l "l2BlockNumber" (in_l2_block_number o) /\
      reads (de_fixed_bytes 32) l "rollupConfigHash" (in_rollup_config_hash o) /\
      reads (de_fixed_bytes 32) l "mailboxRoot" (in_mailbox_root o) /\
      reads (de_fixed_bytes 32) l "multiBlockVKey" (in_multi_block_vkey o) /\
      reads (de_fixed_bytes 20) l "proverAddress" (in_prover_address o)
  | VSeq l =>
      (length l <= 8)%nat /\
      reads_at (de_fixed_bytes 32) l 0 (in_l1_head o) /\
      reads_at (de_fixed_bytes 32) l 1 (in_l2_pre_root o) /\
      reads_at (de_fixed_bytes 32) l 2 (in_l2_post_root o) /\
      reads_at de_u64 l 3 (in_l2_block_number o) /\
      reads_at (de_fixed_bytes 32) l 4 (in_rollup_config_hash o) /\
      reads_at (de_fixed_bytes 32) l 5 (in_mailbox_root o) /\
      reads_at (de_fixed_bytes 32) l 6 (in_multi_block_vkey o) /\
      reads_at (de_fixed_bytes 20) l 7 (in_prover_address o)
  | _ => False
  end.

(** A submission: an object with the four required keys, no known key twice, or an array of
    four or five values; without a proof the proof is empty. *)
Definition is_submission (v : Value) (s : ProofSubmission) : Prop :=
  match v with
  | VMap l =>
      known_once ProofSubmission_fields l /\
      reads de_u64 l "superblock_number" (ps_superblock_number s) /\
      reads de_u64 l "chain_id" (ps_chain_id s) /\
      (exists o, entries l !! "aggregation_outputs" = Some o /\ is_outputs o (ps_aggregation_outputs s)) /\
      reads (de_fixed_bytes 32) l "agg_vkey_hash" (ps_agg_vkey_hash s) /\
      reads_or de_byte_vec l "proof" None (ps_proof s)
  | VSeq l =>
      (length l <= 5)%nat /\
      reads_at de_u64 l 0 (ps_superblock_number s) /\
      reads_at de_u64 l 1 (ps_chain_id s) /\
      (exists o, l !! 2%nat = Some o /\ is_outputs o (ps_aggregation_outputs s)) /\
      reads_at (de_fixed_bytes 32) l 3 (ps_agg_vkey_hash s) /\
      reads_at_or de_byte_vec l 4 None (ps_proof s)
  | _ => False
  end.

Lemma outputs_fields_distinct : NoDup IncomingAggregationOutputs_fields.*1.
Proof. by_compute. Qed.

Lemma submission_fields_distinct : NoDup ProofSubmission_fields.*1.
Proof. by_compute. Qed.

(** A struct with a required field cannot be read from an empty value. *)
Lemma outputs_read v o : IncomingAggregationOutputs_de v = Ok o <-> is_outputs v o.
Proof.
  destruct v as [|b|n|t|t|l|l]; try done.
  - unfold IncomingAggregationOutputs_de. cbn. by destruct null_struct.
  - unfold IncomingAggregationOutputs_de. cbn [is_outputs de_struct].
    by_positions outputs_fields_distinct o.
  - unfold IncomingAggregationOutputs_de. cbn [is_outputs de_struct].
    by_fields IncomingAggregationOutputs_fields o.
Qed.

Lemma submission_read v s : ProofSubmission_de v = Ok s <-> is_submission v s.
Proof.
  destruct v as [|b|n|t|t|l|l]; try done.
  - unfold ProofSubmission_de. cbn. by destruct null_struct.
  - cbn [is_submission]. setoid_rewrite <- outputs_read. fold (reads_at IncomingAggregationOutputs_de l 2 (ps_aggregation_outputs s)).
    unfold ProofSubmission_de. cbn [de_struct]. by_positions submission_fields_distinct s.
  - cbn [is_submission]. setoid_rewrite <- outputs_read.
    fold (reads IncomingAggregationOutputs_de l "aggregation_outputs" (ps_aggregation_outputs s)).
    unfold ProofSubmission_de. cbn [de_struct]. by_fields ProofSubmission_fields s.
Qed.

End body.

(** C37. A posted body is read strictly. Whatever JSON value is posted to the proof endpoint,
    it is a submission exactly in two cases: an object in which no known key is repeated and
    the number, the chain, the outputs (with all of their eight fields) and the key hash are
    present and well formed, or an array of these values in the order of the struct; only
    the proof may be left out, and is then empty. The answer is 422 exactly when the value is
    no submission, and then nothing has touched the coordinator. *)
Theorem submission_body_read `{Scalars} v :
  (forall s, ProofSubmission_de v = Ok s <-> is_submission v s) /\
  (forall order su,
     let r := respond order su (mk_request POST "/v1/proofs/op-succinct" (Ok v)) in
     (r.2 = Rejection 422 <-> forall s, ~ is_submission v s) /\
     (r.2 = Rejection 422 -> r.1 = None)).
Proof.
  split; [apply submission_read|]. intros order su.
  unfold respond, extract_submission. cbn [rq_method rq_path rq_body result_bind].
  rewrite decide_False by done.
  change (dispatch_route "/v1/proofs/op-succinct" POST) with (Ok (E := StatusCode) SubmitProof).
  cbv iota zeta. setoid_rewrite <- submission_read.
  destruct (ProofSubmission_de v) as [s|e]; [|cbn; naive_solver].
  unfold submit_proof_awaiting. split.
  - split; [|intros Hno; by destruct (Hno s)]. repeat case_match; done.
  - repeat case_match; done.
Qed.

Lemma dispatch_submit path m :
  dispatch_route path m = Ok SubmitProof -> m = POST /\ path = "/v1/proofs/op-succinct"%string.
Proof.
  unfold dispatch_route. destruct (route path _) as [e|] eqn:Hr; [|by case_decide].
  intros [= ->]. apply route_spec in Hr. unfold routes in Hr. rewrite !elem_of_cons in Hr.
  destruct Hr as [Hr|[Hr|[Hr|[Hr|[Hr|Hr]]]]]; [by simplify_eq..| |set_solver].
  destruct m; simplify_eq; done.
Qed.

(** C36. The API changes the coordinator through accepted proofs only: a request has an effect
    exactly when it is answered 202; it is then a POST to the proof endpoint with a body
    whose L1 head is not zero, for a chain that was registered when the request looked it
    up, and the effect is one critical section, the reception of that proof, on whatever
    state other tasks have left by then. In particular a request answered 408 has left no
    trace. *)
Theorem api_changes_only_by_proofs `{Sha2, ProstMessage, Requests, Scalars} hex_encode order su rq :
  iter_ok order ->
  let '(effect, status) := respond order su rq in
  (status = ACCEPTED <-> is_Some effect) /\
  forall r, effect = Some r ->
    rq_method rq = POST /\ rq_path rq = "/v1/proofs/op-succinct"%string /\
    exists body co co', extract_submission (rq_body rq) = Ok body /\
      in_l1_head (ps_aggregation_outputs body) <> B256_ZERO /\
      su_read su = Some co /\ is_chain_registered (co_state co) (ps_chain_id body) = true /\
      su_write su = Some co' /\
      forall w, cw_state w = co_state co' ->
        runs_as hex_encode
          [SProof (su_instant su) (ps_superblock_number body) (ps_chain_id body)
             (submitted_proof body) order (co_has_l1_submitter co')] w r.
Proof.
  intros Hord. unfold respond. case_decide; [by split; [split; [done|intros []]|]|].
  destruct (dispatch_route (rq_path rq) (rq_method rq)) as [e|code] eqn:Hd.
  2: { split; [|done]. split; [|by intros []]. intros ->. unfold dispatch_route in Hd.
       by repeat case_match. }
  destruct e; try (split; [split; [|by intros []]|done]; cbn; unfold handle_ready, handle_metrics;
                   by repeat case_match).
  apply dispatch_submit in Hd as [Hm Hpath].
  destruct (extract_submission (rq_body rq)) as [body|code]; [|by split; [split; [done|intros []]|]].
  unfold submit_proof_awaiting. case_decide; [by split; [split; [done|intros []]|]|].
  destruct (su_read su) as [co|]; [|by split; [split; [done|intros []]|]].
  destruct (is_chain_registered (co_state co) (ps_chain_id body)) eqn:Hreg; cbn [negb];
    [|by split; [split; [done|intros []]|]].
  destruct (su_write su) as [co'|]; [|by split; [split; [done|intros []]|]].
  split; [by split|]. intros r [= <-]. split_and!; [done..|]. exists body, co, co'.
  split_and!; try done. intros w Hw. by apply receive_proof_sections.
Qed.

#[local] Instance demo_scalars : Scalars := plain_scalars (fun _ => None).

Definition hash_json (b : byte) : Value := VStr (hex_string (replicate 32 b)).

(** A body with its keys out of order, an unknown key and no proof. *)
Definition demo_json : Value :=
  VMap [("chain_id", VInt 1); ("agg_vkey_hash", hash_json x07); ("version", VInt 3);
        ("aggregation_outputs",
         VMap [("l1Head", hash_json x01); ("l2PreRoot", hash_json x02);
               ("l2PostRoot", hash_json x03); ("l2BlockNumber", VInt 40);
               ("rollupConfigHash", hash_json x04); ("mailboxRoot", hash_json x05);
               ("multiBlockVKey", hash_json x06);
               ("proverAddress", VStr (hex_string (replicate 20 x08)))]);
        ("superblock_number", VInt 1)]%string.

(** A submission for chain 1, registered by client [a]. *)
Definition demo_api : surroundings :=
  let co := coord_register_chain (Coordinator_new None 5 9) "a" 1 in
  mk_surroundings None (Some 1%nat) None true 0 (Some co) (Some co).

Definition demo_post : request :=
  mk_request POST "/v1/proofs/op-succinct" (Ok demo_json).

(** The same values as an array are a submission too; a body without its outputs is not. *)
Definition demo_array : Value :=
  VSeq [VInt 1; VInt 1;
        VSeq [hash_json x01; hash_json x02; hash_json x03; VInt 40; hash_json x04; hash_json x05;
              hash_json x06; VStr (hex_string (replicate 20 x08))]; hash_json x07].

Lemma submission_body_read_witness :
  (exists s, is_submission demo_json s /\ is_submission demo_array s) /\
  (respond map_to_list demo_api
     (mk_request POST "/v1/proofs/op-succinct" (Ok (VMap [("chain_id"%string, VInt 1)])))).2 = Rejection 422 /\
  forall s, ~ is_submission (VMap [("chain_id"%string, VInt 1)]) s.
Proof.
  split.
  - destruct (ProofSubmission_de demo_json) as [s|e] eqn:E; [|vm_compute in E; discriminate].
    assert (ProofSubmission_de demo_array = Ok s) as E' by (rewrite <- E; vm_compute; reflexivity).
    exists s. split.
    + apply (submission_body_read demo_json), E.
    + apply (submission_body_read demo_array), E'.
  - destruct (submission_body_read  (VMap [("chain_id"%string, VInt 1)])) as [_ Hr].
    destruct (Hr map_to_list demo_api) as [Hno _].
    assert ((respond map_to_list demo_api
      (mk_request POST "/v1/proofs/op-succinct" (Ok (VMap [("chain_id"%string, VInt 1)])))).2 = Rejection 422)
      as E by (vm_compute; reflexivity).
    split; [exact E|apply Hno, E].
Defined.

Lemma api_changes_only_by_proofs_witness :
  (respond map_to_list demo_api demo_post).2 = ACCEPTED /\
  exists r, (respond map_to_list demo_api demo_post).1 = Some r.
Proof.
  pose proof (api_changes_only_by_proofs (H := prefix_sha256) (H0 := prost_codec)
    (H1 := all_requests) hex_string map_to_list demo_api demo_post (fun m => reflexivity _)) as Ha.
  destruct (respond map_to_list demo_api demo_post) as [effect status] eqn:E.
  assert (status = ACCEPTED) as Hs by (vm_compute in E; congruence).
  cbn. split; [exact Hs|]. apply Ha in Hs as [r Hr]. by exists r.
Defined.
