(* ===== verification/Config.v ===== *)
(** * Configuration ([crates/config])

    Loading: the file or the defaults, then the environment, then normalisation and
    validation. The YAML parser, the command-line parser and [humantime] are outside the
    sources and are arguments; the file system and the environment are functions. Durations
    are nanoseconds. *)
From Stdlib Require Import ZArith Lia.
From S2P Require Import Prelude Spec Serde InstanceIdGen Messages CoordState L1Submit.

Record SettlementConfig := mk_SettlementConfig {
  l1_rpc_url : string;
  l2oo_address : string;
  proposer_key : string;
}.

Record ServerConfig := mk_ServerConfig {
  server_listen_addr : string;
  server_max_message_size : Z;
}.

Record ApiConfig := mk_ApiConfig {
  api_listen_addr : string;
  request_timeout : Duration;
}.

Record ConsensusConfig := mk_ConsensusConfig {
  timeout : Duration;
  period_duration : Duration;
  proof_window : Duration;
}.

Record MetricsConfig := mk_MetricsConfig { metrics_enabled : bool }.

Record LogConfig := mk_LogConfig {
  log_level : string;
  log_pretty : bool;
}.

Record Config := mk_Config {
  server : ServerConfig;
  api : ApiConfig;
  consensus : ConsensusConfig;
  metrics : MetricsConfig;
  log : LogConfig;
  settlement : SettlementConfig;
  mock_mode : bool;
}.

Definition ServerConfig_default : ServerConfig := mk_ServerConfig ":8080" (4 * 1024 * 1024).
Definition ApiConfig_default : ApiConfig := mk_ApiConfig ":8081" (from_secs 15).
Definition ConsensusConfig_default : ConsensusConfig :=
  mk_ConsensusConfig (from_secs 60) (from_secs 3840) (from_secs 7200).
Definition MetricsConfig_default : MetricsConfig := mk_MetricsConfig true.
Definition LogConfig_default : LogConfig := mk_LogConfig "info" false.
Definition SettlementConfig_default : SettlementConfig := mk_SettlementConfig "" "" "".

Definition Config_default : Config :=
  mk_Config ServerConfig_default ApiConfig_default ConsensusConfig_default MetricsConfig_default
    LogConfig_default SettlementConfig_default false.

(** ** Normalisation and validation *)

Definition normalize_addr (addr : string) : string :=
  match addr with
  | String ":" _ => "0.0.0.0" +:+ addr
  | _ => addr
  end.

Definition normalize (c : Config) : Config :=
  mk_Config
    (mk_ServerConfig (normalize_addr (server_listen_addr (server c)))
       (server_max_message_size (server c)))
    (mk_ApiConfig (normalize_addr (api_listen_addr (api c))) (request_timeout (api c)))
    (consensus c) (metrics c) (log c) (settlement c) (mock_mode c).

Definition ensure (b : bool) (msg : string) : result unit string :=
  if b then Ok () else Err msg.

Definition validate (c : Config) : result unit string :=
  (let? _ := ensure (negb (String.eqb (server_listen_addr (server c)) ""))
               "server.listen_addr must not be empty" in
   let? _ := ensure (negb (timeout (consensus c) =? 0)) "consensus.timeout must be positive" in
   let? _ := ensure (negb (period_duration (consensus c) =? 0))
               "consensus.period_duration must be positive" in
   ensure (negb (proof_window (consensus c) =? 0)) "consensus.proof_window must be positive")%result.

(** ** Environment *)

Definition ascii_lower (c : ascii) : ascii :=
  let n := Ascii.N_of_ascii c in
  if ((65 <=? n) && (n <=? 90))%N then Ascii.ascii_of_N (n + 32) else c.

Fixpoint to_lowercase (s : string) : string :=
  match s with
  | EmptyString => EmptyString
  | String c s' => String (ascii_lower c) (to_lowercase s')
  end.

Section env.
Context (env : string -> option string).
Context (parse_duration : string -> option Duration).

Definition env_str (key : string) (target : string) : string := default target (env key).

Definition env_bool (key : string) (target : bool) : bool :=
  match env key with
  | None => target
  | Some val =>
      let v := to_lowercase val in
      if decide (v ∈ ["true"; "1"; "yes"]%string) then true
      else if decide (v ∈ ["false"; "0"; "no"]%string) then false
      else target
  end.

Definition env_duration (key : string) (target : Duration) : Duration :=
  match env key with
  | None => target
  | Some val => default target (parse_duration val)
  end.

Definition env_usize (key : string) (target : Z) : Z :=
  match env key with
  | None => target
  | Some val => default target (parse_u64 val)
  end.

Definition apply_env_overrides (c : Config) : Config :=
  mk_Config
    (mk_ServerConfig (env_str "SERVER_LISTEN_ADDR" (server_listen_addr (server c)))
       (env_usize "SERVER_MAX_MESSAGE_SIZE" (server_max_message_size (server c))))
    (mk_ApiConfig (env_str "API_LISTEN_ADDR" (api_listen_addr (api c)))
       (env_duration "API_REQUEST_TIMEOUT" (request_timeout (api c))))
    (mk_ConsensusConfig (env_duration "CONSENSUS_TIMEOUT" (timeout (consensus c)))
       (env_duration "CONSENSUS_PERIOD_DURATION" (period_duration (consensus c)))
       (env_duration "CONSENSUS_PROOF_WINDOW" (proof_window (consensus c))))
    (mk_MetricsConfig (env_bool "METRICS_ENABLED" (metrics_enabled (metrics c))))
    (mk_LogConfig (env_str "LOG_LEVEL" (log_level (log c)))
       (env_bool "LOG_PRETTY" (log_pretty (log c))))
    (mk_SettlementConfig (env_str "SETTLEMENT_L1_RPC_URL" (l1_rpc_url (settlement c)))
       (env_str "SETTLEMENT_L2OO_ADDRESS" (l2oo_address (settlement c)))
       (env_str "SETTLEMENT_PROPOSER_KEY" (proposer_key (settlement c))))
    (env_bool "MOCK_MODE" (mock_mode c)).

(** [file] is what [config_file] made of the path. *)
Definition load (file : option (result Config string)) : result Config string :=
  (let? cfg := match file with Some r => r | None => Ok Config_default end in
   let cfg := normalize (apply_env_overrides cfg) in
   let? _ := validate cfg in
   Ok cfg)%result.

End env.

(** ** The command line and the file *)

Record Cli := mk_Cli { cli_config : string }.

Section file.
Context `{Scalars}.

(** Each section of the file has [serde(default)]: the keys it leaves out are those of the
    section's [Default]. *)
Definition ServerConfig_fields : list (string * (Value -> result unit string)) :=
  [("listen_addr", readable de_string); ("max_message_size", readable de_u64)]%string.

Definition ServerConfig_de (v : Value) : result ServerConfig string :=
  (let d := ServerConfig_default in
   let? m := de_struct ServerConfig_fields v in
   let? listen_addr := field_or de_string "listen_addr" (server_listen_addr d) m in
   let? max_message_size := field_or de_u64 "max_message_size" (server_max_message_size d) m in
   Ok (mk_ServerConfig listen_addr max_message_size))%result.

Definition ApiConfig_fields : list (string * (Value -> result unit string)) :=
  [("listen_addr", readable de_string); ("request_timeout", readable de_duration)]%string.

Definition ApiConfig_de (v : Value) : result ApiConfig string :=
  (let d := ApiConfig_default in
   let? m := de_struct ApiConfig_fields v in
   let? listen_addr := field_or de_string "listen_addr" (api_listen_addr d) m in
   let? timeout := field_or de_duration "request_timeout" (request_timeout d) m in
   Ok (mk_ApiConfig listen_addr timeout))%result.

Definition ConsensusConfig_fields : list (string * (Value -> result unit string)) :=
  [("timeout", readable de_duration); ("period_duration", readable de_duration);
   ("proof_window", readable de_duration)]%string.

Definition ConsensusConfig_de (v : Value) : result ConsensusConfig string :=
  (let d := ConsensusConfig_default in
   let? m := de_struct ConsensusConfig_fields v in
   let? t := field_or de_duration "timeout" (timeout d) m in
   let? p := field_or de_duration "period_duration" (period_duration d) m in
   let? w := field_or de_duration "proof_window" (proof_window d) m in
   Ok (mk_ConsensusConfig t p w))%result.

Definition MetricsConfig_fields : list (string * (Value -> result unit string)) :=
  [("enabled", readable de_bool)]%string.

Definition MetricsConfig_de (v : Value) : result MetricsConfig string :=
  (let? m := de_struct MetricsConfig_fields v in
   let? enabled := field_or de_bool "enabled" (metrics_enabled MetricsConfig_default) m in
   Ok (mk_MetricsConfig enabled))%result.

Definition LogConfig_fields : list (string * (Value -> result unit string)) :=
  [("level", readable de_string); ("pretty", readable de_bool)]%string.

Definition LogConfig_de (v : Value) : result LogConfig string :=
  (let d := LogConfig_default in
   let? m := de_struct LogConfig_fields v in
   let? level := field_or de_string "level" (log_level d) m in
   let? pretty := field_or de_bool "pretty" (log_pretty d) m in
   Ok (mk_LogConfig level pretty))%result.

Definition SettlementConfig_fields : list (string * (Value -> result unit string)) :=
  [("l1_rpc_url", readable de_string); ("l2oo_address", readable de_string);
   ("proposer_key", readable de_string)]%string.

Definition SettlementConfig_de (v : Value) : result SettlementConfig string :=
  (let d := SettlementConfig_default in
   let? m := de_struct SettlementConfig_fields v in
   let? url := field_or de_string "l1_rpc_url" (l1_rpc_url d) m in
   let? address := field_or de_string "l2oo_address" (l2oo_address d) m in
   let? key := field_or de_string "proposer_key" (proposer_key d) m in
   Ok (mk_SettlementConfig url address key))%result.

Definition Config_fields : list (string * (Value -> result unit string)) :=
  [("server", readable ServerConfig_de); ("api", readable ApiConfig_de);
   ("consensus", readable ConsensusConfig_de); ("metrics", readable MetricsConfig_de);
   ("log", readable LogConfig_de); ("settlement", readable SettlementConfig_de);
   ("mock_mode", readable de_bool)]%string.

Definition Config_de (v : Value) : result Config string :=
  (let d := Config_default in
   let? m := de_struct Config_fields v in
   let? server := field_or ServerConfig_de "server" (server d) m in
   let? api := field_or ApiConfig_de "api" (api d) m in
   let? consensus := field_or ConsensusConfig_de "consensus" (consensus d) m in
   let? metrics := field_or MetricsConfig_de "metrics" (metrics d) m in
   let? log := field_or LogConfig_de "log" (log d) m in
   let? settlement := field_or SettlementConfig_de "settlement" (settlement d) m in
   let? mock_mode := field_or de_bool "mock_mode" (mock_mode d) m in
   Ok (mk_Config server api consensus metrics log settlement mock_mode))%result.

(** [None] when the path does not exist; else what reading and parsing the file gave. *)
Definition config_file (fs : string -> option (result string string))
    (from_yaml : string -> result Value string) (path : string) : option (result Config string) :=
  contents ← fs path;
  Some (let? text := contents in let? v := from_yaml text in Config_de v)%result.

End file.

(** ** Theorems *)

Lemma validate_Ok c :
  validate c = Ok () <->
    server_listen_addr (server c) <> "" /\ timeout (consensus c) <> 0 /\
    period_duration (consensus c) <> 0 /\ proof_window (consensus c) <> 0.
Proof.
  unfold validate, ensure.
  destruct (String.eqb_spec (server_listen_addr (server c)) ""); cbn; [naive_solver|].
  destruct (Z.eqb_spec (timeout (consensus c)) 0); cbn; [naive_solver|].
  destruct (Z.eqb_spec (period_duration (consensus c)) 0); cbn; [naive_solver|].
  destruct (Z.eqb_spec (proof_window (consensus c)) 0); cbn; naive_solver.
Qed.

(** ** What loads *)

Section loading.
Context (env : string -> option string) (parse_duration : string -> option Duration).

(** The setting [key] changes [old] into [new]: what its text means, when it is set to a text
    that means something, and otherwise the old value. *)
Definition setting {A} (meaning : string -> option A) (key : string) (old new : A) : Prop :=
  (exists text, env key = Some text /\ meaning text = Some new) \/
  ((forall text, env key = Some text -> meaning text = None) /\ new = old).

(** The texts of a switch, in either case. *)
Definition switch (text : string) : option bool :=
  let word := to_lowercase text in
  if decide (word = "true" \/ word = "1" \/ word = "yes")%string then Some true
  else if decide (word = "false" \/ word = "0" \/ word = "no")%string then Some false
  else None.

(** An address without a host is one on every interface. *)
Definition host_filled_in (given addr : string) : Prop :=
  (exists port, given = String ":" port /\ addr = "0.0.0.0:" +:+ port) \/
  ((forall port, given <> String ":" port) /\ addr = given).

Lemma setting_from {A} (meaning : string -> option A) key old new :
  setting meaning key old new <->
  new = match env key with Some text => default old (meaning text) | None => old end.
Proof.
  unfold setting. destruct (env key) as [text|]; [|naive_solver].
  destruct (meaning text) as [x|] eqn:E; cbn; naive_solver.
Qed.

Lemma setting_str key old new : setting Some key old new <-> new = env_str env key old.
Proof. rewrite setting_from. unfold env_str. by destruct (env key). Qed.

Lemma setting_bool key old new : setting switch key old new <-> new = env_bool env key old.
Proof.
  rewrite setting_from. unfold env_bool, switch. destruct (env key) as [text|]; [|done]. cbv zeta.
  assert (forall w x y z : string, w ∈ [x; y; z] <-> w = x \/ w = y \/ w = z) as Hin by set_solver.
  repeat case_decide; rewrite ?Hin in *; try done; tauto.
Qed.

Lemma setting_duration key old new :
  setting parse_duration key old new <-> new = env_duration env parse_duration key old.
Proof. rewrite setting_from. done. Qed.

Lemma setting_usize key old new : setting parse_u64 key old new <-> new = env_usize env key old.
Proof. rewrite setting_from. done. Qed.

Lemma host_filled_in_normalize given addr : host_filled_in given addr <-> addr = normalize_addr given.
Proof.
  unfold host_filled_in. split.
  - intros [(port & -> & ->)|[Hn ->]]; [done|]. destruct given as [|c given]; [done|].
    cbn. repeat case_match; try done. exfalso. by eapply Hn.
  - intros ->. destruct given as [|c given]; [by right|].
    destruct (decide (c = ":"%char)) as [->|Hc]; [left; by exists given|right].
    split; [intros port [= ? ?]; done|]. cbn. repeat case_match; done.
Qed.

(** The fourteen settings, from what the file says, or the defaults, to what the program gets;
    [listen] and [api_listen] are the two addresses before their hosts are filled in. *)
Record overridden (base : Config) (listen api_listen : string) (cfg : Config) : Prop := {
  ov_listen : setting Some "SERVER_LISTEN_ADDR" (server_listen_addr (server base)) listen;
  ov_max : setting parse_u64 "SERVER_MAX_MESSAGE_SIZE" (server_max_message_size (server base))
    (server_max_message_size (server cfg));
  ov_api_listen : setting Some "API_LISTEN_ADDR" (api_listen_addr (api base)) api_listen;
  ov_request_timeout : setting parse_duration "API_REQUEST_TIMEOUT" (request_timeout (api base))
    (request_timeout (api cfg));
  ov_timeout : setting parse_duration "CONSENSUS_TIMEOUT" (timeout (consensus base))
    (timeout (consensus cfg));
  ov_period : setting parse_duration "CONSENSUS_PERIOD_DURATION" (period_duration (consensus base))
    (period_duration (consensus cfg));
  ov_window : setting parse_duration "CONSENSUS_PROOF_WINDOW" (proof_window (consensus base))
    (proof_window (consensus cfg));
  ov_metrics : setting switch "METRICS_ENABLED" (metrics_enabled (metrics base))
    (metrics_enabled (metrics cfg));
  ov_level : setting Some "LOG_LEVEL" (log_level (log base)) (log_level (log cfg));
  ov_pretty : setting switch "LOG_PRETTY" (log_pretty (log base)) (log_pretty (log cfg));
  ov_rpc : setting Some "SETTLEMENT_L1_RPC_URL" (l1_rpc_url (settlement base))
    (l1_rpc_url (settlement cfg));
  ov_l2oo : setting Some "SETTLEMENT_L2OO_ADDRESS" (l2oo_address (settlement base))
    (l2oo_address (settlement cfg));
  ov_key : setting Some "SETTLEMENT_PROPOSER_KEY" (proposer_key (settlement base))
    (proposer_key (settlement cfg));
  ov_mock : setting switch "MOCK_MODE" (mock_mode base) (mock_mode cfg);
}.

Lemma overridden_spec base listen api_listen cfg :
  overridden base listen api_listen cfg /\
  host_filled_in listen (server_listen_addr (server cfg)) /\
  host_filled_in api_listen (api_listen_addr (api cfg)) <->
  cfg = normalize (apply_env_overrides env parse_duration base) /\
  listen = env_str env "SERVER_LISTEN_ADDR" (server_listen_addr (server base)) /\
  api_listen = env_str env "API_LISTEN_ADDR" (api_listen_addr (api base)).
Proof.
  rewrite !host_filled_in_normalize. split.
  - intros ([O1 O2 O3 O4 O5 O6 O7 O8 O9 O10 O11 O12 O13 O14] & Hl & Ha).
    apply setting_str in O1, O3, O9, O11, O12, O13. apply setting_usize in O2.
    apply setting_duration in O4, O5, O6, O7. apply setting_bool in O8, O10, O14.
    destruct cfg as [[] [] [] [] [] [] ?]. cbn in *. subst. done.
  - intros (-> & -> & ->). split; [|done].
    split; cbn; by rewrite ?setting_str, ?setting_usize, ?setting_duration, ?setting_bool.
Qed.

(** C38. Which configurations load, and as what. Loading succeeds exactly when there is no
    file or the file is read, the listen address is not empty and the timeout, the period
    and the proof window are not zero in the result. The result is then the file, or the
    defaults, with each of the fourteen environment variables in place of its own field when
    it is set to a text its type accepts (a switch is true, 1, yes, false, 0 or no in either
    case) and ignored otherwise, and with the host [0.0.0.0] in front of the two listen
    addresses when they begin with a colon. *)
Theorem configuration_loads_iff file cfg :
  load env parse_duration file = Ok cfg <->
  exists base listen api_listen,
    (file = Some (Ok base) \/ (file = None /\ base = Config_default)) /\
    overridden base listen api_listen cfg /\
    host_filled_in listen (server_listen_addr (server cfg)) /\
    host_filled_in api_listen (api_listen_addr (api cfg)) /\
    server_listen_addr (server cfg) <> "" /\ timeout (consensus cfg) <> 0 /\
    period_duration (consensus cfg) <> 0 /\ proof_window (consensus cfg) <> 0.
Proof.
  unfold load. rewrite result_bind_Ok. cbv zeta. split.
  - intros (base & Hfile & Hload). apply result_bind_Ok in Hload as ([] & Hv & [= <-]).
    apply validate_Ok in Hv as (H1 & H2 & H3 & H4).
    exists base, (env_str env "SERVER_LISTEN_ADDR" (server_listen_addr (server base))),
      (env_str env "API_LISTEN_ADDR" (api_listen_addr (api base))).
    destruct (proj2 (overridden_spec base
      (env_str env "SERVER_LISTEN_ADDR" (server_listen_addr (server base)))
      (env_str env "API_LISTEN_ADDR" (api_listen_addr (api base)))
      (normalize (apply_env_overrides env parse_duration base)))) as (Ho & Hl & Ha); [done|].
    split_and!; try done. destruct file as [r|]; [left; by subst|right; by simplify_eq].
  - intros (base & listen & api_listen & Hfile & Ho & Hl & Ha & H1 & H2 & H3 & H4).
    exists base. split; [by destruct Hfile as [-> |[-> ->]]|].
    destruct (proj1 (overridden_spec base listen api_listen cfg)) as (E & _); [done|].
    apply result_bind_Ok. exists (). rewrite <- E. split; [|done]. by apply validate_Ok.
Qed.

End loading.

(** The timeout is set, metrics are switched off, an unreadable switch is ignored, and the API
    listens on a port of its own. *)
Definition demo_env (k : string) : option string :=
  list_to_map (M := gmap string string)
    [("CONSENSUS_TIMEOUT", "3s"); ("METRICS_ENABLED", "No"); ("MOCK_MODE", "maybe");
     ("API_LISTEN_ADDR", ":9000")]%string !! k.

Definition demo_parse (s : string) : option Duration :=
  if decide (s = "3s"%string) then Some (from_secs 3) else None.

Lemma configuration_loads_iff_witness :
  exists cfg, load demo_env demo_parse None = Ok cfg /\ timeout (consensus cfg) = from_secs 3 /\
    metrics_enabled (metrics cfg) = false /\ mock_mode cfg = false /\
    api_listen_addr (api cfg) = "0.0.0.0:9000"%string /\
    overridden demo_env demo_parse Config_default ":8080" ":9000" cfg.
Proof.
  destruct (load demo_env demo_parse None) as [cfg|e] eqn:E; [|vm_compute in E; discriminate].
  exists cfg. split; [done|].
  destruct (proj1 (configuration_loads_iff demo_env demo_parse None cfg) E)
    as (base & listen & api_listen & [Hf|[_ ->]] & Ho & Hl & Ha & _); [discriminate Hf|].
  assert (listen = ":8080"%string) as -> by (destruct (ov_listen _ _ _ _ _ _ Ho) as [(t & Ht & _)|[_ ->]];
    [vm_compute in Ht; discriminate|reflexivity]).
  assert (api_listen = ":9000"%string) as -> by (destruct (ov_api_listen _ _ _ _ _ _ Ho) as [(t & Ht & [= ->])|[Hn _]];
    [vm_compute in Ht; congruence|discriminate (Hn ":9000"%string eq_refl)]).
  vm_compute in E. injection E as <-. split_and!; [reflexivity..|exact Ho].
Defined.

(** ** Reading the file *)

Section reading.
Context `{Scalars}.
Implicit Types l : list (string * Value).

Lemma server_section_read l c :
  ServerConfig_de (VMap l) = Ok c <->
  known_once ServerConfig_fields l /\
  reads_or de_string l "listen_addr" ":8080"%string (server_listen_addr c) /\
  reads_or de_u64 l "max_message_size" (4 * 1024 * 1024) (server_max_message_size c).
Proof. unfold ServerConfig_de. cbv zeta. by_fields ServerConfig_fields c. Qed.

Lemma consensus_section_read l c :
  ConsensusConfig_de (VMap l) = Ok c <->
  known_once ConsensusConfig_fields l /\
  reads_or de_duration l "timeout" (from_secs 60) (timeout c) /\
  reads_or de_duration l "period_duration" (from_secs 3840) (period_duration c) /\
  reads_or de_duration l "proof_window" (from_secs 7200) (proof_window c).
Proof. unfold ConsensusConfig_de. cbv zeta. by_fields ConsensusConfig_fields c. Qed.

Lemma log_section_read l c :
  LogConfig_de (VMap l) = Ok c <->
  known_once LogConfig_fields l /\
  reads_or de_string l "level" "info"%string (log_level c) /\
  reads_or de_bool l "pretty" false (log_pretty c).
Proof. unfold LogConfig_de. cbv zeta. by_fields LogConfig_fields c. Qed.

Lemma sections_read l cfg :
  Config_de (VMap l) = Ok cfg <->
  known_once Config_fields l /\
  reads_or ServerConfig_de l "server" ServerConfig_default (server cfg) /\
  reads_or ApiConfig_de l "api" ApiConfig_default (api cfg) /\
  reads_or ConsensusConfig_de l "consensus" ConsensusConfig_default (consensus cfg) /\
  reads_or MetricsConfig_de l "metrics" MetricsConfig_default (metrics cfg) /\
  reads_or LogConfig_de l "log" LogConfig_default (log cfg) /\
  reads_or SettlementConfig_de l "settlement" SettlementConfig_default (settlement cfg) /\
  reads_or de_bool l "mock_mode" false (mock_mode cfg).
Proof. unfold Config_de. cbv zeta. by_fields Config_fields cfg. Qed.


End reading.
