(* ===== verification/Endpoint.v ===== *)
(** * The life of the QUIC endpoint
    ([crates/transport/src/server.rs], [tls.rs], [socket.rs])

    [QuicServer::start] builds the TLS configuration, the socket and the endpoint, records
    the endpoint once and spawns the accept loop; [close] closes the endpoint. The crates
    [rcgen], [rustls], [socket2] and [quinn] are the class [NetLibs]: what their constructors
    return is theirs to say, what the sources do with the answers is modelled. The last part
    adds to [Transport] the tasks that have not yet identified themselves and the shutdown. *)
From Stdlib Require Import ZArith Lia.
From S2P Require Import Prelude CoordState NetAddr Framing Transport L1Submit Config.

(** ** Library constructors *)

Inductive Domain := IPV4 | IPV6.

#[export] Instance Domain_eq_dec : EqDecision Domain.
Proof. solve_decision. Defined.

Class NetLibs := {
  (* rcgen, rustls *)
  Certificate : Type;
  PrivateKey : Type;
  TlsConfig : Type;
  generate_simple_self_signed : list string -> result (Certificate * PrivateKey) string;
  with_single_cert : list Certificate -> PrivateKey -> result TlsConfig string;
  set_alpn_protocols : list bytes -> TlsConfig -> TlsConfig;
  (* socket2 *)
  Socket : Type;
  socket_new : Domain -> result Socket string;
  set_recv_buffer_size : Z -> Socket -> result Socket string;
  set_send_buffer_size : Z -> Socket -> result Socket string;
  bind : SocketAddr -> Socket -> result Socket string;
  (* quinn *)
  QuicServerConfig : Type;
  quic_config_try_from : TlsConfig -> result QuicServerConfig string;
  default_runtime : option unit;
  Endpoint : Type;
  endpoint_new : QuicServerConfig -> Socket -> result Endpoint string;
}.

(** The endpoints of [quinn] at work. [ep_accept ep n r n'] is [Endpoint::accept] returning
    [r], a new connection or [None]; [net_step] is what the peers and the network do. *)
Class EndpointNet `{NetLibs} := {
  net : Type;
  ep_closed : Endpoint -> net -> Prop;
  ep_close : Endpoint -> net -> net;
  ep_accept : Endpoint -> net -> option Connection -> net -> Prop;
  net_step : net -> net -> Prop;
}.

(** What [quinn] documents: an endpoint stays closed, and [accept] yields [None] on it. *)
Class EndpointNetSpec `{EndpointNet} : Prop := {
  ep_close_closed ep n : ep_closed ep (ep_close ep n);
  ep_close_keeps ep ep' n : ep_closed ep n -> ep_closed ep (ep_close ep' n);
  ep_accept_keeps ep ep' n r n' : ep_closed ep n -> ep_accept ep' n r n' -> ep_closed ep n';
  net_step_keeps ep n n' : ep_closed ep n -> net_step n n' -> ep_closed ep n';
  ep_accept_closed ep n r n' : ep_closed ep n -> ep_accept ep n r n' -> r = None;
}.

Section libs.
Context `{NetLibs}.

(** ** TLS ([tls.rs]) *)

Definition ALPN_ETHERA_QUIC : bytes := list_byte_of_string "ethera-quic".

Definition map_err {A E F} (f : E -> F) (r : result A E) : result A F :=
  match r with Ok a => Ok a | Err e => Err (f e) end.

Definition generate_self_signed : result (list Certificate * PrivateKey) TransportError :=
  (let? ck := map_err Tls (generate_simple_self_signed ["localhost"%string]) in
   Ok ([ck.1], ck.2))%result.

Definition self_signed_server_config : result TlsConfig TransportError :=
  (let? ck := generate_self_signed in
   let? config := map_err Tls (with_single_cert ck.1 ck.2) in
   Ok (set_alpn_protocols [ALPN_ETHERA_QUIC] config))%result.

(** ** The socket ([socket.rs]) *)

Definition SOCKET_BUFFER_SIZE : Z := 7 * 1024 * 1024.

(** A failure to resize is logged; the socket is used as it is. *)
Definition or_keep (socket : Socket) (r : result Socket string) : Socket :=
  match r with Ok s => s | Err _ => socket end.

Definition build_udp_socket (addr : SocketAddr) : result Socket string :=
  let domain := if is_ipv6 addr then IPV6 else IPV4 in
  (let? socket := socket_new domain in
   let socket := or_keep socket (set_recv_buffer_size SOCKET_BUFFER_SIZE socket) in
   let socket := or_keep socket (set_send_buffer_size SOCKET_BUFFER_SIZE socket) in
   bind addr socket)%result.

(** ** The server *)

Record QuicServer := mk_QuicServer {
  qs_listen_addr : string;
  qs_codec : LengthPrefixCodec;
  qs_registry : ConnectionRegistry;
  qs_endpoint : option Endpoint;
}.

Definition QuicServer_new (listen_addr : string) (max_message_size : Z) : QuicServer :=
  mk_QuicServer listen_addr (LengthPrefixCodec_new max_message_size) ∅ None.

(** [OnceLock::set]. *)
Definition set_endpoint (srv : QuicServer) (ep : Endpoint) : QuicServer * bool :=
  match qs_endpoint srv with
  | Some _ => (srv, false)
  | None => (mk_QuicServer (qs_listen_addr srv) (qs_codec srv) (qs_registry srv) (Some ep), true)
  end.

(** The endpoint [start] would serve, before it is recorded. *)
Definition open_endpoint (listen_addr : string) : result Endpoint TransportError :=
  (let? tls_config := self_signed_server_config in
   let? quic_config := map_err Tls (quic_config_try_from tls_config) in
   let? addr := map_err Other (parse_socket_addr listen_addr) in
   let? socket := map_err Io (build_udp_socket addr) in
   let? _ := match default_runtime with
             | Some _ => Ok ()
             | None => Err (Other "no async runtime available")
             end in
   map_err Io (endpoint_new quic_config socket))%result.

(** On success the accept loop runs on the endpoint returned. *)
Definition start (srv : QuicServer) : QuicServer * result Endpoint TransportError :=
  match open_endpoint (qs_listen_addr srv) with
  | Err e => (srv, Err e)
  | Ok endpoint =>
      match set_endpoint srv endpoint with
      | (srv', true) => (srv', Ok endpoint)
      | (srv', false) => (srv', Err (Other "server already started"))
      end
  end.

(** [close] closes the endpoint recorded, if there is one. *)
Definition close `{!EndpointNet} (srv : QuicServer) (n : net) : net :=
  match qs_endpoint srv with
  | Some ep => ep_close ep n
  | None => n
  end.

(** ** Theorems *)

(** The socket is bound whenever it can be created and bound: buffer sizes do not matter
    for success. *)
Lemma build_udp_socket_ok addr s :
  build_udp_socket addr = Ok s ->
  exists s0 s1, socket_new (if is_ipv6 addr then IPV6 else IPV4) = Ok s0 /\ bind addr s1 = Ok s.
Proof.
  unfold build_udp_socket. intros (s0 & H1 & H2)%result_bind_Ok. eauto.
Qed.

(** A server is started at most once: [start] succeeds exactly when TLS, address, socket,
    runtime and endpoint are all obtained and no endpoint was recorded before; the endpoint
    it returns is then the one on record, which [close] will close. Any failure leaves the server as it was,
    in particular a second [start] is refused and the first endpoint stays the one in
    charge. *)
Theorem start_once srv :
  let '(srv', r) := start srv in
  match r with
  | Ok ep =>
      open_endpoint (qs_listen_addr srv) = Ok ep /\ qs_endpoint srv = None /\
      qs_endpoint srv' = Some ep /\ qs_registry srv' = qs_registry srv /\
      is_ok (start srv').2 = false /\ qs_endpoint (start srv').1 = Some ep
  | Err e =>
      srv' = srv /\
      (open_endpoint (qs_listen_addr srv) = Err e \/
       exists ep, qs_endpoint srv = Some ep /\ e = Other "server already started")
  end.
Proof.
  unfold start, set_endpoint. destruct (open_endpoint (qs_listen_addr srv)) as [ep|e] eqn:E.
  - destruct (qs_endpoint srv) as [ep0|] eqn:E0; [split; [done|]; right; eauto|].
    cbn. rewrite E. done.
  - split; [done|]. by left.
Qed.

(** The defaults listen: any [u16] port given as [":port"] is no socket address by itself,
    but what [normalize] makes of it is the unspecified IPv4 host with that port; so the
    server of a configuration loaded without a file gets past the parsing of its address,
    and with libraries that give it TLS, a socket, a runtime and an endpoint it starts. *)
Theorem normalized_address_listens port env parse_duration cfg :
  0 <= port < u16_bound ->
  (forall k, env k = None) -> load env parse_duration None = Ok cfg ->
  parse_socket_addr (":" +:+ u64_to_string port) = Err AddrParseError /\
  parse_socket_addr (normalize_addr (":" +:+ u64_to_string port)) = Ok (V4 [0; 0; 0; 0] port) /\
  parse_socket_addr (server_listen_addr (server cfg)) = Ok (V4 [0; 0; 0; 0] 8080) /\
  forall tls quic sock ep,
    self_signed_server_config = Ok tls -> quic_config_try_from tls = Ok quic ->
    build_udp_socket (V4 [0; 0; 0; 0] 8080) = Ok sock -> default_runtime = Some () ->
    endpoint_new quic sock = Ok ep ->
    (start (QuicServer_new (server_listen_addr (server cfg)) 0)).2 = Ok ep.
Proof.
  intros Hport Henv Hload.
  assert (server_listen_addr (server cfg) = "0.0.0.0:8080"%string) as Haddr.
  { unfold load in Hload. apply result_bind_Ok in Hload as (c0 & [= <-] & Hload).
    apply result_bind_Ok in Hload as (_ & _ & [= <-]). cbn. unfold env_str. by rewrite Henv. }
  split_and!; [apply parse_no_host|apply (parse_any_host port Hport)| |].
  - rewrite Haddr. reflexivity.
  - intros tls quic sock ep Htls Hquic Hsock Hrt Hep. unfold start, open_endpoint.
    cbn [qs_listen_addr QuicServer_new]. rewrite Haddr.
    change (parse_socket_addr "0.0.0.0:8080") with (@Ok SocketAddr string (V4 [0; 0; 0; 0] 8080)).
    rewrite Htls. cbn [result_bind]. rewrite Hquic. cbn [result_bind map_err].
    rewrite Hsock. cbn [result_bind map_err]. rewrite Hrt. cbn [result_bind]. rewrite Hep. done.
Qed.

End libs.

(** ** One connection, from accept to disconnect *)

Section connections.
Context `{RecvStream}.
Context (codec : LengthPrefixCodec).

(** What [accept_bi] returns; every error ends the loop. *)
Inductive accepted :=
| Streams (recv : stream)
| ApplicationClosed
| ConnectionClosed
| LocallyClosed
| AcceptFailed (e : string).

(** The first stream carries the client id. *)
Definition identify (first : result stream string) : result string TransportError :=
  match first with
  | Err e => Err (Quic e)
  | Ok recv => read_client_id codec recv
  end.

(** The message loop, on the streams the peer opens; it waits when there are no more. *)
Fixpoint serve_loop (client_id : string) (streams : list accepted) (w : transport_world)
    : transport_world :=
  match streams with
  | Streams recv :: rest => serve_loop client_id rest (serve_stream codec client_id recv w)
  | _ => w
  end.

(** The whole handler, when no other task runs in between. *)
Definition handle_connection (conn : Connection) (first : result stream string)
    (streams : list accepted) (w : transport_world) : transport_world * result unit TransportError :=
  match identify first with
  | Err e => (w, Err e)
  | Ok client_id =>
      (disconnect client_id conn (serve_loop client_id streams (connect client_id conn w)), Ok ())
  end.

(** The payloads the loop hands over: readable frames before the first error. *)
Fixpoint frames_read (streams : list accepted) : list bytes :=
  match streams with
  | Streams recv :: rest =>
      match read_frame codec recv with Ok p => [p] | Err _ => [] end ++ frames_read rest
  | _ => []
  end.

Lemma serve_loop_spec client_id streams w :
  serve_loop client_id streams w =
    mk_tw (tw_registry w) (tw_tasks w) (tw_closed w) (tw_gauge w)
      (reverse ((client_id,.) <$> frames_read streams) ++ tw_delivered w).
Proof.
  revert w. induction streams as [|[recv| | | |e] rest IH]; intros w; cbn [serve_loop frames_read];
    try by destruct w.
  rewrite IH. unfold serve_stream. destruct (read_frame codec recv); [|done].
  cbn [tw_registry tw_tasks tw_closed tw_gauge tw_delivered app]. f_equal.
  by rewrite fmap_cons, reverse_cons, <- app_assoc.
Qed.

(** C33. A connection leaves no trace but its messages: an identification that fails changes
    nothing; otherwise every frame that can be read before the peer goes away is delivered
    under the client's id, once and in order, unreadable ones being skipped; and at the end
    the client has no entry, an older connection of the same client having been closed,
    while all other clients, the set of tasks and the gauge are as before. *)
Theorem connection_leaves_messages conn first streams w :
  tw_tasks w !! conn = None ->
  match identify first with
  | Err e => handle_connection conn first streams w = (w, Err e)
  | Ok id =>
      let '(w', r) := handle_connection conn first streams w in
      r = Ok () /\ tw_registry w' = delete id (tw_registry w) /\ tw_tasks w' = tw_tasks w /\
      tw_gauge w' = tw_gauge w /\
      tw_closed w' = option_list (tw_registry w !! id) ++ tw_closed w /\
      tw_delivered w' = reverse ((id,.) <$> frames_read streams) ++ tw_delivered w
  end.
Proof.
  intros Hc. unfold handle_connection. destruct (identify first) as [id|e]; [|done].
  rewrite serve_loop_spec. unfold disconnect, connect.
  cbn [tw_registry tw_tasks tw_closed tw_gauge tw_delivered].
  rewrite lookup_insert_eq, decide_True by done. split_and!; [done|..].
  - by rewrite delete_insert_eq.
  - rewrite delete_insert_eq. by apply delete_id.
  - lia.
  - by destruct (tw_registry w !! id).
  - done.
Qed.

End connections.

(** ** Accepting and shutting down *)

Section server.
Context `{RecvStream, EndpointNet}.
Context (codec : LengthPrefixCodec).

(** The server, the library's endpoints, the endpoint the accept loop runs on while it runs,
    the connections not identified yet, and the rest of the connections. *)
Record server_world := mk_sw {
  sw_server : QuicServer;
  sw_net : net;
  sw_loop : option Endpoint;
  sw_unidentified : gset Z;
  sw_transport : transport_world;
}.

Definition sw_init (listen_addr : string) (max_message_size : Z) (n : net) : server_world :=
  mk_sw (QuicServer_new listen_addr max_message_size) n None ∅ tw_init.

(** The loop of [accept_loop] goes on with the task of a connection spawned, or ends. *)
Definition accept_loop_next (ep : Endpoint) (r : option Connection) (n : net) (w : server_world)
    : server_world :=
  match r with
  | Some conn =>
      mk_sw (sw_server w) n (Some ep) ({[conn]} ∪ sw_unidentified w) (sw_transport w)
  | None => mk_sw (sw_server w) n None (sw_unidentified w) (sw_transport w)
  end.

Definition sw_close (w : server_world) : server_world :=
  mk_sw (sw_server w) (close (sw_server w) (sw_net w)) (sw_loop w) (sw_unidentified w) (sw_transport w).

Definition sw_connections (unidentified : gset Z) (t : transport_world) (w : server_world) : server_world :=
  mk_sw (sw_server w) (sw_net w) (sw_loop w) unidentified t.

(** [start] may be called at any time, [close] too; the loop takes what [accept] returns; a
    spawned task waits for the handshake ([ss_handshake_failed] is its [Err]), identifies the
    client and serves it until [accept_bi] fails. *)
Inductive server_step (w : server_world) : server_world -> Prop :=
| ss_start srv' ep :
    start (sw_server w) = (srv', Ok ep) ->
    server_step w (mk_sw srv' (sw_net w) (Some ep) (sw_unidentified w) (sw_transport w))
| ss_start_failed srv' e :
    start (sw_server w) = (srv', Err e) ->
    server_step w (mk_sw srv' (sw_net w) (sw_loop w) (sw_unidentified w) (sw_transport w))
| ss_accept ep r n' :
    sw_loop w = Some ep -> ep_accept ep (sw_net w) r n' ->
    (forall conn, r = Some conn ->
       (conn ∉ sw_unidentified w) /\ tw_tasks (sw_transport w) !! conn = None) ->
    server_step w (accept_loop_next ep r n' w)
| ss_net n' :
    net_step (sw_net w) n' ->
    server_step w (mk_sw (sw_server w) n' (sw_loop w) (sw_unidentified w) (sw_transport w))
| ss_handshake_failed conn :
    conn ∈ sw_unidentified w ->
    server_step w (sw_connections (sw_unidentified w ∖ {[conn]}) (sw_transport w) w)
| ss_identify_failed conn first e :
    conn ∈ sw_unidentified w -> identify codec first = Err e ->
    server_step w (sw_connections (sw_unidentified w ∖ {[conn]}) (sw_transport w) w)
| ss_connect conn first client_id :
    conn ∈ sw_unidentified w -> identify codec first = Ok client_id ->
    server_step w (sw_connections (sw_unidentified w ∖ {[conn]})
                     (connect client_id conn (sw_transport w)) w)
| ss_stream conn client_id recv :
    tw_tasks (sw_transport w) !! conn = Some client_id ->
    server_step w (sw_connections (sw_unidentified w)
                     (serve_stream codec client_id recv (sw_transport w)) w)
| ss_disconnect conn client_id :
    tw_tasks (sw_transport w) !! conn = Some client_id ->
    server_step w (sw_connections (sw_unidentified w)
                     (disconnect client_id conn (sw_transport w)) w)
| ss_close : server_step w (sw_close w).

(** Unidentified connections are not served yet; the loop runs on the endpoint on record. *)
Record server_inv (w : server_world) : Prop := {
  sv_transport : transport_inv (sw_transport w);
  sv_unserved c : c ∈ sw_unidentified w -> tw_tasks (sw_transport w) !! c = None;
  sv_loop ep : sw_loop w = Some ep -> qs_endpoint (sw_server w) = Some ep;
}.

Lemma serve_stream_same client_id recv w :
  tw_tasks (serve_stream codec client_id recv w) = tw_tasks w /\
  tw_registry (serve_stream codec client_id recv w) = tw_registry w /\
  tw_closed (serve_stream codec client_id recv w) = tw_closed w /\
  tw_gauge (serve_stream codec client_id recv w) = tw_gauge w.
Proof. unfold serve_stream. by destruct (read_frame codec recv). Qed.

Lemma server_inv_connections u t w :
  server_inv w -> transport_inv t -> (forall c, c ∈ u -> tw_tasks t !! c = None) ->
  server_inv (sw_connections u t w).
Proof. intros [I1 I2 I3] Ht Hu. by split. Qed.

(** [start] never replaces an endpoint on record. *)
Lemma start_records srv srv' r :
  start srv = (srv', r) ->
  match r with
  | Ok ep => qs_endpoint srv = None /\ qs_endpoint srv' = Some ep
  | Err _ => srv' = srv
  end.
Proof.
  unfold start, set_endpoint. destruct (open_endpoint _) as [ep|e]; [|by intros [= <- <-]].
  destruct (qs_endpoint srv) eqn:E; intros [= <- <-]; done.
Qed.

Lemma server_step_inv w w' : server_step w w' -> server_inv w -> server_inv w'.
Proof.
  intros Hstep Hi. pose proof Hi as [Ht Hu Hl]. destruct Hstep as
    [srv' ep E|srv' e E|ep r n' El Ha Hf|n' Hn|c Hc|c f e Hc Hi'|c f id Hc Hi'|c id recv Hc|c id Hc|].
  - apply start_records in E as [_ E]. split; cbn; [done..|]. by intros ? [= <-].
  - apply start_records in E as ->. by destruct w.
  - destruct r as [c|]; split; cbn; try done.
    + intros c' [->%elem_of_singleton|?]%elem_of_union; [|auto]. by apply (Hf c).
    + intros ? [= <-]. by apply Hl.
  - by split.
  - apply server_inv_connections; [done..|]. intros c' [? _]%elem_of_difference. auto.
  - apply server_inv_connections; [done..|]. intros c' [? _]%elem_of_difference. auto.
  - apply server_inv_connections; [done|by apply transport_inv_connect, Hu|].
    intros c' [Hc' Hne]%elem_of_difference. cbn. rewrite lookup_insert_ne; [by apply Hu|set_solver].
  - destruct (serve_stream_same id recv (sw_transport w)) as (E1 & _).
    apply server_inv_connections; [done|by apply serve_stream_inv|]. rewrite E1. done.
  - apply server_inv_connections; [done|by apply transport_inv_disconnect|]. intros c' Hc'. cbn.
    destruct (decide (c = c')) as [->|?]; [by apply lookup_delete_eq|].
    rewrite lookup_delete_ne by done. by apply Hu.
  - by split.
Qed.

(** The tasks of the server that serve connections. *)
Definition live_tasks (w : server_world) : nat :=
  (size (sw_unidentified w) + size (tw_tasks (sw_transport w)))%nat.

Context `{!EndpointNetSpec}.

(** Once the endpoint on record is closed it stays so, and no task is added. *)
Lemma server_step_closed w w' ep :
  server_step w w' -> server_inv w ->
  qs_endpoint (sw_server w) = Some ep -> ep_closed ep (sw_net w) ->
  qs_endpoint (sw_server w') = Some ep /\ ep_closed ep (sw_net w') /\
  (live_tasks w' <= live_tasks w)%nat.
Proof.
  intros Hstep [_ Hu Hl] Hep Hcl. unfold live_tasks. destruct Hstep as
    [srv' ep' E|srv' e E|ep' r n' El Ha Hf|n' Hn|c Hc|c f e Hc Hi|c f id Hc Hi|c id recv Hc|c id Hc|]; cbn.
  - apply start_records in E as [E _]. congruence.
  - apply start_records in E as ->. done.
  - apply Hl in El. rewrite Hep in El. injection El as <-.
    pose proof (ep_accept_closed _ _ _ _ Hcl Ha) as ->. cbn.
    split_and!; [done|by eapply ep_accept_keeps|done].
  - split_and!; [done|by eapply net_step_keeps|done].
  - split_and!; [done..|]. rewrite size_difference_alt. lia.
  - split_and!; [done..|]. rewrite size_difference_alt. lia.
  - split_and!; [done..|]. rewrite map_size_insert_None by by apply Hu.
    rewrite size_difference by set_solver. rewrite size_singleton.
    assert (size (sw_unidentified w) <> 0%nat); [|lia].
    intros Hz. apply size_empty_inv in Hz. set_solver.
  - destruct (serve_stream_same id recv (sw_transport w)) as (E1 & _). by rewrite E1.
  - split_and!; [done..|]. rewrite map_size_delete, Hc. cbn. lia.
  - unfold close. rewrite Hep. split_and!; [done|by apply ep_close_keeps|done].
Qed.

Lemma server_run_closed w w' ep :
  rtc server_step w w' -> server_inv w ->
  qs_endpoint (sw_server w) = Some ep -> ep_closed ep (sw_net w) ->
  server_inv w' /\ qs_endpoint (sw_server w') = Some ep /\ ep_closed ep (sw_net w') /\
  (live_tasks w' <= live_tasks w)%nat.
Proof.
  induction 1 as [|w1 w2 w3 Hs _ IH]; intros Hinv Hep Hcl; [done|].
  destruct (server_step_closed w1 w2 ep Hs Hinv Hep Hcl) as (Hep2 & Hcl2 & Hle).
  destruct IH as (? & ? & ? & ?); [by eapply server_step_inv|done..|]. split_and!; [done..|lia].
Qed.

(** C34. Shutdown is clean. Once a server that was started has been closed, whatever happens
    next, further calls of [start] and [close] included: the accept loop, which runs on the
    endpoint that [close] closes, gets no connection any more and can only end; the number
    of tasks never grows; and when the last of them has ended, however they interleaved, no
    client is registered and the gauge of active connections is back at zero. *)
Theorem shutdown_is_clean addr max n w ep w' :
  rtc server_step (sw_init addr max n) w -> qs_endpoint (sw_server w) = Some ep ->
  rtc server_step (sw_close w) w' ->
  (forall ep' r n', sw_loop w' = Some ep' -> ep_accept ep' (sw_net w') r n' ->
     sw_loop (accept_loop_next ep' r n' w') = None) /\
  (live_tasks w' <= live_tasks w)%nat /\
  (live_tasks w' = 0%nat ->
     tw_registry (sw_transport w') = ∅ /\ tw_gauge (sw_transport w') = 0).
Proof.
  intros Hrun Hep Hrun'.
  assert (server_inv w) as Hinv.
  { assert (server_inv (sw_init addr max n)) as Hi by (split; [by split|set_solver|done]).
    clear -Hrun Hi. induction Hrun; [done|]. eauto using server_step_inv. }
  destruct (server_run_closed (sw_close w) w' ep) as ([[I1 _ I3] _ Il] & Hep' & Hcl & Hle);
    [done|by eapply server_step_inv; [apply ss_close|]|done| |].
  { cbn. unfold close. rewrite Hep. apply ep_close_closed. }
  split_and!; [|exact Hle|].
  - intros ep' r n' Hl Ha. pose proof (Il _ Hl) as El. rewrite Hep' in El. injection El as <-.
    by rewrite (ep_accept_closed _ _ _ _ Hcl Ha).
  - unfold live_tasks. intros Hz.
    assert (tw_tasks (sw_transport w') = ∅) as Ht by (apply map_size_empty_inv; lia). split.
    + apply map_empty. intros id. apply eq_None_not_Some. intros [c Hc%I1]. by rewrite Ht in Hc.
    + rewrite I3, Ht, map_size_empty. done.
Qed.

End server.

(** ** Closed instances *)

(** Libraries that grant everything. *)
Definition granting_libs : NetLibs := {|
  Certificate := unit; PrivateKey := unit; TlsConfig := list bytes;
  generate_simple_self_signed _ := Ok ((), ());
  with_single_cert _ _ := Ok [];
  set_alpn_protocols p _ := p;
  Socket := option SocketAddr;
  socket_new _ := Ok None;
  set_recv_buffer_size _ _ := Err "not permitted"%string;
  set_send_buffer_size _ s := Ok s;
  bind a _ := Ok (Some a);
  QuicServerConfig := list bytes;
  quic_config_try_from c := Ok c;
  default_runtime := Some ();
  Endpoint := list bytes * option SocketAddr;
  endpoint_new c s := Ok (c, s) |}.

Lemma normalized_address_listens_witness :
  parse_socket_addr (normalize_addr ":9090") = Ok (V4 [0; 0; 0; 0] 9090) /\
  (start (H := granting_libs) (QuicServer_new (H := granting_libs) "0.0.0.0:8080" 0)).2 =
    Ok ([ALPN_ETHERA_QUIC], Some (V4 [0; 0; 0; 0] 8080)).
Proof.
  destruct (normalized_address_listens (H := granting_libs) 9090 (fun _ => None) (fun _ => None)
    (normalize Config_default)) as (_ & Hp & _ & Hs); [by_compute|done|vm_compute; reflexivity|].
  split; [exact Hp|]. exact (Hs _ _ _ _ eq_refl eq_refl eq_refl eq_refl eq_refl).
Defined.

(** A client that names itself [1], sends [hi] and leaves. *)
Definition demo_stream (payload : bytes) : bytes := be_bytes 4 (len payload) ++ payload.

Lemma connection_leaves_messages_witness :
  let w := connect "1" 10 tw_init in
  let '(w', r) := handle_connection (H := byte_stream)
    LengthPrefixCodec_default 11 (Ok (demo_stream [x31]))
    [Streams (H := byte_stream) (demo_stream [x68; x69]); ApplicationClosed (H := byte_stream)] w in
  r = Ok () /\ tw_registry w' = delete "1"%string (tw_registry w) /\
  tw_delivered w' = [("1"%string, [x68; x69])].
Proof.
  intros w.
  pose proof (connection_leaves_messages (H := byte_stream)
    LengthPrefixCodec_default 11 (Ok (demo_stream [x31]))
    [Streams (H := byte_stream) (demo_stream [x68; x69]); ApplicationClosed (H := byte_stream)] w
    eq_refl) as Hc.
  change (identify (H := byte_stream)
    LengthPrefixCodec_default (Ok (demo_stream [x31]))) with (@Ok string TransportError "1"%string) in Hc.
  cbn iota in Hc. destruct (handle_connection _ _ _ _ w) as [w' r].
  destruct Hc as (H1 & H2 & _ & _ & _ & H6). split; [exact H1|]. split; [exact H2|].
  rewrite H6. vm_compute. reflexivity.
Defined.

(** A library whose only endpoint accepts anything until it is closed. *)
Definition single_endpoint : EndpointNet (H := granting_libs) := {|
  net := bool;
  ep_closed _ n := n = true;
  ep_close _ _ := true;
  ep_accept _ n r n' := n' = n /\ (n = true -> r = None);
  net_step n n' := n' = n |}.

Lemma single_endpoint_spec : EndpointNetSpec (H0 := single_endpoint).
Proof. split; cbn; try done; [by intros ? ? ? ? ? -> [-> _]|by intros ? ? ? -> ->|intuition]. Qed.

#[local] Existing Instances byte_stream granting_libs single_endpoint single_endpoint_spec.

Definition net_open : @net granting_libs single_endpoint := false.
Definition net_closed : @net granting_libs single_endpoint := true.

Definition demo_server : QuicServer := (start (QuicServer_new "0.0.0.0:8080" 0)).1.
Definition demo_endpoint : Endpoint := ([ALPN_ETHERA_QUIC], Some (V4 [0; 0; 0; 0] 8080)).

(** Client [1] is served on connection 10, connection 11 is not identified yet. *)
Definition demo_busy : server_world :=
  mk_sw demo_server net_open (Some demo_endpoint) {[11]} (connect "1" 10 tw_init).

(** After [close] connection 11 fails, client [1] leaves and the loop ends. *)
Definition demo_stopped : server_world :=
  mk_sw demo_server net_closed None (({[11]} : gset Z) ∖ {[11]}) (disconnect "1" 10 (connect "1" 10 tw_init)).

Lemma shutdown_is_clean_witness :
  live_tasks demo_busy = 2%nat /\ live_tasks demo_stopped = 0%nat /\
  tw_registry (sw_transport demo_stopped) = ∅ /\ tw_gauge (sw_transport demo_stopped) = 0.
Proof.
  split; [vm_compute; reflexivity|]. split; [vm_compute; reflexivity|].
  refine (proj2 (proj2 (shutdown_is_clean LengthPrefixCodec_default "0.0.0.0:8080" 0 net_open
    demo_busy demo_endpoint demo_stopped _ _ _)) _).
  - eapply rtc_l; [apply (ss_start _ _ demo_server demo_endpoint); vm_compute; reflexivity|].
    eapply rtc_l.
    { apply (ss_accept _ _ demo_endpoint (Some 10) net_open); [done|done|].
      intros c [= <-]. split; [set_solver|done]. }
    eapply rtc_l.
    { apply (ss_connect (H := byte_stream) _ _ 10 (Ok (demo_stream [x31])) "1"%string);
        [cbn; set_solver|vm_compute; reflexivity]. }
    eapply rtc_l.
    { apply (ss_accept _ _ demo_endpoint (Some 11) net_open); [done|done|].
      intros c [= <-]. split; [cbn; set_solver|done]. }
    cbn. replace ({[11]} ∪ ({[10]} ∪ ∅) ∖ {[10]}) with ({[11]} : gset Z) by set_solver. apply rtc_refl.
  - vm_compute. reflexivity.
  - eapply rtc_l; [apply (ss_handshake_failed _ _ 11); cbn; set_solver|].
    eapply rtc_l; [apply (ss_disconnect _ _ 10 "1"%string); done|].
    eapply rtc_l; [apply (ss_accept _ _ demo_endpoint None net_closed); [done|done|by intros ? [=]]|].
    cbn. apply rtc_refl.
  - vm_compute. reflexivity.
Defined.
