(* ===== verification/Runtime.v ===== *)
(** * The running publisher ([bin/publisher/src/main.rs])

    How [main] wires the parts: the choice of the L1 submitter, the coordinator it builds,
    the connection callbacks, and one tick of each of its two timer loops. *)
From Stdlib Require Import ZArith Lia.
From S2P Require Import Prelude Spec InstanceIdGen Messages Protobuf CoordState Coordinator AtomicCommit.
From S2P Require Import CoordInv CoordRefinement CoordProps Dispatch L1Submit Config.

(** [Some] when all three settlement settings are present and the address parses. *)
Definition choose_submitter `{L1Env} (s : SettlementConfig) : option L1Submitter :=
  if negb (String.eqb (l1_rpc_url s) "") && negb (String.eqb (l2oo_address s) "")
     && negb (String.eqb (proposer_key s) "") then
    match L1Submitter_new (l2oo_address s) (l1_rpc_url s) (proposer_key s) with
    | Ok sub => Some sub
    | Err _ => None
    end
  else None.

(** The coordinator before the server starts; [fetched] is what L1 answers. *)
Definition build_coordinator `{L1Env} (cfg : Config)
    (fetched : result (option (Z * B256)) string) : Coordinator :=
  let metrics := if metrics_enabled (metrics cfg) then Some PublisherMetrics_new else None in
  let builder := Coordinator_new metrics (timeout (consensus cfg)) (proof_window (consensus cfg)) in
  let co := match choose_submitter (settlement cfg) with
            | Some _ => with_l1_submitter builder
            | None => builder
            end in
  init_from_l1 co fetched.

(** [connections_active.inc()] and [dec()]. *)
Definition gauge_add (d : Z) (m : PublisherMetrics) : PublisherMetrics :=
  mk_PublisherMetrics (m_connections_active m + d) (m_messages_received_total m)
    (m_broadcasts_sent_total m) (m_xt_started_total m) (m_xt_decided_commit_total m)
    (m_xt_decided_abort_total m) (m_xt_queued_total m) (m_xt_decision_latency m)
    (m_period_broadcast_total m).

Definition with_metrics (m : option PublisherMetrics) (co : Coordinator) : Coordinator :=
  mk_Coordinator (co_state co) m (co_has_l1_submitter co) (co_scp_timeout co)
    (co_proof_window co) (co_messages_processed co) (co_broadcasts_sent co).

Definition on_connect (co : Coordinator) (client_id : string) : Coordinator :=
  let co1 := with_metrics (gauge_add 1 <$> co_metrics co) co in
  match parse_chain_id client_id with
  | Ok chain_id => coord_register_chain co1 client_id chain_id
  | Err _ => co1
  end.

Definition on_disconnect (co : Coordinator) (client_id : string) : Coordinator :=
  with_metrics (gauge_add (-1) <$> co_metrics co) co.

Section ticks.
Context `{Sha2, ProstMessage}.

(** One iteration of [period_loop]. *)
Definition period_tick (co : Coordinator) : Coordinator * list effect := advance_period co.

(** One iteration of [reaper_loop]. *)
Definition reaper_tick (order : gmap string ActiveXt -> list (string * ActiveXt))
    (clock : nat -> Instant) (now : Instant) (co : Coordinator) : Coordinator * list effect :=
  let '(co1, effs1) := reap_timed_out_xts order clock co in
  let '(co2, effs2) := coord_reap_expired_proofs now co1 in
  (co2, effs1 ++ effs2).

(** ** Timers are sequences of critical sections *)

Context `{Requests} (hex_encode : bytes -> string).
Implicit Types (co : Coordinator) (w : coord_world).

(** The coordinator [main] builds is in the state of a run of at most one section. *)
Lemma build_coordinator_sections `{L1Env} cfg fetched :
  (forall n h, fetched = Ok (Some (n, h)) -> u64_ok n) ->
  exists l, sections_ok hex_encode l world_init /\ (length l <= 1)%nat /\
    let w := exec_all hex_encode l world_init in
    cw_state w = co_state (build_coordinator cfg fetched) /\ cw_sent w = [] /\
    cw_submissions w = [] /\ cw_history w = [].
Proof.
  intros Hf. unfold build_coordinator, init_from_l1.
  destruct (choose_submitter (settlement cfg)); [|exists []; by split_and!; [|cbn; lia|..]].
  cbn [co_has_l1_submitter with_l1_submitter].
  destruct fetched as [[[n h]|]|e]; [|exists []; by split_and!; [|cbn; lia|..]..].
  exists [SInitL1 n h]. split_and!; [|done..]. cbn. split; [|done]. by eapply Hf.
Qed.

Lemma runs_as_app l1 l2 w co1 effs1 co2 effs2 :
  runs_as hex_encode l1 w (co1, effs1) ->
  runs_as hex_encode l2 (exec_all hex_encode l1 w) (co2, effs2) ->
  runs_as hex_encode (l1 ++ l2) w (co2, effs1 ++ effs2).
Proof.
  intros [Hl1 (L1 & L2 & L3)] [Hl2 (K1 & K2 & K3)]. split; [by apply sections_ok_app|].
  rewrite exec_all_app. cbn [fst snd] in *.
  unfold broadcasts, submissions in *.
  rewrite K1, K2, K3, L2, L3, !omap_app, !reverse_app, !app_assoc. done.
Qed.

Lemma announce_timeouts_spec co out :
  co_state (announce_timeouts co out).1 = co_state co /\
  broadcasts (announce_timeouts co out).2 = out.*2 /\
  submissions (announce_timeouts co out).2 = [].
Proof.
  revert co. induction out as [|[x d] out IH]; intros co; [done|]. cbn.
  destruct (IH (inc_broadcasts (metric_inc XtDecidedAbort co))) as (L1 & L2 & L3).
  destruct (announce_timeouts _ out) as [co' effs]. cbn in *. unfold broadcasts, submissions in *.
  cbn. by rewrite L2, L3.
Qed.

Lemma reap_timed_out_xts_sections order clock co w :
  cw_state w = co_state co -> iter_ok order ->
  amounts_to hex_encode 1 w (reap_timed_out_xts order clock co).
Proof.
  intros Hst Hord. destruct w as [st h sent subs]. cbn in Hst. subst st.
  unfold reap_timed_out_xts.
  destruct (reap_timed_out order (clock 0%nat) (co_state co) (co_scp_timeout co)) as [st' out] eqn:Hr.
  pose proof (announce_timeouts_spec (with_state st' co) out) as (A1 & A2 & A3).
  destruct (announce_timeouts (with_state st' co) out) as [co1 effs]. cbn in A1, A2, A3.
  set (s := SReap order (clock 0%nat) (co_scp_timeout co)).
  set (w := mk_world (co_state co) h sent subs).
  assert (runs_as hex_encode [s] w (co1, effs)) as Hs.
  { split; [done|]. unfold s, w. cbn -[reap_timed_out]. rewrite Hr. cbn. by rewrite A1, A2, A3. }
  destruct out as [|o out]; [by apply (amounts_to_one _ s)|].
  destruct (drain_loop_sections hex_encode (S (length (cs_pending_queue (co_state co1))))
    (fun n => clock (S n)) co1 (exec_all hex_encode [s] w)) as (l & Hl & Hlen); [apply Hs|].
  unfold drain_queue. destruct (drain_loop _ _ co1) as [co2 effs'].
  exists ([s] ++ l). split; [by eapply runs_as_app|]. cbn in *. rewrite length_app. lia.
Qed.

Lemma period_tick_sections co w :
  cw_state w = co_state co -> runs_as hex_encode [SPeriod] w (period_tick co).
Proof. intros Hst. destruct w as [st h sent subs]. cbn in Hst. by subst. Qed.

Lemma reaper_tick_sections order clock now co w :
  cw_state w = co_state co -> iter_ok order ->
  amounts_to hex_encode 2 w (reaper_tick order clock now co).
Proof.
  intros Hst Hord. unfold reaper_tick.
  destruct (reap_timed_out_xts_sections order clock co w) as (l & Hl & Hlen); [done..|].
  destruct (reap_timed_out_xts order clock co) as [co1 effs1].
  pose proof Hl as [_ (L1 & _)]. cbn in L1. unfold coord_reap_expired_proofs.
  destruct (reap_expired_proofs now (co_state co1) (co_proof_window co1)) as [st' expired] eqn:Hr.
  set (s := SReapProofs now (co_proof_window co1)).
  destruct (exec_all hex_encode l w) as [st h sent subs] eqn:Hw. cbn in L1. subst st.
  destruct expired.
  - exists (l ++ [s; SReset]). split; [|cbn in *; rewrite !length_app; cbn; lia].
    eapply runs_as_app; [exact Hl|]. rewrite Hw. split; [done|].
    unfold s. cbn -[reap_expired_proofs reset_superblock]. by rewrite Hr.
  - exists (l ++ [s]). split; [|cbn in *; rewrite !length_app; cbn; lia].
    eapply runs_as_app; [exact Hl|]. rewrite Hw. split; [done|].
    unfold s. cbn -[reap_expired_proofs]. by rewrite Hr.
Qed.

(** The timers, too, are sequences of critical sections: a tick of the period loop is
    one section, with one broadcast; a tick of the reaper loop is the reaping of the timed
    out instances, the draining that follows it and the reaping of the proofs with the
    rollback, with their broadcasts in that order, at most two sections more than effects. *)
Theorem ticks_are_sections order clock now co w :
  cw_state w = co_state co -> iter_ok order ->
  runs_as hex_encode [SPeriod] w (period_tick co) /\
  exists l, runs_as hex_encode l w (reaper_tick order clock now co) /\
    (length l <= 2 + length (reaper_tick order clock now co).2)%nat.
Proof. intros Hst Hord. split; [by apply period_tick_sections|by apply reaper_tick_sections]. Qed.

End ticks.

Lemma ticks_are_sections_witness :
  @runs_as prefix_sha256 prost_codec all_requests hex_string [SPeriod] world_init
    (@period_tick prost_codec (Coordinator_new None 5 9)) /\
  let r := @reaper_tick prefix_sha256 prost_codec map_to_list (fun _ => 6) 7
    (Coordinator_new None 5 9) in
  exists l, @runs_as prefix_sha256 prost_codec all_requests hex_string l world_init r /\
    (length l <= 2 + length r.2)%nat.
Proof.
  apply (ticks_are_sections (H := prefix_sha256) (H0 := prost_codec) (H1 := all_requests) hex_string map_to_list
           (fun _ => 6) 7 (Coordinator_new None 5 9) world_init); [reflexivity|].
  intros m. reflexivity.
Defined.
