(* ===== verification/Tasks.v ===== *)
(** * Concurrent tasks of the publisher
    ([coordinator.rs], [handlers.rs], [handlers/proofs.rs], [main.rs])

    Every frame, connection, timer tick and posted proof is handled by a task of its own.
    The runtime has several threads, but what a task does between two [await]s touches shared
    data only while it holds the lock of the state, apart from atomic counters that commute:
    so it counts as one step, and at an [await] any other task may run. A
    [task] below is a point of a handler at which it waits, for the lock of the state or for
    the transport to take a message; [step] is what it does when it goes on, up to the next
    such points. A thread is the list of points still ahead of it. A [conc] is the
    coordinator, the threads and what has been handed to the transport; [conc_step] lets
    one thread go on, or something arrive.

    Ticks may overlap here, although each loop of [main] waits for its own tick to end: the
    model has more interleavings than the program. *)
From Stdlib Require Import ZArith Lia.
From S2P Require Import Prelude Spec InstanceIdGen Messages CoordState Coordinator AtomicCommit.
From S2P Require Import CoordInv CoordRefinement CoordProps Dispatch L1Submit Config HttpServer Runtime.

Inductive task :=
(* callbacks and dispatch *)
| TConnect (client_id : string)
| TDispatch (client_id : string) (data : bytes)
| TRegister (client_id : string) (chain_id : ChainId)
| TSend (client_id : string) (data : bytes)
| TMailbox (mailbox : Proto.MailboxMessage)
| TRelay (client_id : string) (data : bytes)
(* transactions *)
| TAdmit (xt_req : Proto.XtRequest)
| TStarted (data : bytes)
| TVote (instance_id_bytes : bytes) (chain_id : ChainId) (vote : bool)
| TDecided (decision : bool) (latency : Duration) (data : bytes)
| TDrain
| TReap
| TTimedOut (data : bytes)
(* periods and proofs *)
| TPeriod
| TPeriodSend (data : bytes)
| TProofLookup (client_id : string) (proof : Proto.Proof)
| TPost (body : ProofSubmission)
| TProof (from_http : bool) (superblock_number chain_id : Z) (data : ProofData)
| TSubmit (superblock_number : Z) (proofs : gmap Z ProofData)
| TSubmitted (superblock_number : Z)
| TReapProofs
| TReset
| TRollback (data : bytes).

Abbreviation thread := (list task) (only parsing).

(** What a task reads from outside when it goes on: the clock, the iteration orders of the
    maps it enumerates, the outcome of the L1 submission. *)
Record oracle := mk_oracle {
  or_now : Instant;
  or_xts : gmap string ActiveXt -> list (string * ActiveXt);
  or_proofs : gmap Z ProofData -> list (Z * ProofData);
  or_submitted : bool;
}.

(** The coordinator after the step, what was handed out, the points that follow in this
    thread, and the threads spawned. *)
Record stepped := mk_stepped {
  sd_coord : Coordinator;
  sd_out : list effect;
  sd_next : thread;
  sd_spawned : list thread;
}.

Abbreviation goes_on co next := (mk_stepped co [] next []) (only parsing).

Section tasks.
Context `{Sha2, ProstMessage}.
Context (hex_encode : bytes -> string).
Implicit Types (co : Coordinator) (o : oracle) (t : task).

(** [dispatch] up to the first [await] of the handler it chooses. *)
Definition step_dispatch co (client_id : string) (data : bytes) : stepped :=
  let co1 := inc_messages co in
  goes_on co1
    match decode data with
    | Err _ => []
    | Ok msg =>
        match Proto.msg_payload msg with
        | Some (Proto.PVote vote) =>
            [TVote (Proto.vote_instance_id vote) (Proto.vote_chain_id vote) (Proto.vote_vote vote)]
        | Some (Proto.PXtRequest xt_req) =>
            if (length (extract_chains xt_req) <? 2)%nat then [] else [TAdmit xt_req]
        | Some (Proto.PPing ping) =>
            [TSend client_id (encode_to_vec (publisher_message
               (Proto.PPong (Proto.mk_Pong (Proto.ping_timestamp ping)))))]
        | Some (Proto.PHandshakeRequest req) =>
            match Proto.hsr_client_id req with
            | EmptyString => []
            | requested =>
                match parse_chain_id requested with
                | Ok chain_id => [TRegister client_id chain_id]
                | Err _ => []
                end
            end ++
            [TSend client_id (encode_to_vec (publisher_message
               (Proto.PHandshakeResponse (Proto.mk_HandshakeResponse true "" client_id))))]
        | Some (Proto.PMailboxMessage mb) => [TMailbox mb]
        | Some (Proto.PProof proof) => [TProofLookup client_id proof]
        | _ => []
        end
    end.

(** The tasks of the submissions spawned. *)
Definition submit_threads (effs : list effect) : list thread :=
  omap (fun e => match e with SpawnSubmit n proofs => Some [TSubmit n proofs] | _ => None end) effs.

(** [receive_proof] from its lock on: a complete set is checked and its submission spawned. *)
Definition step_proof o co (superblock_number chain_id : Z) (data : ProofData) : stepped :=
  let '(co', effs) := receive_proof (or_proofs o) (or_now o) co superblock_number chain_id data in
  mk_stepped co' effs [] (submit_threads effs).

Definition step o t co : stepped :=
  match t with
  | TConnect client_id =>
      goes_on co match parse_chain_id client_id with
                 | Ok chain_id => [TRegister client_id chain_id]
                 | Err _ => []
                 end
  | TDispatch client_id data => step_dispatch co client_id data
  | TRegister client_id chain_id => goes_on (coord_register_chain co client_id chain_id) []
  | TSend client_id data => mk_stepped co [SendRaw client_id data] [] []
  | TMailbox mb =>
      goes_on co match cs_chain_to_client (co_state co) !! Proto.mb_destination_chain mb with
                 | None => []
                 | Some client_id =>
                     [TRelay client_id (encode_to_vec (publisher_message (Proto.PMailboxMessage mb)))]
                 end
  | TRelay client_id data => mk_stepped (inc_broadcasts co) [SendRaw client_id data] [] []
  | TAdmit xt_req =>
      match admit_xt (or_now o) (co_state co) xt_req (extract_chains xt_req) with
      | (st', Rejected_queue_full) => goes_on (with_state st' co) []
      | (st', Queued) => goes_on (metric_inc XtQueued (with_state st' co)) []
      | (st', Started data) => goes_on (with_state st' co) [TStarted data]
      end
  | TStarted data => mk_stepped (metric_inc XtStarted (inc_broadcasts co)) [BroadcastRaw data ""] [] []
  | TVote iid chain_id vote =>
      match record_vote (or_now o) (co_state co) (hex_encode iid) iid chain_id vote with
      | (st', None) => goes_on (with_state st' co) []
      | (st', Some (decision, latency, data)) =>
          goes_on (with_state st' co) [TDecided decision latency data; TDrain]
      end
  | TDecided decision latency data =>
      let co2 := metric_inc (if decision : bool then XtDecidedCommit else XtDecidedAbort) co in
      mk_stepped (inc_broadcasts (metric_inc (XtDecisionLatency latency) co2))
        [BroadcastRaw data ""] [] []
  | TDrain =>
      match drain_one (or_now o) (co_state co) with
      | None => goes_on co []
      | Some (st', data) => goes_on (with_state st' co) [TStarted data; TDrain]
      end
  | TReap =>
      let '(st', timed_out) :=
        reap_timed_out (or_xts o) (or_now o) (co_state co) (co_scp_timeout co) in
      goes_on (with_state st' co)
        ((TTimedOut <$> timed_out.*2) ++ match timed_out with [] => [] | _ => [TDrain] end)
  | TTimedOut data =>
      mk_stepped (inc_broadcasts (metric_inc XtDecidedAbort co)) [BroadcastRaw data ""] [] []
  | TPeriod =>
      let st := next_period (co_state co) in
      goes_on (with_state st co) [TPeriodSend (start_period_message st)]
  | TPeriodSend data =>
      mk_stepped (metric_inc PeriodBroadcast (inc_broadcasts co)) [BroadcastRaw data ""] [] []
  | TProofLookup client_id proof =>
      goes_on co match chain_for_client co client_id with
                 | None => []
                 | Some chain_id =>
                     [TProof false (Proto.pf_superblock_number proof) chain_id
                        (mk_ProofData AggregationOutputs_default (Proto.pf_proof_data proof)
                           B256_ZERO MailboxInfo_default)]
                 end
  | TPost body =>
      goes_on co
        (if decide (in_l1_head (ps_aggregation_outputs body) = B256_ZERO) then []
         else if negb (is_chain_registered (co_state co) (ps_chain_id body)) then []
         else [TProof true (ps_superblock_number body) (ps_chain_id body) (submitted_proof body)])
  | TProof _ superblock_number chain_id data => step_proof o co superblock_number chain_id data
  | TSubmit n _ => goes_on co (if or_submitted o then [TSubmitted n] else [])
  | TSubmitted n => goes_on (with_state (submission_succeeded (co_state co) n) co) []
  | TReapProofs =>
      match reap_expired_proofs (or_now o) (co_state co) (co_proof_window co) with
      | (st', false) => goes_on (with_state st' co) []
      | (st', true) => goes_on (with_state st' co) [TReset]
      end
  | TReset =>
      let st' := reset_superblock (co_state co) in
      goes_on (with_state st' co) [TRollback (rollback_message st')]
  | TRollback data => mk_stepped (inc_broadcasts co) [BroadcastRaw data ""] [] []
  end.

(** The timeout layer drops a request that still waits for a lock. *)
Definition cancellable t : bool :=
  match t with TPost _ | TProof true _ _ _ => true | _ => false end.

(** ** Configurations *)

Record conc := mk_conc {
  cn_coord : Coordinator;
  cn_threads : list thread;
  cn_out : list effect;
}.

Definition conc_start co : conc := mk_conc co [] [].

Definition oracle_ok o : Prop := iter_ok (or_xts o) /\ iter_ok (or_proofs o).

(** A thread goes on, or its request is dropped. *)
Inductive internal_step (c : conc) : conc -> Prop :=
| internal_go o t rest l1 l2 :
    cn_threads c = l1 ++ (t :: rest) :: l2 -> oracle_ok o ->
    let s := step o t (cn_coord c) in
    internal_step c (mk_conc (sd_coord s) (l1 ++ (sd_next s ++ rest) :: l2 ++ sd_spawned s)
                       (cn_out c ++ sd_out s))
| internal_cancel t rest l1 l2 :
    cn_threads c = l1 ++ (t :: rest) :: l2 -> cancellable t = true ->
    internal_step c (mk_conc (cn_coord c) (l1 ++ rest :: l2) (cn_out c)).

(** What arrives. *)
Inductive arrival :=
| AConnect (client_id : string)
| ADisconnect (client_id : string)
| AFrame (client_id : string) (data : bytes)
| APeriodTick
| AReaperTick
| APost (body : ProofSubmission).

(** What the callback does at once, and the task it spawns. *)
Definition callback (a : arrival) co : Coordinator :=
  match a with
  | AConnect client_id => with_metrics (gauge_add 1 <$> co_metrics co) co
  | ADisconnect client_id => on_disconnect co client_id
  | _ => co
  end.

Definition handler_thread (a : arrival) : thread :=
  match a with
  | AConnect client_id => [TConnect client_id]
  | ADisconnect client_id => []
  | AFrame client_id data => [TDispatch client_id data]
  | APeriodTick => [TPeriod]
  | AReaperTick => [TReap; TReapProofs]
  | APost body => [TPost body]
  end.

Definition arrive (a : arrival) (c : conc) : conc :=
  mk_conc (callback a (cn_coord c)) (cn_threads c ++ [handler_thread a]) (cn_out c).

Context `{Requests}.

(** Requests on the wire are among those submitted. *)
Definition frame_ok (data : bytes) : Prop :=
  forall m r, decode data = Ok m -> Proto.msg_payload m = Some (Proto.PXtRequest r) -> admissible r.

Definition arrival_ok (a : arrival) : Prop :=
  match a with AFrame _ data => frame_ok data | _ => True end.

Inductive conc_step (c : conc) : conc -> Prop :=
| conc_internal c' : internal_step c c' -> conc_step c c'
| conc_arrive a : arrival_ok a -> conc_step c (arrive a c).

(** No thread has anything left to do. *)
Definition quiescent (c : conc) : Prop := Forall (fun th => th = []) (cn_threads c).

(** ** Schedules *)

(** A step by name: which thread goes on and what it reads, whose request is dropped, or
    what arrives. *)
Inductive event :=
| EGo (o : oracle) (i : nat)
| ECancel (i : nat)
| EArrive (a : arrival).

Definition event_ok (e : event) : Prop :=
  match e with EGo o _ => oracle_ok o | ECancel _ => True | EArrive a => arrival_ok a end.

(** [None] when the thread has nothing left, or does nothing that can be dropped. *)
Definition perform (e : event) (c : conc) : option conc :=
  match e with
  | EGo o i =>
      match cn_threads c !! i with
      | Some (t :: rest) =>
          let s := step o t (cn_coord c) in
          Some (mk_conc (sd_coord s) (<[i := sd_next s ++ rest]> (cn_threads c) ++ sd_spawned s)
                  (cn_out c ++ sd_out s))
      | _ => None
      end
  | ECancel i =>
      match cn_threads c !! i with
      | Some (t :: rest) =>
          if cancellable t then Some (mk_conc (cn_coord c) (<[i := rest]> (cn_threads c)) (cn_out c))
          else None
      | _ => None
      end
  | EArrive a => Some (arrive a c)
  end.

Fixpoint perform_all (l : list event) (c : conc) : option conc :=
  match l with
  | [] => Some c
  | e :: l' => c1 ← perform e c; perform_all l' c1
  end.

Lemma insert_split {A} (l : list A) i x y :
  l !! i = Some x -> exists l1 l2, l = l1 ++ x :: l2 /\ <[i := y]> l = l1 ++ y :: l2.
Proof.
  intros Hi. exists (take i l), (drop (S i) l). split; [by rewrite take_drop_middle|].
  apply insert_take_drop. by eapply lookup_lt_Some.
Qed.

(** Schedules are the runs of the step relation. *)
Definition is_internal (e : event) : Prop := match e with EArrive _ => False | _ => True end.

Lemma perform_internal e c c' :
  event_ok e -> is_internal e -> perform e c = Some c' -> internal_step c c'.
Proof.
  destruct e as [o i|i|a]; cbn; intros Hok Hint; [| |done].
  - destruct (cn_threads c !! i) as [[|t rest]|] eqn:Hi; try done. intros [= <-].
    destruct (insert_split _ _ _ (sd_next (step o t (cn_coord c)) ++ rest) Hi) as (l1 & l2 & E1 & ->).
    rewrite <- app_assoc. by apply internal_go.
  - destruct (cn_threads c !! i) as [[|t rest]|] eqn:Hi; try done.
    destruct (cancellable t) eqn:Hc; [|done]. intros [= <-].
    destruct (insert_split _ _ _ rest Hi) as (l1 & l2 & E1 & ->). by eapply internal_cancel.
Qed.

Lemma perform_step e c c' : event_ok e -> perform e c = Some c' -> conc_step c c'.
Proof.
  intros Hok Hp. destruct e as [o i|i|a]; [| |injection Hp as <-; by apply conc_arrive];
    constructor; by eapply perform_internal.
Qed.

Lemma step_perform c c' : conc_step c c' -> exists e, event_ok e /\ perform e c = Some c'.
Proof.
  intros [? [o t rest l1 l2 Hth Ho s|t rest l1 l2 Hth Hc]|a Ha]; [..|by exists (EArrive a)].
  - exists (EGo o (length l1)). split; [done|]. cbn. rewrite Hth, list_lookup_middle by done.
    fold s. rewrite insert_app_r_alt, Nat.sub_diag by done. cbn. by rewrite <- app_assoc.
  - exists (ECancel (length l1)). split; [done|]. cbn. rewrite Hth, list_lookup_middle by done.
    rewrite Hc, insert_app_r_alt, Nat.sub_diag by done. done.
Qed.

Lemma perform_all_steps l c c' :
  Forall event_ok l -> perform_all l c = Some c' -> nsteps conc_step (length l) c c'.
Proof.
  intros Hl. revert c. induction Hl as [|e l He Hl IH]; intros c; cbn; [intros [= <-]; constructor|].
  destruct (perform e c) as [c1|] eqn:Hp; [|done]. cbn. intros Hc.
  econstructor; [by eapply perform_step|auto].
Qed.

End tasks.
