(* ===== verification/TasksSim.v ===== *)
(** * Concurrent tasks run the protocol

    Whatever the interleaving of the tasks, the state is that of a run of critical sections,
    and the messages of that run are those handed to the transport together with those the
    threads still hold. So what was proved of runs holds of the concurrent program; only
    the order of the messages may differ. *)
From Stdlib Require Import ZArith Lia.
From S2P Require Import Prelude Spec InstanceIdGen Messages Protobuf CoordState Coordinator AtomicCommit.
From S2P Require Import CoordInv CoordRefinement CoordProps Dispatch L1Submit Config HttpServer Runtime.
From S2P Require Import Tasks.

(** The message a task holds, and the submission it waits for. *)
Definition task_msgs (t : task) : list bytes :=
  match t with
  | TStarted d | TDecided _ _ d | TTimedOut d | TPeriodSend d | TRollback d => [d]
  | _ => []
  end.

Definition task_subs (t : task) : list Z :=
  match t with TSubmit n _ | TSubmitted n => [n] | _ => [] end.

Definition msgs_of (th : thread) : list bytes := th ≫= task_msgs.
Definition subs_of (th : thread) : list Z := th ≫= task_subs.

Arguments msgs_of th : simpl never.
Arguments subs_of th : simpl never.

Lemma msgs_of_app l1 l2 : msgs_of (l1 ++ l2) = msgs_of l1 ++ msgs_of l2.
Proof. apply bind_app. Qed.
Lemma subs_of_app l1 l2 : subs_of (l1 ++ l2) = subs_of l1 ++ subs_of l2.
Proof. apply bind_app. Qed.
Lemma msgs_of_cons t l : msgs_of (t :: l) = task_msgs t ++ msgs_of l.
Proof. done. Qed.
Lemma subs_of_cons t l : subs_of (t :: l) = task_subs t ++ subs_of l.
Proof. done. Qed.

#[export] Instance msgs_of_perm : Proper ((≡ₚ) ==> (≡ₚ)) msgs_of.
Proof. intros l1 l2 Hl. unfold msgs_of. by rewrite Hl. Qed.
#[export] Instance subs_of_perm : Proper ((≡ₚ) ==> (≡ₚ)) subs_of.
Proof. intros l1 l2 Hl. unfold subs_of. by rewrite Hl. Qed.

Lemma msgs_of_timed_out l : msgs_of (TTimedOut <$> l) = l.
Proof. induction l as [|d l IH]; [done|]. rewrite fmap_cons, msgs_of_cons, IH. done. Qed.
Lemma subs_of_timed_out l : subs_of (TTimedOut <$> l) = [].
Proof. induction l as [|d l IH]; [done|]. rewrite fmap_cons, subs_of_cons, IH. done. Qed.

Lemma remove_one_perm n l : n ∈ l -> n :: remove_one n l ≡ₚ l.
Proof.
  induction l as [|m l IH]; [by intros ?%elem_of_nil|]. cbn. case_decide as Hm; [by subst|].
  intros [->|Hn]%elem_of_cons; [done|]. rewrite Permutation_swap. by rewrite IH.
Qed.

Section sim.
Context `{Sha2, ProstMessage, Requests}.
Context (hex_encode : bytes -> string).
Implicit Types (co : Coordinator) (o : oracle) (t : task) (w : coord_world) (c : conc).

(** The requests a task holds are submitted ones, over two chains when they are admitted. *)
Definition task_ok t : Prop :=
  match t with
  | TAdmit req => admissible req /\ (2 <= length (extract_chains req))%nat
  | TDispatch _ data => frame_ok data
  | _ => True
  end.

(** A vote is recorded by a task that holds it. *)
Definition casts t (sec : section) : Prop :=
  match sec with SVote _ iid c v => t = TVote iid c v | _ => True end.

(** The step [s] of [t] is at most the critical sections [l]. *)
Record accounts t (s : stepped) w (l : list section) : Prop := {
  acc_length : (length l <= 1)%nat;
  acc_ok : sections_ok hex_encode l w;
  acc_state : cw_state (exec_all hex_encode l w) = co_state (sd_coord s);
  acc_msgs : cw_sent (exec_all hex_encode l w) ++ task_msgs t ≡ₚ
              cw_sent w ++ broadcasts (sd_out s) ++ msgs_of (sd_next s);
  acc_spawned_msgs : msgs_of (concat (sd_spawned s)) = [];
  acc_subs : cw_submissions (exec_all hex_encode l w) ++ task_subs t ≡ₚ
              cw_submissions w ++ subs_of (sd_next s) ++ subs_of (concat (sd_spawned s));
  acc_tasks : Forall task_ok (sd_next s ++ concat (sd_spawned s));
  acc_votes : Forall (casts t) l;
}.

(** A step without a critical section. *)
Lemma accounts_quiet t s w :
  cw_state w = co_state (sd_coord s) -> sd_spawned s = [] ->
  task_msgs t = broadcasts (sd_out s) ++ msgs_of (sd_next s) ->
  task_subs t = subs_of (sd_next s) -> Forall task_ok (sd_next s) -> accounts t s w [].
Proof.
  intros Hst Hsp Hm Hs Hok. split; cbn; rewrite ?Hsp; try done; [lia|by rewrite Hm| |].
  - by rewrite Hs, app_nil_r.
  - by rewrite app_nil_r.
Qed.

(** A step of one critical section that sends [sent]. *)
Lemma accounts_section t s w sec sent :
  section_ok w sec -> casts t sec -> sd_spawned s = [] -> sd_out s = [] -> task_msgs t = [] ->
  cw_state (exec hex_encode sec w) = co_state (sd_coord s) ->
  cw_sent (exec hex_encode sec w) = reverse sent ++ cw_sent w -> msgs_of (sd_next s) = sent ->
  cw_submissions (exec hex_encode sec w) ++ task_subs t ≡ₚ cw_submissions w ++ subs_of (sd_next s) ->
  Forall task_ok (sd_next s) -> accounts t s w [sec].
Proof.
  intros Hok Hcast Hsp Hout Hm Hst Hsent Hnext Hsubs Htasks.
  split; cbn [length exec_all foldl sections_ok]; rewrite ?Hsp, ?Hout, ?Hm; cbn [concat]; try done.
  - rewrite Hsent, Hnext, app_nil_r, reverse_Permutation. cbn. by rewrite Permutation_app_comm.
  - by rewrite Hsubs, app_nil_r.
  - by rewrite app_nil_r.
  - by constructor.
Qed.

(** Sections of the handlers, one at a time. *)
Lemma dispatch_tasks co client data :
  frame_ok data ->
  let s := step_dispatch co client data in
  msgs_of (sd_next s) = [] /\ subs_of (sd_next s) = [] /\ Forall task_ok (sd_next s).
Proof.
  intros Hf. unfold step_dispatch. cbn [sd_next].
  destruct (decode data) as [[sender [p|]]|e] eqn:Hd; cbn [Proto.msg_payload]; [|done..].
  destruct p; try done; try (by split_and!; [..|constructor]).
  - destruct (Proto.hsr_client_id m); [by split_and!; [..|constructor]|].
    destruct (parse_chain_id _); by split_and!; [..|repeat constructor].
  - destruct (Nat.ltb_spec (length (extract_chains m)) 2); [done|]. split_and!; [done..|].
    constructor; [|done]. split; [by eapply Hf|done].
Qed.

Lemma proof_accounts o b co sb chain data w :
  cw_state w = co_state co -> oracle_ok o ->
  accounts (TProof b sb chain data) (step_proof o co sb chain data) w
    [SProof (or_now o) sb chain data (or_proofs o) (co_has_l1_submitter co)].
Proof.
  intros Hst [_ Hord].
  pose proof (receive_proof_sections hex_encode (or_proofs o) (or_now o) co sb chain data w Hst Hord)
    as [Hok (R1 & R2 & R3)].
  unfold step_proof, receive_proof in *.
  destruct (collect_proof (or_now o) (co_state co) sb chain data) as [st' [[n proofs]|]];
    [destruct (validate_mailbox_consistency _); [destruct (co_has_l1_submitter co)|]|];
    cbn [fst snd] in *; split; cbn [sd_coord sd_out sd_next sd_spawned task_msgs task_subs length];
    try done; rewrite ?R2, ?R3; cbn; rewrite ?app_nil_r; try done;
    try (by repeat constructor); by rewrite Permutation_app_comm.
Qed.

Lemma admit_accounts o co req w :
  admissible req -> (2 <= length (extract_chains req))%nat -> cw_state w = co_state co ->
  accounts (TAdmit req) (step hex_encode o (TAdmit req) co) w [SAdmit (or_now o) req].
Proof.
  intros Hadm Hlen Hst. destruct w as [st h sent subs]. cbn in Hst. subst st. cbn [step].
  destruct (admit_xt (or_now o) (co_state co) req (extract_chains req)) as [st' [| |data]] eqn:Ha;
    [apply (accounts_section _ _ _ _ [])|apply (accounts_section _ _ _ _ [])
    |apply (accounts_section _ _ _ _ [data])]; try done;
    try (cbn -[admit_xt Nat.ltb]; rewrite (proj2 (Nat.ltb_ge _ _)) by lia; by rewrite Ha);
    by repeat constructor.
Qed.

Lemma vote_accounts o co iid chain v w :
  cw_state w = co_state co ->
  accounts (TVote iid chain v) (step hex_encode o (TVote iid chain v) co) w
    [SVote (or_now o) iid chain v].
Proof.
  intros Hst. destruct w as [st h sent subs]. cbn in Hst. subst st. cbn [step].
  destruct (record_vote (or_now o) (co_state co) (hex_encode iid) iid chain v)
    as [st' [[[d latency] data]|]] eqn:Hr;
    [apply (accounts_section _ _ _ _ [data])|apply (accounts_section _ _ _ _ [])]; try done;
    try (cbn -[record_vote]; by rewrite Hr); by repeat constructor.
Qed.

Lemma drain_accounts o co w :
  cw_state w = co_state co -> exists l, accounts TDrain (step hex_encode o TDrain co) w l.
Proof.
  intros Hst. cbn [step]. rewrite <- Hst.
  destruct (drain_one (or_now o) (cw_state w)) as [[st' data]|] eqn:Hd.
  - destruct (drain_one_exec hex_encode (or_now o) w st' data Hd) as (D1 & D2 & D3).
    exists [SDrain (or_now o)]. apply (accounts_section _ _ _ _ [data]); try done;
      [by rewrite D3|by repeat constructor].
  - exists []. by apply accounts_quiet.
Qed.

Lemma reap_accounts o co w :
  cw_state w = co_state co -> iter_ok (or_xts o) ->
  accounts TReap (step hex_encode o TReap co) w [SReap (or_xts o) (or_now o) (co_scp_timeout co)].
Proof.
  intros Hst Hord. destruct w as [st h sent subs]. cbn in Hst. subst st. cbn [step].
  destruct (reap_timed_out (or_xts o) (or_now o) (co_state co) (co_scp_timeout co)) as [st' out] eqn:Hr.
  apply (accounts_section _ _ _ _ out.*2); try done.
  - cbn -[reap_timed_out]. by rewrite Hr.
  - cbn -[reap_timed_out]. by rewrite Hr.
  - cbn [sd_next]. rewrite msgs_of_app, msgs_of_timed_out. destruct out; by rewrite app_nil_r.
  - cbn -[reap_timed_out subs_of]. rewrite Hr. cbn [cw_submissions].
    rewrite subs_of_app, subs_of_timed_out. by destruct out.
  - cbn [sd_next]. apply Forall_app. split; [by apply Forall_fmap, Forall_true|].
    destruct out; by repeat constructor.
Qed.

(** A submission that ends is no longer under way. *)
Lemma ended_accounts t s sec w n :
  n ∈ cw_submissions w -> sec = SSubmitted n \/ sec = SSubmitFailed n ->
  task_msgs t = [] -> task_subs t = [n] -> sd_spawned s = [] -> sd_out s = [] -> sd_next s = [] ->
  cw_state (exec hex_encode sec w) = co_state (sd_coord s) -> accounts t s w [sec].
Proof.
  intros Hin Hsec Hm Hs Hsp Hout Hnext Hst. destruct w as [st h sent subs].
  destruct Hsec as [-> | ->]; apply (accounts_section _ _ _ _ []); try done; rewrite ?Hnext; try done;
    rewrite Hs; cbn; rewrite app_nil_r, Permutation_app_comm; by apply remove_one_perm.
Qed.

(** Every step of a task is at most one critical section. *)
Lemma step_accounts o t co w :
  task_ok t -> oracle_ok o -> cw_state w = co_state co ->
  (forall n, n ∈ task_subs t -> n ∈ cw_submissions w) ->
  exists l, accounts t (step hex_encode o t co) w l.
Proof.
  intros Ht Ho Hst Hsub.
  destruct t; try (exists []; apply accounts_quiet; done).
  - exists []. apply accounts_quiet; try done; cbn; by destruct (parse_chain_id client_id); repeat constructor.
  - destruct (dispatch_tasks co client_id data Ht) as (D1 & D2 & D3). exists []. by apply accounts_quiet.
  - exists [SRegister client_id chain_id]. destruct w. cbn in Hst. subst.
    by apply (accounts_section _ _ _ _ []).
  - exists []. apply accounts_quiet; try done; cbn; by destruct (_ !! _); repeat constructor.
  - destruct Ht as [Hadm Hlen]. eexists. by apply admit_accounts.
  - eexists. by apply vote_accounts.
  - by apply drain_accounts.
  - eexists. apply reap_accounts; [done|apply Ho].
  - exists [SPeriod]. destruct w. cbn in Hst. subst.
    apply (accounts_section _ _ _ _ [start_period_message (next_period (co_state co))]);
      try done; by repeat constructor.
  - exists []. apply accounts_quiet; try done; cbn; by destruct (chain_for_client _ _); repeat constructor.
  - exists []. apply accounts_quiet; try done; cbn; case_decide; try done;
      destruct (negb _); by repeat constructor.
  - eexists. by apply proof_accounts.
  - cbn [step]. destruct (or_submitted o); [exists []; by apply accounts_quiet; repeat constructor|].
    exists [SSubmitFailed superblock_number].
    eapply ended_accounts; [apply Hsub|by right|done..|by destruct w]. set_solver.
  - exists [SSubmitted superblock_number].
    eapply ended_accounts; [apply Hsub|by left|done..|destruct w; cbn in *; by subst]. set_solver.
  - exists [SReapProofs (or_now o) (co_proof_window co)]. destruct w. cbn in Hst. subst. cbn [step].
    destruct (reap_expired_proofs (or_now o) (co_state co) (co_proof_window co)) as [st' []] eqn:Hr;
      apply (accounts_section _ _ _ _ []); try done;
      try (cbn -[reap_expired_proofs]; by rewrite Hr); by repeat constructor.
  - exists [SReset]. destruct w. cbn in Hst. subst.
    apply (accounts_section _ _ _ _ [rollback_message (reset_superblock (co_state co))]);
      try done; by repeat constructor.
Qed.

(** ** Runs *)

(** [w] accounts for the configuration: its state, the messages handed out or held, the
    submissions under way. *)
Record mirrors w c : Prop := {
  mi_state : cw_state w = co_state (cn_coord c);
  mi_sent : cw_sent w ≡ₚ broadcasts (cn_out c) ++ msgs_of (concat (cn_threads c));
  mi_subs : cw_submissions w ≡ₚ subs_of (concat (cn_threads c));
  mi_tasks : Forall task_ok (concat (cn_threads c));
}.

Lemma concat_threads (l1 l2 : list thread) th : concat (l1 ++ th :: l2) ≡ₚ th ++ concat (l1 ++ l2).
Proof. rewrite !concat_app. cbn. rewrite !app_assoc. by rewrite (Permutation_app_comm th). Qed.

(** Votes recorded by the threads. *)
Definition cast_by c (sec : section) : Prop := exists t, t ∈ concat (cn_threads c) /\ casts t sec.

Lemma internal_mirrors w c c' :
  mirrors w c -> internal_step hex_encode c c' ->
  exists l, (length l <= 1)%nat /\ sections_ok hex_encode l w /\
    Forall (cast_by c) l /\ mirrors (exec_all hex_encode l w) c'.
Proof.
  intros [Hst Hsent Hsubs Htasks] Hstep. destruct Hstep as [o t rest l1 l2 Hth Ho s|t rest l1 l2 Hth Hc];
    rewrite Hth, concat_threads, <- app_comm_cons in *; rewrite msgs_of_cons in Hsent;
    rewrite subs_of_cons in Hsubs; apply Forall_cons in Htasks as [Ht Htasks].
  - destruct (step_accounts o t (cn_coord c) w Ht Ho Hst) as [l Hacc].
    { intros n Hn. rewrite Hsubs. set_solver. }
    exists l. split; [apply Hacc|]. split; [apply Hacc|].
    split.
    { eapply Forall_impl; [apply Hacc|]. intros sec Hsec. exists t.
      rewrite Hth, concat_threads. by split; [left|]. }
    assert (concat (l1 ++ (sd_next s ++ rest) :: l2 ++ sd_spawned s) ≡ₚ
      sd_next s ++ concat (sd_spawned s) ++ rest ++ concat (l1 ++ l2)) as Hcat.
    { rewrite concat_threads, app_assoc, concat_app, <- !app_assoc. apply Permutation_app_head.
      rewrite (Permutation_app_comm (concat (sd_spawned s))), <- !app_assoc. done. }
    destruct Hacc as [_ _ A1 A2 A3 A4 A5 _]. fold s in A1, A2, A3, A4, A5.
    split; cbn [cn_coord cn_out cn_threads]; rewrite ?Hcat; [done|..].
    + unfold broadcasts in *. rewrite omap_app, !msgs_of_app, A3. cbn [app].
      apply (Permutation_app_inv_r (task_msgs t)). rewrite A2, Hsent.
      rewrite !msgs_of_app. solve_Permutation.
    + rewrite !subs_of_app. apply (Permutation_app_inv_r (task_subs t)). rewrite A4, Hsubs.
      rewrite !subs_of_app. solve_Permutation.
    + apply Forall_app in A5 as [? ?]. rewrite !Forall_app in *. tauto.
  - exists []. split; [cbn; lia|]. split; [done|]. split; [done|]. cbn.
    assert (task_msgs t = [] /\ task_subs t = []) as [E1 E2] by (by destruct t).
    rewrite E1 in Hsent. rewrite E2 in Hsubs. split; cbn; rewrite ?concat_threads; done.
Qed.

Lemma step_mirrors w c c' :
  mirrors w c -> conc_step hex_encode c c' ->
  exists l, (length l <= 1)%nat /\ sections_ok hex_encode l w /\
    Forall (cast_by c) l /\ mirrors (exec_all hex_encode l w) c'.
Proof.
  intros Hm [? Hi|a Ha]; [by eapply internal_mirrors|]. exists [].
  split; [cbn; lia|]. split; [done|]. split; [done|]. cbn. destruct Hm as [Hst Hsent Hsubs Htasks].
  destruct a; split; cbn; rewrite ?concat_app, ?msgs_of_app, ?subs_of_app, ?app_nil_r; try done;
    apply Forall_app; (split; [done|]); cbn; rewrite ?Forall_cons, Forall_nil; by split_and?.
Qed.

Lemma steps_mirror n w c c' :
  mirrors w c -> nsteps (conc_step hex_encode) n c c' ->
  exists l, (length l <= n)%nat /\ sections_ok hex_encode l w /\ mirrors (exec_all hex_encode l w) c'.
Proof.
  intros Hm Hsteps. revert w Hm. induction Hsteps as [c|n c c1 c' Hstep _ IH]; intros w Hm.
  { exists []. split; [cbn; lia|]. done. }
  destruct (step_mirrors w c c1 Hm Hstep) as (l1 & Hlen1 & Hok1 & _ & Hm1).
  destruct (IH _ Hm1) as (l2 & Hlen2 & Hok2 & Hm2). exists (l1 ++ l2).
  rewrite length_app, exec_all_app, sections_ok_app. split; [lia|]. done.
Qed.

Lemma conc_reachable `{L1Env} cfg fetched n c :
  (forall m h, fetched = Ok (Some (m, h)) -> u64_ok m) ->
  nsteps (conc_step hex_encode) n (conc_start (build_coordinator cfg fetched)) c ->
  Z.of_nat n + 1 < u64_max ->
  exists w, reachable hex_encode w /\ mirrors w c.
Proof.
  intros Hf Hsteps Hn.
  destruct (build_coordinator_sections hex_encode cfg fetched Hf) as (l & Hok & Hlen & E1 & E2 & E3 & _).
  destruct (steps_mirror n (exec_all hex_encode l world_init)
    (conc_start (build_coordinator cfg fetched)) c) as (l' & Hlen' & Hok' & Hm); [|done|].
  { split; cbn; rewrite ?E1, ?E2, ?E3; done. }
  exists (exec_all hex_encode (l ++ l') world_init). rewrite exec_all_app. split; [|done].
  rewrite <- exec_all_app. apply exec_all_reachable; [by apply sections_ok_app|].
  rewrite length_app. lia.
Qed.

(** C2. Concurrency is harmless to the protocol: from the coordinator [main] builds, let
    frames, connections, ticks and posted proofs arrive at any time and let their tasks
    interleave at every [await], requests being dropped by timeouts. The state is always
    that of a run of critical sections; the messages of that run are exactly those handed
    to the transport together with those some task has prepared and not yet handed over,
    each as often as it was sent; and its submissions under way are the tasks submitting. *)
Theorem concurrent_tasks_run_protocol `{L1Env} cfg fetched n c :
  (forall m h, fetched = Ok (Some (m, h)) -> u64_ok m) ->
  nsteps (conc_step hex_encode) n (conc_start (build_coordinator cfg fetched)) c ->
  Z.of_nat n + 1 < u64_max ->
  exists w, reachable hex_encode w /\ cw_state w = co_state (cn_coord c) /\
    cw_sent w ≡ₚ broadcasts (cn_out c) ++ msgs_of (concat (cn_threads c)) /\
    cw_submissions w ≡ₚ subs_of (concat (cn_threads c)).
Proof.
  intros Hf Hsteps Hn. destruct (conc_reachable cfg fetched n c Hf Hsteps Hn) as (w & Hr & []).
  by exists w.
Qed.

(** Agreement under concurrency: whatever the interleaving, no two messages that reach
    the transport, or that a task still holds, announce different decisions of one
    instance. *)
Theorem concurrent_decisions_agree `{L1Env, !InstanceIdsDistinct, !ProstRoundtrip} cfg fetched n c iid d d' :
  (forall l, hex_encode l = hex_string l) ->
  (forall m h, fetched = Ok (Some (m, h)) -> u64_ok m) ->
  nsteps (conc_step hex_encode) n (conc_start (build_coordinator cfg fetched)) c ->
  Z.of_nat n + 1 < u64_max ->
  let messages := broadcasts (cn_out c) ++ msgs_of (concat (cn_threads c)) in
  decoded messages (Proto.PDecided (Proto.mk_Decided iid d)) ->
  decoded messages (Proto.PDecided (Proto.mk_Decided iid d')) -> d = d'.
Proof.
  intros Hhex Hf Hsteps Hn messages (m1 & I1 & D1) (m2 & I2 & D2).
  destruct (conc_reachable cfg fetched n c Hf Hsteps Hn) as (w & Hr & [_ Hsent _ _]).
  apply (decision_unique hex_encode Hhex w iid d d' Hr).
  - exists m1. by rewrite Hsent.
  - exists m2. by rewrite Hsent.
Qed.

End sim.

(** ** A schedule *)

#[local] Existing Instances prefix_sha256 all_requests prefix_sha256_ids prost_codec prost_codec_laws.
#[local] Existing Instance zero_env.

Definition vote_frame (iid : bytes) (chain : Z) (vote : bool) : bytes :=
  encode_to_vec (Proto.mk_Message "" (Some (Proto.PVote (Proto.mk_Vote iid chain vote)))).

Definition at_instant (now : Instant) : oracle := mk_oracle now map_to_list map_to_list true.

Definition go (now : Instant) (i : nat) : event := EGo (at_instant now) i.

(** Two sidecars connect, a period starts, the first chain submits a request and votes
    against it; the decision waits for the transport while a second request is admitted on
    the freed chains and announced. *)
Definition demo_schedule : list event :=
  [EArrive (AConnect "1-a"); go 0 0; go 0 0; EArrive (AConnect "2-b"); go 0 1; go 0 1;
   EArrive APeriodTick; go 0 2; go 0 2;
   EArrive (AFrame "1-a" demo_frame); go 1 3; go 1 3; go 1 3;
   EArrive (AFrame "1-a" (vote_frame (demo_id 1) 1 false)); go 5 4; go 5 4;
   EArrive (AFrame "2-b" demo_frame); go 6 5; go 6 5; go 6 5].

Definition demo_conc : conc :=
  default (conc_start (build_coordinator Config_default (Ok None)))
    (perform_all hex_string demo_schedule (conc_start (build_coordinator Config_default (Ok None)))).

Lemma demo_frame_ok : frame_ok demo_frame.
Proof.
  intros m r. unfold demo_frame.
  rewrite prost_decode_encode by (split; [reflexivity|by_compute]).
  intros [= <-] [= <-]. split; [by_compute|done].
Qed.

Lemma vote_frame_ok iid c v : Payload_wf (Proto.PVote (Proto.mk_Vote iid c v)) -> frame_ok (vote_frame iid c v).
Proof.
  intros Hwf m r. unfold vote_frame. rewrite prost_decode_encode by (split; [reflexivity|done]).
  by intros [= <-].
Qed.

Lemma demo_schedule_runs :
  nsteps (conc_step hex_string) (length demo_schedule)
    (conc_start (build_coordinator Config_default (Ok None))) demo_conc.
Proof.
  apply perform_all_steps; [|vm_compute; reflexivity].
  assert (forall now i, event_ok (go now i)) by (intros; split; intros ?; done).
  repeat (apply Forall_cons; split; [|]); try done; [apply demo_frame_ok| |apply demo_frame_ok].
  apply vote_frame_ok. by_compute.
Qed.

Lemma concurrent_tasks_run_protocol_witness :
  length (broadcasts (cn_out demo_conc)) = 3%nat /\
  msgs_of (concat (cn_threads demo_conc)) = [decided_message (demo_id 1) false] /\
  exists w, reachable hex_string w /\ cw_state w = co_state (cn_coord demo_conc) /\
    cw_sent w ≡ₚ broadcasts (cn_out demo_conc) ++ msgs_of (concat (cn_threads demo_conc)) /\
    cw_submissions w ≡ₚ subs_of (concat (cn_threads demo_conc)).
Proof.
  split; [vm_compute; reflexivity|]. split; [vm_compute; reflexivity|].
  apply (concurrent_tasks_run_protocol hex_string Config_default (Ok None) (length demo_schedule));
    [done|apply demo_schedule_runs|by_compute].
Defined.

Lemma demo_conc_decided :
  decoded (broadcasts (cn_out demo_conc) ++ msgs_of (concat (cn_threads demo_conc)))
    (Proto.PDecided (Proto.mk_Decided (demo_id 1) false)).
Proof.
  exists (decided_message (demo_id 1) false). split; [by_compute|].
  apply prost_decode_encode. split; [reflexivity|by_compute].
Qed.

Lemma concurrent_decisions_agree_witness :
  decoded (broadcasts (cn_out demo_conc) ++ msgs_of (concat (cn_threads demo_conc)))
    (Proto.PDecided (Proto.mk_Decided (demo_id 1) false)) /\ false = false.
Proof.
  split; [apply demo_conc_decided|].
  apply (concurrent_decisions_agree hex_string Config_default (Ok None) (length demo_schedule)
    demo_conc (demo_id 1) false false);
    [done|done|apply demo_schedule_runs|by_compute|apply demo_conc_decided..].
Defined.
