(* ===== verification/TasksLive.v ===== *)
(** * Concurrent tasks come to rest

    Without new arrivals the tasks stop after a number of steps that is known in advance,
    every thread that has something left can go on, and when all have ended no request that
    could start is left in the queue: the drain of some task runs after the chains of the
    request were freed. *)
From Stdlib Require Import ZArith Lia.
From S2P Require Import Prelude Spec InstanceIdGen Messages Protobuf CoordState Coordinator AtomicCommit.
From S2P Require Import CoordInv CoordRefinement CoordProps CoordProgress Dispatch L1Submit Config.
From S2P Require Import HttpServer Runtime Tasks TasksSim.

(** ** The work that is left *)

Definition task_weight (t : task) : nat :=
  match t with
  | TRegister _ _ | TSend _ _ | TRelay _ _ | TStarted _ | TVote _ _ _ | TDecided _ _ _ | TDrain
  | TReap | TTimedOut _ | TPeriodSend _ | TSubmitted _ | TRollback _ => 1
  | TConnect _ | TMailbox _ | TPeriod | TSubmit _ _ | TReset => 2
  | TProof _ _ _ _ | TReapProofs => 3
  | TProofLookup _ _ | TPost _ => 4
  | TAdmit _ => 5
  | TDispatch _ _ => 6
  end.

Definition thread_weight (th : thread) : nat := sum_list (task_weight <$> th).

(** A queued request may be started and announced, an instance decided and drained. *)
Definition state_load (st : CoordinatorState) : nat :=
  4 * length (cs_pending_queue st) + 2 * size (cs_active_xts st).

Definition load (c : conc) : nat :=
  thread_weight (concat (cn_threads c)) + state_load (co_state (cn_coord c)).

Lemma thread_weight_app l1 l2 : thread_weight (l1 ++ l2) = (thread_weight l1 + thread_weight l2)%nat.
Proof. unfold thread_weight. by rewrite fmap_app, sum_list_with_app. Qed.

#[export] Instance thread_weight_perm : Proper ((≡ₚ) ==> eq) thread_weight.
Proof. intros l1 l2 Hl. unfold thread_weight. by rewrite Hl. Qed.

Lemma thread_weight_timed_out l : thread_weight (TTimedOut <$> l) = length l.
Proof. induction l as [|d l IH]; [done|]. unfold thread_weight in *. cbn in *. by rewrite IH. Qed.

Section live.
Context `{Sha2, ProstMessage}.
Context (hex_encode : bytes -> string).
Implicit Types (co : Coordinator) (o : oracle) (t : task) (st : CoordinatorState) (c : conc).

(** How each critical section changes the load of the state. *)
Lemma state_load_frame st st' :
  cs_pending_queue st' = cs_pending_queue st -> cs_active_xts st' = cs_active_xts st ->
  state_load st' = state_load st.
Proof. unfold state_load. by intros -> ->. Qed.

Lemma prepare_xt_load now st req chains :
  (state_load (prepare_xt now st req chains).1 <= state_load st + 2)%nat.
Proof.
  unfold state_load. rewrite prepare_xt_active, map_size_insert.
  change (cs_pending_queue (prepare_xt now st req chains).1) with (cs_pending_queue st).
  destruct (_ !! _); unfold id; lia.
Qed.

Lemma admit_xt_load now st req chains :
  (state_load (admit_xt now st req chains).1 <= state_load st + 4)%nat /\
  (forall data, (admit_xt now st req chains).2 = Started data ->
     state_load (admit_xt now st req chains).1 <= state_load st + 2)%nat.
Proof.
  unfold admit_xt. destruct (has_overlap st chains); [case_match|]; cbn [fst snd].
  - split; [lia|done].
  - split; [|done]. unfold state_load. cbn. rewrite length_app. cbn. lia.
  - pose proof (prepare_xt_load now st req chains). destruct (prepare_xt _ _ _ _) as [st' [x d]].
    cbn in *. split; [lia|]. intros; lia.
Qed.

Lemma drain_one_load now st st' data :
  drain_one now st = Some (st', data) -> (state_load st' + 2 <= state_load st)%nat.
Proof.
  unfold drain_one. destruct (take_next_ready st) as [st0 [e|]] eqn:Ht; [|done].
  apply take_next_ready_Some in Ht as (l1 & l2 & Hq & -> & _).
  set (st0 := set_pending_queue (l1 ++ l2) st).
  pose proof (prepare_xt_load now st0 (pe_xt_request e) (pe_chains e)) as Hp.
  destruct (prepare_xt now st0 _ _) as [st1 [x d]]. intros [= <- <-]. cbn in Hp.
  unfold state_load in *. subst st0. cbn in Hp. rewrite Hq. rewrite length_app in *. cbn. lia.
Qed.

Lemma finish_xt_load st x xt :
  cs_active_xts st !! x = Some xt -> (state_load (finish_xt st x) + 2 = state_load st)%nat.
Proof.
  intros Hx. unfold state_load. rewrite finish_xt_active, map_size_delete_Some by eauto.
  assert (size (cs_active_xts st) <> 0%nat).
  { intros E%map_size_empty_iff. by rewrite E in Hx. }
  unfold finish_xt, release_chains. rewrite Hx. cbn. lia.
Qed.

Lemma record_vote_load now st x iid chain v :
  match record_vote now st x iid chain v with
  | (st', None) => state_load st' = state_load st
  | (st', Some _) => (state_load st' + 2 = state_load st)%nat
  end.
Proof.
  unfold record_vote. destruct (cs_active_xts st !! x) as [xt|] eqn:Hx; [|done].
  case_decide; [done|]. case_decide; [done|].
  match goal with |- context [set_active_xts (<[x := ?a]> _) st] =>
    set (st1 := set_active_xts (<[x := a]> (cs_active_xts st)) st); set (xt' := a) in * end.
  assert (state_load st1 = state_load st) as Hst.
  { unfold state_load, st1. cbn. by rewrite map_size_insert, Hx. }
  rewrite <- Hst. destruct (if negb v then _ else _); [|done].
  eapply (finish_xt_load _ _ xt'). apply lookup_insert_eq.
Qed.

Lemma reap_loop_load st l :
  NoDup l -> Forall (fun x => is_Some (cs_active_xts st !! x)) l ->
  (state_load (reap_loop st l).1 + 2 * length (reap_loop st l).2 = state_load st)%nat.
Proof.
  revert st. induction l as [|x l IH]; intros st Hnd Hl; [cbn; lia|].
  apply NoDup_cons in Hnd as [Hx Hnd]. apply Forall_cons in Hl as [[xt Hxt] Hl]. cbn [reap_loop].
  assert (Forall (fun y => is_Some (cs_active_xts (finish_xt st x) !! y)) l) as Hl'.
  { rewrite Forall_forall in *. intros y Hy. rewrite finish_xt_active, lookup_delete_ne; [by apply Hl|].
    by intros ->. }
  pose proof (finish_xt_load st x xt Hxt). specialize (IH _ Hnd Hl').
  destruct (reap_loop _ l). cbn in *. lia.
Qed.

Lemma reap_timed_out_load order now st timeout :
  iter_ok order ->
  let '(st', out) := reap_timed_out order now st timeout in
  (state_load st' + 2 * length out = state_load st)%nat.
Proof.
  intros Hord. pose proof (reap_loop_load st (expired_xts order now st timeout)) as Hr.
  unfold reap_timed_out. destruct (reap_loop _ _). apply Hr; [by apply NoDup_expired_xts|].
  apply Forall_forall. intros x (xt & -> & _)%elem_of_expired_xts; eauto.
Qed.

Lemma dispatch_weight co client data :
  (thread_weight (sd_next (step_dispatch co client data)) <= 5)%nat.
Proof.
  unfold step_dispatch. cbn [sd_next].
  destruct (decode data) as [[sender [p|]]|e]; cbn [Proto.msg_payload]; [|cbn; lia..].
  destruct p; try (cbn; lia).
  - destruct (Proto.hsr_client_id m); [cbn; lia|]. destruct (parse_chain_id _); cbn; lia.
  - case_match; cbn; lia.
Qed.

Lemma proof_weight o co sb chain data :
  let s := step_proof o co sb chain data in
  state_load (co_state (sd_coord s)) = state_load (co_state co) /\ sd_next s = [] /\
  (thread_weight (concat (sd_spawned s)) <= 2)%nat.
Proof.
  unfold step_proof, receive_proof.
  pose proof (collect_proof_frame (or_now o) (co_state co) sb chain data) as (E1 & E2 & _).
  destruct (collect_proof _ _ _ _ _) as [st' [[n proofs]|]]; cbn in E1, E2;
    [destruct (validate_mailbox_consistency _); [destruct (co_has_l1_submitter co)|]|];
    cbn; (split_and!; [by apply state_load_frame|done|cbn; lia]).
Qed.

Definition weight_after (s : stepped) : nat :=
  thread_weight (sd_next s) + thread_weight (concat (sd_spawned s)) + state_load (co_state (sd_coord s)).

(** Every step of a task reduces the load. *)
Lemma step_decreases o t co :
  oracle_ok o -> (weight_after (step hex_encode o t co) < task_weight t + state_load (co_state co))%nat.
Proof.
  intros [Hxts _]. unfold weight_after.
  destruct t; cbn [step];
    try (match goal with |- context [state_load (co_state (sd_coord ?s))] =>
           rewrite (state_load_frame (co_state co) (co_state (sd_coord s))) by done end;
         cbn -[state_load]; lia).
  - destruct (parse_chain_id client_id); cbn -[state_load]; lia.
  - pose proof (dispatch_weight co client_id data).
    change (sd_spawned (step_dispatch co client_id data)) with (@nil (list task)).
    change (co_state (sd_coord (step_dispatch co client_id data))) with (co_state co).
    cbn [concat task_weight thread_weight fmap list_fmap sum_list sum_list_with] in *. lia.
  - cbn -[state_load]. rewrite (state_load_frame (co_state co)); [lia|..];
      unfold register_chain; by destruct (_ !! _).
  - destruct (_ !! _); cbn -[state_load]; lia.
  - destruct (admit_xt_load (or_now o) (co_state co) xt_req (extract_chains xt_req)) as [A1 A2].
    destruct (admit_xt _ _ _ _) as [st' [| |d]]; cbn -[state_load] in *; try lia.
    specialize (A2 d eq_refl). lia.
  - pose proof (record_vote_load (or_now o) (co_state co) (hex_encode instance_id_bytes)
      instance_id_bytes chain_id vote) as R.
    destruct (record_vote _ _ _ _ _ _) as [st' [[[d l] m]|]]; cbn -[state_load]; lia.
  - destruct (drain_one _ _) as [[st' d]|] eqn:Hd; cbn -[state_load]; [|lia].
    apply drain_one_load in Hd. lia.
  - pose proof (reap_timed_out_load (or_xts o) (or_now o) (co_state co) (co_scp_timeout co) Hxts) as R.
    destruct (reap_timed_out _ _ _ _) as [st' out]. cbn [sd_next sd_spawned sd_coord co_state with_state concat].
    rewrite thread_weight_app, thread_weight_timed_out, length_fmap.
    destruct out; cbn -[state_load] in *; lia.
  - destruct (chain_for_client _ _); cbn -[state_load]; lia.
  - case_decide; [cbn -[state_load]; lia|]. destruct (negb _); cbn -[state_load]; lia.
  - pose proof (proof_weight o co superblock_number chain_id data) as (E1 & E2 & E3).
    rewrite E1, E2. cbn -[state_load step_proof] in *. lia.
  - destruct (or_submitted o); cbn -[state_load]; lia.
  - unfold reap_expired_proofs. repeat case_match; simplify_eq; cbn -[state_load];
      rewrite ?(state_load_frame (co_state co)) by done; lia.
Qed.

Lemma internal_decreases c c' : internal_step hex_encode c c' -> (load c' < load c)%nat.
Proof.
  unfold load. intros [o t rest l1 l2 Hth Ho s|t rest l1 l2 Hth _]; cbn [cn_threads cn_coord];
    rewrite Hth, !concat_threads, ?app_assoc, ?concat_app, !thread_weight_app.
  - pose proof (step_decreases o t (cn_coord c) Ho) as Hd. unfold weight_after in Hd. fold s in Hd.
    change (t :: rest) with ([t] ++ rest). rewrite thread_weight_app.
    assert (thread_weight [t] = task_weight t) by (cbn; lia). lia.
  - change (t :: rest) with ([t] ++ rest). rewrite thread_weight_app.
    assert (0 < thread_weight [t])%nat by (destruct t; cbn; lia). lia.
Qed.

Lemma internal_run_bounded n c c' :
  nsteps (internal_step hex_encode) n c c' -> (n + load c' <= load c)%nat.
Proof.
  induction 1 as [c|n c c1 c' Hs _ IH]; [lia|]. apply internal_decreases in Hs. lia.
Qed.

(** A thread that is not at its end can go on: there are clocks and iteration orders. *)
Definition default_oracle : oracle := mk_oracle 0 map_to_list map_to_list true.

Lemma not_quiescent_steps c : ~ quiescent c -> exists c', internal_step hex_encode c c'.
Proof.
  unfold quiescent. intros Hq.
  assert (exists th, th ∈ cn_threads c /\ th <> []) as (th & Hin & Hne).
  { apply not_Forall_Exists, Exists_exists in Hq; [done|]. intros []; [by left|by right]. }
  destruct th as [|t rest]; [done|]. apply list_elem_of_split in Hin as (l1 & l2 & Hth).
  eexists. eapply (internal_go _ _ default_oracle); [done|]. split; intros m; done.
Qed.

(** ** No wakeup is lost *)

(** What could start has a drain coming. *)
Definition drain_due c : Prop :=
  nothing_ready (co_state (cn_coord c)) \/ TDrain ∈ concat (cn_threads c).

Lemma nothing_ready_frame st st' :
  cs_pending_queue st' = cs_pending_queue st -> cs_active_chains st' = cs_active_chains st ->
  nothing_ready st -> nothing_ready st'.
Proof. intros Hq Hc. apply nothing_ready_mono; [done|]. by rewrite Hc. Qed.

Lemma step_drain_due o t co :
  t = TDrain \/ nothing_ready (co_state co) ->
  let s := step hex_encode o t co in nothing_ready (co_state (sd_coord s)) \/ TDrain ∈ sd_next s.
Proof.
  intros [-> | Hn].
  { cbn [step]. destruct (drain_one _ _) as [[st' d]|] eqn:Hd; cbn; [right; set_solver|].
    left. by eapply drain_one_None. }
  destruct t; cbn [step]; try (left; by refine (nothing_ready_frame (co_state co) _ _ _ Hn)).
  - left. refine (nothing_ready_frame (co_state co) _ _ _ Hn); cbn; unfold register_chain;
      by destruct (_ !! _).
  - pose proof (admit_xt_nothing_ready (or_now o) (co_state co) xt_req (extract_chains xt_req) Hn).
    destruct (admit_xt _ _ _ _) as [st' []]; by left.
  - destruct (record_vote _ _ _ _ _ _) as [st' [[[d latency] data]|]] eqn:Hr; cbn; [right; set_solver|].
    left. by eapply record_vote_nothing_ready.
  - destruct (drain_one _ _) as [[st' d]|] eqn:Hd; cbn; [right; set_solver|by left].
  - destruct (reap_timed_out _ _ _ _) as [st' [|x out]] eqn:Hr; cbn; [|right; set_solver].
    apply reap_timed_out_nothing in Hr. left. by rewrite Hr.
  - left. unfold step_proof, receive_proof, collect_proof. repeat case_match; simplify_eq;
      by refine (nothing_ready_frame (co_state co) _ _ _ Hn).
  - left. unfold reap_expired_proofs. repeat case_match; simplify_eq;
      by refine (nothing_ready_frame (co_state co) _ _ _ Hn).
Qed.

Lemma internal_drain_due c c' : internal_step hex_encode c c' -> drain_due c -> drain_due c'.
Proof.
  unfold drain_due. intros [o t rest l1 l2 Hth Ho s|t rest l1 l2 Hth Hc] Hd; cbn [cn_coord cn_threads];
    rewrite Hth in Hd; rewrite concat_threads, <- ?app_comm_cons in Hd; rewrite concat_threads.
  - rewrite app_assoc, concat_app. rewrite concat_app in Hd.
    destruct Hd as [Hd|[Hd|Hd]%elem_of_cons]; [..|right; rewrite concat_app; set_solver];
      (destruct (step_drain_due o t (cn_coord c)) as [?|?]; fold s; [by auto|by left|right; set_solver]).
  - destruct Hd as [?|[<-|?]%elem_of_cons]; [by left|done|by right].
Qed.

#[export] Instance quiescent_dec c : Decision (quiescent c).
Proof.
  unfold quiescent. apply Forall_dec. intros [|t th]; [by left|by right].
Defined.

Lemma quiescent_threads c : quiescent c -> concat (cn_threads c) = [].
Proof. unfold quiescent. induction 1 as [|th l -> _ IH]; [done|]. exact IH. Qed.

(** Any internal run can be driven on to rest. *)
Lemma comes_to_rest c : exists k c', nsteps (internal_step hex_encode) k c c' /\ quiescent c'.
Proof.
  remember (load c) as n eqn:Hn. revert c Hn. induction (lt_wf n) as [n _ IH]. intros c ->.
  destruct (decide (quiescent c)) as [Hq|Hq]; [exists 0%nat, c; split; [constructor|done]|].
  destruct (not_quiescent_steps c Hq) as [c1 Hs].
  destruct (IH (load c1) (internal_decreases _ _ Hs) c1 eq_refl) as (k & c' & Hk & Hq').
  exists (S k), c'. split; [by econstructor|done].
Qed.

Context `{Requests}.

Lemma steps_drain_due n c c' : nsteps (conc_step hex_encode) n c c' -> drain_due c -> drain_due c'.
Proof.
  induction 1 as [c|n c c1 c' Hs _ IH]; [done|]. intros Hd. apply IH.
  destruct Hs as [c1 Hi|a _]; [by eapply internal_drain_due|].
  destruct Hd as [Hd|Hd]; destruct a; cbn; try (by left); right; cbn; rewrite ?concat_app; set_solver.
Qed.

Lemma build_coordinator_idle `{L1Env} cfg fetched :
  cs_pending_queue (co_state (build_coordinator cfg fetched)) = [].
Proof.
  unfold build_coordinator, init_from_l1. destruct (choose_submitter _); [|done]. cbn.
  by destruct fetched as [[[]|]|].
Qed.

Lemma internal_conc k c c' :
  nsteps (internal_step hex_encode) k c c' -> nsteps (conc_step hex_encode) k c c'.
Proof. induction 1; [constructor|]. econstructor; [by apply conc_internal|done]. Qed.

(** The publisher comes to rest: from any configuration the concurrent program reaches,
    its tasks can take at most [load] more steps before something new must arrive, whatever
    the schedule; from every point of such a run the tasks can go on until all have ended;
    and when they have, no queued request could start, whichever task freed its chains,
    every message of the protocol has been handed to the transport exactly as often as it
    was sent, and no submission is under way. *)
Theorem concurrent_run_settles `{L1Env} cfg fetched n c k c' :
  (forall m h, fetched = Ok (Some (m, h)) -> u64_ok m) ->
  nsteps (conc_step hex_encode) n (conc_start (build_coordinator cfg fetched)) c ->
  Z.of_nat n + Z.of_nat (load c) + 1 < u64_max ->
  nsteps (internal_step hex_encode) k c c' ->
  (k <= load c)%nat /\
  (exists j rest, nsteps (internal_step hex_encode) j c' rest /\ quiescent rest) /\
  (quiescent c' ->
     nothing_ready (co_state (cn_coord c')) /\
     exists w, reachable hex_encode w /\ cw_state w = co_state (cn_coord c') /\
       cw_sent w ≡ₚ broadcasts (cn_out c') /\ cw_submissions w = []).
Proof.
  intros Hf Hn Hb Hk. pose proof (internal_run_bounded _ _ _ Hk) as Hload.
  split; [lia|]. split; [apply comes_to_rest|]. intros Hq%quiescent_threads.
  assert (nsteps (conc_step hex_encode) (n + k) (conc_start (build_coordinator cfg fetched)) c')
    as Hall by (eapply nsteps_trans; [done|by apply internal_conc]).
  split.
  - destruct (steps_drain_due _ _ _ Hall) as [?|Hin]; [|done|by rewrite Hq in Hin; set_solver].
    left. cbn. unfold nothing_ready. by rewrite build_coordinator_idle.
  - destruct (conc_reachable hex_encode cfg fetched _ _ Hf Hall ltac:(lia)) as (w & Hr & [M1 M2 M3 _]).
    exists w. rewrite Hq in M2, M3. rewrite app_nil_r in M2. split_and!; try done.
    by apply Permutation_nil_r in M3.
Qed.

End live.

#[local] Existing Instances prefix_sha256 all_requests prost_codec.
#[local] Existing Instance zero_env.

(** The decision of the schedule is handed out and its task drains the queue. *)
Definition demo_rest : conc :=
  default demo_conc (perform_all hex_string [go 7 4; go 7 4] demo_conc).

Lemma demo_rest_runs : nsteps (internal_step hex_string) 2 demo_conc demo_rest.
Proof.
  assert (forall now, oracle_ok (at_instant now)) as Ho by (intros now; split; intros ?; done).
  eapply nsteps_l; [|eapply nsteps_l; [|]].
  - apply (internal_go hex_string demo_conc (at_instant 7) (TDecided false 4
      (decided_message (demo_id 1) false)) [TDrain] [[]; []; []; []] [[]]); [vm_compute; reflexivity|done].
  - match goal with |- internal_step _ ?c _ => apply (internal_go hex_string c (at_instant 7) TDrain
      [] [[]; []; []; []] [[]]) end; [vm_compute; reflexivity|done].
  - match goal with |- nsteps _ 0 ?c ?d => assert (c = d) as ->; [vm_compute; reflexivity|constructor] end.
Qed.

Lemma concurrent_run_settles_witness :
  load demo_conc = 4%nat /\ quiescent demo_rest /\
  nothing_ready (co_state (cn_coord demo_rest)) /\
  exists w, reachable hex_string w /\ cw_state w = co_state (cn_coord demo_rest) /\
    cw_sent w ≡ₚ broadcasts (cn_out demo_rest) /\ cw_submissions w = [].
Proof.
  assert (quiescent demo_rest) as Hq by by_compute.
  split; [vm_compute; reflexivity|]. split; [exact Hq|].
  refine (proj2 (proj2 (concurrent_run_settles hex_string Config_default (Ok None)
    (length demo_schedule) demo_conc 2 demo_rest _ demo_schedule_runs _ demo_rest_runs)) Hq);
    [done|by_compute].
Defined.
