(* ===== verification/Schedules.v ===== *)
(** * Schedules of the concurrent tasks

    A task that nobody interrupts does what the sequential definition of its handler says,
    so the two models of the program agree. And one schedule of the tasks delivers a
    decision after the start that depends on it, which a sidecar then refuses. *)
From Stdlib Require Import ZArith Lia.
From S2P Require Import Prelude Spec InstanceIdGen Messages Protobuf CoordState Coordinator AtomicCommit.
From S2P Require Import CoordInv CoordRefinement CoordProps CoordProgress Dispatch L1Submit Config.
From S2P Require Import HttpServer Runtime Tasks TasksSim TasksLive SbcpSequencer CoordSbcp CoordStream.

Section schedules.
Context `{Sha2, ProstMessage}.
Context (hex_encode : bytes -> string).
Implicit Types (co : Coordinator) (o : oracle) (t : task) (c : conc) (a : arrival).

(** ** A thread alone *)

(** The thread runs to its end while no other goes on: the coordinator it leaves, what it
    hands out and the threads it spawns. *)
Inductive solo : thread -> Coordinator -> Coordinator -> list effect -> list thread -> Prop :=
| solo_end co : solo [] co co [] []
| solo_go o t rest co co' effs sp :
    oracle_ok o ->
    let s := step hex_encode o t co in
    solo (sd_next s ++ rest) (sd_coord s) co' effs sp ->
    solo (t :: rest) co co' (sd_out s ++ effs) (sd_spawned s ++ sp).

Lemma solo_nil co co' effs sp : solo [] co co' effs sp <-> co' = co /\ effs = [] /\ sp = [].
Proof. split; [by inversion 1|]. intros (-> & -> & ->). constructor. Qed.

Lemma solo_cons t rest co co' effs sp :
  solo (t :: rest) co co' effs sp <->
  exists o effs' sp', let s := step hex_encode o t co in
    oracle_ok o /\ solo (sd_next s ++ rest) (sd_coord s) co' effs' sp' /\
    effs = sd_out s ++ effs' /\ sp = sd_spawned s ++ sp'.
Proof.
  split; [inversion 1; subst; by eauto 10|]. intros (o & effs' & sp' & Ho & Hs & -> & ->).
  by apply solo_go.
Qed.

Lemma at_instant_ok now : oracle_ok (at_instant now).
Proof. split; intros m; done. Qed.

(** A step that reads nothing from outside. *)
Lemma solo_plain t rest co co' effs sp :
  let s := step hex_encode (at_instant 0) t co in
  (forall o, step hex_encode o t co = s) ->
  solo (t :: rest) co co' effs sp <->
  exists effs' sp', solo (sd_next s ++ rest) (sd_coord s) co' effs' sp' /\
    effs = sd_out s ++ effs' /\ sp = sd_spawned s ++ sp'.
Proof.
  intros s Hs. rewrite solo_cons. split.
  - intros (o & effs' & sp' & _ & H'). rewrite (Hs o) in H'. eauto.
  - intros (effs' & sp' & H'). exists (at_instant 0), effs', sp'. rewrite (Hs _).
    split; [apply at_instant_ok|done].
Qed.

(** The loop of [drain_queue]. *)
Lemma solo_drain fuel rest co co' effs sp :
  (length (cs_pending_queue (co_state co)) < fuel)%nat ->
  solo (TDrain :: rest) co co' effs sp <->
  exists clock effs', solo rest (drain_loop fuel clock co).1 co' effs' sp /\
    effs = (drain_loop fuel clock co).2 ++ effs'.
Proof.
  revert co effs. induction fuel as [|fuel IH]; intros co effs Hf; [lia|].
  rewrite solo_cons. split.
  - intros (o & e & sp' & Ho & Hs & -> & ->). cbn [step] in *.
    destruct (drain_one (or_now o) (co_state co)) as [[st' d]|] eqn:Hd; cbn in Hs.
    + rewrite solo_plain in Hs by done.
      destruct Hs as (e1 & sp1 & Hs & -> & ->). cbn in Hs.
      apply IH in Hs as (clock & e2 & Hs & ->).
      2:{ apply drain_one_length in Hd. cbn. lia. }
      exists (fun n => match n with O => or_now o | S n => clock n end), e2.
      cbn [drain_loop]. rewrite Hd. destruct (drain_loop fuel _ _). done.
    + exists (fun _ => or_now o), e. cbn [drain_loop]. by rewrite Hd.
  - intros (clock & e & Hs & ->). cbn [drain_loop] in *. exists (at_instant (clock 0%nat)).
    cbn [step or_now at_instant]. destruct (drain_one (clock 0%nat) (co_state co)) as [[st' d]|] eqn:Hd.
    + exists ((BroadcastRaw d "" :: (drain_loop fuel (fun n => clock (S n)) (metric_inc XtStarted
        (inc_broadcasts (with_state st' co)))).2) ++ e), sp.
      split; [apply at_instant_ok|]. cbn [sd_next sd_coord sd_out sd_spawned app].
      rewrite solo_plain by done. cbn [step sd_next sd_coord sd_out sd_spawned app].
      split; [|by destruct (drain_loop _ _ _)].
      do 2 eexists. split; [|done]. apply IH; [apply drain_one_length in Hd; cbn; lia|].
      exists (fun n => clock (S n)), e. split; [|done]. by destruct (drain_loop fuel _ _).
    + exists e, sp. split; [apply at_instant_ok|]. done.
Qed.

(** The loop that announces the timed-out instances. *)
Lemma solo_announce l rest co co' effs sp :
  solo ((TTimedOut <$> l.*2) ++ rest) co co' effs sp <->
  exists effs', solo rest (announce_timeouts co l).1 co' effs' sp /\
    effs = (announce_timeouts co l).2 ++ effs'.
Proof.
  revert co effs sp. induction l as [|[x d] l IH]; intros co effs sp; cbn [announce_timeouts].
  { split; [by exists effs|]. intros (e & Hs & ->). done. }
  rewrite !fmap_cons, <- app_comm_cons, solo_plain by done.
  cbn [step sd_next sd_coord sd_out sd_spawned app snd]. setoid_rewrite IH.
  destruct (announce_timeouts _ l) as [co1 e1]. cbn. split.
  - intros (e & sp' & (e2 & Hs & ->) & -> & ->). by exists e2.
  - intros (e & Hs & ->). eauto 10.
Qed.

(** ** The handlers *)

Lemma solo_proof b sb chain data co co' effs sp :
  solo [TProof b sb chain data] co co' effs sp <->
  exists order now, iter_ok order /\ (co', effs) = receive_proof order now co sb chain data /\
    sp = submit_threads effs.
Proof.
  rewrite solo_cons. cbn [step]. unfold step_proof. split.
  - intros (o & e & sp' & [_ Ho] & Hs & -> & ->). exists (or_proofs o), (or_now o). split; [done|].
    destruct (receive_proof _ _ _ _ _ _) as [co1 e1]. apply solo_nil in Hs as (-> & -> & ->).
    cbn. by rewrite !app_nil_r.
  - intros (order & now & Ho & E & ->). exists (mk_oracle now map_to_list order true), [], [].
    cbn [or_proofs or_now]. rewrite <- E. cbn. rewrite !app_nil_r. split; [split; [by intros m|done]|].
    split; [constructor|done].
Qed.

Lemma solo_vote iid chain v co co' effs sp :
  solo [TVote iid chain v] co co' effs sp <->
  exists clock, (co', effs) = handle_vote hex_encode clock co iid chain v /\ sp = [].
Proof.
  rewrite solo_cons. cbn [step]. unfold handle_vote. split.
  - intros (o & e & sp' & Ho & Hs & -> & ->).
    destruct (record_vote _ _ _ _ _ _) as [st' [[[d l] m]|]] eqn:Hr; cbn in Hs.
    + rewrite solo_plain in Hs by done. destruct Hs as (e1 & sp1 & Hs & -> & ->). cbn in Hs.
      rewrite solo_drain in Hs by apply Nat.lt_succ_diag_r.
      destruct Hs as (clock & e2 & (-> & -> & ->)%solo_nil & ->).
      exists (fun n => match n with O => or_now o | S n => clock n end). rewrite Hr.
      cbv beta iota zeta. unfold drain_queue. destruct (drain_loop _ _ _). cbn. by rewrite app_nil_r.
    + apply solo_nil in Hs as (-> & -> & ->). exists (fun _ => or_now o). by rewrite Hr.
  - intros (clock & E & ->). exists (at_instant (clock 0%nat)), effs, []. cbn [or_now at_instant].
    destruct (record_vote _ _ _ _ _ _) as [st' [[[d l] m]|]] eqn:Hr;
      (split; [apply at_instant_ok|]); cbn [sd_next sd_coord sd_out sd_spawned app].
    + split; [|done]. rewrite solo_plain by done. cbn [step sd_next sd_coord sd_out sd_spawned app].
      unfold drain_queue in E. destruct (drain_loop _ _ _) as [co1 e1] eqn:Hd in E. simplify_eq.
      exists e1, []. split; [|done]. rewrite solo_drain by apply Nat.lt_succ_diag_r.
      exists (fun n => clock (S n)), []. rewrite Hd. cbn. rewrite app_nil_r. split; [constructor|done].
    + simplify_eq. split; [constructor|done].
Qed.

Lemma solo_admit req co co' effs sp :
  (2 <= length (extract_chains req))%nat ->
  solo [TAdmit req] co co' effs sp <->
  exists now, (co', effs) = handle_xt_request now co req /\ sp = [].
Proof.
  intros Hlen. rewrite solo_cons. cbn [step]. unfold handle_xt_request.
  rewrite (proj2 (Nat.ltb_ge _ _) Hlen).
  assert (forall o, (let s := step hex_encode o (TAdmit req) co in
    forall e sp', solo (sd_next s ++ []) (sd_coord s) co' e sp' <->
      (co', sd_out s ++ e) = handle_xt_request (or_now o) co req /\ sp' = [])) as Ha.
  { intros o s e sp'. subst s. cbn [step]. unfold handle_xt_request.
    rewrite (proj2 (Nat.ltb_ge _ _) Hlen).
    destruct (admit_xt _ _ _ _) as [st' [| |d]]; cbn [sd_next sd_coord sd_out app];
      [rewrite solo_nil; naive_solver..|].
    rewrite solo_plain by done. cbn. setoid_rewrite solo_nil. naive_solver. }
  unfold handle_xt_request in Ha. rewrite (proj2 (Nat.ltb_ge _ _) Hlen) in Ha. cbn [step] in Ha. split.
  - intros (o & e & sp' & Ho & Hs & -> & ->). apply Ha in Hs as [Hs ->]. exists (or_now o).
    split; [done|]. by destruct (admit_xt _ _ _ _) as [? []].
  - intros (now & E & ->). specialize (Ha (at_instant now)). cbn [or_now at_instant] in Ha.
    exists (at_instant now), effs, []. cbn [or_now at_instant].
    split; [apply at_instant_ok|]. rewrite Ha. by destruct (admit_xt _ _ _ _) as [? []].
Qed.

Lemma solo_reap_proofs co co' effs sp :
  solo [TReapProofs] co co' effs sp <->
  exists now, (co', effs) = coord_reap_expired_proofs now co /\ sp = [].
Proof.
  rewrite solo_cons. cbn [step]. unfold coord_reap_expired_proofs. split.
  - intros (o & e & sp' & Ho & Hs & -> & ->). exists (or_now o).
    destruct (reap_expired_proofs _ _ _) as [st' []]; cbn [sd_next sd_coord app] in Hs.
    + rewrite solo_plain in Hs by done. cbn in Hs. destruct Hs as (e1 & sp1 & Hs & -> & ->).
      rewrite solo_plain in Hs by done. cbn in Hs. destruct Hs as (e2 & sp2 & Hs & -> & ->).
      by apply solo_nil in Hs as (-> & -> & ->).
    + by apply solo_nil in Hs as (-> & -> & ->).
  - intros (now & E & ->). exists (at_instant now), effs, []. cbn [or_now at_instant].
    split; [apply at_instant_ok|].
    destruct (reap_expired_proofs _ _ _) as [st' []]; simplify_eq; cbn [sd_next sd_coord sd_out sd_spawned app];
      (split; [|done]); [|constructor].
    rewrite solo_plain by done. do 2 eexists. split; [|done]. cbn [step sd_next sd_coord app].
    rewrite solo_plain by done. do 2 eexists. split; [|done]. constructor.
Qed.

Lemma solo_reap rest co co' effs sp :
  solo (TReap :: rest) co co' effs sp <->
  exists order clock effs', iter_ok order /\ let '(co1, e1) := reap_timed_out_xts order clock co in
    solo rest co1 co' effs' sp /\ effs = e1 ++ effs'.
Proof.
  rewrite solo_cons. cbn [step]. unfold reap_timed_out_xts, drain_queue. split.
  - intros (o & e & sp' & [Ho _] & Hs & -> & ->). exists (or_xts o).
    destruct (reap_timed_out _ _ _ _) as [st' out] eqn:Hr. cbn [sd_next sd_coord sd_out sd_spawned app] in *.
    rewrite <- app_assoc in Hs. apply solo_announce in Hs as (e1 & Hs & ->).
    destruct out as [|x out].
    + exists (fun _ => or_now o), e1. rewrite Hr. done.
    + change ([TDrain] ++ rest) with (TDrain :: rest) in Hs.
      rewrite solo_drain in Hs by apply Nat.lt_succ_diag_r. destruct Hs as (clock & e2 & Hs & ->).
      exists (fun n => match n with O => or_now o | S n => clock n end), e2. cbv beta iota. rewrite Hr.
      split; [done|]. destruct (announce_timeouts _ _) as [co1 e1]. cbn [fst snd] in *.
      destruct (drain_loop _ _ _). cbn [fst snd] in *. by rewrite app_assoc.
  - intros (order & clock & e & Ho & Hs).
    exists (mk_oracle (clock 0%nat) order map_to_list true), effs, sp. cbn [or_xts or_now].
    split; [split; [done|by intros m]|].
    destruct (reap_timed_out _ _ _ _) as [st' out] eqn:Hr. cbn [sd_next sd_coord sd_out sd_spawned app].
    split; [|done]. rewrite <- app_assoc. apply solo_announce.
    destruct (announce_timeouts _ _) as [co1 e1]. destruct out as [|x out].
    + destruct Hs as [Hs ->]. by exists e.
    + destruct (drain_loop _ _ _) as [co2 e2] eqn:Hd in Hs. destruct Hs as [Hs ->].
      exists (e2 ++ e). rewrite app_assoc. split; [|done]. cbn [fst].
      apply (solo_drain (S (length (cs_pending_queue (co_state co1))))); [lia|].
      exists (fun n => clock (S n)), e. by rewrite Hd.
Qed.

(** What the sequential definitions say of an arrival. *)
Definition sequential a co (r : Coordinator * list effect) : Prop :=
  match a with
  | AConnect client_id => r = (on_connect co client_id, [])
  | ADisconnect client_id => r = (on_disconnect co client_id, [])
  | AFrame client_id data =>
      exists order clock, iter_ok order /\ r = dispatch hex_encode order clock co client_id data
  | APeriodTick => r = period_tick co
  | AReaperTick =>
      exists order clock now, iter_ok order /\ r = reaper_tick order clock now co
  | APost body => exists order now, iter_ok order /\ r = (handle_submit_proof order now co body).1
  end.

(** Only proofs spawn submissions. *)
Lemma submit_threads_app l1 l2 : submit_threads (l1 ++ l2) = submit_threads l1 ++ submit_threads l2.
Proof. apply omap_app. Qed.

Lemma drain_loop_spawns fuel clock co : submit_threads (drain_loop fuel clock co).2 = [].
Proof.
  revert clock co. induction fuel as [|fuel IH]; intros clock co; [done|]. cbn [drain_loop].
  destruct (drain_one _ _) as [[st' d]|]; [|done]. specialize (IH (fun n => clock (S n))
    (metric_inc XtStarted (inc_broadcasts (with_state st' co)))). by destruct (drain_loop _ _ _).
Qed.

Lemma announce_spawns l co : submit_threads (announce_timeouts co l).2 = [].
Proof.
  revert co. induction l as [|[x d] l IH]; intros co; [done|]. cbn.
  specialize (IH (inc_broadcasts (metric_inc XtDecidedAbort co))). by destruct (announce_timeouts _ l).
Qed.

Lemma vote_spawns clock co iid chain v : submit_threads (handle_vote hex_encode clock co iid chain v).2 = [].
Proof.
  unfold handle_vote, drain_queue. destruct (record_vote _ _ _ _ _ _) as [st' [[[d l] m]|]]; [|done].
  pose proof (drain_loop_spawns (S (length (cs_pending_queue st'))) (fun n => clock (S n))
    (inc_broadcasts (metric_inc (XtDecisionLatency l) (metric_inc
      (if d : bool then XtDecidedCommit else XtDecidedAbort) (with_state st' co))))).
  by destruct (drain_loop _ _ _).
Qed.

Lemma admit_spawns now co req : submit_threads (handle_xt_request now co req).2 = [].
Proof.
  unfold handle_xt_request. case_match; [done|]. by destruct (admit_xt _ _ _ _) as [? []].
Qed.

Lemma reaper_spawns order clock now co : submit_threads (reaper_tick order clock now co).2 = [].
Proof.
  unfold reaper_tick, reap_timed_out_xts, coord_reap_expired_proofs, drain_queue.
  destruct (reap_timed_out _ _ _ _) as [st' out].
  pose proof (announce_spawns out (with_state st' co)) as E1. destruct (announce_timeouts _ _) as [co1 e1].
  pose proof (drain_loop_spawns (S (length (cs_pending_queue (co_state co1))))
    (fun n => clock (S n)) co1) as E2. destruct (drain_loop _ _ _) as [co2 e2]. cbn [snd] in *.
  destruct out; destruct (reap_expired_proofs _ _ _) as [? []]; cbn [snd];
    rewrite !submit_threads_app, E1, ?E2; done.
Qed.

(** A handler that reads no map and spawns nothing. *)
Lemma solo_clocked th co co' effs sp (f : (nat -> Instant) -> Coordinator * list effect) :
  (solo th co co' effs sp <-> exists clock, (co', effs) = f clock /\ sp = []) ->
  (forall clock, submit_threads (f clock).2 = []) ->
  solo th co co' effs sp <->
  (exists (order : gmap Z ProofData -> list (Z * ProofData)) clock,
     iter_ok order /\ (co', effs) = f clock) /\ sp = submit_threads effs.
Proof.
  intros -> Hsp. split.
  - intros (clock & E & ->). split; [|specialize (Hsp clock); by rewrite <- E in Hsp].
    exists map_to_list, clock. split; [by intros m|done].
  - intros [(_ & clock & _ & E) ->]. exists clock. split; [done|].
    specialize (Hsp clock). by rewrite <- E in Hsp.
Qed.

Lemma solo_const th co co' effs sp r :
  (solo th co co' effs sp <-> (co', effs) = r /\ sp = []) -> submit_threads r.2 = [] ->
  solo th co co' effs sp <->
  (exists (order : gmap Z ProofData -> list (Z * ProofData)) (clock : nat -> Instant),
     iter_ok order /\ (co', effs) = r) /\ sp = submit_threads effs.
Proof.
  intros Hr Hsp. apply (solo_clocked _ _ _ _ _ (fun _ => r)); [|done]. rewrite Hr. split.
  - intros Hs. by exists (fun _ => 0).
  - by intros [_ Hs].
Qed.

(** The last step of a thread. *)
Lemma solo_last t co co' effs sp :
  let s := step hex_encode (at_instant 0) t co in
  (forall o, step hex_encode o t co = s) -> sd_next s = [] -> sd_spawned s = [] ->
  solo [t] co co' effs sp <-> (co', effs) = (sd_coord s, sd_out s) /\ sp = [].
Proof.
  intros s Hs Hn Hsp. rewrite solo_plain by done. fold s. rewrite Hn, Hsp. cbn [app].
  setoid_rewrite solo_nil. split.
  - intros (e & sp' & (-> & -> & ->) & -> & ->). by rewrite app_nil_r.
  - intros [[= -> ->] ->]. exists [], []. by rewrite app_nil_r.
Qed.

(** A step that hands out nothing. *)
Lemma solo_silent t rest co co' effs sp :
  let s := step hex_encode (at_instant 0) t co in
  (forall o, step hex_encode o t co = s) -> sd_out s = [] -> sd_spawned s = [] ->
  solo (t :: rest) co co' effs sp <-> solo (sd_next s ++ rest) (sd_coord s) co' effs sp.
Proof.
  intros s Hs Hn Hsp. rewrite solo_plain by done. fold s. rewrite Hn, Hsp. cbn [app]. naive_solver.
Qed.

Lemma solo_handshake client req co co' effs sp :
  solo (match Proto.hsr_client_id req with
        | EmptyString => []
        | requested =>
            match parse_chain_id requested with
            | Ok chain_id => [TRegister client chain_id]
            | Err _ => []
            end
        end ++
        [TSend client (encode_to_vec (publisher_message
           (Proto.PHandshakeResponse (Proto.mk_HandshakeResponse true "" client))))])
    co co' effs sp <-> (co', effs) = handle_handshake co client req /\ sp = [].
Proof.
  unfold handle_handshake. destruct (Proto.hsr_client_id req) as [|ch s]; [by apply solo_last|].
  destruct (parse_chain_id (String ch s)); [|by apply solo_last].
  cbn [app]. rewrite solo_silent by done. by apply solo_last.
Qed.

Lemma solo_mailbox mb co co' effs sp :
  solo [TMailbox mb] co co' effs sp <-> (co', effs) = handle_mailbox_relay co mb /\ sp = [].
Proof.
  rewrite solo_silent by done. cbn [step sd_next sd_coord]. unfold handle_mailbox_relay.
  destruct (cs_chain_to_client (co_state co) !! Proto.mb_destination_chain mb) as [client|];
    [by apply solo_last|]. cbn [app]. rewrite solo_nil. naive_solver.
Qed.

Lemma solo_dispatch client data co co' effs sp :
  solo [TDispatch client data] co co' effs sp <->
  sequential (AFrame client data) co (co', effs) /\ sp = submit_threads effs.
Proof.
  rewrite solo_silent by done. cbn [step sequential]. unfold step_dispatch, dispatch.
  cbn [sd_next sd_coord]. rewrite app_nil_r.
  destruct (decode data) as [[sender [p|]]|e]; cbn [Proto.msg_payload];
    [|apply solo_const; [rewrite solo_nil; naive_solver|done]..].
  destruct p; try (apply solo_const; [rewrite solo_nil; naive_solver|done]).
  - by apply solo_const; [apply solo_handshake|].
  - by apply solo_const; [apply solo_last|].
  - destruct (Nat.ltb_spec (length (extract_chains m)) 2) as [Hl|Hl].
    + assert (forall now co, handle_xt_request now co m = (co, [])) as E.
      { intros. unfold handle_xt_request. by rewrite (proj2 (Nat.ltb_lt _ _) Hl). }
      setoid_rewrite E. apply solo_const; [rewrite solo_nil; naive_solver|done].
    + apply (solo_clocked _ _ _ _ _ (fun clock => handle_xt_request (clock 0%nat) (inc_messages co) m));
        [|intros; apply admit_spawns]. rewrite solo_admit by done. split.
      * intros (now & Hn). by exists (fun _ => now).
      * intros (clock & Hn). eauto.
  - apply solo_clocked; [apply solo_vote|intros; apply vote_spawns].
  - apply solo_const; [apply solo_mailbox|]. unfold handle_mailbox_relay. by destruct (_ !! _).
  - rewrite solo_silent by done. cbn [step sd_next sd_coord]. unfold handle_proof.
    destruct (chain_for_client (inc_messages co) client) as [chain|];
      [|apply solo_const; [rewrite solo_nil; naive_solver|done]].
    cbn [app]. rewrite solo_proof. split.
    + intros (order & now & Ho & E & ->). split; [|done]. by exists order, (fun _ => now).
    + intros [(order & clock & Ho & E) ->]. eauto.
Qed.

Lemma solo_connect client co co' effs sp :
  solo (handler_thread (AConnect client)) (callback (AConnect client) co) co' effs sp <->
  (co', effs) = (on_connect co client, []) /\ sp = [].
Proof.
  cbn [handler_thread]. rewrite solo_silent by done. cbn [step sd_next sd_coord callback]. unfold on_connect.
  destruct (parse_chain_id client); cbn [app]; [by apply solo_last|]. rewrite solo_nil. naive_solver.
Qed.

Lemma solo_period co co' effs sp :
  solo [TPeriod] co co' effs sp <-> (co', effs) = period_tick co /\ sp = [].
Proof. rewrite solo_silent by done. cbn [step sd_next sd_coord app]. by apply solo_last. Qed.

Lemma solo_reaper co co' effs sp :
  solo [TReap; TReapProofs] co co' effs sp <->
  sequential AReaperTick co (co', effs) /\ sp = submit_threads effs.
Proof.
  cbn [sequential]. rewrite solo_reap. unfold reaper_tick. split.
  - intros (order & clock & e & Ho & Hr).
    destruct (reap_timed_out_xts order clock co) as [co1 e1] eqn:E1.
    destruct Hr as [(now & E2 & ->)%solo_reap_proofs ->].
    pose proof (reaper_spawns order clock now co) as Hsp. unfold reaper_tick in Hsp. rewrite E1, <- E2 in Hsp.
    split; [|done]. exists order, clock, now. by rewrite E1, <- E2.
  - intros [(order & clock & now & Ho & E) ->].
    pose proof (reaper_spawns order clock now co) as Hsp. unfold reaper_tick in Hsp.
    destruct (reap_timed_out_xts order clock co) as [co1 e1] eqn:E1.
    destruct (coord_reap_expired_proofs now co1) as [co2 e2] eqn:E2. simplify_eq.
    exists order, clock, e2. rewrite E1, solo_reap_proofs. cbn [snd] in Hsp. rewrite Hsp. eauto.
Qed.

Lemma solo_post body co co' effs sp :
  solo [TPost body] co co' effs sp <->
  sequential (APost body) co (co', effs) /\ sp = submit_threads effs.
Proof.
  rewrite solo_silent by done. cbn [step sd_next sd_coord sequential]. unfold handle_submit_proof.
  rewrite app_nil_r.
  assert (solo [] co co' effs sp <->
    (exists (order : gmap Z ProofData -> list (Z * ProofData)) (now : Instant),
       iter_ok order /\ (co', effs) = (co, [])) /\ sp = submit_threads effs) as Hnil.
  { rewrite solo_nil. split.
    - intros (-> & -> & ->). split; [|done]. exists map_to_list, 0. split; [by intros m|done].
    - intros [(_ & _ & _ & [= -> ->]) ->]. done. }
  case_decide; [done|]. destruct (negb _); [done|]. rewrite solo_proof. naive_solver.
Qed.

(** Such a run is a run of the step relation, with every other thread standing still. *)
Lemma solo_steps th co co' effs sp l1 l2 out :
  solo th co co' effs sp ->
  rtc (internal_step hex_encode) (mk_conc co (l1 ++ th :: l2) out)
    (mk_conc co' (l1 ++ [] :: l2 ++ sp) (out ++ effs)).
Proof.
  intros Hs. revert l2 out. induction Hs as [co|o t rest co co' effs sp Ho s Hs IH]; intros l2 out.
  { by rewrite !app_nil_r. }
  eapply rtc_l; [by apply (internal_go _ (mk_conc _ _ _) o t rest l1 l2)|]. cbn [cn_coord cn_out].
  fold s. rewrite (app_assoc l2), (app_assoc out). apply IH.
Qed.

Lemma const_spawns co effs (sp : list thread) r :
  submit_threads r.2 = [] ->
  ((co, effs) = r /\ sp = []) <-> ((co, effs) = r /\ sp = submit_threads effs).
Proof. intros Hr. by split; intros [<- ->]. Qed.

(** The two models of the program agree: the task of an arrival (a connection, a frame,
    a tick of a timer, a posted proof) that runs to its end without interruption changes
    the coordinator, hands out the messages in the order and spawns the submissions that
    the sequential definition of its handler says, for the clock and the iteration orders
    it has read, and for each of those there is such a run, which is a schedule of the
    concurrent program in whatever configuration the arrival finds. *)
Theorem thread_alone_is_handler a co co' effs sp :
  (solo (handler_thread a) (callback a co) co' effs sp <->
     sequential a co (co', effs) /\ sp = submit_threads effs) /\
  (forall threads out, sequential a co (co', effs) ->
     rtc (internal_step hex_encode) (arrive a (mk_conc co threads out))
       (mk_conc co' (threads ++ [] :: submit_threads effs) (out ++ effs))).
Proof.
  assert (forall sp, solo (handler_thread a) (callback a co) co' effs sp <->
    sequential a co (co', effs) /\ sp = submit_threads effs) as Hiff.
  { clear sp. intros sp. destruct a; [| |apply solo_dispatch| |apply solo_reaper|apply solo_post].
    - rewrite solo_connect. by apply const_spawns.
    - cbn [sequential]. rewrite <- const_spawns by done. cbn. rewrite solo_nil. naive_solver.
    - cbn [sequential]. rewrite <- const_spawns by done. apply solo_period. }
  split; [done|]. intros threads out Hs.
  by apply (solo_steps _ _ _ _ _ threads []), Hiff.
Qed.

End schedules.

(** ** Messages that overtake each other *)

#[local] Existing Instances prefix_sha256 all_requests prefix_sha256_ids prost_codec prost_codec_laws.
#[local] Existing Instances prefix_sha256_digest sample_env zero_env.

(** The same arrivals as [demo_schedule]; the task of the vote ends before the second
    request is admitted. *)
Definition ordered_schedule : list event :=
  take 16 demo_schedule ++ [go 7 4; go 7 4] ++ drop 16 demo_schedule.

Definition overtaking_schedule : list event := demo_schedule ++ [go 7 4; go 7 4].

Definition conc_after (l : list event) : conc :=
  let start := conc_start (build_coordinator Config_default (Ok None)) in
  default start (perform_all hex_string l start).

(** What the messages tell chain 1, in the order in which they are handed out. *)
Definition told_in_order (l : list event) : option view :=
  view_of 1 (reverse (broadcasts (cn_out (conc_after l)))).

Lemma schedule_runs l :
  (forall e, e ∈ l -> e ∈ overtaking_schedule) ->
  is_Some (perform_all hex_string l (conc_start (build_coordinator Config_default (Ok None)))) ->
  nsteps (conc_step hex_string) (length l) (conc_after []) (conc_after l).
Proof.
  intros Hl [c Hc]. apply perform_all_steps; [|unfold conc_after; cbv zeta; by rewrite Hc].
  apply Forall_forall. intros e He%Hl. apply list_elem_of_In in He.
  repeat (destruct He as [<-|He]; [try done; try apply at_instant_ok;
    try apply demo_frame_ok; by apply vote_frame_ok; by_compute|]). done.
Qed.

(** Broadcasts can overtake each other: [handle_vote] and [handle_xt_request] release the
    lock before they send. Two schedules of the same arrivals leave the coordinator in the
    same state with the same messages handed out, and every task at its end. Where the
    decision goes out before the next start, chain 1 is told of both in an order the
    protocol allows; where the next start goes out first, it comes while the previous
    instance is undecided, which [sequencer_accepts_view] says is refused. *)
Lemma overtaking_schedule_breaks_order :
  nsteps (conc_step hex_string) (length ordered_schedule) (conc_after []) (conc_after ordered_schedule) /\
  nsteps (conc_step hex_string) (length overtaking_schedule) (conc_after [])
    (conc_after overtaking_schedule) /\
  quiescent (conc_after ordered_schedule) /\ quiescent (conc_after overtaking_schedule) /\
  cn_coord (conc_after overtaking_schedule) = cn_coord (conc_after ordered_schedule) /\
  cn_out (conc_after overtaking_schedule) ≡ₚ cn_out (conc_after ordered_schedule) /\
  (v_active <$> told_in_order ordered_schedule) = Some (Some (demo_id 2)) /\
  told_in_order overtaking_schedule = None /\
  cs_active_chains (co_state (cn_coord (conc_after overtaking_schedule))) !! 1 =
    Some (InstanceId_to_string (demo_id 2)).
Proof.
  split; [|split]; [apply schedule_runs..|split_and!].
  - intros e. unfold ordered_schedule, overtaking_schedule. rewrite <- (take_drop 16 demo_schedule) at 3.
    set_solver.
  - eexists. vm_compute. reflexivity.
  - done.
  - eexists. vm_compute. reflexivity.
  - by_compute.
  - by_compute.
  - vm_compute. reflexivity.
  - vm_compute. repeat constructor.
  - vm_compute. reflexivity.
  - vm_compute. reflexivity.
  - vm_compute. reflexivity.
Qed.

(** The second period starts; a request is admitted in it, and announced, before the task
    of the tick has announced the period. *)
Definition early_start_schedule : list event :=
  take 9 demo_schedule ++
  [EArrive APeriodTick; go 1 3; EArrive (AFrame "1-a" demo_frame); go 2 4; go 2 4; go 2 4; go 3 3].

(** A start can overtake the period it belongs to: the messages are handed out in an order
    the protocol does not allow, although the coordinator has reserved the chain. *)
Lemma start_overtakes_period :
  quiescent (conc_after early_start_schedule) /\
  told_in_order early_start_schedule = None /\
  is_Some (cs_active_chains (co_state (cn_coord (conc_after early_start_schedule))) !! 1).
Proof. split_and!; [by_compute|vm_compute; reflexivity|eexists; vm_compute; reflexivity]. Qed.
