(* ===== verification/System.v ===== *)
(** * The publisher with its connections ([main.rs], [coordinator.rs], [server.rs])

    The concurrent tasks of [Tasks] together with the QUIC server: connections are
    identified, registered, served and lost; a task that hands a message over looks up the
    registry and then writes one frame per connection, any other task running in between;
    each write succeeds or fails on its own. A [sys_event] names what happens next,
    [sys_perform] is its effect. *)
From Stdlib Require Import ZArith Lia.
From S2P Require Import Prelude Utf8 Spec InstanceIdGen Messages Protobuf CoordState Coordinator AtomicCommit.
From S2P Require Import CoordInv CoordRefinement CoordProps CoordProgress Dispatch Framing Transport.
From S2P Require Import L1Submit Config HttpServer Endpoint Runtime Tasks TasksSim TasksLive.

(** A frame still to be written to a connection. *)
Record send := mk_send {
  sn_conn : Connection;
  sn_data : bytes;
}.

(** A task: what it has to write before it goes on, and the points ahead of it. *)
Record sthread := mk_sthread {
  st_sends : list send;
  st_tasks : thread;
}.

(** [sy_out] are the messages handed to the transport; [sy_log] the frames written, with the
    result of each write. *)
Record system := mk_system {
  sy_coord : Coordinator;
  sy_threads : list sthread;
  sy_net : transport_world;
  sy_out : list effect;
  sy_log : list (send * result unit TransportError);
}.

Definition system_start (co : Coordinator) : system := mk_system co [] tw_init [] [].

(** The connections a message goes to: those of the registry when it is handed over. *)
Definition sends_of (order : gmap string Z -> list (string * Z)) (registry : ConnectionRegistry)
    (e : effect) : list send :=
  match e with
  | BroadcastRaw data exclude =>
      (fun ic => mk_send ic.2 data) <$> filter (fun ic => ic.1 <> exclude) (order registry)
  | SendRaw client_id data =>
      match registry !! client_id with
      | Some conn => [mk_send conn data]
      | None => []
      end
  | SpawnSubmit _ _ => []
  end.

Section system.
Context `{Sha2, ProstMessage, RecvStream, BytesMut}.
Context (hex_encode : bytes -> string) (codec : LengthPrefixCodec).
Implicit Types sy : system.

(** What happens: a task goes on, with the registry's iteration order; it writes its next
    frame, with the outcome of opening the stream and of writing; its request is dropped; a
    connection is identified by its first stream, or lost; a stream is read; a timer ticks;
    a proof is posted. *)
Inductive sys_event :=
| SGo (o : oracle) (order : gmap string Z -> list (string * Z)) (i : nat)
| SWrite (open write : result unit string) (i : nat)
| SCancel (i : nat)
| SConnect (first : result stream string) (conn : Connection)
| SDisconnect (conn : Connection)
| SStream (conn : Connection) (recv : stream)
| SPeriodTick
| SReaperTick
| SPost (body : ProofSubmission).

(** The callback runs and its task is spawned. *)
Definition sys_arrive (a : arrival) (net : transport_world) sy : system :=
  mk_system (callback a (sy_coord sy)) (sy_threads sy ++ [mk_sthread [] (handler_thread a)]) net
    (sy_out sy) (sy_log sy).

Definition sys_go o order (i : nat) sy : option system :=
  match sy_threads sy !! i with
  | Some (mk_sthread [] (t :: rest)) =>
      let s := step hex_encode o t (sy_coord sy) in
      let sends := sd_out s ≫= sends_of order (tw_registry (sy_net sy)) in
      Some (mk_system (sd_coord s)
              (<[i := mk_sthread sends (sd_next s ++ rest)]> (sy_threads sy) ++
               (mk_sthread [] <$> sd_spawned s))
              (sy_net sy) (sy_out sy ++ sd_out s) (sy_log sy))
  | _ => None
  end.

Definition sys_write (open write : result unit string) (i : nat) sy : option system :=
  match sy_threads sy !! i with
  | Some (mk_sthread (s :: sends) tasks) =>
      let r := send_frame (fun _ => open) (fun _ _ => write) (sn_conn s) codec (sn_data s) in
      Some (mk_system (sy_coord sy) (<[i := mk_sthread sends tasks]> (sy_threads sy)) (sy_net sy)
              (sy_out sy) (sy_log sy ++ [(s, r)]))
  | _ => None
  end.

Definition sys_cancel (i : nat) sy : option system :=
  match sy_threads sy !! i with
  | Some (mk_sthread [] (t :: rest)) =>
      if cancellable t then
        Some (mk_system (sy_coord sy) (<[i := mk_sthread [] rest]> (sy_threads sy)) (sy_net sy)
                (sy_out sy) (sy_log sy))
      else None
  | _ => None
  end.

Definition sys_perform (e : sys_event) sy : option system :=
  let net := sy_net sy in
  match e with
  | SGo o order i => sys_go o order i sy
  | SWrite open write i => sys_write open write i sy
  | SCancel i => sys_cancel i sy
  | SConnect first conn =>
      match tw_tasks net !! conn, identify codec first with
      | None, Ok client_id => Some (sys_arrive (AConnect client_id) (connect client_id conn net) sy)
      | _, _ => None
      end
  | SDisconnect conn =>
      match tw_tasks net !! conn with
      | Some client_id => Some (sys_arrive (ADisconnect client_id) (disconnect client_id conn net) sy)
      | None => None
      end
  | SStream conn recv =>
      match tw_tasks net !! conn with
      | Some client_id =>
          match read_frame codec recv with
          | Ok payload =>
              Some (sys_arrive (AFrame client_id payload) (serve_stream codec client_id recv net) sy)
          | Err _ => Some sy
          end
      | None => None
      end
  | SPeriodTick => Some (sys_arrive APeriodTick net sy)
  | SReaperTick => Some (sys_arrive AReaperTick net sy)
  | SPost body => Some (sys_arrive (APost body) net sy)
  end.

Fixpoint sys_perform_all (l : list sys_event) sy : option system :=
  match l with
  | [] => Some sy
  | e :: l' => sy1 ← sys_perform e sy; sys_perform_all l' sy1
  end.

Context `{Requests}.

Definition sys_event_ok (e : sys_event) : Prop :=
  match e with
  | SGo o order _ => oracle_ok o /\ iter_ok order
  | SStream _ recv => forall payload, read_frame codec recv = Ok payload -> frame_ok payload
  | _ => True
  end.

(** ** The tasks alone *)

(** The configuration of [Tasks] behind a system. *)
Definition tasks_of sy : conc := mk_conc (sy_coord sy) (st_tasks <$> sy_threads sy) (sy_out sy).

Lemma tasks_of_arrive a net sy : tasks_of (sys_arrive a net sy) = arrive a (tasks_of sy).
Proof. unfold tasks_of, arrive. cbn. by rewrite fmap_app. Qed.

Lemma fmap_spawned (l : list thread) : st_tasks <$> (mk_sthread [] <$> l) = l.
Proof. rewrite <- list_fmap_compose. by apply list_fmap_id. Qed.

(** What a task does is what it does without the connections; a write moves no task. *)
Lemma sys_go_tasks o order i sy sy' :
  sys_go o order i sy = Some sy' -> perform hex_encode (EGo o i) (tasks_of sy) = Some (tasks_of sy').
Proof.
  unfold sys_go. destruct (sy_threads sy !! i) as [[[|s sends] [|t rest]]|] eqn:Hi; try done.
  intros [= <-]. cbn. rewrite list_lookup_fmap, Hi. cbn. unfold tasks_of. cbn.
  by rewrite fmap_app, list_fmap_insert, fmap_spawned.
Qed.

Lemma sys_cancel_tasks i sy sy' :
  sys_cancel i sy = Some sy' -> perform hex_encode (ECancel i) (tasks_of sy) = Some (tasks_of sy').
Proof.
  unfold sys_cancel. destruct (sy_threads sy !! i) as [[[|s sends] [|t rest]]|] eqn:Hi; try done.
  destruct (cancellable t) eqn:Hc; [|done]. intros [= <-]. cbn. rewrite list_lookup_fmap, Hi. cbn.
  rewrite Hc. unfold tasks_of. cbn. by rewrite list_fmap_insert.
Qed.

Lemma sys_write_tasks open write i sy sy' :
  sys_write open write i sy = Some sy' -> tasks_of sy' = tasks_of sy.
Proof.
  unfold sys_write. destruct (sy_threads sy !! i) as [[[|s sends] tasks]|] eqn:Hi; try done.
  intros [= <-]. unfold tasks_of. cbn. f_equal. rewrite list_fmap_insert. cbn.
  apply list_insert_id. by rewrite list_lookup_fmap, Hi.
Qed.

(** A system step is a step of the tasks, or none of them moves. *)
Lemma sys_perform_tasks e sy sy' :
  sys_event_ok e -> sys_perform e sy = Some sy' ->
  tasks_of sy' = tasks_of sy \/ conc_step hex_encode (tasks_of sy) (tasks_of sy').
Proof.
  intros Hok. destruct e as [o order i|open write i|i|first conn|conn|conn recv| | |body]; cbn.
  - intros Hp%sys_go_tasks. right. eapply perform_step; [|exact Hp]. apply Hok.
  - intros Hp%sys_write_tasks. by left.
  - intros Hp%sys_cancel_tasks. right. by eapply perform_step; [|exact Hp].
  - repeat case_match; try done. intros [= <-]. right. rewrite tasks_of_arrive. by apply conc_arrive.
  - repeat case_match; try done. intros [= <-]. right. rewrite tasks_of_arrive. by apply conc_arrive.
  - destruct (tw_tasks _ !! conn); [|done]. destruct (read_frame codec recv) as [payload|] eqn:Hr.
    + intros [= <-]. right. rewrite tasks_of_arrive. apply conc_arrive. by apply Hok.
    + intros [= <-]. by left.
  - intros [= <-]. right. rewrite tasks_of_arrive. by apply conc_arrive.
  - intros [= <-]. right. rewrite tasks_of_arrive. by apply conc_arrive.
  - intros [= <-]. right. rewrite tasks_of_arrive. by apply conc_arrive.
Qed.

Lemma sys_perform_all_tasks l sy sy' :
  Forall sys_event_ok l -> sys_perform_all l sy = Some sy' ->
  exists n, (n <= length l)%nat /\ nsteps (conc_step hex_encode) n (tasks_of sy) (tasks_of sy').
Proof.
  intros Hl. revert sy. induction Hl as [|e l He _ IH]; intros sy; cbn.
  { intros [= <-]. exists 0%nat. split; [lia|constructor]. }
  destruct (sys_perform e sy) as [sy1|] eqn:Hp; [|done]. cbn. intros (n & Hn & Hs)%IH.
  destruct (sys_perform_tasks e sy sy1 He Hp) as [E|Hstep].
  - exists n. rewrite <- E. split; [lia|done].
  - exists (S n). split; [lia|]. by econstructor.
Qed.

End system.
