(* ===== verification/SystemProps.v ===== *)
(** * The invariant of the system

    Every frame written or still to be written carries a message handed out by a task; what
    goes to a single client is never a message of the protocol; what tasks hold came in
    frames of identified connections. And behind every run of the system there is a run of
    critical sections whose votes all arrived in such frames. *)
From Stdlib Require Import ZArith Lia.
From S2P Require Import Prelude Utf8 Spec InstanceIdGen Messages Protobuf CoordState Coordinator AtomicCommit.
From S2P Require Import CoordInv CoordRefinement CoordProps CoordProgress Dispatch Framing Transport.
From S2P Require Import L1Submit Config HttpServer Endpoint Runtime Tasks TasksSim TasksLive System.

(** The message of an effect, and the frames not yet written. *)
Definition carries (e : effect) (data : bytes) : Prop :=
  match e with BroadcastRaw d _ | SendRaw _ d => d = data | SpawnSubmit _ _ => False end.

Definition pending (sy : system) : list send := concat (st_sends <$> sy_threads sy).

Lemma sends_of_carries order registry e s : s ∈ sends_of order registry e -> carries e (sn_data s).
Proof.
  destruct e as [data exclude|client data|n proofs]; cbn; [| |by intros ?%elem_of_nil].
  - by intros ([id conn] & -> & _)%list_elem_of_fmap.
  - destruct (registry !! client); [|by intros ?%elem_of_nil]. by intros ->%list_elem_of_singleton.
Qed.

Section props.
Context `{Sha2, ProstMessage, RecvStream, BytesMut, Requests}.
Context (hex_encode : bytes -> string) (codec : LengthPrefixCodec).
Implicit Types (sy : system) (t : task) (o : oracle) (co : Coordinator).

(** ** Messages for one client *)

(** What is sent to a single client: pongs, handshake responses, relayed mailbox messages. *)
Definition directed (data : bytes) : Prop :=
  exists p, data = encode_to_vec (publisher_message p) /\ Payload_wf p /\
    match p with Proto.PPong _ | Proto.PHandshakeResponse _ | Proto.PMailboxMessage _ => True
    | _ => False end.

(** A frame among [frames] holds this vote. *)
Definition vote_arrived (frames : list (string * bytes)) (iid : bytes) (c : ChainId) (v : bool) : Prop :=
  exists client_id data sender, (client_id, data) ∈ frames /\
    decode data = Ok (Proto.mk_Message sender (Some (Proto.PVote (Proto.mk_Vote iid c v)))).

(** What a task holds was sent by a client, or made from it. *)
Definition task_grounded (frames : list (string * bytes)) t : Prop :=
  match t with
  | TSend _ data | TRelay _ data => directed data
  | TMailbox mb => Payload_wf (Proto.PMailboxMessage mb)
  | TDispatch client_id data => utf8_ok client_id /\ (client_id, data) ∈ frames
  | TVote iid c v => vote_arrived frames iid c v
  | _ => True
  end.

Lemma task_grounded_mono frames frames' t :
  frames ⊆ frames' -> task_grounded frames t -> task_grounded frames' t.
Proof.
  intros Hsub. destruct t; cbn; try done; [naive_solver|].
  intros (c & d & s & Hin & Hd). exists c, d, s. auto.
Qed.

Lemma dispatch_grounded `{!ProstTyped} frames co client data :
  utf8_ok client -> (client, data) ∈ frames ->
  Forall (task_grounded frames) (sd_next (step_dispatch co client data)).
Proof.
  intros Hc Hin. unfold step_dispatch. cbn [sd_next].
  destruct (decode data) as [[sender [p|]]|e] eqn:Hd; cbn [Proto.msg_payload]; [|by constructor..].
  pose proof Hd as [_ Hp]%prost_decode_typed. cbn [Proto.msg_payload from_option] in Hp.
  destruct p; try (by repeat constructor).
  - apply Forall_app. split.
    + destruct (Proto.hsr_client_id m); [by constructor|]. by destruct (parse_chain_id _); repeat constructor.
    + constructor; [|done]. by eexists (Proto.PHandshakeResponse _).
  - constructor; [|done]. by eexists (Proto.PPong _).
  - case_match; by repeat constructor.
  - constructor; [|done]. destruct m. by eexists _, _, _.
  - constructor; [exact Hp|done].
Qed.

Lemma step_grounded `{!ProstTyped} frames o t co :
  task_grounded frames t ->
  let s := step hex_encode o t co in
  Forall (task_grounded frames) (sd_next s ++ concat (sd_spawned s)) /\
  (forall c d, SendRaw c d ∈ sd_out s -> directed d).
Proof.
  intros Ht. destruct t; cbn [step];
    try (split; [by repeat constructor|by intros c d; cbn; set_solver]).
  - split; [by destruct (parse_chain_id client_id); repeat constructor|by intros c d; cbn; set_solver].
  - split; [|by intros c d; cbn; set_solver]. cbn [sd_spawned step_dispatch concat].
    rewrite app_nil_r. destruct Ht. by apply dispatch_grounded.
  - split; [|by intros c d; cbn; set_solver]. cbn. destruct (_ !! _); [|by constructor].
    constructor; [|done]. by eexists (Proto.PMailboxMessage _).
  - destruct (admit_xt _ _ _ _) as [st' []]; (split; [by repeat constructor|by intros c d; cbn; set_solver]).
  - destruct (record_vote _ _ _ _ _ _) as [st' [[[d l] m]|]];
      (split; [by repeat constructor|by intros ? ?; cbn; set_solver]).
  - destruct (drain_one _ _) as [[st' d]|]; (split; [by repeat constructor|by intros ? ?; cbn; set_solver]).
  - destruct (reap_timed_out _ _ _ _) as [st' out]. split; [|by intros c d; cbn; set_solver].
    cbn. rewrite app_nil_r. apply Forall_app. split; [by apply Forall_fmap, Forall_true|].
    destruct out; by repeat constructor.
  - split; [by destruct (chain_for_client _ _); repeat constructor|by intros c d; cbn; set_solver].
  - split; [|by intros c d; cbn; set_solver]. cbn. case_decide; [by constructor|].
    destruct (negb _); by repeat constructor.
  - unfold step_proof, receive_proof. destruct (collect_proof _ _ _ _ _) as [st' [[n proofs]|]];
      [destruct (validate_mailbox_consistency _); [destruct (co_has_l1_submitter co)|]|];
      (split; [by repeat constructor|by intros ? ?; cbn; set_solver]).
  - destruct (or_submitted o); (split; [by repeat constructor|by intros c d; cbn; set_solver]).
  - destruct (reap_expired_proofs _ _ _) as [st' []];
      (split; [by repeat constructor|by intros c d; cbn; set_solver]).
Qed.

(** ** The invariant *)

Record system_inv sy : Prop := {
  si_net : transport_inv (sy_net sy);
  si_names conn id : tw_tasks (sy_net sy) !! conn = Some id -> utf8_ok id;
  si_tasks : Forall (fun th => Forall (task_grounded (tw_delivered (sy_net sy))) (st_tasks th)) (sy_threads sy);
  si_direct c d : SendRaw c d ∈ sy_out sy -> directed d;
  si_origin s : s ∈ (sy_log sy).*1 ++ pending sy -> exists e, e ∈ sy_out sy /\ carries e (sn_data s);
}.

Lemma system_start_inv co : system_inv (system_start co).
Proof. split; cbn; try set_solver. by split. Qed.

Lemma pending_insert (l : list sthread) i th th' :
  l !! i = Some th ->
  concat (st_sends <$> <[i := th']> l) ++ st_sends th ≡ₚ concat (st_sends <$> l) ++ st_sends th'.
Proof.
  intros Hi. destruct (insert_split l i th th' Hi) as (l1 & l2 & -> & ->).
  rewrite !fmap_app, !fmap_cons, !concat_app. cbn. solve_Permutation.
Qed.

Lemma pending_write (l : list sthread) i s sends tasks :
  l !! i = Some (mk_sthread (s :: sends) tasks) ->
  concat (st_sends <$> l) ≡ₚ s :: concat (st_sends <$> <[i := mk_sthread sends tasks]> l).
Proof.
  intros Hi. destruct (insert_split l i _ (mk_sthread sends tasks) Hi) as (l1 & l2 & -> & ->).
  rewrite !fmap_app, !fmap_cons, !concat_app. cbn. solve_Permutation.
Qed.

Lemma pending_spawned (l : list thread) : concat (st_sends <$> (mk_sthread [] <$> l)) = [].
Proof. induction l; [done|]. done. Qed.

Lemma pending_arrive a net sy : pending (sys_arrive a net sy) = pending sy.
Proof. unfold pending. cbn. rewrite fmap_app, concat_app. cbn. by rewrite app_nil_r. Qed.

Lemma arrive_inv a net sy :
  system_inv sy -> transport_inv net ->
  (forall conn id, tw_tasks net !! conn = Some id -> utf8_ok id) ->
  tw_delivered (sy_net sy) ⊆ tw_delivered net ->
  Forall (task_grounded (tw_delivered net)) (handler_thread a) -> system_inv (sys_arrive a net sy).
Proof.
  intros [I1 I2 I3 I4 I5] Hnet Hnames Hsub Ha. split; try done.
  - cbn. apply Forall_app. split; [|by constructor].
    eapply Forall_impl; [exact I3|]. intros th Hth. eapply Forall_impl; [exact Hth|].
    intros t. cbn. by apply task_grounded_mono.
  - intros s. rewrite pending_arrive. apply I5.
Qed.

Lemma identify_utf8 first id : identify codec first = Ok id -> utf8_ok id.
Proof.
  unfold identify, read_client_id. intros Hi. repeat case_match; simplify_eq.
  match goal with Hu : from_utf8 _ = Some _ |- _ => apply from_utf8_ok in Hu as [Hu _] end.
  by apply Is_true_true.
Qed.

Lemma sys_go_inv `{!ProstTyped} o order i sy sy' :
  sys_go hex_encode o order i sy = Some sy' -> system_inv sy -> system_inv sy'.
Proof.
  unfold sys_go. destruct (sy_threads sy !! i) as [[[|s sends] [|t rest]]|] eqn:Hi; try done.
  intros [= <-] [I1 I2 I3 I4 I5].
  pose proof (Forall_lookup_1 _ _ _ _ I3 Hi) as [Ht Hrest]%Forall_cons.
  destruct (step_grounded _ o t (sy_coord sy) Ht) as [Hnext Hout].
  set (s := step hex_encode o t (sy_coord sy)) in *. apply Forall_app in Hnext as [Hnext Hsp].
  set (sends := sd_out s ≫= sends_of order (tw_registry (sy_net sy))).
  assert (concat (st_sends <$> <[i := mk_sthread sends (sd_next s ++ rest)]> (sy_threads sy) ++
    (mk_sthread [] <$> sd_spawned s)) ≡ₚ pending sy ++ sends) as Hpend.
  { rewrite fmap_app, concat_app, pending_spawned, app_nil_r.
    pose proof (pending_insert _ _ _ (mk_sthread sends (sd_next s ++ rest)) Hi) as Hp.
    cbn in Hp. by rewrite app_nil_r in Hp. }
  split; cbn; try done.
  - apply Forall_app. split; [apply Forall_insert; [done|]; cbn; by apply Forall_app|].
    apply Forall_fmap. cbn. clear -Hsp. induction (sd_spawned s) as [|th l IH]; [done|].
    cbn in Hsp. apply Forall_app in Hsp as [? ?]. constructor; [done|auto].
  - intros c d [Hin|Hin]%elem_of_app; [by eapply I4|by eapply Hout].
  - intros s'. unfold pending. cbn. rewrite Hpend, app_assoc. intros [Hin|Hin]%elem_of_app.
    + destruct (I5 s' Hin) as (e & He & ?). exists e. set_solver.
    + apply list_elem_of_bind in Hin as (e & Hs & He). exists e.
      split; [set_solver|by eapply sends_of_carries].
Qed.

Lemma sys_perform_inv `{!ProstTyped} e sy sy' :
  sys_perform hex_encode codec e sy = Some sy' -> system_inv sy -> system_inv sy'.
Proof.
  intros Hp Hinv. pose proof Hinv as [I1 I2 I3 I4 I5].
  destruct e as [o order i|open write i|i|first conn|conn|conn recv| | |body]; cbn in Hp.
  - by eapply sys_go_inv.
  - unfold sys_write in Hp. destruct (sy_threads sy !! i) as [[[|s sends] tasks]|] eqn:Hi; try done.
    injection Hp as <-. split; cbn; try done.
    + apply Forall_insert; [done|]. by apply (Forall_lookup_1 _ _ _ _ I3 Hi).
    + intros s' Hin. apply I5. revert Hin. unfold pending. cbn. rewrite fmap_app. cbn.
      rewrite (pending_write _ _ _ _ _ Hi). set_solver.
  - unfold sys_cancel in Hp. destruct (sy_threads sy !! i) as [[[|s sends] [|t rest]]|] eqn:Hi; try done.
    destruct (cancellable t); [|done]. injection Hp as <-. split; cbn; try done.
    + apply Forall_insert; [done|].
      by pose proof (Forall_lookup_1 _ _ _ _ I3 Hi) as [_ ?]%Forall_cons.
    + intros s' Hin. apply I5. revert Hin. unfold pending. cbn.
      pose proof (pending_insert _ _ _ (mk_sthread [] rest) Hi) as Hpend. cbn in Hpend.
      rewrite !app_nil_r in Hpend. by rewrite Hpend.
  - destruct (tw_tasks (sy_net sy) !! conn) eqn:Hc; [done|].
    destruct (identify codec first) as [id|] eqn:Hid; [|done]. injection Hp as <-.
    apply arrive_inv; [done|by apply transport_inv_connect| |done|by repeat constructor].
    intros conn' id'. cbn. rewrite lookup_insert. case_decide; [|apply I2].
    intros [= <-]. by eapply identify_utf8.
  - destruct (tw_tasks (sy_net sy) !! conn) as [id|] eqn:Hc; [|done]. injection Hp as <-.
    apply arrive_inv; [done|by apply transport_inv_disconnect| |done|by constructor].
    intros conn' id'. cbn. rewrite lookup_delete. case_decide; [done|apply I2].
  - destruct (tw_tasks (sy_net sy) !! conn) as [id|] eqn:Hc; [|done].
    destruct (read_frame codec recv) eqn:Hr; injection Hp as <-; [|done].
    apply arrive_inv; [done|by apply serve_stream_inv|unfold serve_stream; rewrite Hr..]; cbn.
    + done.
    + set_solver.
    + constructor; [|done]. split; [by eapply I2|by left].
  - injection Hp as <-. apply arrive_inv; [done..|by repeat constructor].
  - injection Hp as <-. apply arrive_inv; [done..|by repeat constructor].
  - injection Hp as <-. apply arrive_inv; [done..|by repeat constructor].
Qed.

Lemma sys_perform_all_inv `{!ProstTyped} l sy sy' :
  sys_perform_all hex_encode codec l sy = Some sy' -> system_inv sy -> system_inv sy'.
Proof.
  revert sy. induction l as [|e l IH]; intros sy; cbn; [by intros [= <-]|].
  destruct (sys_perform hex_encode codec e sy) as [sy1|] eqn:Hp; [|done]. cbn.
  intros Hl Hinv. eapply IH; [done|]. by eapply sys_perform_inv.
Qed.

(** ** The run of critical sections behind a system *)

(** The run accounts for the tasks, and its votes are votes that arrived. *)
Record runs_behind w sy : Prop := {
  rb_tasks : mirrors w (tasks_of sy);
  rb_votes x c v : EvVoted x c v ∈ cw_history w ->
    exists iid, x = hex_encode iid /\ vote_arrived (tw_delivered (sy_net sy)) iid c v;
}.

Lemma sys_perform_delivered e sy sy' :
  sys_perform hex_encode codec e sy = Some sy' ->
  tw_delivered (sy_net sy) ⊆ tw_delivered (sy_net sy').
Proof.
  destruct e; cbn; unfold sys_go, sys_write, sys_cancel, serve_stream; intros Hp;
    repeat case_match; simplify_eq; cbn; set_solver.
Qed.

Lemma vote_arrived_mono frames frames' iid c v :
  frames ⊆ frames' -> vote_arrived frames iid c v -> vote_arrived frames' iid c v.
Proof. apply (task_grounded_mono _ _ (TVote iid c v)). Qed.

Lemma sys_perform_behind e sy sy' w :
  sys_event_ok codec e -> sys_perform hex_encode codec e sy = Some sy' -> system_inv sy ->
  runs_behind w sy ->
  exists l, (length l <= 1)%nat /\ sections_ok hex_encode l w /\
    runs_behind (exec_all hex_encode l w) sy'.
Proof.
  intros Hok Hp Hinv [Hm Hv]. pose proof (sys_perform_delivered _ _ _ Hp) as Hsub.
  destruct (sys_perform_tasks hex_encode codec e sy sy' Hok Hp) as [E|Hstep].
  { exists []. split; [cbn; lia|]. split; [done|]. split; [by rewrite E|].
    intros x c v (iid & -> & Ha)%Hv. exists iid. split; [done|]. by eapply vote_arrived_mono. }
  destruct (step_mirrors hex_encode w _ _ Hm Hstep) as (l & Hlen & Hl & Hcast & Hm').
  exists l. split_and!; [done..|]. split; [done|]. intros x c v Hin.
  apply exec_all_votes in Hin as [(iid & -> & Ha)%Hv|(now & iid & Hin & ->)]; exists iid;
    (split; [done|]); (eapply vote_arrived_mono; [done|]); [done|].
  rewrite Forall_forall in Hcast. destruct (Hcast _ Hin) as (t & Ht & ->).
  apply list_elem_of_In, in_concat in Ht as (th & Hth%list_elem_of_In & Ht%list_elem_of_In).
  apply list_elem_of_fmap in Hth as (sth & -> & Hth).
  pose proof (si_tasks _ Hinv) as Hg. rewrite Forall_forall in Hg. specialize (Hg _ Hth).
  rewrite Forall_forall in Hg. by apply (Hg _ Ht).
Qed.

Lemma sys_perform_all_behind `{!ProstTyped} l sy sy' w :
  Forall (sys_event_ok codec) l -> sys_perform_all hex_encode codec l sy = Some sy' ->
  system_inv sy -> runs_behind w sy ->
  exists secs, (length secs <= length l)%nat /\ sections_ok hex_encode secs w /\
    runs_behind (exec_all hex_encode secs w) sy'.
Proof.
  intros Hl. revert sy w. induction Hl as [|e l He _ IH]; intros sy w; cbn.
  { intros [= <-] _ Hb. exists []. split; [cbn; lia|]. done. }
  destruct (sys_perform hex_encode codec e sy) as [sy1|] eqn:Hp; [|done]. cbn. intros Hl Hinv Hb.
  destruct (sys_perform_behind e sy sy1 w He Hp Hinv Hb) as (s1 & L1 & Ok1 & Hb1).
  destruct (IH sy1 _ Hl (sys_perform_inv _ _ _ Hp Hinv) Hb1) as (s2 & L2 & Ok2 & Hb2).
  exists (s1 ++ s2). rewrite length_app, exec_all_app, sections_ok_app. split; [lia|]. done.
Qed.

(** A system that started from the coordinator [main] builds. *)
Lemma system_reachable `{!ProstTyped, L1Env} cfg fetched l sy :
  (forall m h, fetched = Ok (Some (m, h)) -> u64_ok m) ->
  Forall (sys_event_ok codec) l ->
  sys_perform_all hex_encode codec l (system_start (build_coordinator cfg fetched)) = Some sy ->
  Z.of_nat (length l) + 1 < u64_max ->
  system_inv sy /\ exists w, reachable hex_encode w /\ runs_behind w sy.
Proof.
  intros Hf Hl Hp Hn. set (sy0 := system_start (build_coordinator cfg fetched)) in Hp.
  pose proof (system_start_inv (build_coordinator cfg fetched)) as Hinv. fold sy0 in Hinv.
  split; [by eapply sys_perform_all_inv|].
  destruct (build_coordinator_sections hex_encode cfg fetched Hf)
    as (l0 & Hok & Hlen & E1 & E2 & E3 & E4).
  destruct (sys_perform_all_behind l sy0 sy (exec_all hex_encode l0 world_init) Hl Hp Hinv)
    as (secs & Hlen' & Hok' & Hb).
  { split; [split; cbn; by rewrite ?E1, ?E2, ?E3|]. rewrite E4. intros x c v ?%elem_of_nil. done. }
  exists (exec_all hex_encode (l0 ++ secs) world_init). rewrite exec_all_app. split; [|done].
  rewrite <- exec_all_app. apply exec_all_reachable; [by apply sections_ok_app|].
  rewrite length_app. lia.
Qed.

End props.
