(* ===== verification/Sidecars.v ===== *)
(** * What sidecars receive

    End to end, over the connections of [System]: what a sidecar reads from the frames
    written to its connection. Decisions agree across sidecars, and a commit means that the
    votes of all participants arrived at the publisher; a connection that stays registered is
    sent every broadcast and every message for its client exactly once; and without
    arrivals the tasks and the writes come to rest. *)
From Stdlib Require Import ZArith Lia.
From S2P Require Import Prelude Utf8 Spec InstanceIdGen Messages Protobuf CoordState Coordinator AtomicCommit.
From S2P Require Import CoordInv CoordRefinement CoordProps CoordProgress Dispatch Framing Transport.
From S2P Require Import L1Submit Config HttpServer Endpoint Runtime Tasks TasksSim TasksLive System.
From S2P Require Import SystemProps.

Section sidecars.
Context `{Sha2, ProstMessage, RecvStream, BytesMut, Requests}.
Context (hex_encode : bytes -> string) (codec : LengthPrefixCodec).
Implicit Types (sy : system) (co : Coordinator).

(** ** What is read from a connection *)

(** A frame written to [conn], whatever the result the writer saw, is read by a receiver
    with a length limit of its own. *)
Definition received sy (conn : Connection) (payload : bytes) : Prop :=
  exists s r frame receiver, (s, r) ∈ sy_log sy /\ sn_conn s = conn /\
    encode_frame codec (sn_data s) = Ok frame /\
    read_frame (H := byte_stream) receiver frame = Ok payload.

(** The sidecar on [conn] decodes a message with this payload. *)
Definition told sy (conn : Connection) (p : Proto.Payload) : Prop :=
  exists data sender, received sy conn data /\ decode data = Ok (Proto.mk_Message sender (Some p)).

(** The messages handed to the transport, or held by a task. *)
Definition messages sy : list bytes :=
  broadcasts (sy_out sy) ++ msgs_of (concat (st_tasks <$> sy_threads sy)).

Lemma received_sent `{!BytesMutSpec} sy conn data :
  0 <= max_message_size codec < u32_modulus -> received sy conn data ->
  mk_send conn data ∈ (sy_log sy).*1.
Proof.
  intros Hmax ([c d] & r & frame & receiver & Hin & <- & Henc & Hread). cbn in *.
  destruct (framed_read codec receiver d frame Hmax Henc) as [_ E]. rewrite E in Hread.
  destruct (_ <? _); [done|]. injection Hread as <-. apply list_elem_of_fmap. by exists (mk_send c d, r).
Qed.

Context `{!InstanceIdsDistinct, !ProstRoundtrip, !BytesMutSpec}.
Context (Hhex : forall l, hex_encode l = hex_string l).

(** A decision or an instance a sidecar is told of was broadcast by the protocol. *)
Lemma told_decoded sy w conn p :
  0 <= max_message_size codec < u32_modulus ->
  system_inv sy -> reachable hex_encode w -> runs_behind hex_encode w sy -> told sy conn p ->
  match p with Proto.PDecided _ | Proto.PStartInstance _ => True | _ => False end ->
  decoded (cw_sent w) p.
Proof.
  intros Hmax Hinv Hr [[_ Hsent _ _] _] (data & sender & Hrec & Hdec) Hp.
  apply received_sent in Hrec; [|done].
  destruct (si_origin _ Hinv (mk_send conn data)) as (e & He & Hc); [set_solver|].
  destruct e as [d ex|c d|n proofs]; cbn in Hc; [subst d| |done].
  - assert (data ∈ cw_sent w) as Hin.
    { rewrite Hsent. apply elem_of_app. left. apply list_elem_of_omap.
      by exists (BroadcastRaw data ex). }
    exists data. split; [done|]. destruct (reachable_inv _ Hhex _ Hr) as (n & Hw).
    pose proof (wi_sent _ _ Hw) as Hs. rewrite Forall_forall in Hs.
    destruct (Hs _ Hin) as (p' & -> & Hwf & _).
    rewrite prost_decode_encode in Hdec |- * by by apply publisher_message_wf.
    unfold publisher_message in *. by simplify_eq.
  - subst d. destruct (si_direct _ Hinv c data He) as (p' & -> & Hwf & Hk).
    rewrite prost_decode_encode in Hdec by by apply publisher_message_wf.
    unfold publisher_message in Hdec. simplify_eq. by destruct p.
Qed.

(** The runs of the system: from the coordinator [main] builds, under a frame limit of less
    than 4 GiB. *)
Context `{!ProstTyped, L1Env}.
Context (cfg : Config) (fetched : result (option (Z * B256)) string).
Context (Hlimit : 0 <= max_message_size codec < u32_modulus).
Context (Hfetched : forall m h, fetched = Ok (Some (m, h)) -> u64_ok m).

(** C7. Agreement of sidecars, end to end: let connections come and go, frames arrive, timers
    tick and proofs be posted at any time, let the tasks interleave at every [await] and
    every frame be written at its own time or fail. Whatever two sidecars read from their
    connections, they never decode different decisions of one instance. *)
Theorem sidecars_agree l sy conn conn' iid d d' :
  Forall (sys_event_ok codec) l -> Z.of_nat (length l) + 1 < u64_max ->
  sys_perform_all hex_encode codec l (system_start (build_coordinator cfg fetched)) = Some sy ->
  told sy conn (Proto.PDecided (Proto.mk_Decided iid d)) ->
  told sy conn' (Proto.PDecided (Proto.mk_Decided iid d')) -> d = d'.
Proof.
  intros Hl Hn Hp Hd Hd'.
  destruct (system_reachable hex_encode codec cfg fetched l sy Hfetched Hl Hp Hn)
    as (Hinv & w & Hr & Hb).
  apply (decision_unique hex_encode Hhex w iid d d' Hr); by eapply told_decoded.
Qed.

(** C6. A commit is the will of all participants, end to end: when a sidecar decodes
    [Decided { instance_id, true }] on its connection, the publisher announces the instance
    with that id, and from every chain of its request, at least two, a frame with the vote
    yes on that instance has arrived at the publisher. *)
Theorem commit_means_all_voted l sy conn iid :
  Forall (sys_event_ok codec) l -> Z.of_nat (length l) + 1 < u64_max ->
  sys_perform_all hex_encode codec l (system_start (build_coordinator cfg fetched)) = Some sy ->
  told sy conn (Proto.PDecided (Proto.mk_Decided iid true)) ->
  exists req p s,
    decoded (messages sy) (Proto.PStartInstance (Proto.mk_StartInstance iid p s (Some req))) /\
    (2 <= length (extract_chains req))%nat /\
    forall c, c ∈ extract_chains req -> vote_arrived (tw_delivered (sy_net sy)) iid c true.
Proof.
  intros Hl Hn Hp Hd.
  destruct (system_reachable hex_encode codec cfg fetched l sy Hfetched Hl Hp Hn)
    as (Hinv & w & Hr & Hb).
  destruct (commit_unanimous hex_encode Hhex w iid Hr) as (req & (p & s & data & Hin & Hdec) & Hlen & Hall);
    [by eapply told_decoded|].
  destruct Hb as [[_ Hsent _ _] Hv]. exists req, p, s. split_and!; [|done|].
  - exists data. split; [|done]. unfold messages. by rewrite Hsent in Hin.
  - intros c (iid' & E & Ha)%Hall%Hv. rewrite Hhex in E. by apply hex_string_inj in E as <-.
Qed.

End sidecars.

(** ** Delivery *)

(** What a message says to the client [id]. *)
Definition addressed (id : string) (e : effect) : list bytes :=
  match e with
  | BroadcastRaw data exclude => if decide (id = exclude) then [] else [data]
  | SendRaw client_id data => if decide (id = client_id) then [data] else []
  | SpawnSubmit _ _ => []
  end.

(** The frames of a connection: attempted, or still to be written by some task. *)
Definition for_conn (conn : Connection) (l : list send) : list bytes :=
  sn_data <$> filter (fun s => sn_conn s = conn) l.

Definition frames_of (conn : Connection) (sy : system) : list bytes :=
  for_conn conn ((sy_log sy).*1 ++ pending sy).

Arguments for_conn : simpl never.

#[export] Instance for_conn_perm conn : Proper ((≡ₚ) ==> (≡ₚ)) (for_conn conn).
Proof. intros l1 l2 Hl. unfold for_conn. by rewrite Hl. Qed.

Lemma for_conn_app conn l1 l2 : for_conn conn (l1 ++ l2) = for_conn conn l1 ++ for_conn conn l2.
Proof. unfold for_conn. by rewrite filter_app, fmap_app. Qed.

(** Registered connections: a message goes to [conn] as often as it is for its client. *)
Lemma sends_of_addressed order (registry : ConnectionRegistry) id conn e :
  iter_ok order -> registry !! id = Some conn ->
  (forall id', registry !! id' = Some conn -> id' = id) ->
  for_conn conn (sends_of order registry e) ≡ₚ addressed id e.
Proof.
  intros Hord Hid Hown. destruct e as [data exclude|client data|n proofs]; cbn [sends_of addressed].
  - unfold for_conn. rewrite list_filter_fmap, <- list_fmap_compose.
    assert (filter (fun ic : string * Z => ic.2 = conn) (filter (fun ic => ic.1 <> exclude) (order registry))
      ≡ₚ if decide (id = exclude) then [] else [(id, conn)]) as Hf.
    { apply NoDup_Permutation.
      - do 2 apply NoDup_filter. rewrite (Hord registry). apply NoDup_map_to_list.
      - case_decide; [constructor|apply NoDup_singleton].
      - intros [id' c]. rewrite !list_elem_of_filter, (Hord registry), elem_of_map_to_list. cbn.
        split.
        + intros (-> & Hne & Hreg). rewrite (Hown _ Hreg) in *. by rewrite decide_False; [left|].
        + case_decide; [by intros ?%elem_of_nil|]. by intros [= -> ->]%list_elem_of_singleton. }
    unfold compose. cbn. rewrite Hf. by case_decide.
  - case_decide as Hc.
    + subst. rewrite Hid. unfold for_conn. rewrite filter_cons_True by done. done.
    + destruct (registry !! client) as [c|] eqn:Hr; [|done]. unfold for_conn.
      rewrite filter_cons_False; [done|]. cbn. intros ->. by rewrite (Hown _ Hr) in Hc.
  - done.
Qed.

Lemma sends_addressed order (registry : ConnectionRegistry) id conn out :
  iter_ok order -> registry !! id = Some conn ->
  (forall id', registry !! id' = Some conn -> id' = id) ->
  for_conn conn (out ≫= sends_of order registry) ≡ₚ out ≫= addressed id.
Proof.
  intros Hord Hid Hown. induction out as [|e out IH]; [done|].
  cbn. rewrite for_conn_app, IH. by rewrite (sends_of_addressed order _ id conn e).
Qed.

Section delivery.
Context `{Sha2, ProstMessage, RecvStream, BytesMut, Requests}.
Context (hex_encode : bytes -> string) (codec : LengthPrefixCodec).
Context (id : string) (conn : Connection).
Implicit Types (sy : system).

(** The connection stays: it is not lost, and no other takes its client's entry. *)
Definition stays (e : sys_event) : Prop :=
  match e with
  | SDisconnect c => c <> conn
  | SConnect first c => identify codec first <> Ok id
  | _ => True
  end.

Lemma stays_registered e sy sy' :
  stays e -> sys_perform hex_encode codec e sy = Some sy' -> transport_inv (sy_net sy) ->
  tw_registry (sy_net sy) !! id = Some conn -> tw_registry (sy_net sy') !! id = Some conn.
Proof.
  intros He Hp [Hown _ _] Hreg. destruct e; cbn in Hp; unfold sys_go, sys_write, sys_cancel in Hp;
    repeat case_match; simplify_eq; cbn in *; try done.
  - rewrite lookup_insert_ne; [done|]. by intros ->.
  - case_match; [|done]. case_decide; [|done]. subst.
    rewrite lookup_delete_ne; [done|]. intros ->. congruence.
  - unfold serve_stream. by case_match.
Qed.

(** One step adds to the frames of the connection what it hands out for the client. *)
Lemma frames_step e sy sy' :
  sys_event_ok codec e -> sys_perform hex_encode codec e sy = Some sy' ->
  transport_inv (sy_net sy) -> tw_registry (sy_net sy) !! id = Some conn ->
  exists out, sy_out sy' = sy_out sy ++ out /\
    frames_of conn sy' ≡ₚ frames_of conn sy ++ (out ≫= addressed id).
Proof.
  intros Hok Hp [Hown _ _] Hreg.
  assert (forall sy', sy_out sy' = sy_out sy -> (sy_log sy').*1 ++ pending sy' ≡ₚ (sy_log sy).*1 ++ pending sy ->
    exists out, sy_out sy' = sy_out sy ++ out /\
      frames_of conn sy' ≡ₚ frames_of conn sy ++ (out ≫= addressed id)) as Hquiet.
  { intros sy1 Hout Hf. exists []. rewrite app_nil_r. split; [done|]. unfold frames_of. cbn.
    by rewrite Hf, app_nil_r. }
  assert (forall a net, exists out, sy_out (sys_arrive a net sy) = sy_out sy ++ out /\
      frames_of conn (sys_arrive a net sy) ≡ₚ frames_of conn sy ++ (out ≫= addressed id)) as Harrive.
  { intros a net. apply Hquiet; [done|]. by rewrite pending_arrive. }
  destruct e as [o order i|open write i|i| | | | | |]; cbn in Hp;
    [| | |repeat case_match; simplify_eq; eauto; by apply Hquiet..].
  - unfold sys_go in Hp. destruct (sy_threads sy !! i) as [[[|s sends] [|t rest]]|] eqn:Hi; try done.
    injection Hp as <-. eexists. split; [reflexivity|]. unfold frames_of, pending. cbn.
    rewrite fmap_app, concat_app, pending_spawned, app_nil_r.
    set (s := step hex_encode o t (sy_coord sy)).
    pose proof (pending_insert _ _ _ (mk_sthread (sd_out s ≫= sends_of order (tw_registry (sy_net sy)))
      (sd_next s ++ rest)) Hi) as Hpend. cbn in Hpend. rewrite app_nil_r in Hpend.
    rewrite Hpend, app_assoc, (for_conn_app conn _ (_ ≫= _)). apply Permutation_app_head.
    apply sends_addressed; [apply Hok|done|].
    intros id' E%Hown. apply Hown in Hreg. congruence.
  - unfold sys_write in Hp. destruct (sy_threads sy !! i) as [[[|s sends] tasks]|] eqn:Hi; try done.
    injection Hp as <-. apply Hquiet; [done|]. unfold pending. cbn.
    rewrite (pending_write _ _ _ _ _ Hi), fmap_app. cbn. solve_Permutation.
  - unfold sys_cancel in Hp. destruct (sy_threads sy !! i) as [[[|s sends] [|t rest]]|] eqn:Hi; try done.
    destruct (cancellable t); [|done]. injection Hp as <-. apply Hquiet; [done|].
    pose proof (pending_insert _ _ _ (mk_sthread [] rest) Hi) as Hpend. cbn in Hpend.
    rewrite !app_nil_r in Hpend. unfold pending. cbn. by rewrite Hpend.
Qed.

(** C14. Delivery: in any run of the system, let a connection be registered for a client and
    stay so, neither lost nor replaced. Then whatever else happens, the frames for which a
    write on it was attempted, together with those some task is still to write, grow by
    exactly the broadcasts and the messages for its client that were handed out in the
    meantime, each once; so when nothing is left to write, precisely these were attempted,
    each write succeeding or failing on its own. *)
Theorem registered_receives_all `{!ProstTyped} co l0 sy l sy' :
  sys_perform_all hex_encode codec l0 (system_start co) = Some sy ->
  tw_registry (sy_net sy) !! id = Some conn ->
  Forall (fun e => sys_event_ok codec e /\ stays e) l ->
  sys_perform_all hex_encode codec l sy = Some sy' ->
  exists out, sy_out sy' = sy_out sy ++ out /\
    frames_of conn sy' ≡ₚ frames_of conn sy ++ (out ≫= addressed id) /\
    (pending sy' = [] ->
     for_conn conn (sy_log sy').*1 ≡ₚ frames_of conn sy ++ (out ≫= addressed id)).
Proof.
  intros Hrun Hreg Hl Hp.
  assert (system_inv sy) as Hinv
    by (apply (sys_perform_all_inv hex_encode codec _ _ _ Hrun), system_start_inv).
  assert (exists out, sy_out sy' = sy_out sy ++ out /\
    frames_of conn sy' ≡ₚ frames_of conn sy ++ (out ≫= addressed id)) as (out & Hout & Hf).
  { clear Hrun l0. revert sy Hreg Hinv Hp. induction Hl as [|e l [Hok Hs] _ IH]; intros sy Hreg Hinv; cbn.
    { intros [= <-]. exists []. rewrite app_nil_r. cbn. by rewrite app_nil_r. }
    destruct (sys_perform hex_encode codec e sy) as [sy1|] eqn:Hp1; [|done]. cbn. intros Hp.
    destruct (frames_step e sy sy1 Hok Hp1 (si_net _ Hinv) Hreg) as (o1 & E1 & F1).
    destruct (IH sy1) as (o2 & E2 & F2); [by apply (stays_registered e sy); [..|apply Hinv|]| |done|].
    { by apply (sys_perform_inv hex_encode codec _ _ _ Hp1). }
    exists (o1 ++ o2). rewrite E2, E1, F2, F1, bind_app, !app_assoc. done. }
  exists out. split_and!; [done..|]. intros Hnone. unfold frames_of in Hf at 1.
  by rewrite Hnone, app_nil_r in Hf.
Qed.

End delivery.

(** ** Coming to rest *)

(** A task that goes on, a write, a dropped request. *)
Definition internal_event `{RecvStream} (e : sys_event) : Prop :=
  match e with SGo _ _ _ | SWrite _ _ _ | SCancel _ => True | _ => False end.

Definition at_rest (sy : system) : Prop :=
  Forall (fun th => st_sends th = [] /\ st_tasks th = []) (sy_threads sy).

(** Each step of a task may leave one frame to write per connection. *)
Definition work (sy : system) : nat :=
  load (tasks_of sy) * (1 + size (tw_registry (sy_net sy))) + length (pending sy).

Arguments work : simpl never.

Lemma length_sends_of order (registry : ConnectionRegistry) e :
  iter_ok order -> (length (sends_of order registry e) <= size registry)%nat.
Proof.
  intros Hord. destruct e as [data exclude|client data|n proofs]; cbn [sends_of]; [| |cbn; lia].
  - rewrite length_fmap, length_filter. rewrite (Hord registry). by rewrite length_map_to_list.
  - destruct (registry !! client) as [conn|] eqn:Hr; [|cbn; lia]. cbn.
    assert (size registry <> 0%nat); [|lia]. intros E%map_size_empty_inv. by rewrite E in Hr.
Qed.

Section rest.
Context `{Sha2, ProstMessage, RecvStream, BytesMut, Requests}.
Context (hex_encode : bytes -> string) (codec : LengthPrefixCodec).
Implicit Types (sy : system).

Lemma step_out_single o t co : (length (sd_out (step hex_encode o t co)) <= 1)%nat.
Proof.
  destruct t; cbn [step]; try (cbn; lia); repeat case_match; try (cbn; lia).
  unfold step_proof, receive_proof. repeat case_match; simplify_eq; cbn; lia.
Qed.

Lemma work_decreases sy sy' :
  tw_registry (sy_net sy') = tw_registry (sy_net sy) ->
  (load (tasks_of sy') < load (tasks_of sy))%nat ->
  (length (pending sy') <= length (pending sy) + size (tw_registry (sy_net sy)))%nat ->
  (work sy' < work sy)%nat.
Proof. unfold work. intros -> Hload Hpend. nia. Qed.

Lemma sys_go_work o order i sy sy' :
  oracle_ok o -> iter_ok order -> sys_go hex_encode o order i sy = Some sy' ->
  (work sy' < work sy)%nat /\ tw_registry (sy_net sy') = tw_registry (sy_net sy).
Proof.
  intros Ho Hord Hp. pose proof (sys_go_tasks hex_encode o order i sy sy' Hp) as Ht.
  apply (perform_internal hex_encode (EGo o i) _ _ Ho I), internal_decreases in Ht.
  unfold sys_go in Hp. destruct (sy_threads sy !! i) as [[[|s sends] [|t rest]]|] eqn:Hi; try done.
  injection Hp as <-. split; [|done]. apply work_decreases; [done..|]. unfold pending. cbn.
  rewrite fmap_app, concat_app, pending_spawned, app_nil_r.
  set (s := step hex_encode o t (sy_coord sy)).
  pose proof (pending_insert _ _ _ (mk_sthread (sd_out s ≫= sends_of order (tw_registry (sy_net sy)))
    (sd_next s ++ rest)) Hi) as Hpend. cbn in Hpend. rewrite app_nil_r in Hpend.
  rewrite Hpend, length_app. apply Nat.add_le_mono_l.
  pose proof (step_out_single o t (sy_coord sy)) as Hone. fold s in Hone.
  destruct (sd_out s) as [|e [|]]; cbn in *; [lia| |lia]. rewrite app_nil_r. by apply length_sends_of.
Qed.

Lemma internal_event_work e sy sy' :
  sys_event_ok codec e -> internal_event e -> sys_perform hex_encode codec e sy = Some sy' ->
  (work sy' < work sy)%nat /\ tw_registry (sy_net sy') = tw_registry (sy_net sy).
Proof.
  intros Hok Hint Hp. destruct e as [o order i|open write i|i| | | | | |]; try done; cbn in Hp.
  - destruct Hok. by eapply sys_go_work.
  - pose proof (sys_write_tasks codec open write i sy sy' Hp) as Ht. unfold work. rewrite Ht.
    unfold sys_write in Hp. destruct (sy_threads sy !! i) as [[[|s sends] tasks]|] eqn:Hi; try done.
    injection Hp as <-. split; [|done]. unfold pending. cbn.
    rewrite (pending_write _ _ _ _ _ Hi). cbn. lia.
  - pose proof (sys_cancel_tasks hex_encode i sy sy' Hp) as Ht.
    apply (perform_internal hex_encode (ECancel i) _ _ I I), internal_decreases in Ht.
    unfold sys_cancel in Hp. destruct (sy_threads sy !! i) as [[[|s sends] [|t rest]]|] eqn:Hi; try done.
    destruct (cancellable t); [|done]. injection Hp as <-. split; [|done].
    apply work_decreases; [done..|]. unfold pending. cbn.
    pose proof (pending_insert _ _ _ (mk_sthread [] rest) Hi) as Hpend. cbn in Hpend.
    rewrite !app_nil_r in Hpend. rewrite Hpend. lia.
Qed.

Lemma internal_run_work l sy sy' :
  Forall (fun e => sys_event_ok codec e /\ internal_event e) l ->
  sys_perform_all hex_encode codec l sy = Some sy' -> (length l + work sy' <= work sy)%nat.
Proof.
  intros Hl. revert sy. induction Hl as [|e l [Hok Hint] _ IH]; intros sy; cbn; [intros [= <-]; lia|].
  destruct (sys_perform hex_encode codec e sy) as [sy1|] eqn:Hp; [|done]. cbn. intros Hl'%IH.
  destruct (internal_event_work e sy sy1 Hok Hint Hp). lia.
Qed.

Lemma can_go_on sy :
  ~ at_rest sy -> exists e sy', sys_event_ok codec e /\ internal_event e /\
    sys_perform hex_encode codec e sy = Some sy'.
Proof.
  intros Hr. unfold at_rest in Hr.
  apply not_Forall_Exists, Exists_exists in Hr as (th & Hin & Hne); [|solve_decision..].
  apply list_elem_of_lookup in Hin as [i Hi]. destruct th as [[|s sends] tasks].
  - destruct tasks as [|t rest]; [by destruct Hne|].
    exists (SGo default_oracle map_to_list i). eexists. split; [|split; [done|]].
    + by split; [split|]; intros m.
    + cbn. unfold sys_go. by rewrite Hi.
  - exists (SWrite (Ok ()) (Ok ()) i). eexists. split_and!; [done..|].
    cbn. unfold sys_write. by rewrite Hi.
Qed.

(** Writes and tasks can be driven to the end. *)
Lemma system_comes_to_rest sy :
  exists l sy', Forall (fun e => sys_event_ok codec e /\ internal_event e) l /\
    sys_perform_all hex_encode codec l sy = Some sy' /\ at_rest sy'.
Proof.
  remember (work sy) as n eqn:Hn. revert sy Hn. induction (lt_wf n) as [n _ IH]. intros sy ->.
  assert (Decision (at_rest sy)) as [Hr|Hr] by (apply Forall_dec; solve_decision).
  { exists [], sy. done. }
  destruct (can_go_on sy Hr) as (e & sy1 & Hok & Hint & Hp).
  destruct (internal_event_work e sy sy1 Hok Hint Hp) as [Hlt _].
  destruct (IH _ Hlt sy1 eq_refl) as (l & sy' & Hl & Hrun & Hrest).
  exists (e :: l), sy'. split_and!; [by constructor| |done]. cbn. by rewrite Hp.
Qed.

Lemma at_rest_pending sy : at_rest sy -> pending sy = [] /\ concat (st_tasks <$> sy_threads sy) = [].
Proof.
  unfold pending, at_rest. induction 1 as [|th l [E1 E2] _ [IH1 IH2]]; [done|]. cbn.
  by rewrite E1, E2.
Qed.

Lemma sys_perform_all_app l1 l2 sy :
  sys_perform_all hex_encode codec (l1 ++ l2) sy =
    sy1 ← sys_perform_all hex_encode codec l1 sy; sys_perform_all hex_encode codec l2 sy1.
Proof.
  revert sy. induction l1 as [|e l1 IH]; intros sy; [done|]. cbn.
  destruct (sys_perform hex_encode codec e sy); cbn; [apply IH|done].
Qed.

(** C10. The publisher comes to rest: from any point of a run of the system, at most [work]
    steps of tasks and writes follow before something new must arrive, whatever the
    schedule and the outcome of the writes; they can go on from every point until nothing is
    left; and then every frame has been written, no queued request could start, every
    broadcast of the protocol has been handed out exactly as often as it was sent, and no
    submission is under way. *)
Theorem system_settles `{L1Env} cfg fetched l0 sy l sy' :
  (forall m h, fetched = Ok (Some (m, h)) -> u64_ok m) ->
  Forall (sys_event_ok codec) l0 ->
  sys_perform_all hex_encode codec l0 (system_start (build_coordinator cfg fetched)) = Some sy ->
  Z.of_nat (length l0) + Z.of_nat (work sy) + 1 < u64_max ->
  Forall (fun e => sys_event_ok codec e /\ internal_event e) l ->
  sys_perform_all hex_encode codec l sy = Some sy' ->
  (length l <= work sy)%nat /\
  (exists l' rest, Forall (fun e => sys_event_ok codec e /\ internal_event e) l' /\
     sys_perform_all hex_encode codec l' sy' = Some rest /\ at_rest rest) /\
  (at_rest sy' ->
     pending sy' = [] /\ nothing_ready (co_state (sy_coord sy')) /\
     exists w, reachable hex_encode w /\ cw_state w = co_state (sy_coord sy') /\
       cw_sent w ≡ₚ broadcasts (sy_out sy') /\ cw_submissions w = []).
Proof.
  intros Hf Hl0 Hrun0 Hb Hl Hrun. pose proof (internal_run_work l sy sy' Hl Hrun) as Hw.
  split; [lia|]. split; [apply system_comes_to_rest|]. intros [Hpend Hnone]%at_rest_pending.
  assert (Forall (sys_event_ok codec) (l0 ++ l)) as Hall.
  { apply Forall_app. split; [done|]. eapply Forall_impl; [exact Hl|]. by intros e []. }
  destruct (sys_perform_all_tasks hex_encode codec (l0 ++ l)
    (system_start (build_coordinator cfg fetched)) sy' Hall) as (n & Hn & Hsteps).
  { by rewrite sys_perform_all_app, Hrun0. }
  rewrite length_app in Hn. split_and!; [done|..].
  - destruct (steps_drain_due hex_encode _ _ _ Hsteps) as [?|Hin];
      [|done|cbn in Hin; rewrite Hnone in Hin; by apply elem_of_nil in Hin].
    left. cbn. unfold nothing_ready. by rewrite build_coordinator_idle.
  - destruct (conc_reachable hex_encode cfg fetched n _ Hf Hsteps ltac:(lia)) as (w & Hr & [M1 M2 M3 _]).
    exists w. cbn in M1, M2, M3. rewrite Hnone in M2, M3. rewrite app_nil_r in M2.
    split_and!; try done. by apply Permutation_nil_r in M3.
Qed.

End rest.

(** ** A run with two sidecars *)

#[local] Existing Instances prefix_sha256 all_requests prefix_sha256_ids prost_codec prost_codec_laws.
#[local] Existing Instances prost_codec_typed byte_stream list_buf list_buf_spec zero_env.

Definition runs (now : Instant) (i : nat) : sys_event := SGo (at_instant now) map_to_list i.
Definition writes (i : nat) : sys_event := SWrite (Ok ()) (Ok ()) i.

Definition demo_connects : list sys_event :=
  [SConnect (Ok (demo_stream [x31; x2d; x61])) 10; runs 0 0; runs 0 0;
   SConnect (Ok (demo_stream [x32; x2d; x62])) 11; runs 0 1; runs 0 1].

(** A period starts, but its announcement does not reach the second sidecar; the first
    submits a request, and both vote for it, the first before the second has been told of
    the instance. The decision is handed out, then written to both. *)
Definition demo_traffic : list sys_event :=
  [SPeriodTick; runs 0 2; runs 0 2; writes 2; SWrite (Err "reset") (Ok ()) 2;
   SStream 10 (demo_stream demo_frame); runs 1 3; runs 1 3; runs 1 3; writes 3;
   SStream 10 (demo_stream (vote_frame (demo_id 1) 1 true)); runs 2 4; runs 2 4; writes 3;
   SStream 11 (demo_stream (vote_frame (demo_id 1) 2 true)); runs 3 5; runs 3 5; runs 3 5].

Definition demo_end : list sys_event := [writes 5; writes 5; runs 4 5].

Definition demo_run (l : list sys_event) : system :=
  let start := system_start (build_coordinator Config_default (Ok None)) in
  default start (sys_perform_all hex_string LengthPrefixCodec_default l start).

Lemma demo_stream_ok conn payload : frame_ok payload ->
  read_frame LengthPrefixCodec_default (demo_stream payload) = Ok payload ->
  sys_event_ok LengthPrefixCodec_default (SStream conn (demo_stream payload)).
Proof. intros Hf Hr p Hp. assert (p = payload) as -> by congruence. done. Qed.

Lemma demo_connects_ok : Forall (sys_event_ok LengthPrefixCodec_default) demo_connects.
Proof.
  assert (forall now i, sys_event_ok LengthPrefixCodec_default (runs now i))
    by (intros; split; [split|]; intros ?; done).
  repeat (apply Forall_cons; split; [done|]). done.
Qed.

Lemma demo_traffic_ok :
  Forall (fun e => sys_event_ok LengthPrefixCodec_default e /\
                   stays LengthPrefixCodec_default "2-b" 11 e) (demo_traffic ++ demo_end).
Proof.
  assert (forall now i, sys_event_ok LengthPrefixCodec_default (runs now i))
    by (intros; split; [split|]; intros ?; done).
  repeat (apply Forall_cons; split; [|]); try done; (split; [|done]);
    (apply demo_stream_ok; [|vm_compute; reflexivity]);
    [apply demo_frame_ok|apply vote_frame_ok; by_compute..].
Qed.

Lemma demo_all_ok :
  Forall (sys_event_ok LengthPrefixCodec_default) (demo_connects ++ demo_traffic ++ demo_end).
Proof.
  apply Forall_app. split; [apply demo_connects_ok|].
  eapply Forall_impl; [apply demo_traffic_ok|]. by intros e [].
Qed.

(** Both sidecars read the decision. *)
Lemma demo_told conn :
  conn = 10 \/ conn = 11 ->
  told LengthPrefixCodec_default (demo_run (demo_connects ++ demo_traffic ++ demo_end)) conn
    (Proto.PDecided (Proto.mk_Decided (demo_id 1) true)).
Proof.
  intros Hc. exists (decided_message (demo_id 1) true), "publisher"%string. split.
  - exists (mk_send conn (decided_message (demo_id 1) true)), (Ok ()),
      (demo_stream (decided_message (demo_id 1) true)), LengthPrefixCodec_default.
    split; [apply list_elem_of_lookup|split; [done|]].
    + destruct Hc as [-> | ->]; [exists 4%nat|exists 5%nat]; vm_compute; reflexivity.
    + split; vm_compute; reflexivity.
  - apply prost_decode_encode. split; [reflexivity|by_compute].
Qed.

Lemma sidecars_agree_witness :
  told LengthPrefixCodec_default (demo_run (demo_connects ++ demo_traffic ++ demo_end)) 10
    (Proto.PDecided (Proto.mk_Decided (demo_id 1) true)) /\ true = true.
Proof.
  split; [apply demo_told; by left|].
  apply (sidecars_agree hex_string LengthPrefixCodec_default (fun _ => eq_refl) Config_default (Ok None)
    ltac:(by_compute) ltac:(done) (demo_connects ++ demo_traffic ++ demo_end)
    (demo_run (demo_connects ++ demo_traffic ++ demo_end)) 10 11 (demo_id 1) true true);
    [apply demo_all_ok|by_compute|vm_compute; reflexivity|apply demo_told; by left|apply demo_told; by right].
Defined.

Lemma commit_means_all_voted_witness :
  exists req p s,
    decoded (messages (demo_run (demo_connects ++ demo_traffic ++ demo_end)))
      (Proto.PStartInstance (Proto.mk_StartInstance (demo_id 1) p s (Some req))) /\
    (2 <= length (extract_chains req))%nat /\
    forall c, c ∈ extract_chains req -> vote_arrived (tw_delivered (sy_net
      (demo_run (demo_connects ++ demo_traffic ++ demo_end)))) (demo_id 1) c true.
Proof.
  apply (commit_means_all_voted hex_string LengthPrefixCodec_default (fun _ => eq_refl) Config_default
    (Ok None) ltac:(by_compute) ltac:(done) (demo_connects ++ demo_traffic ++ demo_end) _ 11);
    [apply demo_all_ok|by_compute|vm_compute; reflexivity|apply demo_told; by right].
Defined.

Lemma registered_receives_all_witness :
  pending (demo_run (demo_connects ++ demo_traffic ++ demo_end)) = [] /\
  exists out, sy_out (demo_run (demo_connects ++ demo_traffic ++ demo_end)) =
      sy_out (demo_run demo_connects) ++ out /\
    for_conn 11 (sy_log (demo_run (demo_connects ++ demo_traffic ++ demo_end))).*1 ≡ₚ
      frames_of 11 (demo_run demo_connects) ++ (out ≫= addressed "2-b").
Proof.
  split; [vm_compute; reflexivity|].
  destruct (registered_receives_all hex_string LengthPrefixCodec_default "2-b" 11
    (build_coordinator Config_default (Ok None)) demo_connects (demo_run demo_connects)
    (demo_traffic ++ demo_end) (demo_run (demo_connects ++ demo_traffic ++ demo_end)))
    as (out & E1 & _ & E2);
    [vm_compute; reflexivity|vm_compute; reflexivity|apply demo_traffic_ok|vm_compute; reflexivity|].
  exists out. split; [exact E1|]. apply E2. vm_compute. reflexivity.
Defined.

Lemma system_settles_witness :
  pending (demo_run (demo_connects ++ demo_traffic)) <> [] /\
  nothing_ready (co_state (sy_coord (demo_run (demo_connects ++ demo_traffic ++ demo_end)))).
Proof.
  split; [vm_compute; discriminate|].
  apply (system_settles hex_string LengthPrefixCodec_default Config_default (Ok None)
    (demo_connects ++ demo_traffic) (demo_run (demo_connects ++ demo_traffic)) demo_end
    (demo_run (demo_connects ++ demo_traffic ++ demo_end)));
    [done| |vm_compute; reflexivity|by_compute| |vm_compute; reflexivity|by_compute].
  - pose proof demo_all_ok as Hok. rewrite app_assoc in Hok. by apply Forall_app in Hok as [? _].
  - repeat (apply Forall_cons; split; [split; [|done]|]); try done.
    split; [split|]; intros ?; done.
Defined.

(** The chain of a vote is the one the message names, whoever sends it: a single sidecar that
    votes for both chains has the instance committed. *)
Definition demo_one_voter : list sys_event :=
  [SPeriodTick; runs 0 2; runs 0 2; writes 2; writes 2;
   SStream 10 (demo_stream demo_frame); runs 1 3; runs 1 3; runs 1 3; writes 3; writes 3;
   SStream 10 (demo_stream (vote_frame (demo_id 1) 1 true)); runs 2 4; runs 2 4;
   SStream 10 (demo_stream (vote_frame (demo_id 1) 2 true)); runs 3 5; runs 3 5; runs 3 5].

Theorem one_sidecar_commits :
  let sy := demo_run (demo_connects ++ demo_one_voter) in
  Forall (fun d => d.1 = "1-a"%string) (tw_delivered (sy_net sy)) /\
  cs_client_to_chain (co_state (sy_coord sy)) !! "1-a"%string = Some 1 /\
  cs_client_to_chain (co_state (sy_coord sy)) !! "2-b"%string = Some 2 /\
  decided_message (demo_id 1) true ∈ broadcasts (sy_out sy).
Proof.
  split; [by_compute|]. split; [vm_compute; reflexivity|]. split; [vm_compute; reflexivity|].
  by_compute.
Qed.
