(* ===== verification/Counters.v ===== *)
(** * The counters of the running publisher ([coordinator.rs], [metrics/src/lib.rs], [main.rs])

    The statistics of the coordinator and its Prometheus metrics, while tasks, connections
    and writes interleave ([System]): what each counter says about the transport. *)
From Stdlib Require Import ZArith Lia.
From S2P Require Import Prelude Utf8 Spec InstanceIdGen Messages Protobuf CoordState Coordinator AtomicCommit.
From S2P Require Import CoordInv CoordRefinement CoordProps CoordProgress Dispatch Framing Transport.
From S2P Require Import L1Submit Config HttpServer Endpoint Runtime Tasks TasksSim TasksLive System SystemProps Sidecars.

(** The Prometheus counters repeat the atomic ones. *)
Definition mirrored (co : Coordinator) : Prop :=
  forall m, co_metrics co = Some m ->
    m_messages_received_total m = co_messages_processed co /\
    m_broadcasts_sent_total m = co_broadcasts_sent co.

(** The task waits to dispatch a frame. *)
Definition is_dispatch (t : task) : bool := match t with TDispatch _ _ => true | _ => false end.

Section counters.
Context `{Sha2, ProstMessage, RecvStream, BytesMut, Requests}.
Context (hex_encode : bytes -> string) (codec : LengthPrefixCodec).
Implicit Types (sy : system) (t : task) (o : oracle) (co : Coordinator).

(** The message is a mailbox message. *)
Definition is_mailbox (data : bytes) : bool :=
  match decode data with
  | Ok msg => match Proto.msg_payload msg with Some (Proto.PMailboxMessage _) => true | _ => false end
  | Err _ => false
  end.

(** The coordinator counts what it broadcasts and the mailbox messages it relays. *)
Definition counted (e : effect) : bool :=
  match e with
  | BroadcastRaw _ _ => true
  | SendRaw _ data => is_mailbox data
  | SpawnSubmit _ _ => false
  end.

Definition how_many {A} (f : A -> bool) (l : list A) : Z := Z.of_nat (length (List.filter f l)).

Lemma how_many_app {A} (f : A -> bool) l1 l2 : how_many f (l1 ++ l2) = how_many f l1 + how_many f l2.
Proof. unfold how_many. rewrite List.filter_app, length_app. lia. Qed.

Lemma how_many_perm {A} (f : A -> bool) l1 l2 : l1 ≡ₚ l2 -> how_many f l1 = how_many f l2.
Proof.
  unfold how_many. induction 1 as [|x l1 l2 _ IH|x y l|]; cbn; [done| | |congruence].
  - destruct (f x); cbn; lia.
  - destruct (f x), (f y); done.
Qed.

(** The frames delivered and not dispatched yet. *)
Definition waiting sy : Z := how_many is_dispatch (concat (st_tasks <$> sy_threads sy)).

(** ** One step of a task *)

(** The coordinator counted a message, when [m], and [b] broadcasts. *)
Record counts_step (m : bool) (b : Z) co co' : Prop := {
  ct_messages : co_messages_processed co' = if m then co_messages_processed co +! 1
                                            else co_messages_processed co;
  ct_broadcasts : co_broadcasts_sent co' = if b =? 1 then co_broadcasts_sent co +! 1
                                           else co_broadcasts_sent co;
  ct_gauge : m_connections_active <$> co_metrics co' = m_connections_active <$> co_metrics co;
  ct_mirrored : mirrored co -> mirrored co';
}.

(** What goes to one client is labelled by the point that sends it. *)
Definition task_labelled t : Prop :=
  match t with
  | TSend _ data => is_mailbox data = false
  | TRelay _ data => is_mailbox data = true
  | _ => True
  end.

Lemma labelled_encoded `{!ProstRoundtrip} p :
  Payload_wf p ->
  is_mailbox (encode_to_vec (publisher_message p)) =
    match p with Proto.PMailboxMessage _ => true | _ => false end.
Proof.
  intros Hp. unfold is_mailbox. rewrite prost_decode_encode by (split; [reflexivity|done]). done.
Qed.

(** What a task leads to is labelled, and no dispatch comes after one. *)
Lemma step_labelled `{!ProstTyped, !ProstRoundtrip} frames o t co :
  task_grounded frames t ->
  let s := step hex_encode o t co in
  Forall (fun t' => task_labelled t' /\ is_dispatch t' = false) (sd_next s ++ concat (sd_spawned s)).
Proof.
  intros Ht. destruct t; cbn [step]; try (by repeat constructor).
  - by destruct (parse_chain_id client_id); repeat constructor.
  - unfold step_dispatch. cbn. rewrite app_nil_r. destruct Ht as [Hu _].
    destruct (decode data) as [[sender [p|]]|e] eqn:Hd; cbn [Proto.msg_payload]; [|by constructor..].
    pose proof Hd as [_ Hp]%prost_decode_typed. cbn [Proto.msg_payload from_option] in Hp.
    destruct p; try (by repeat constructor).
    + apply Forall_app. split.
      * destruct (Proto.hsr_client_id m); [by constructor|].
        by destruct (parse_chain_id _); repeat constructor.
      * constructor; [|done]. split; [|done]. cbn. by rewrite labelled_encoded.
    + constructor; [|done]. split; [|done]. cbn. by rewrite labelled_encoded.
    + case_match; by repeat constructor.
  - cbn. destruct (_ !! _); [|by constructor]. constructor; [|done]. split; [|done]. cbn.
    by rewrite labelled_encoded.
  - by destruct (admit_xt _ _ _ _) as [st' []]; repeat constructor.
  - by destruct (record_vote _ _ _ _ _ _) as [st' [[[d l] m]|]]; repeat constructor.
  - by destruct (drain_one _ _) as [[st' d]|]; repeat constructor.
  - destruct (reap_timed_out _ _ _ _) as [st' out]. cbn. rewrite app_nil_r. apply Forall_app.
    split; [by apply Forall_fmap, Forall_true|]. destruct out; by repeat constructor.
  - by destruct (chain_for_client _ _); repeat constructor.
  - cbn. case_decide; [by constructor|]. destruct (negb _); by repeat constructor.
  - unfold step_proof, receive_proof. destruct (collect_proof _ _ _ _ _) as [st' [[n proofs]|]];
      [destruct (validate_mailbox_consistency _); [destruct (co_has_l1_submitter co)|]|];
      by repeat constructor.
  - by destruct (or_submitted o); repeat constructor.
  - by destruct (reap_expired_proofs _ _ _) as [st' []]; repeat constructor.
Qed.

(** The updates of a coordinator between two points. *)
Ltac counts_solve :=
  split; cbn; [done|done|by destruct (co_metrics _) as [[]|]|];
  intros Hco k; cbn; destruct (co_metrics _) as [k0|] eqn:Ek; [|done]; intros [= <-];
  destruct (Hco k0 Ek) as [? ?]; destruct k0; cbn in *; split; congruence.

Lemma step_counts o t co :
  task_labelled t ->
  let s := step hex_encode o t co in
  counts_step (is_dispatch t) (how_many counted (sd_out s)) co (sd_coord s).
Proof.
  intros Ht. destruct t; cbn [step is_dispatch]; try counts_solve.
  - unfold how_many. cbn in *. rewrite Ht. counts_solve.
  - unfold how_many. cbn in *. rewrite Ht. counts_solve.
  - destruct (admit_xt _ _ _ _) as [st' []]; counts_solve.
  - destruct (record_vote _ _ _ _ _ _) as [st' [[[d l] m]|]]; counts_solve.
  - destruct decision; counts_solve.
  - destruct (drain_one _ _) as [[st' d]|]; counts_solve.
  - destruct (reap_timed_out _ _ _ _) as [st' out]. counts_solve.
  - unfold step_proof, receive_proof. destruct (collect_proof _ _ _ _ _) as [st' [[n proofs]|]];
      [destruct (validate_mailbox_consistency _); [destruct (co_has_l1_submitter co)|]|]; counts_solve.
  - destruct (reap_expired_proofs _ _ _) as [st' []]; counts_solve.
Qed.

(** ** The invariant *)

(** The frames the transport has handed over. *)
Definition delivered sy : Z := Z.of_nat (length (tw_delivered (sy_net sy))).

Record system_counts sy : Prop := {
  sc_inv : system_inv sy;
  sc_labelled : Forall task_labelled (concat (st_tasks <$> sy_threads sy));
  sc_mirrored : mirrored (sy_coord sy);
  sc_gauge m : co_metrics (sy_coord sy) = Some m -> m_connections_active m = tw_gauge (sy_net sy);
  sc_waiting : 0 <= waiting sy <= delivered sy;
  sc_messages : co_messages_processed (sy_coord sy) =
    (delivered sy - waiting sy) mod u64_modulus;
  sc_broadcasts : co_broadcasts_sent (sy_coord sy) = how_many counted (sy_out sy) mod u64_modulus;
}.

(** The points ahead after thread [i] went from [t :: rest] to [next ++ rest]. *)
Lemma tasks_insert (l : list sthread) i sends sends' t next rest spawned :
  l !! i = Some (mk_sthread sends (t :: rest)) ->
  t :: concat (st_tasks <$> <[i := mk_sthread sends' (next ++ rest)]> l ++ (mk_sthread [] <$> spawned)) ≡ₚ
  next ++ concat spawned ++ concat (st_tasks <$> l).
Proof.
  intros Hi. destruct (insert_split l i _ (mk_sthread sends' (next ++ rest)) Hi) as (l1 & l2 & -> & ->).
  rewrite !fmap_app, !fmap_cons, !concat_app, fmap_spawned. cbn. solve_Permutation.
Qed.

(** The metrics of the coordinator after an update that is not a connection. *)
Lemma gauge_kept m b co co' g :
  counts_step m b co co' ->
  (forall k, co_metrics co = Some k -> m_connections_active k = g) ->
  forall k, co_metrics co' = Some k -> m_connections_active k = g.
Proof.
  intros [_ _ Hg _] Hco k Hk. rewrite Hk in Hg. destruct (co_metrics co) as [k0|]; [|done].
  cbn in Hg. injection Hg as ->. by apply Hco.
Qed.

(** A thread moved on: its dispatch is no longer waiting, the rest is as before. *)
Lemma counts_moved m b sy co threads out :
  system_counts sy -> system_inv (mk_system co threads (sy_net sy) (sy_out sy ++ out) (sy_log sy)) ->
  counts_step m b (sy_coord sy) co -> how_many counted out = b -> b = 0 \/ b = 1 ->
  Forall task_labelled (concat (st_tasks <$> threads)) ->
  how_many is_dispatch (concat (st_tasks <$> threads)) + (if m then 1 else 0) = waiting sy ->
  system_counts (mk_system co threads (sy_net sy) (sy_out sy ++ out) (sy_log sy)).
Proof.
  intros [I1 I2 I3 I4 I5 I6 I7] Hinv Hc Hb Hb01 Hl Hw. pose proof Hc as [C1 C2 C3 C4].
  assert (0 <= how_many is_dispatch (concat (st_tasks <$> threads))) by (unfold how_many; lia).
  split; cbn; [done|done|auto|by eapply gauge_kept|unfold waiting, delivered in *; cbn; destruct m; lia|..].
  - rewrite C1, I6. unfold waiting, delivered in *. cbn. rewrite <- Hw. destruct m; [|by rewrite Z.add_0_r].
    unfold u64_add. rewrite Zplus_mod_idemp_l. f_equal. lia.
  - rewrite C2, I7, how_many_app, Hb. destruct Hb01 as [-> | ->]; cbn; [by rewrite Z.add_0_r|].
    unfold u64_add. by rewrite Zplus_mod_idemp_l.
Qed.

Lemma no_dispatch_none l : Forall (fun t => task_labelled t /\ is_dispatch t = false) l ->
  how_many is_dispatch l = 0.
Proof. unfold how_many. induction 1 as [|t l [_ Ht] _ IH]; [done|]. cbn. by rewrite Ht. Qed.

Lemma sys_go_counts `{!ProstTyped, !ProstRoundtrip} o order i sy sy' :
  sys_go hex_encode o order i sy = Some sy' -> system_counts sy -> system_counts sy'.
Proof.
  intros Hgo Hsc. pose proof (sys_go_inv _ _ _ _ _ _ Hgo (sc_inv _ Hsc)) as Hinv. revert Hgo.
  unfold sys_go. destruct (sy_threads sy !! i) as [[[|s sends] [|t rest]]|] eqn:Hi; try done.
  intros [= <-]. pose proof (si_tasks _ (sc_inv _ Hsc)) as Hgr.
  pose proof (Forall_lookup_1 _ _ _ _ Hgr Hi) as [Ht _]%Forall_cons.
  pose proof (step_labelled _ o t (sy_coord sy) Ht) as Hnext.
  pose proof (tasks_insert _ _ _
    (sd_out (step hex_encode o t (sy_coord sy)) ≫= sends_of order (tw_registry (sy_net sy)))
    t (sd_next (step hex_encode o t (sy_coord sy))) rest
    (sd_spawned (step hex_encode o t (sy_coord sy))) Hi) as Hperm. rewrite app_assoc in Hperm.
  assert (Forall task_labelled (t :: concat (st_tasks <$>
    <[i := mk_sthread (sd_out (step hex_encode o t (sy_coord sy)) ≫=
       sends_of order (tw_registry (sy_net sy)))
       (sd_next (step hex_encode o t (sy_coord sy)) ++ rest)]> (sy_threads sy) ++
    (mk_sthread [] <$> sd_spawned (step hex_encode o t (sy_coord sy)))))) as [Hlt Hl]%Forall_cons.
  { rewrite Hperm. apply Forall_app. split; [|apply Hsc].
    eapply Forall_impl; [exact Hnext|]. by intros ? []. }
  eapply counts_moved; [done|done|by apply step_counts|done| |done|].
  - pose proof (step_out_single hex_encode o t (sy_coord sy)). unfold how_many.
    destruct (sd_out _) as [|e [|]]; cbn in *; [by left|destruct (counted e); cbn; lia|lia].
  - apply (how_many_perm is_dispatch) in Hperm. rewrite how_many_app, (no_dispatch_none _ Hnext) in Hperm.
    rewrite Z.add_0_l in Hperm. unfold waiting. rewrite <- Hperm. unfold how_many. cbn.
    destruct (is_dispatch t); cbn; lia.
Qed.

(** A task arrives: a frame is delivered with the task that dispatches it. *)
Lemma arrive_counts a net sy :
  system_counts sy -> system_inv (sys_arrive a net sy) -> Forall task_labelled (handler_thread a) ->
  mirrored (callback a (sy_coord sy)) ->
  (forall m, co_metrics (callback a (sy_coord sy)) = Some m -> m_connections_active m = tw_gauge net) ->
  Z.of_nat (length (tw_delivered net)) = delivered sy + how_many is_dispatch (handler_thread a) ->
  co_messages_processed (callback a (sy_coord sy)) = co_messages_processed (sy_coord sy) ->
  co_broadcasts_sent (callback a (sy_coord sy)) = co_broadcasts_sent (sy_coord sy) ->
  system_counts (sys_arrive a net sy).
Proof.
  intros [I1 I2 I3 I4 I5 I6 I7] Hinv Hl Hm Hg Hd E1 E2.
  assert (waiting (sys_arrive a net sy) = waiting sy + how_many is_dispatch (handler_thread a)) as Hw.
  { unfold waiting. cbn. rewrite fmap_app, concat_app. cbn. by rewrite app_nil_r, how_many_app. }
  assert (delivered (sys_arrive a net sy) = Z.of_nat (length (tw_delivered net))) as Hd' by done.
  assert (0 <= how_many is_dispatch (handler_thread a)) by (unfold how_many; lia).
  split; rewrite ?Hw, ?Hd', ?Hd; [done| |done|done|lia| |by cbn; rewrite E2].
  - cbn. rewrite fmap_app, concat_app. apply Forall_app. split; [done|]. cbn. by rewrite app_nil_r.
  - cbn. rewrite E1, I6. f_equal. lia.
Qed.

(** The gauge moves with a connection. *)
Lemma gauge_moved d co g :
  mirrored co -> (forall m, co_metrics co = Some m -> m_connections_active m = g) ->
  let co' := with_metrics (gauge_add d <$> co_metrics co) co in
  mirrored co' /\ (forall m, co_metrics co' = Some m -> m_connections_active m = g + d).
Proof.
  intros Hm Hg. cbn. split; intros m; cbn; (destruct (co_metrics co) as [m0|] eqn:E; [|done]);
    intros [= <-]; [by apply (Hm m0)|]. cbn. by rewrite (Hg m0).
Qed.

Lemma sys_perform_counts `{!ProstTyped, !ProstRoundtrip} e sy sy' :
  sys_perform hex_encode codec e sy = Some sy' -> system_counts sy -> system_counts sy'.
Proof.
  intros Hp Hsc. pose proof (sys_perform_inv _ _ _ _ _ Hp (sc_inv _ Hsc)) as Hinv.
  pose proof Hsc as [I1 I2 I3 I4 I5 I6 I7].
  destruct e as [o order i|open write i|i|first conn|conn|conn recv| | |body]; cbn in Hp.
  - by eapply sys_go_counts.
  - apply sys_write_tasks in Hp as E. unfold tasks_of in E. injection E as E1 E2 E3.
    assert (sy_net sy' = sy_net sy) as E4
      by (unfold sys_write in Hp; destruct (sy_threads sy !! i) as [[[] ]|]; by simplify_eq).
    split; unfold waiting, delivered; rewrite ?E1, ?E2, ?E3, ?E4; done.
  - unfold sys_cancel in Hp. destruct (sy_threads sy !! i) as [[[|s sends] [|t rest]]|] eqn:Hi; try done.
    destruct (cancellable t) eqn:Hc; [|done]. injection Hp as <-.
    pose proof (tasks_insert _ _ _ [] t [] rest [] Hi) as Hperm.
    cbn [app fmap list_fmap concat] in Hperm. rewrite app_nil_r in Hperm.
    rewrite <- (app_nil_r (sy_out sy)) in *. eapply (counts_moved false 0); [done|done|by split|done|by left| |].
    + rewrite <- Hperm in I2. by apply Forall_cons in I2 as [_ ?].
    + unfold waiting. rewrite <- (how_many_perm _ _ _ Hperm). unfold how_many. cbn.
      assert (is_dispatch t = false) as -> by by destruct t. lia.
  - destruct (tw_tasks (sy_net sy) !! conn) eqn:Hc; [done|].
    destruct (identify codec first) as [id|]; [|done]. injection Hp as <-.
    destruct (gauge_moved 1 (sy_coord sy) _ I3 I4) as [Hm Hg].
    apply arrive_counts; try done; [by repeat constructor|]. cbn. unfold how_many, delivered. cbn. lia.
  - destruct (tw_tasks (sy_net sy) !! conn) as [id|]; [|done]. injection Hp as <-.
    destruct (gauge_moved (-1) (sy_coord sy) _ I3 I4) as [Hm Hg].
    apply arrive_counts; try done. cbn. unfold how_many, delivered. cbn. lia.
  - destruct (tw_tasks (sy_net sy) !! conn) as [id|]; [|done].
    destruct (read_frame codec recv) eqn:Hr; injection Hp as <-; [|done].
    apply arrive_counts; try done; [by repeat constructor|unfold serve_stream; rewrite Hr; cbn..].
    + done.
    + unfold how_many, delivered. cbn. lia.
  - injection Hp as <-. apply arrive_counts; try done; [by repeat constructor|].
    unfold how_many, delivered. cbn. lia.
  - injection Hp as <-. apply arrive_counts; try done; [by repeat constructor|].
    unfold how_many, delivered. cbn. lia.
  - injection Hp as <-. apply arrive_counts; try done; [by repeat constructor|].
    unfold how_many, delivered. cbn. lia.
Qed.

Lemma sys_perform_all_counts `{!ProstTyped, !ProstRoundtrip} l sy sy' :
  sys_perform_all hex_encode codec l sy = Some sy' -> system_counts sy -> system_counts sy'.
Proof.
  revert sy. induction l as [|e l IH]; intros sy; cbn; [by intros [= <-]|].
  destruct (sys_perform hex_encode codec e sy) as [sy1|] eqn:Hp; [|done]. cbn.
  intros Hl Hc. eapply IH; [done|]. by eapply sys_perform_counts.
Qed.

Lemma start_counts `{L1Env} cfg fetched : system_counts (system_start (build_coordinator cfg fetched)).
Proof.
  split; [apply system_start_inv|done|..]; unfold build_coordinator, init_from_l1;
    cbn -[choose_submitter].
  - intros m. destruct (choose_submitter _), fetched as [[[? ?]|]|], (metrics_enabled _); cbn;
      intros; by simplify_eq.
  - intros m. destruct (choose_submitter _), fetched as [[[? ?]|]|], (metrics_enabled _); cbn;
      intros; by simplify_eq.
  - done.
  - by destruct (choose_submitter _), fetched as [[[? ?]|]|].
  - by destruct (choose_submitter _), fetched as [[[? ?]|]|].
Qed.

(** C3. The counters of the running publisher are true, however tasks, connections and
    writes interleave. The gauge is the number of connections being served; the messages
    counted are the frames delivered less those whose task has not dispatched them yet; the
    broadcasts counted are the messages handed to the transport for everyone together with
    the mailbox messages relayed, and nothing else; both modulo 2^64. The Prometheus
    counters equal the statistics. *)
Theorem counters_are_true `{!ProstTyped, !ProstRoundtrip, L1Env} cfg fetched l sy :
  sys_perform_all hex_encode codec l (system_start (build_coordinator cfg fetched)) = Some sy ->
  let co := sy_coord sy in
  0 <= waiting sy <= delivered sy /\
  co_messages_processed co = (delivered sy - waiting sy) mod u64_modulus /\
  co_broadcasts_sent co = how_many counted (sy_out sy) mod u64_modulus /\
  forall m, co_metrics co = Some m ->
    m_connections_active m = Z.of_nat (size (tw_tasks (sy_net sy))) /\
    m_messages_received_total m = co_messages_processed co /\
    m_broadcasts_sent_total m = co_broadcasts_sent co.
Proof.
  intros Hrun. pose proof (sys_perform_all_counts _ _ _ Hrun (start_counts cfg fetched)) as Hc.
  pose proof (ti_gauge _ (si_net _ (sc_inv _ Hc))) as Hg. destruct Hc as [I1 I2 I3 I4 I5 I6 I7].
  cbn. split; [done|]. split; [done|]. split; [done|]. intros m Hm. rewrite <- Hg.
  split; [by apply I4|]. by apply I3.
Qed.

End counters.

#[local] Existing Instances prefix_sha256 all_requests prefix_sha256_ids prost_codec prost_codec_laws.
#[local] Existing Instances prost_codec_typed byte_stream list_buf list_buf_spec zero_env.

(** Two sidecars, three frames dispatched, a period, a start and a decision broadcast. *)
Lemma counters_are_true_witness :
  let sy := demo_run (demo_connects ++ demo_traffic) in
  waiting sy = 0 /\ delivered sy = 3 /\ co_messages_processed (sy_coord sy) = 3 /\
  co_broadcasts_sent (sy_coord sy) = 3.
Proof.
  assert (sys_perform_all hex_string LengthPrefixCodec_default (demo_connects ++ demo_traffic)
    (system_start (build_coordinator Config_default (Ok None))) =
    Some (demo_run (demo_connects ++ demo_traffic))) as Hrun by (vm_compute; reflexivity).
  pose proof (counters_are_true hex_string LengthPrefixCodec_default Config_default (Ok None) _ _ Hrun)
    as (_ & Hm & Hb & _). cbn zeta in *.
  assert (waiting (demo_run (demo_connects ++ demo_traffic)) = 0 /\
    delivered (demo_run (demo_connects ++ demo_traffic)) = 3 /\
    how_many counted (sy_out (demo_run (demo_connects ++ demo_traffic))) = 3) as (E1 & E2 & E3)
    by (split_and!; vm_compute; reflexivity).
  rewrite Hm, Hb, E1, E2, E3. split_and!; reflexivity.
Defined.
