(* ===== verification/Main.v ===== *)
(** * Start-up and shutdown of the binary
    ([bin/publisher/src/main.rs], [crates/tracing], [crates/metrics], [crates/server/src/state.rs])

    [main] is a sequence of steps, some of which fail and end it ([?]). The model records the
    steps taken ([action]) and the result; the answers of the operating system and of the
    libraries are the record [MainEnv]. *)
From Stdlib Require Import ZArith Lia.
From S2P Require Import Prelude Spec Serde CoordState Coordinator NetAddr Framing Transport L1Submit Config.
From S2P Require Import Endpoint HttpServer Runtime.

(** ** Logging ([tracing/src/lib.rs]) *)

Inductive log_format := PrettyFormat | JsonFormat.

(** [from_env] is the filter of the environment when it is set and valid; that a subscriber
    is already installed is ignored. *)
Definition tracing_init {F} (from_env : option F) (filter_new : string -> F) (level : string)
    (pretty : bool) : F * log_format :=
  (default (filter_new level) from_env, if pretty then PrettyFormat else JsonFormat).

(** ** Registered metrics ([metrics/src/lib.rs]) *)

(** Name and help of each metric, in the order of registration. *)
Definition registered_metrics : list (string * string) :=
  [("publisher_connections_active", "Active sidecar connections");
   ("publisher_messages_received", "Inbound messages from sidecars");
   ("publisher_broadcasts_sent", "Broadcast messages sent to sidecars");
   ("publisher_xt_started", "Cross-chain transactions started");
   ("publisher_xt_decided_commit", "Cross-chain transactions committed");
   ("publisher_xt_decided_abort", "Cross-chain transactions aborted");
   ("publisher_xt_queued", "Cross-chain transactions queued due to chain overlap");
   ("publisher_xt_decision_latency_seconds", "Time from XT start to decision");
   ("publisher_period_broadcast", "Period broadcasts sent")]%string.

Abbreviation Registry := (list (string * string)) (only parsing).

Definition register_metrics (registry : Registry) : Registry * PublisherMetrics :=
  (registry ++ registered_metrics, PublisherMetrics_new).

(** Upper bounds of the latency histogram, in milliseconds. *)
Definition latency_buckets : list Z := [10; 50; 100; 250; 500; 1000; 2500; 5000; 10000].

(** ** State of the HTTP server ([state.rs]) *)

Record AppState := mk_AppState {
  app_coordinator : Coordinator;
  app_registry : option Registry;
}.

Definition AppState_new (coordinator : Coordinator) : AppState := mk_AppState coordinator None.

Definition with_registry (registry : Registry) (s : AppState) : AppState :=
  mk_AppState (app_coordinator s) (Some registry).

(** ** [main] *)

Inductive action :=
| InstallCrypto
| ParseArguments
| LoadConfig (path : string)
| InitTracing (level : string) (pretty : bool)
| WarnMockMode
| RegisterMetrics
| InitFromL1 (with_submitter : bool)
| StartQuic (listen_addr : string) (max_message_size : Z)
| SpawnPeriodLoop (period : Duration)
| SpawnReaperLoop
| BuildRouter (metrics_served : bool) (request_timeout : Duration)
| BindHttp (listen_addr : string)
| ServeHttp
| CloseQuic.

(** What [main] is answered; [me_arguments] is what [clap] makes of the command line, which
    ends the process when it is malformed. *)
Record MainEnv := mk_MainEnv {
  me_install : result unit string;
  me_env : string -> option string;
  me_parse_duration : string -> option Duration;
  me_arguments : result Cli string;
  me_fs : string -> option (result string string);
  me_yaml : string -> result Value string;
  me_fetched : result (option (Z * B256)) string;
  me_start : string -> result unit TransportError;
  me_bind : string -> result unit string;
  me_serve : result unit string;
}.

(** Steps taken, and a value or the error that ends [main]. *)
Definition M A : Type := list action * result A string.

Definition ret {A} (a : A) : M A := ([], Ok a).
Definition act (a : action) : M unit := ([a], Ok ()).
Definition lift {A} (r : result A string) : M A := ([], r).

Definition bindM {A B} (m : M A) (k : A -> M B) : M B :=
  match m with
  | (acts, Err e) => (acts, Err e)
  | (acts, Ok a) => let '(acts', r) := k a in (acts ++ acts', r)
  end.

Notation "x <-- m ;; k" := (bindM m (fun x => k)) (at level 100, m at next level, right associativity).
Notation "m ;;; k" := (bindM m (fun _ => k)) (at level 100, right associativity).

Section main.
Context `{L1Env, Scalars} (e : MainEnv).

(** The configuration for the file named on the command line. *)
Definition main_config : result Config string :=
  (let? cli := me_arguments e in
   load (me_env e) (me_parse_duration e) (config_file (me_fs e) (me_yaml e) (cli_config cli)))%result.

(** The state handed to the router. *)
Definition app_state (cfg : Config) : AppState :=
  let state := AppState_new (build_coordinator cfg (me_fetched e)) in
  if metrics_enabled (metrics cfg)
  then with_registry (register_metrics []).1 state else state.

Definition main : M unit :=
  act InstallCrypto ;;;
  lift (map_err (fun _ => "failed to install rustls crypto provider"%string) (me_install e)) ;;;
  act ParseArguments ;;;
  cli <-- lift (me_arguments e) ;;
  act (LoadConfig (cli_config cli)) ;;;
  cfg <-- lift (load (me_env e) (me_parse_duration e)
                  (config_file (me_fs e) (me_yaml e) (cli_config cli))) ;;
  act (InitTracing (log_level (log cfg)) (log_pretty (log cfg))) ;;;
  (if mock_mode cfg then act WarnMockMode else ret ()) ;;;
  (if metrics_enabled (metrics cfg) then act RegisterMetrics else ret ()) ;;;
  act (InitFromL1 (bool_decide (is_Some (choose_submitter (settlement cfg))))) ;;;
  act (StartQuic (server_listen_addr (server cfg)) (server_max_message_size (server cfg))) ;;;
  lift (map_err TransportError_to_string (me_start e (server_listen_addr (server cfg)))) ;;;
  act (SpawnPeriodLoop (period_duration (consensus cfg))) ;;;
  act SpawnReaperLoop ;;;
  act (BuildRouter (bool_decide (is_Some (app_registry (app_state cfg)))) (request_timeout (api cfg))) ;;;
  act (BindHttp (api_listen_addr (api cfg))) ;;;
  lift (me_bind e (api_listen_addr (api cfg))) ;;;
  act ServeHttp ;;;
  lift (me_serve e) ;;;
  act CloseQuic.

(** The steps of a run that meets no error. *)
Definition full_run (path : string) (cfg : Config) : list action :=
  [InstallCrypto; ParseArguments; LoadConfig path; InitTracing (log_level (log cfg)) (log_pretty (log cfg))] ++
  (if mock_mode cfg then [WarnMockMode] else []) ++
  (if metrics_enabled (metrics cfg) then [RegisterMetrics] else []) ++
  [InitFromL1 (bool_decide (is_Some (choose_submitter (settlement cfg))));
   StartQuic (server_listen_addr (server cfg)) (server_max_message_size (server cfg));
   SpawnPeriodLoop (period_duration (consensus cfg)); SpawnReaperLoop;
   BuildRouter (metrics_enabled (metrics cfg)) (request_timeout (api cfg));
   BindHttp (api_listen_addr (api cfg)); ServeHttp; CloseQuic].

Lemma app_registry_served cfg :
  bool_decide (is_Some (app_registry (app_state cfg))) = metrics_enabled (metrics cfg).
Proof. unfold app_state. by destruct (metrics_enabled (metrics cfg)). Qed.

Lemma metric_names_distinct : NoDup registered_metrics.*1.
Proof. by_compute. Qed.

Lemma load_period_nonzero cfg :
  main_config = Ok cfg -> period_duration (consensus cfg) <> 0.
Proof.
  unfold main_config, load. intros (cli & _ & (c0 & _ & Hload)%result_bind_Ok)%result_bind_Ok.
  apply result_bind_Ok in Hload as ([] & Hv & [= <-]). by apply validate_Ok in Hv as (_ & _ & ? & _).
Qed.

(** Start-up order: [main] takes its steps in one fixed order and stops at the first
    error. With a configuration that loads, the steps taken are a prefix of the full run,
    all of it exactly when [main] returns success. So the superblock state is read from L1
    before any period can be announced; timers run only when the QUIC server started, the
    period timer with a non-zero period; and the QUIC server is closed exactly when the HTTP
    server ended without error. Without a configuration nothing is started. *)
Theorem main_in_order :
  let '(acts, r) := main in
  match me_arguments e, main_config with
  | Ok cli, Ok cfg =>
      let path := cli_config cli in
      acts `prefix_of` full_run path cfg /\ (r = Ok () <-> acts = full_run path cfg) /\
      (forall d, SpawnPeriodLoop d ∈ acts ->
         d <> 0 /\ is_ok (me_start e (server_listen_addr (server cfg))) = true) /\
      (CloseQuic ∈ acts <-> ServeHttp ∈ acts /\ is_ok (me_serve e) = true)
  | _, _ =>
      is_ok r = false /\
      exists path, acts `prefix_of` [InstallCrypto; ParseArguments; LoadConfig path]
  end.
Proof.
  pose proof load_period_nonzero as Hnz. unfold main, main_config, lift, act, ret in *.
  destruct (me_install e) as [[]|err]; cbn [bindM map_err app];
    (destruct (me_arguments e) as [cli|err0]; cbn [bindM app result_bind] in *;
     [destruct (load _ _ _) as [cfg|err']; cbn [bindM app]|]).
  - specialize (Hnz cfg eq_refl). rewrite app_registry_served. unfold full_run.
    destruct (mock_mode cfg), (metrics_enabled (metrics cfg));
      destruct (me_start e (server_listen_addr (server cfg))) as [[]|];
      destruct (me_bind e (api_listen_addr (api cfg))) as [[]|];
      destruct (me_serve e) as [[]|]; cbn [bindM app map_err is_ok];
      (split; [by eexists|]); (split; [by split; intros|]); (split; [|set_solver]);
      intros d Hd; set_solver.
  - split; [done|]. exists (cli_config cli). by exists [].
  - split; [done|]. exists EmptyString. by eexists.
  - split; [by eexists|]. split; [by split; intros|]. split; [|set_solver]. intros d Hd. set_solver.
  - split; [done|]. exists EmptyString. by eexists.
  - split; [done|]. exists EmptyString. by eexists.
Qed.

End main.
