(* ===== verification/TestKit.v ===== *)
(** * Running the repository's unit tests

    A Rust unit test is a script over a fixture (the object under test and the fakes it was
    given) that panics when an assertion fails. It is modelled as a computation in
    [test W]: it changes a fixture of type [W] and either ends or panics. [passes] holds when
    it ends. *)
From Stdlib Require Import ZArith.
From S2P Require Import Prelude.

Declare Scope test_scope.
Delimit Scope test_scope with test.

Definition test (W A : Type) : Type := W -> option (A * W).

Definition ok {W A} (a : A) : test W A := fun w => Some (a, w).

(** A failed assertion, or [unwrap] on the wrong variant. *)
Definition panic {W A} : test W A := fun _ => None.

Definition andthen {W A B} (m : test W A) (k : A -> test W B) : test W B :=
  fun w => '(a, w') ← m w; k a w'.

Notation "'let*' x := m 'in' k" := (andthen m (fun x => k))
  (at level 10, x name, m at level 100, k at level 200) : test_scope.
Notation "m ;* k" := (andthen m (fun _ => k)) (at level 199, right associativity) : test_scope.
Bind Scope test_scope with test.

(** Reading and changing the fixture. *)
Definition gets {W A} (f : W -> A) : test W A := fun w => Some (f w, w).
Definition change {W} (f : W -> W) : test W unit := fun w => Some (tt, f w).
Definition run {W A} (f : W -> W * A) : test W A := fun w => Some ((f w).2, (f w).1).

(** [assert!], [assert_eq!], [unwrap], [unwrap_err]. *)
Definition assert {W} (b : bool) : test W unit := if b then ok () else panic.
Definition assert_eq {W A} `{EqDecision A} (a b : A) : test W unit := assert (bool_decide (a = b)).
Definition unwrap {W A E} (r : result A E) : test W A :=
  match r with Ok a => ok a | Err _ => panic end.
Definition unwrap_err {W A E} (r : result A E) : test W E :=
  match r with Ok _ => panic | Err e => ok e end.
Definition unwrap_some {W A} (o : option A) : test W A :=
  match o with Some a => ok a | None => panic end.

(** A test starts on a fixture of its own. *)
Definition passes {W} (fixture : W) (t : test W unit) : bool :=
  match t fixture with Some _ => true | None => false end.

(** [v[0]], which panics on an empty vector. *)
Definition first {W A} (l : list A) : test W A := unwrap_some (head l).

Definition is_none {A} (o : option A) : bool := negb (bool_decide (is_Some o)).
Definition is_empty {A} (l : list A) : bool := match l with [] => true | _ => false end.
