(* ===== verification/TestsPublisher.v ===== *)
(** * The unit tests of the SBCP publisher ([publisher.rs], [mod tests])

    The fakes record the calls they receive. The tests run against every hash function; the
    proof maps iterate in the order of [map_values]. *)
From Stdlib Require Import ZArith.
From S2P Require Import Prelude Spec InstanceIdGen SbcpPublisher TestKit.
Local Open Scope test_scope.

(** ** Fakes *)

Record FakeMessenger := mk_FakeMessenger {
  fm_start_periods : list (PeriodId * SuperblockNumber);
  fm_rollbacks : list (PeriodId * SuperblockNumber * SuperblockHash);
}.

Definition FakeMessenger_default : FakeMessenger := mk_FakeMessenger [] [].

Definition broadcast_start_period (m : FakeMessenger) (p : PeriodId) (t : SuperblockNumber) :=
  mk_FakeMessenger (fm_start_periods m ++ [(p, t)]) (fm_rollbacks m).

Definition broadcast_rollback (m : FakeMessenger) (p : PeriodId) (s : SuperblockNumber)
    (h : SuperblockHash) :=
  mk_FakeMessenger (fm_start_periods m) (fm_rollbacks m ++ [(p, s, h)]).

Record FakeProver := mk_FakeProver {
  fp_calls : list (SuperblockNumber * SuperblockHash * list bytes);
  fp_next_proof : bytes;
  fp_err : option string;
}.

Definition FakeProver_default : FakeProver := mk_FakeProver [] [] None.

Definition request_superblock_proof (p : FakeProver) (sb : SuperblockNumber) (h : SuperblockHash)
    (proofs : list bytes) : FakeProver * result bytes string :=
  (mk_FakeProver (fp_calls p ++ [(sb, h, proofs)]) (fp_next_proof p) (fp_err p),
   match fp_err p with Some e => Err e | None => Ok (fp_next_proof p) end).

Record FakeL1 := mk_FakeL1 { fl_published : list (SuperblockNumber * bytes) }.

Definition FakeL1_default : FakeL1 := mk_FakeL1 [].

Definition publish_proof (l : FakeL1) (sb : SuperblockNumber) (proof : bytes) : FakeL1 :=
  mk_FakeL1 (fl_published l ++ [(sb, proof)]).

(** ** Fixture *)

Record fixture := mk_fixture {
  pub_inst : PublisherState;
  fx_m : FakeMessenger;
  fx_prover : FakeProver;
  fx_l1 : FakeL1;
}.

(** A call of the publisher reaches the fake that implements the trait. *)
Definition deliver (w : fixture) (ev : pub_event) : fixture :=
  match ev with
  | BroadcastStartPeriod p t =>
      mk_fixture (pub_inst w) (broadcast_start_period (fx_m w) p t) (fx_prover w) (fx_l1 w)
  | BroadcastRollback p s h =>
      mk_fixture (pub_inst w) (broadcast_rollback (fx_m w) p s h) (fx_prover w) (fx_l1 w)
  | RequestSuperblockProof sb h proofs =>
      mk_fixture (pub_inst w) (fx_m w) (request_superblock_proof (fx_prover w) sb h proofs).1 (fx_l1 w)
  | PublishProof sb proof =>
      mk_fixture (pub_inst w) (fx_m w) (fx_prover w) (publish_proof (fx_l1 w) sb proof)
  end.

Definition after (w : fixture) (st : PublisherState) (evs : list pub_event) : fixture :=
  foldl deliver (mk_fixture st (fx_m w) (fx_prover w) (fx_l1 w)) evs.

Definition chain_req (chain : Z) (txs : list string) : TransactionRequest :=
  mk_TransactionRequest chain (String.list_byte_of_string <$> txs).

Definition make_xt_request (entries : list TransactionRequest) : XtRequest := mk_XtRequest entries.

Definition make_chain_set (ids : list Z) : gset Z := list_to_set ids.

Definition default_chain_set : gset Z := make_chain_set [1; 2; 3; 4; 5; 6; 7; 8; 9; 10].

Definition hash_of (b : byte) : SuperblockHash := replicate 32 b.

(** Runs [t] on a publisher made with the given arguments; [new] must succeed. *)
Definition new_publisher_for_test (period target finalized : Z) (hash : SuperblockHash)
    (window : Z) (chains : gset Z) (t : test fixture unit) : bool :=
  match new period target finalized hash window chains with
  | Ok st => passes (mk_fixture st FakeMessenger_default FakeProver_default FakeL1_default) t
  | Err _ => false
  end.

(** The publisher's operations, called through the fixture. *)
Section calls.
Context `{Sha2}.

Definition call_start_period : test fixture (result unit PublisherError) :=
  run (fun w => let '(st, evs, r) := start_period (pub_inst w) in (after w st evs, r)).

Definition call_start_instance (req : XtRequest) : test fixture (result Instance_ PublisherError) :=
  run (fun w => let '(st, r) := start_instance (pub_inst w) req in (after w st [], r)).

Definition call_decide_instance (inst : Instance_) : test fixture (result unit PublisherError) :=
  run (fun w => let '(st, r) := decide_instance (pub_inst w) inst in (after w st [], r)).

Definition call_advance_settled_state (sb : SuperblockNumber) (h : SuperblockHash)
    : test fixture (result unit PublisherError) :=
  run (fun w => let '(st, r) := advance_settled_state (pub_inst w) sb h in (after w st [], r)).

Definition call_proof_timeout : test fixture unit :=
  change (fun w => let '(st, evs) := proof_timeout (pub_inst w) in after w st evs).

Definition call_receive_proof (p : PeriodId) (sb : SuperblockNumber) (proof : string) (c : ChainId)
    : test fixture unit :=
  change (fun w =>
    let prover sb h proofs := (request_superblock_proof (fx_prover w) sb h proofs).2 in
    let '(st, evs) :=
      receive_proof map_values prover (pub_inst w) p sb (String.list_byte_of_string proof) c in
    after w st evs).

Definition set_prover (f : FakeProver -> FakeProver) : test fixture unit :=
  change (fun w => mk_fixture (pub_inst w) (fx_m w) (f (fx_prover w)) (fx_l1 w)).

Definition start_periods (w : fixture) := fm_start_periods (fx_m w).
Definition rollbacks (w : fixture) := fm_rollbacks (fx_m w).
Definition calls (w : fixture) := fp_calls (fx_prover w).
Definition published (w : fixture) := fl_published (fx_l1 w).

Definition is_CannotStartPeriod (e : PublisherError) : bool :=
  match e with CannotStartPeriod _ _ => true | _ => false end.
Definition is_CannotStartInstance (e : PublisherError) : bool :=
  match e with CannotStartInstance => true | _ => false end.
Definition is_ChainNotActive (e : PublisherError) : bool :=
  match e with ChainNotActive => true | _ => false end.
Definition is_OldSettledState (e : PublisherError) : bool :=
  match e with OldSettledState => true | _ => false end.
Definition is_InvalidRequest (e : PublisherError) : bool :=
  match e with InvalidRequest => true | _ => false end.

(** ** The tests *)

Definition rejects_target_lower_than_finalized : bool :=
  negb (is_ok (new 3 4 5 (hash_of x01) 0 default_chain_set)).

Definition start_period_respects_explicit_target : bool :=
  new_publisher_for_test 4 10 7 (hash_of x05) 0 default_chain_set (
    let* r := call_start_period in unwrap r ;*
    let* starts := gets start_periods in
    assert_eq (length starts) 1%nat ;*
    let* s := first starts in assert_eq s (5, 11) ;*
    let* t := gets (fun w => target_superblock_number (pub_inst w)) in assert_eq t 11).

Definition start_period_rejects_initial_target_past_window : bool :=
  new_publisher_for_test 2 12 5 (hash_of x03) 1 default_chain_set (
    let* r := call_start_period in let* err := unwrap_err r in
    assert (is_CannotStartPeriod err) ;*
    let* starts := gets start_periods in assert (is_empty starts)).

Definition start_period_basic_broadcast_and_reset : bool :=
  new_publisher_for_test 9 7 7 (hash_of x09) 0 default_chain_set (
    let* r := call_start_period in unwrap r ;*
    let* starts := gets start_periods in
    assert_eq (length starts) 1%nat ;*
    let* s := first starts in assert_eq s (10, 8)).

Definition start_period_error_when_target_exceeds_proof_window : bool :=
  new_publisher_for_test 5 7 7 (hash_of x01) 1 default_chain_set (
    let* r := call_start_period in unwrap r ;*
    let* r := call_start_period in unwrap r ;*
    let* r := call_start_period in let* err := unwrap_err r in
    assert (is_CannotStartPeriod err) ;*
    let* starts := gets start_periods in assert_eq (length starts) 2%nat).

Definition start_period_no_window_constraint_when_disabled : bool :=
  new_publisher_for_test 5 7 7 (hash_of x01) 0 default_chain_set (
    let* r := call_start_period in unwrap r ;*
    let* r := call_start_period in unwrap r ;*
    let* r := call_start_period in unwrap r ;*
    let* starts := gets start_periods in assert_eq (length starts) 3%nat).

Definition start_instance_disjoint_sets_allowed : bool :=
  new_publisher_for_test 5 5 5 (hash_of x01) 0 default_chain_set (
    let* r := call_start_instance (make_xt_request [chain_req 1 ["a"]; chain_req 2 ["b"]]%string) in
    let* inst1 := unwrap r in
    assert_eq (length (Instance_chains inst1)) 2%nat ;*
    let* r := call_start_instance (make_xt_request [chain_req 3 ["c"]; chain_req 4 ["d"]]%string) in
    let* inst2 := unwrap r in
    assert_eq (length (Instance_chains inst2)) 2%nat ;*
    assert (bool_decide (3 ∈ Instance_chains inst2)) ;*
    assert (bool_decide (4 ∈ Instance_chains inst2))).

Definition start_instance_conflicting_set_rejected : bool :=
  new_publisher_for_test 5 5 5 (hash_of x01) 0 default_chain_set (
    let* r := call_start_instance (make_xt_request [chain_req 1 ["a"]; chain_req 2 ["b"]]%string) in
    unwrap r ;*
    let* r := call_start_instance (make_xt_request [chain_req 2 ["x"]; chain_req 3 ["y"]]%string) in
    let* err := unwrap_err r in assert (is_CannotStartInstance err)).

Definition start_instance_participant_dedup : bool :=
  new_publisher_for_test 2 2 2 (hash_of x01) 0 default_chain_set (
    let* r := call_start_instance
                (make_xt_request [chain_req 7 ["a"; "b"]; chain_req 8 ["c"]]%string) in
    let* inst := unwrap r in
    assert_eq (length (Instance_chains inst)) 2%nat ;*
    assert (bool_decide (7 ∈ Instance_chains inst)) ;*
    assert (bool_decide (8 ∈ Instance_chains inst))).

Definition sequence_monotonic_and_resets_per_period : bool :=
  new_publisher_for_test 10 9 9 (hash_of x01) 0 default_chain_set (
    let* r := call_start_instance (make_xt_request [chain_req 1 ["a1"]; chain_req 2 ["a2"]]%string) in
    let* i1 := unwrap r in
    let* r := call_start_instance (make_xt_request [chain_req 3 ["b1"]; chain_req 4 ["b2"]]%string) in
    let* i2 := unwrap r in
    assert_eq (inst_sequence_number i1) 1 ;*
    assert_eq (inst_sequence_number i2) 2 ;*
    let* r := call_start_period in unwrap r ;*
    let* starts := gets start_periods in assert_eq (length starts) 1%nat ;*
    let* r := call_start_instance (make_xt_request [chain_req 5 ["c1"]; chain_req 6 ["c2"]]%string) in
    let* i3 := unwrap r in assert_eq (inst_sequence_number i3) 1).

Definition start_instance_populates_instance_fields : bool :=
  let req := make_xt_request [chain_req 1 ["x"]; chain_req 2 ["y"]]%string in
  new_publisher_for_test 1 1 1 (hash_of x01) 0 default_chain_set (
    let* r := call_start_instance req in
    let* inst := unwrap r in
    assert_eq (inst_period_id inst) 1 ;*
    assert_eq (inst_sequence_number inst) 1 ;*
    assert_eq (inst_xt_request inst) req).

Definition decide_instance_clears_active_and_validates : bool :=
  new_publisher_for_test 1 1 1 (hash_of x01) 0 default_chain_set (
    let* r := call_start_instance (make_xt_request [chain_req 1 ["a"]; chain_req 2 ["b"]]%string) in
    let* inst := unwrap r in
    let* r := call_decide_instance inst in unwrap r ;*
    let* r := call_decide_instance inst in
    let* err := unwrap_err r in assert (is_ChainNotActive err) ;*
    let* r := call_start_instance (make_xt_request [chain_req 1 ["c"]; chain_req 2 ["d"]]%string) in
    unwrap r ;* ok ()).

Definition advance_settled_state_monotonic : bool :=
  new_publisher_for_test 1 1 1 (hash_of x01) 0 default_chain_set (
    let* r := call_advance_settled_state 2 (hash_of x09) in unwrap r ;*
    let* r := call_advance_settled_state 2 (hash_of x08) in
    let* err := unwrap_err r in assert (is_OldSettledState err)).

Definition proof_timeout_rolls_back_and_resets_target : bool :=
  let finalized := 5 in
  new_publisher_for_test 3 finalized finalized (hash_of x07) 0 default_chain_set (
    let* r := call_start_instance (make_xt_request [chain_req 1 ["a"]; chain_req 2 ["b"]]%string) in
    unwrap r ;*
    call_proof_timeout ;*
    let* rs := gets rollbacks in
    assert_eq (length rs) 1%nat ;*
    let* rb := first rs in assert_eq rb (3, finalized, hash_of x07) ;*
    let* t := gets (fun w => target_superblock_number (pub_inst w)) in
    assert_eq t (finalized +! 1)).

Definition start_instance_invalid_requests : bool :=
  new_publisher_for_test 1 1 1 (hash_of x01) 0 default_chain_set (
    let* r := call_start_instance XtRequest_default in
    let* err := unwrap_err r in assert (is_InvalidRequest err) ;*
    let* r := call_start_instance (make_xt_request [chain_req 1 ["only"]]%string) in
    let* err := unwrap_err r in assert (is_InvalidRequest err)).

Definition receive_proof_aggregates_and_publishes : bool :=
  let network_proof := String.list_byte_of_string "network-proof" in
  new_publisher_for_test 10 5 5 (hash_of x01) 0 (make_chain_set [1; 2]) (
    set_prover (fun p => mk_FakeProver (fp_calls p) network_proof (fp_err p)) ;*
    let* r := call_start_period in unwrap r ;*
    let* r := call_start_period in unwrap r ;*
    call_receive_proof 11 6 "proof-1" 1 ;*
    let* cs := gets calls in assert (is_empty cs) ;*
    let* ps := gets published in assert (is_empty ps) ;*
    call_receive_proof 11 6 "proof-2" 2 ;*
    let* cs := gets calls in
    assert_eq (length cs) 1%nat ;*
    let* c := first cs in
    assert_eq c.1 (6, hash_of x01) ;* assert_eq (length c.2) 2%nat ;*
    let* ps := gets published in
    assert_eq (length ps) 1%nat ;*
    let* p := first ps in assert_eq p (6, network_proof) ;*
    let* held := gets (fun w => proofs_for (pub_inst w) 6) in assert (is_none held)).

Definition receive_proof_prover_error_triggers_rollback : bool :=
  new_publisher_for_test 10 5 5 (hash_of x09) 0 (make_chain_set [1; 2]) (
    set_prover (fun p => mk_FakeProver (fp_calls p) (fp_next_proof p) (Some "boom"%string)) ;*
    let* r := call_start_period in unwrap r ;*
    let* r := call_start_period in unwrap r ;*
    call_receive_proof 11 6 "proof-1" 1 ;*
    call_receive_proof 11 6 "proof-2" 2 ;*
    let* ps := gets published in assert (is_empty ps) ;*
    let* rs := gets rollbacks in
    assert_eq (length rs) 1%nat ;*
    let* rb := first rs in assert_eq rb.1.2 5 ;* assert_eq rb.2 (hash_of x09)).

Definition receive_proof_ignores_non_terminated_superblock : bool :=
  new_publisher_for_test 5 4 4 (hash_of x03) 0 (make_chain_set [1; 2]) (
    let* r := call_start_period in unwrap r ;*
    call_receive_proof 6 5 "proof" 1 ;*
    let* cs := gets calls in assert (is_empty cs) ;*
    let* ps := gets published in assert (is_empty ps) ;*
    let* held := gets (fun w => proofs_for (pub_inst w) 5) in assert (is_none held)).

(** Every unit test of the publisher passes on the model, whatever the hash function. *)
Theorem publisher_tests_pass :
  forallb id
    [rejects_target_lower_than_finalized; start_period_respects_explicit_target;
     start_period_rejects_initial_target_past_window; start_period_basic_broadcast_and_reset;
     start_period_error_when_target_exceeds_proof_window;
     start_period_no_window_constraint_when_disabled; start_instance_disjoint_sets_allowed;
     start_instance_conflicting_set_rejected; start_instance_participant_dedup;
     sequence_monotonic_and_resets_per_period; start_instance_populates_instance_fields;
     decide_instance_clears_active_and_validates; advance_settled_state_monotonic;
     proof_timeout_rolls_back_and_resets_target; start_instance_invalid_requests;
     receive_proof_aggregates_and_publishes; receive_proof_prover_error_triggers_rollback;
     receive_proof_ignores_non_terminated_superblock] = true.
Proof. by vm_compute. Qed.

End calls.
