(* ===== verification/TestsSequencer.v ===== *)
(** * The unit tests of the SBCP sequencer ([sequencer.rs], test accessors and [mod tests]) *)
From Stdlib Require Import ZArith.
From S2P Require Import Prelude Spec SbcpSequencer TestKit.
Local Open Scope test_scope.

(** ** Test accessors *)

Definition period_id (s : SequencerState) : PeriodId := sq_period_id s.
Definition target_superblock_number (s : SequencerState) : SuperblockNumber :=
  sq_target_superblock_number s.
Definition head (s : SequencerState) : BlockNumber := sq_head s.
Definition pending_block (s : SequencerState) : option PendingBlock := sq_pending_block s.
Definition active_instance_id (s : SequencerState) : option InstanceId := sq_active_instance_id s.
Definition sealed_block_head (s : SequencerState) (period : PeriodId) : option SealedBlockHeader :=
  sq_sealed_block_head s !! period.
Definition settled_state (s : SequencerState) : SettledState := sq_settled_state s.

Definition insert_sealed_block (s : SequencerState) (period : PeriodId) (sb : SealedBlockHeader)
    : SequencerState :=
  mk_SequencerState (sq_period_id s) (sq_target_superblock_number s) (sq_pending_block s)
    (sq_active_instance_id s) (sq_last_sequence_number s) (sq_head s)
    (<[period := sb]> (sq_sealed_block_head s)) (sq_settled_state s).

Definition set_active_instance (s : SequencerState) (id : option InstanceId) : SequencerState :=
  mk_SequencerState (sq_period_id s) (sq_target_superblock_number s) (sq_pending_block s)
    id (sq_last_sequence_number s) (sq_head s) (sq_sealed_block_head s) (sq_settled_state s).

(** ** Fakes *)

Definition mk_header (n : Z) : BlockHeader := mk_BlockHeader n (replicate 32 x00) (replicate 32 x00).

Definition mk_settled (sb head : Z) : SettledState :=
  mk_SettledState (mk_header head) sb (replicate 32 x01).

Record FakeSeqProver := mk_FakeSeqProver {
  sp_calls : list (option BlockHeader * SuperblockNumber);
  sp_next_proof : bytes;
}.

Definition FakeSeqProver_default : FakeSeqProver := mk_FakeSeqProver [] [].

Definition fake_request_proofs (p : FakeSeqProver) (hdr : option BlockHeader)
    (sb : SuperblockNumber) : FakeSeqProver * result bytes string :=
  (mk_FakeSeqProver (sp_calls p ++ [(hdr, sb)]) (sp_next_proof p), Ok (sp_next_proof p)).

Record FakeSeqMessenger := mk_FakeSeqMessenger {
  sm_requests : list XtRequest;
  sm_proofs : list (PeriodId * SuperblockNumber * bytes);
}.

Definition FakeSeqMessenger_default : FakeSeqMessenger := mk_FakeSeqMessenger [] [].

Definition fake_forward_request (m : FakeSeqMessenger) (request : XtRequest)
    : FakeSeqMessenger * result unit string :=
  (mk_FakeSeqMessenger (sm_requests m ++ [request]) (sm_proofs m), Ok ()).

Definition fake_send_proof (m : FakeSeqMessenger) (p : PeriodId) (sb : SuperblockNumber)
    (proof : bytes) : FakeSeqMessenger * result unit string :=
  (mk_FakeSeqMessenger (sm_requests m) (sm_proofs m ++ [(p, sb, proof)]), Ok ()).

(** ** Fixture *)

Record fixture := mk_fixture {
  fx_seq : SequencerState;
  fx_prover : FakeSeqProver;
  fx_messenger : FakeSeqMessenger;
}.

(** The traits, implemented by the fakes. *)
Definition fake_env (w : fixture) : SequencerEnv := {|
  request_proofs hdr sb := (fake_request_proofs (fx_prover w) hdr sb).2;
  forward_request request := (fake_forward_request (fx_messenger w) request).2;
  send_proof p sb proof := (fake_send_proof (fx_messenger w) p sb proof).2;
|}.

Definition deliver (w : fixture) (ev : seq_event) : fixture :=
  match ev with
  | ForwardRequest request =>
      mk_fixture (fx_seq w) (fx_prover w) (fake_forward_request (fx_messenger w) request).1
  | RequestProofs hdr sb =>
      mk_fixture (fx_seq w) (fake_request_proofs (fx_prover w) hdr sb).1 (fx_messenger w)
  | SendProof p sb proof =>
      mk_fixture (fx_seq w) (fx_prover w) (fake_send_proof (fx_messenger w) p sb proof).1
  end.

Definition after (w : fixture) (s : SequencerState) (evs : list seq_event) : fixture :=
  foldl deliver (mk_fixture s (fx_prover w) (fx_messenger w)) evs.

(** Runs [t] on a new sequencer. *)
Definition new_seq_for_test (period target : Z) (settled : SettledState) (t : test fixture unit)
    : bool :=
  passes (mk_fixture (new period target settled) FakeSeqProver_default FakeSeqMessenger_default) t.

Definition instance_of (b : byte) : InstanceId := replicate 32 b.

Definition read {A} (f : SequencerState -> A) : test fixture A := gets (fun w => f (fx_seq w)).

Definition update (f : SequencerState -> SequencerState) : test fixture unit :=
  change (fun w => after w (f (fx_seq w)) []).

Definition call_begin_block (n : BlockNumber) : test fixture (result unit SequencerError) :=
  run (fun w => let '(s, r) := begin_block (fx_seq w) n in (after w s [], r)).

Definition call_on_start_instance (id : InstanceId) (p : PeriodId) (n : SequenceNumber)
    : test fixture (result unit SequencerError) :=
  run (fun w => let '(s, r) := on_start_instance (fx_seq w) id p n in (after w s [], r)).

Definition call_on_decided_instance (id : InstanceId) : test fixture (result unit SequencerError) :=
  run (fun w => let '(s, r) := on_decided_instance (fx_seq w) id in (after w s [], r)).

Definition call_end_block (b : BlockHeader) : test fixture (result unit BoxError) :=
  run (fun w => let '(s, evs, r) := @end_block (fake_env w) (fx_seq w) b in (after w s evs, r)).

Definition call_start_period (p : PeriodId) (t : SuperblockNumber)
    : test fixture (result unit BoxError) :=
  run (fun w => let '(s, evs, r) := @start_period (fake_env w) (fx_seq w) p t in (after w s evs, r)).

Definition call_receive_xt_request (req : XtRequest) : test fixture (result unit BoxError) :=
  run (fun w => let '(evs, r) := @receive_xt_request (fake_env w) req in
                (after w (fx_seq w) evs, r)).

Definition call_rollback (sb : SuperblockNumber) (h : SuperblockHash) (p : PeriodId)
    : test fixture (result BlockHeader SequencerError) :=
  run (fun w => let '(s, r) := rollback (fx_seq w) sb h p in (after w s [], r)).

Definition set_next_proof (proof : string) : test fixture unit :=
  change (fun w => mk_fixture (fx_seq w)
    (mk_FakeSeqProver (sp_calls (fx_prover w)) (String.list_byte_of_string proof)) (fx_messenger w)).

(** [*p.calls.lock() = vec![]] and [*messenger.proofs.lock() = vec![]]. *)
Definition forget_calls : test fixture unit :=
  change (fun w => mk_fixture (fx_seq w) (mk_FakeSeqProver [] (sp_next_proof (fx_prover w)))
    (mk_FakeSeqMessenger (sm_requests (fx_messenger w)) [])).

Definition calls (w : fixture) := sp_calls (fx_prover w).
Definition proofs (w : fixture) := sm_proofs (fx_messenger w).
Definition requests (w : fixture) := sm_requests (fx_messenger w).

#[export] Instance SequencerError_eq_dec : EqDecision SequencerError.
Proof. solve_decision. Defined.

(** ** The tests *)

Definition new_sequencer_initial_state : bool :=
  new_seq_for_test 10 11 (mk_settled 4 100) (
    let* p := read period_id in assert_eq p 10 ;*
    let* t := read target_superblock_number in assert_eq t 11 ;*
    let* h := read head in assert_eq h 100 ;*
    let* b := read pending_block in assert (is_none b) ;*
    let* i := read active_instance_id in assert (is_none i)).

Definition begin_block_ok_and_errors : bool :=
  new_seq_for_test 5 6 (mk_settled 3 10) (
    let* r := call_begin_block 11 in unwrap r ;*
    let* b := read pending_block in let* pending := unwrap_some b in
    assert_eq (pb_number pending) 11 ;*
    assert_eq (pb_period_id pending) 5 ;*
    assert_eq (pb_superblock_number pending) 6 ;*
    let* r := call_begin_block 12 in
    let* err := unwrap_err r in assert_eq err BlockAlreadyOpen ;*
    let* r := call_end_block (mk_header 11) in unwrap r ;*
    let* r := call_begin_block 13 in
    let* err := unwrap_err r in assert_eq err BlockNotSequential).

Definition can_include_local_tx_and_instance_hooks : bool :=
  let id := instance_of x01 in
  new_seq_for_test 7 8 (mk_settled 2 20) (
    let* r := read can_include_local_tx in
    let* err := unwrap_err r in assert_eq err NoPendingBlock ;*
    let* r := call_begin_block 21 in unwrap r ;*
    let* r := read can_include_local_tx in let* b := unwrap r in assert b ;*
    let* r := call_on_start_instance id 7 1 in unwrap r ;*
    let* r := read can_include_local_tx in let* b := unwrap r in assert (negb b) ;*
    let* r := call_on_decided_instance (instance_of x02) in
    let* err := unwrap_err r in assert_eq err ActiveInstanceMismatch ;*
    let* r := call_on_decided_instance id in unwrap r ;*
    let* r := read can_include_local_tx in let* b := unwrap r in assert b ;*
    let* r := call_on_decided_instance id in
    let* err := unwrap_err r in assert_eq err NoActiveInstance).

Definition end_block_seals_and_updates_head : bool :=
  new_seq_for_test 3 4 (mk_settled 1 30) (
    let* r := call_begin_block 31 in unwrap r ;*
    let* r := call_end_block (mk_header 32) in assert (negb (is_ok r)) ;*
    let* r := call_end_block (mk_header 31) in unwrap r ;*
    let* b := read pending_block in assert (is_none b) ;*
    let* h := read head in assert_eq h 31 ;*
    let* o := read (fun s => sealed_block_head s 3) in
    let* sb := unwrap_some o in assert_eq (bh_number (sb_block_header sb)) 31).

Definition end_block_rejects_active_instance : bool :=
  let id := instance_of x09 in
  new_seq_for_test 3 4 (mk_settled 1 30) (
    let* r := call_begin_block 31 in unwrap r ;*
    let* r := call_on_start_instance id 3 1 in unwrap r ;*
    let* r := call_end_block (mk_header 31) in assert (negb (is_ok r)) ;*
    let* r := call_on_decided_instance id in unwrap r ;*
    let* r := call_end_block (mk_header 31) in unwrap r).

(** The assertions on the single prover call and the single proof sent. *)
Definition expect_settlement (header : option BlockNumber) (p : PeriodId) (sb : SuperblockNumber)
    (proof : string) : test fixture unit :=
  let* cs := gets calls in
  assert_eq (length cs) 1%nat ;*
  let* c := first cs in
  assert_eq (bh_number <$> c.1) header ;* assert_eq c.2 sb ;*
  let* ps := gets proofs in
  assert_eq (length ps) 1%nat ;*
  let* pr := first ps in assert_eq pr (p, sb, String.list_byte_of_string proof).

Definition end_block_triggers_prev_period_settlement : bool :=
  new_seq_for_test 9 10 (mk_settled 5 40) (
    set_next_proof "seq-proof" ;*
    let* r := call_begin_block 41 in unwrap r ;*
    let* r := call_start_period 10 11 in unwrap r ;*
    let* cs := gets calls in assert (is_empty cs) ;*
    let* r := call_end_block (mk_header 41) in unwrap r ;*
    expect_settlement (Some 41) 9 10 "seq-proof").

Definition start_period_triggers_immediate_settlement_when_no_pending : bool :=
  new_seq_for_test 10 11 (mk_settled 6 50) (
    set_next_proof "seq-proof" ;*
    let* r := call_start_period 11 12 in unwrap r ;*
    expect_settlement None 10 11 "seq-proof" ;*
    forget_calls ;*
    update (fun s => insert_sealed_block s 11 (mk_SealedBlockHeader (mk_header 51) 11 12)) ;*
    let* r := call_start_period 12 13 in unwrap r ;*
    expect_settlement (Some 51) 11 12 "seq-proof").

Definition start_period_active_instance_does_not_defer : bool :=
  new_seq_for_test 2 3 (mk_settled 1 10) (
    update (fun s => set_active_instance s (Some (instance_of x01))) ;*
    let* r := call_start_period 3 4 in unwrap r ;*
    let* cs := gets calls in assert_eq (length cs) 1%nat).

Definition receive_xt_request_forwards_to_publisher : bool :=
  let req := mk_XtRequest [mk_TransactionRequest 1 [String.list_byte_of_string "a"];
                           mk_TransactionRequest 2 [String.list_byte_of_string "b"]] in
  new_seq_for_test 4 5 (mk_settled 2 10) (
    let* r := call_receive_xt_request req in unwrap r ;*
    let* rs := gets requests in
    assert_eq (length rs) 1%nat ;* let* r0 := first rs in assert_eq r0 req).

Definition advance_settled_state_monotonic : bool :=
  new_seq_for_test 1 2 (mk_settled 1 5) (
    update (fun s => advance_settled_state s (mk_settled 1 5)) ;*
    let* s := read settled_state in assert_eq (ss_superblock_number s) 1 ;*
    update (fun s => advance_settled_state s (mk_settled 2 6)) ;*
    let* s := read settled_state in assert_eq (ss_superblock_number s) 2).

Definition rollback_rejects_if_mismatch : bool :=
  new_seq_for_test 9 10 (mk_settled 4 100) (
    let* r := call_rollback 5 (replicate 32 x09) 9 in
    let* err := unwrap_err r in assert_eq err MismatchedFinalizedState).

Definition rollback_discards_newer_and_resets : bool :=
  let settled := mk_settled 4 100 in
  new_seq_for_test 9 10 settled (
    update (fun s => insert_sealed_block s 8 (mk_SealedBlockHeader (mk_header 90) 8 3)) ;*
    update (fun s => insert_sealed_block s 9 (mk_SealedBlockHeader (mk_header 95) 9 4)) ;*
    update (fun s => insert_sealed_block s 10 (mk_SealedBlockHeader (mk_header 99) 10 5)) ;*
    let* r := call_begin_block 101 in unwrap r ;*
    let* r := call_on_start_instance (instance_of x07) 9 1 in unwrap r ;*
    let* r := call_rollback 4 (ss_superblock_hash settled) 12 in
    let* h := unwrap r in assert_eq (bh_number h) 100 ;*
    let* b := read pending_block in assert (is_none b) ;*
    let* i := read active_instance_id in assert (is_none i) ;*
    let* o := read (fun s => sealed_block_head s 10) in assert (is_none o) ;*
    let* o := read (fun s => sealed_block_head s 9) in assert (negb (is_none o)) ;*
    let* p := read period_id in assert_eq p 12 ;*
    let* t := read target_superblock_number in assert_eq t 5).

(** The four blocks of the test, each with a sequencer of its own. *)
Definition on_start_instance_validations : list bool :=
  [new_seq_for_test 3 4 (mk_settled 1 30) (
     let* r := call_on_start_instance (instance_of x01) 3 1 in
     let* err := unwrap_err r in assert_eq err NoPendingBlock);
   new_seq_for_test 5 6 (mk_settled 2 40) (
     let* r := call_begin_block 41 in unwrap r ;*
     let* r := call_on_start_instance (instance_of x02) 6 1 in
     let* err := unwrap_err r in assert_eq err PeriodIdMismatch);
   new_seq_for_test 7 8 (mk_settled 3 50) (
     let* r := call_begin_block 51 in unwrap r ;*
     let* r := call_on_start_instance (instance_of x03) 6 1 in
     let* err := unwrap_err r in assert_eq err PeriodIdMismatch);
   new_seq_for_test 9 10 (mk_settled 4 60) (
     let* r := call_begin_block 61 in unwrap r ;*
     let* r := call_on_start_instance (instance_of x04) 9 1 in unwrap r ;*
     let* r := call_on_start_instance (instance_of x05) 9 1 in
     let* err := unwrap_err r in assert_eq err ActiveInstanceExists ;*
     let* r := call_on_decided_instance (instance_of x04) in unwrap r ;*
     let* r := call_on_start_instance (instance_of x06) 9 1 in
     let* err := unwrap_err r in assert_eq err LowSequenceNumber ;*
     let* r := call_on_start_instance (instance_of x07) 9 2 in unwrap r ;*
     let* r := call_on_decided_instance (instance_of x07) in unwrap r ;*
     let* r := call_on_start_instance (instance_of x06) 9 1 in
     let* err := unwrap_err r in assert_eq err LowSequenceNumber)].

(** Every unit test of the sequencer passes on the model. *)
Theorem sequencer_tests_pass :
  forallb id
    ([new_sequencer_initial_state; begin_block_ok_and_errors;
      can_include_local_tx_and_instance_hooks; end_block_seals_and_updates_head;
      end_block_rejects_active_instance; end_block_triggers_prev_period_settlement;
      start_period_triggers_immediate_settlement_when_no_pending;
      start_period_active_instance_does_not_defer; receive_xt_request_forwards_to_publisher;
      advance_settled_state_monotonic; rollback_rejects_if_mismatch;
      rollback_discards_newer_and_resets] ++ on_start_instance_validations) = true.
Proof. by vm_compute. Qed.
