(* ===== verification/Tests.v ===== *)
(** * The remaining unit tests of the repository, on the model

    [primitives.rs], [instance.rs], [id.rs], [convert.rs], [messages.rs], [handlers.rs],
    [framing.rs] and [config/src/lib.rs], each test as a boolean with its Rust name. The
    test of the YAML file starts from the parsed document; the two tests of the
    command-line parser exercise [clap] only and are left out.
    The tests of the publisher and of the sequencer are in [TestsPublisher] and
    [TestsSequencer]. *)
From Stdlib Require Import ZArith.
From S2P Require Import Prelude Spec Serde InstanceIdGen Sha256 Messages Wire Protobuf Framing Config.
From S2P Require Import CoordState L1Submit Dispatch NetAddr.

Abbreviation eqb a b := (bool_decide (a = b)) (only parsing).

(** ** [spec/src/primitives.rs], [spec/src/instance.rs] *)

Definition instance_id_display : bool :=
  let id := byte_of_Z <$> seqZ 1 32 in
  eqb (InstanceId_to_string id)
    "0102030405060708090a0b0c0d0e0f101112131415161718191a1b1c1d1e1f20"%string.

Definition eth_address_display : bool :=
  let addr := replicate 20 x01 in
  String.prefix "0x" (EthAddress_to_string addr) &&
  eqb (String.length (EthAddress_to_string addr)) 42%nat.

Definition numeric_newtype_arithmetic : bool :=
  let a := 10 in let b := 3 in
  eqb (a +! b) 13 && eqb (a -! b) 7 && eqb (a +! 5) 15 && eqb (a -! 2) 8.

Definition chains_from_request_deduplicates : bool :=
  let req := mk_XtRequest [mk_TransactionRequest 1 [[x01]]; mk_TransactionRequest 1 [[x02]];
                           mk_TransactionRequest 2 [[x03]]] in
  let chains := chains_from_request req in
  eqb (length chains) 2%nat && bool_decide (1 ∈ chains) && bool_decide (2 ∈ chains).

Definition decision_state_display : bool :=
  eqb (DecisionState_to_string Pending) "Pending"%string &&
  eqb (DecisionState_to_string Accepted) "Accepted"%string &&
  eqb (DecisionState_to_string Rejected) "Rejected"%string.

Definition clone_byte_slices_works : bool :=
  let src := [[x01; x02; x03]; [x04; x05]] in eqb src (clone_byte_slices src).

(** ** [spec-sbcp/src/id.rs], with the published SHA-256 *)

Definition chain_req (chain : Z) (txs : list bytes) : TransactionRequest :=
  mk_TransactionRequest chain txs.

Definition make_xt_request (entries : list TransactionRequest) : XtRequest := mk_XtRequest entries.

Definition stability_and_sensitivity : bool :=
  let id := @generate_instance_id fips_sha256 in
  let req1 := make_xt_request [chain_req 1 [[x01; x02]]; chain_req 2 [[x03]]] in
  let req1_copy := make_xt_request [chain_req 1 [[x01; x02]]; chain_req 2 [[x03]]] in
  let id_a := id 10 1 req1 in
  let id_a2 := id 10 1 req1_copy in
  let id_b := id 11 1 req1 in
  let id_c := id 10 2 req1 in
  let req_mut := make_xt_request [chain_req 1 [[x01; x02]]; chain_req 2 [[xff]]] in
  let id_d := id 10 1 req_mut in
  let req_reordered := make_xt_request [chain_req 2 [[x03]]; chain_req 1 [[x01; x02]]] in
  let id_e := id 10 1 req_reordered in
  let req_with_empty := make_xt_request [chain_req 1 [[x01; x02]]; chain_req 2 [[]]] in
  let req_omit := make_xt_request [chain_req 1 [[x01; x02]]] in
  let id_f := id 10 3 req_with_empty in
  let id_g := id 10 3 req_omit in
  eqb id_a id_a2 && negb (eqb id_a id_b) && negb (eqb id_a id_c) && negb (eqb id_a id_d) &&
  negb (eqb id_a id_e) && negb (eqb id_f id_g).

(** ** [spec-proto] *)

Definition xt_request_domain_roundtrip : bool :=
  let domain :=
    mk_XtRequest
      [mk_TransactionRequest 1 [String.list_byte_of_string "tx1"; String.list_byte_of_string "tx2"];
       mk_TransactionRequest 2 [String.list_byte_of_string "tx3"]] in
  eqb domain (XtRequest_from_proto (XtRequest_to_proto domain)).

Definition start_instance_domain_roundtrip : bool :=
  let domain :=
    mk_Instance (replicate 32 x2a) 7 3
      (mk_XtRequest [mk_TransactionRequest 1 [String.list_byte_of_string "a"]]) in
  match Instance_try_from_start_instance (Instance_to_start_instance domain) with
  | Ok back => eqb domain back
  | Err _ => false
  end.

#[local] Instance Ping_eq_dec : EqDecision Proto.Ping.
Proof. solve_decision. Defined.

Definition roundtrip_message_encode_decode : bool :=
  let msg := Proto.mk_Message "test-sender" (Some (Proto.PPing (Proto.mk_Ping 42))) in
  match @decode prost_codec (@encode_to_vec prost_codec msg) with
  | Ok (Proto.mk_Message sender (Some (Proto.PPing ping))) =>
      eqb sender "test-sender"%string && eqb ping (Proto.mk_Ping 42)
  | _ => false
  end.

(** ** [coordinator/src/handlers.rs], [transport/src/framing.rs] *)

Definition parse_chain_id_numeric_prefix : bool :=
  match parse_chain_id "77777", parse_chain_id "88888-sidecar" with
  | Ok a, Ok b => eqb a 77777 && eqb b 88888
  | _, _ => false
  end && negb (is_ok (parse_chain_id "abc")) && negb (is_ok (parse_chain_id "")).

Definition round_trip : bool :=
  let payload := String.list_byte_of_string "hello world" in
  match encode_frame LengthPrefixCodec_default payload with
  | Ok frame =>
      eqb (take 4 frame) (be_bytes 4 (as_u32 (Z.of_nat (length payload)))) &&
      eqb (drop 4 frame) payload
  | Err _ => false
  end.

Definition rejects_oversized : bool :=
  negb (is_ok (encode_frame (LengthPrefixCodec_new 10) (replicate 11 x00))).

(** ** [config/src/lib.rs] *)

Definition defaults : bool :=
  let cfg := Config_default in
  eqb (server_listen_addr (server cfg)) ":8080"%string &&
  eqb (server_max_message_size (server cfg)) (4 * 1024 * 1024) &&
  eqb (api_listen_addr (api cfg)) ":8081"%string &&
  eqb (request_timeout (api cfg)) (from_secs 15) &&
  eqb (timeout (consensus cfg)) (from_secs 60) &&
  eqb (period_duration (consensus cfg)) (from_secs 3840) &&
  eqb (proof_window (consensus cfg)) (from_secs 7200) &&
  metrics_enabled (metrics cfg) &&
  eqb (log_level (log cfg)) "info"%string && negb (log_pretty (log cfg)).

(** [std::env::set_var]. *)
Definition set_var (key value : string) : string -> option string :=
  fun k => if String.eqb k key then Some value else None.

Definition env_override_string : bool :=
  eqb (env_str (set_var "TEST_CFG_STR" "new") "TEST_CFG_STR" "old") "new"%string.

(** [parse_duration] is [humantime::parse_duration], documented to read ["5s"] as 5 s. *)
Definition env_override_duration (parse_duration : string -> option Duration) : bool :=
  eqb (env_duration (set_var "TEST_CFG_DUR" "5s") parse_duration "TEST_CFG_DUR" (from_secs 10))
    (from_secs 5).

Definition env_override_bool : bool :=
  env_bool (set_var "TEST_CFG_BOOL" "true") "TEST_CFG_BOOL" false.

(** The document of the test, parsed. *)
Definition yaml_document : Value :=
  VMap [("server", VMap [("listen_addr", VStr ":9090")]);
        ("consensus", VMap [("timeout", VStr "3s"); ("period_duration", VStr "30s");
                            ("proof_window", VStr "5m")]);
        ("log", VMap [("level", VStr "debug"); ("pretty", VBool true)])]%string.

Definition deserialize_yaml `{Scalars} : bool :=
  match Config_de yaml_document with
  | Err _ => false
  | Ok cfg =>
      eqb (server_listen_addr (server cfg)) ":9090"%string &&
      eqb (timeout (consensus cfg)) (from_secs 3) &&
      eqb (period_duration (consensus cfg)) (from_secs 30) &&
      eqb (proof_window (consensus cfg)) (from_secs 300) &&
      eqb (log_level (log cfg)) "debug"%string && log_pretty (log cfg) &&
      eqb (api_listen_addr (api cfg)) ":8081"%string
  end.

(** Every test passes on the model. *)
Theorem unit_tests_pass :
  forallb id
    [instance_id_display; eth_address_display; numeric_newtype_arithmetic;
     chains_from_request_deduplicates; decision_state_display; clone_byte_slices_works;
     stability_and_sensitivity; xt_request_domain_roundtrip; start_instance_domain_roundtrip;
     roundtrip_message_encode_decode; parse_chain_id_numeric_prefix; round_trip;
     rejects_oversized; defaults; env_override_string; env_override_bool] = true.
Proof. by vm_compute. Qed.

Lemma env_override_duration_passes parse_duration :
  parse_duration "5s"%string = Some (from_secs 5) -> env_override_duration parse_duration = true.
Proof. unfold env_override_duration, env_duration, set_var. cbn. by intros ->. Qed.

(** With strings and booleans read as themselves and durations as [humantime] documents. *)
Lemma deserialize_yaml_passes `{Scalars} :
  (forall s, de_string (VStr s) = Ok s) -> (forall b, de_bool (VBool b) = Ok b) ->
  de_duration (VStr "3s") = Ok (from_secs 3) -> de_duration (VStr "30s") = Ok (from_secs 30) ->
  de_duration (VStr "5m") = Ok (from_secs 300) -> deserialize_yaml = true.
Proof.
  intros Hs Hb H3 H30 H300.
  assert (Config_de yaml_document = Ok (mk_Config (mk_ServerConfig ":9090" (4 * 1024 * 1024))
    ApiConfig_default (mk_ConsensusConfig (from_secs 3) (from_secs 30) (from_secs 300))
    MetricsConfig_default (mk_LogConfig "debug" true) SettlementConfig_default false)) as Hc.
  { apply sections_read. split_and!; [by_compute| |done| |done| |done..].
    - apply server_section_read. split_and!; [by_compute|apply Hs|done].
    - apply consensus_section_read. split_and!; [by_compute|done..].
    - apply log_section_read. split_and!; [by_compute|apply Hs|apply Hb]. }
  unfold deserialize_yaml. by rewrite Hc.
Qed.

(** Addresses the documentation of [SocketAddr] gives, and some it refuses. *)
Example socket_addresses :
  parse_socket_addr "127.0.0.1:8080" = Ok (V4 [127; 0; 0; 1] 8080) /\
  parse_socket_addr "[2001:db8::1]:8080" = Ok (V6 [0x2001; 0xdb8; 0; 0; 0; 0; 0; 1] 8080 0) /\
  parse_socket_addr "[::]:0" = Ok (V6 [0; 0; 0; 0; 0; 0; 0; 0] 0 0) /\
  is_ok (parse_socket_addr ":8080") = false /\ is_ok (parse_socket_addr "127.0.0.1") = false /\
  is_ok (parse_socket_addr "127.0.0.1:65536") = false /\ is_ok (parse_socket_addr "localhost:8080") = false.
Proof. by vm_compute. Qed.
